(** * The flowchart editor's diagram engine

    A shallow embedding of the flowchart editor component (geometry kernel,
    edge routing, history, clipboard, drag snapping, auto-layout and the
    selection state machine), followed by the properties its specification
    states about it.

    Numbers.  Stored data (node coordinates and sizes, edge bends, pointer
    positions, pan and zoom) are JavaScript numbers that the editor keeps
    finite; they are modelled as real numbers [R] with exact arithmetic.
    The geometry kernel computes with the sentinel [Number.POSITIVE_INFINITY]
    and with divisions whose divisor may vanish, so its intermediate and
    returned values are modelled by [num]: a real, one of the two infinities,
    or NaN, with the special-value rules of IEEE-754 arithmetic and exact
    arithmetic on the finite values (no rounding, no overflow, one zero).
    Where a property is about a result being finite, the functions concerned
    are embedded a second time in the module [Ranged], in which every
    arithmetic result that leaves the range of the doubles becomes an
    infinity; the properties are then stated for coordinates of bounded
    magnitude, within which the two embeddings agree. *)

From Stdlib Require Import Reals Lra Lia ZArith List String Ascii Bool Permutation.
From stdpp Require Import base gmap strings list sorting.

Local Open Scope string_scope.
Local Open Scope list_scope.

(** ** JavaScript numbers of the geometry kernel *)

Inductive num : Type :=
| Fin (r : R)
| PInf
| NInf
| NaN.

Definition Rltb (a b : R) : bool := if Rlt_dec a b then true else false.
Definition Rleb (a b : R) : bool := if Rle_dec a b then true else false.
Definition Reqb (a b : R) : bool := if Req_dec_T a b then true else false.

Definition Rsign (r : R) : comparison :=
  if Rlt_dec 0 r then Gt else if Rlt_dec r 0 then Lt else Eq.

Definition sign_mul (a b : comparison) : comparison :=
  match a, b with
  | Eq, _ | _, Eq => Eq
  | Gt, Gt | Lt, Lt => Gt
  | Gt, Lt | Lt, Gt => Lt
  end.

Definition inf_of_sign (c : comparison) : num :=
  match c with Gt => PInf | Lt => NInf | Eq => NaN end.

(** Sign of a non-NaN number ([Eq] for zero). *)
Definition nsign (a : num) : comparison :=
  match a with Fin r => Rsign r | PInf => Gt | NInf => Lt | NaN => Eq end.

Definition is_finite (a : num) : bool :=
  match a with Fin _ => true | _ => false end.

Definition nadd (a b : num) : num :=
  match a, b with
  | Fin x, Fin y => Fin (x + y)
  | NaN, _ | _, NaN => NaN
  | PInf, NInf | NInf, PInf => NaN
  | PInf, _ | _, PInf => PInf
  | NInf, _ | _, NInf => NInf
  end.

Definition nsub (a b : num) : num :=
  match a, b with
  | Fin x, Fin y => Fin (x - y)
  | NaN, _ | _, NaN => NaN
  | PInf, PInf | NInf, NInf => NaN
  | PInf, _ | _, NInf => PInf
  | NInf, _ | _, PInf => NInf
  end.

Definition nmul (a b : num) : num :=
  match a, b with
  | Fin x, Fin y => Fin (x * y)
  | NaN, _ | _, NaN => NaN
  | _, _ => inf_of_sign (sign_mul (nsign a) (nsign b))
  end.

(** [x / 0] is an infinity with the sign of [x] (the zero is taken
    positive), and [0 / 0] is NaN. *)
Definition ndiv (a b : num) : num :=
  match a, b with
  | NaN, _ | _, NaN => NaN
  | Fin x, Fin y =>
      if Req_dec_T y 0 then inf_of_sign (Rsign x) else Fin (x / y)
  | Fin _, _ => Fin 0
  | _, Fin y =>
      inf_of_sign (sign_mul (nsign a) (if Req_dec_T y 0 then Gt else Rsign y))
  | _, _ => NaN
  end.

(** [Math.abs], [Math.sqrt], [Math.hypot], [Math.min].  Like the
    arithmetic above, [nhypot] is exact on finite arguments; its overflow
    is taken into account by [Ranged.hypot] below. *)
Definition nabs (a : num) : num :=
  match a with Fin x => Fin (Rabs x) | PInf | NInf => PInf | NaN => NaN end.

Definition nsqrt (a : num) : num :=
  match a with
  | Fin x => if Rlt_dec x 0 then NaN else Fin (sqrt x)
  | PInf => PInf
  | NInf | NaN => NaN
  end.

Definition nhypot (a b : num) : num :=
  match a, b with
  | Fin x, Fin y => Fin (sqrt (x * x + y * y))
  | PInf, _ | NInf, _ | _, PInf | _, NInf => PInf
  | _, _ => NaN
  end.

(** The relational operators; every comparison with NaN is false. *)
Definition nlt (a b : num) : bool :=
  match a, b with
  | Fin x, Fin y => Rltb x y
  | NaN, _ | _, NaN => false
  | _, NInf | PInf, _ => false
  | NInf, _ | _, PInf => true
  end.

Definition nle (a b : num) : bool :=
  match a, b with
  | Fin x, Fin y => Rleb x y
  | NaN, _ | _, NaN => false
  | NInf, _ | _, PInf => true
  | _, NInf | PInf, _ => false
  end.

Definition ngt (a b : num) : bool := nlt b a.
Definition nge (a b : num) : bool := nle b a.

Definition nmin (a b : num) : num :=
  match a, b with
  | Fin x, Fin y => Fin (Rmin x y)
  | NaN, _ | _, NaN => NaN
  | NInf, _ | _, NInf => NInf
  | PInf, c | c, PInf => c
  end.

Definition nmax (a b : num) : num :=
  match a, b with
  | Fin x, Fin y => Fin (Rmax x y)
  | NaN, _ | _, NaN => NaN
  | PInf, _ | _, PInf => PInf
  | NInf, c | c, NInf => c
  end.

(** [a === b] on numbers. *)
Definition neqb (a b : num) : bool :=
  match a, b with
  | Fin x, Fin y => Reqb x y
  | PInf, PInf | NInf, NInf => true
  | _, _ => false
  end.

(** Truthiness of a number: zero and NaN are falsy. *)
Definition truthy (a : num) : bool :=
  match a with Fin x => negb (Reqb x 0) | NaN => false | _ => true end.

(** [a || d] on numbers. *)
Definition nor (a d : num) : num := if truthy a then a else d.

(** [Math.round] on a finite number: the nearest integer, ties upward. *)
Definition Rround (r : R) : R := IZR (Zfloor (r + / 2)).

(** ** Data model *)

(** Modelled from the spec: the declaration of [FlowNodeType], which the
    component imports from the project store, is not among the sources; the
    five kinds are the ones the specification lists and the component's
    [switch] statements name. *)
Inductive FlowNodeType : Type := start | process | decision | io | end_.

Definition FlowNodeType_eqb (a b : FlowNodeType) : bool :=
  match a, b with
  | start, start | process, process | decision, decision
  | io, io | end_, end_ => true
  | _, _ => false
  end.

(** Modelled from the spec: the declaration of [FlowNode] is not among the
    sources either; the fields are those of the specification's Node (its
    [kind] is the field the component reads as [type]), which are the ones
    the component reads and writes. *)
Record FlowNode : Type := mkNode {
  n_id : string;
  n_type : FlowNodeType;
  n_text : string;
  n_x : R;
  n_y : R;
  n_width : R;
  n_height : R
}.

Inductive LineStyle : Type := solid | dashed.

(** Modelled from the spec: the declaration of [FlowEdge] is not among the
    sources; the fields are those of the specification's Edge.  Every field
    after [e_targetId] is optional: the component tests each of them against
    [undefined] before use. *)
Record FlowEdge : Type := mkEdge {
  e_id : string;
  e_sourceId : string;
  e_targetId : string;
  e_label : option string;
  e_labelColor : option string;
  e_labelFontSize : option R;
  e_labelBold : option bool;
  e_lineStyle : option LineStyle;
  e_lineColor : option string;
  e_lineWidth : option R;
  e_bendX : option R;
  e_bendY : option R
}.

Record DiagramSnapshot : Type := mkSnap {
  snap_nodes : list FlowNode;
  snap_edges : list FlowEdge
}.

Record Point : Type := mkPoint { px : num; py : num }.

Record Hit : Type := mkHit { hit_x : num; hit_y : num; hit_t : num }.

Record EdgePath : Type := mkPath {
  p_sx : num; p_sy : num;
  p_bx : num; p_by : num;
  p_tx : num; p_ty : num
}.

(** [nodes.find((n) => n.id === id)] *)
Definition findNode (nodes : list FlowNode) (id : string) : option FlowNode :=
  List.find (fun n => String.eqb (n_id n) id) nodes.

Definition findEdge (edges : list FlowEdge) (id : string) : option FlowEdge :=
  List.find (fun e => String.eqb (e_id e) id) edges.

(** ** Geometry kernel *)

Definition slant : num := Fin 20.

(** The four corners of the slanted quadrilateral of an io node. *)
Definition ioPoints (x y hw hh : num) : list Point :=
  [ mkPoint (nadd (nsub x hw) slant) (nsub y hh);
    mkPoint (nadd x hw) (nsub y hh);
    mkPoint (nsub (nadd x hw) slant) (nadd y hh);
    mkPoint (nsub x hw) (nadd y hh) ].

Definition origin : Point := mkPoint (Fin 0) (Fin 0).

(** [points[i]!] *)
Definition pointAt (points : list Point) (i : nat) : Point :=
  nth i points origin.

Definition pointInPolygon (point : Point) (points : list Point) : bool :=
  let n := length points in
  fold_left
    (fun inside i =>
       let j := if Nat.eqb i 0 then (n - 1)%nat else (i - 1)%nat in
       let xi := px (pointAt points i) in
       let yi := py (pointAt points i) in
       let xj := px (pointAt points j) in
       let yj := py (pointAt points j) in
       let intersect :=
         negb (Bool.eqb (ngt yi (py point)) (ngt yj (py point)))
         && nlt (px point)
              (nadd (ndiv (nmul (nsub xj xi) (nsub (py point) yi))
                          (nor (nsub yj yi) (Fin 1)))
                    xi) in
       if intersect then negb inside else inside)
    (seq 0 n) false.

Definition containsPoint (node : FlowNode) (x y : num) : bool :=
  let dx := nsub x (Fin (n_x node)) in
  let dy := nsub y (Fin (n_y node)) in
  let hw := ndiv (Fin (n_width node)) (Fin 2) in
  let hh := ndiv (Fin (n_height node)) (Fin 2) in
  match n_type node with
  | start | end_ =>
      nle (nadd (ndiv (nmul dx dx) (nmul hw hw))
                (ndiv (nmul dy dy) (nmul hh hh))) (Fin 1)
  | decision => nle (nadd (ndiv (nabs dx) hw) (ndiv (nabs dy) hh)) (Fin 1)
  | io =>
      pointInPolygon (mkPoint x y)
        (ioPoints (Fin (n_x node)) (Fin (n_y node)) hw hh)
  | process => nle (nabs dx) hw && nle (nabs dy) hh
  end.

(** Reverse z-order: the last node containing the point wins. *)
Definition getNodeAt (nodes : list FlowNode) (x y : num) : option FlowNode :=
  List.find (fun n => containsPoint n x y) (rev nodes).

Definition pointToSegmentDistance (p_x p_y x1 y1 x2 y2 : num) : num :=
  let A := nsub p_x x1 in
  let B := nsub p_y y1 in
  let C := nsub x2 x1 in
  let D := nsub y2 y1 in
  let dot := nadd (nmul A C) (nmul B D) in
  let lenSq := nadd (nmul C C) (nmul D D) in
  let t :=
    if neqb lenSq (Fin 0) then Fin 0
    else nmax (Fin 0) (nmin (Fin 1) (ndiv dot lenSq)) in
  let ex := nadd x1 (nmul t C) in
  let ey := nadd y1 (nmul t D) in
  nhypot (nsub p_x ex) (nsub p_y ey).

Definition raySegmentIntersection (ox oy dx dy ax ay bx by_ : num)
  : option Hit :=
  let sx := nsub bx ax in
  let sy := nsub by_ ay in
  let cross := nsub (nmul dx sy) (nmul dy sx) in
  if nlt (nabs cross) (Fin (1 / 10000000)) then None
  else
    let qpx := nsub ax ox in
    let qpy := nsub ay oy in
    let t := ndiv (nsub (nmul qpx sy) (nmul qpy sx)) cross in
    let u := ndiv (nsub (nmul qpx dy) (nmul qpy dx)) cross in
    if nge t (Fin 0) && nge u (Fin 0) && nle u (Fin 1)
    then Some (mkHit (nadd ox (nmul dx t)) (nadd oy (nmul dy t)) t)
    else None.

(** One iteration of the io loop of [nodeBoundaryPoint]: the hit on the
    segment from corner [i] to corner [(i + 1) % 4] replaces [best] when it
    is nearer along the ray. *)
Definition ioStep (ox oy dx dy : num) (points : list Point)
  (best : option Hit) (i : nat) : option Hit :=
  let a := pointAt points i in
  let b := pointAt points ((i + 1) mod length points) in
  match raySegmentIntersection ox oy dx dy (px a) (py a) (px b) (py b) with
  | Some hit =>
      match best with
      | None => Some hit
      | Some bst => if nlt (hit_t hit) (hit_t bst) then Some hit else best
      end
  | None => best
  end.

Definition ioBest (ox oy dx dy : num) (points : list Point) : option Hit :=
  fold_left (ioStep ox oy dx dy points) (seq 0 (length points)) None.

(** The closing "rectangle boundary" block of [nodeBoundaryPoint]. *)
Definition rectBoundary (x y dx dy hw hh : num) : Point :=
  let tx := if nlt (nabs dx) (Fin (1 / 10000000)) then PInf
            else ndiv hw (nabs dx) in
  let ty := if nlt (nabs dy) (Fin (1 / 10000000)) then PInf
            else ndiv hh (nabs dy) in
  let t := nmin tx ty in
  mkPoint (nadd x (nmul dx t)) (nadd y (nmul dy t)).

(** The part of [nodeBoundaryPoint] after the direction [(dx, dy)] is
    normalised: one block per kind, the io block falling through to the
    rectangle block when no segment is hit. *)
Definition boundaryAlong (node : FlowNode) (dx dy : num) : Point :=
  let x := Fin (n_x node) in
  let y := Fin (n_y node) in
  let hw := ndiv (Fin (n_width node)) (Fin 2) in
  let hh := ndiv (Fin (n_height node)) (Fin 2) in
  match n_type node with
  | start | end_ =>
      let d := nadd (ndiv (nmul dx dx) (nmul hw hw))
                    (ndiv (nmul dy dy) (nmul hh hh)) in
      let t := if ngt d (Fin 0) then ndiv (Fin 1) (nsqrt d) else Fin 0 in
      mkPoint (nadd x (nmul dx t)) (nadd y (nmul dy t))
  | decision =>
      let d := nadd (ndiv (nabs dx) hw) (ndiv (nabs dy) hh) in
      let t := if ngt d (Fin 0) then ndiv (Fin 1) d else Fin 0 in
      mkPoint (nadd x (nmul dx t)) (nadd y (nmul dy t))
  | io =>
      match ioBest x y dx dy (ioPoints x y hw hh) with
      | Some best => mkPoint (hit_x best) (hit_y best)
      | None => rectBoundary x y dx dy hw hh
      end
  | process => rectBoundary x y dx dy hw hh
  end.

Definition nodeBoundaryPoint (node : FlowNode) (towardX towardY : num)
  : Point :=
  let vx := nsub towardX (Fin (n_x node)) in
  let vy := nsub towardY (Fin (n_y node)) in
  let len := nhypot vx vy in
  if nlt len (Fin (1 / 1000000)) then mkPoint (Fin (n_x node)) (Fin (n_y node))
  else boundaryAlong node (ndiv vx len) (ndiv vy len).

Definition pushPointOutward (point : Point) (towardX towardY distance : num)
  : Point :=
  let dx := nsub towardX (px point) in
  let dy := nsub towardY (py point) in
  let len := nhypot dx dy in
  if nlt len (Fin (1 / 1000000)) then point
  else mkPoint (nadd (px point) (nmul (ndiv dx len) distance))
               (nadd (py point) (nmul (ndiv dy len) distance)).

(** [a ?? d] for an optional stored number. *)
Definition nullish (a : option R) (d : num) : num :=
  match a with Some v => Fin v | None => d end.

Definition edgePath (nodes : list FlowNode) (edge : FlowEdge)
  : option EdgePath :=
  match findNode nodes (e_sourceId edge), findNode nodes (e_targetId edge) with
  | Some source, Some target =>
      let rawBx := nullish (e_bendX edge)
                     (ndiv (nadd (Fin (n_x source)) (Fin (n_x target))) (Fin 2)) in
      let rawBy := nullish (e_bendY edge)
                     (ndiv (nadd (Fin (n_y source)) (Fin (n_y target))) (Fin 2)) in
      let preS := nodeBoundaryPoint source rawBx rawBy in
      let preT := nodeBoundaryPoint target rawBx rawBy in
      let bx := nullish (e_bendX edge)
                  (ndiv (nadd (px preS) (px preT)) (Fin 2)) in
      let by_ := nullish (e_bendY edge)
                   (ndiv (nadd (py preS) (py preT)) (Fin 2)) in
      let s := pushPointOutward (nodeBoundaryPoint source bx by_) bx by_ (Fin 2) in
      let t := pushPointOutward (nodeBoundaryPoint target bx by_) bx by_ (Fin 2) in
      Some (mkPath (px s) (py s) bx by_ (px t) (py t))
  | _, _ => None
  end.

(** The tests of the two edge hit-testing loops at zoom [scale]; an edge
    without a path is passed over ([continue]). *)
Definition edgeHit (nodes : list FlowNode) (scale : R) (x y : num)
  (edge : FlowEdge) : bool :=
  match edgePath nodes edge with
  | None => false
  | Some p =>
      let d1 := pointToSegmentDistance x y (p_sx p) (p_sy p) (p_bx p) (p_by p) in
      let d2 := pointToSegmentDistance x y (p_bx p) (p_by p) (p_tx p) (p_ty p) in
      nle (nmin d1 d2) (ndiv (Fin 8) (Fin scale))
  end.

Definition bendHandleHit (nodes : list FlowNode) (scale : R) (x y : num)
  (edge : FlowEdge) : bool :=
  match edgePath nodes edge with
  | None => false
  | Some p =>
      nle (nhypot (nsub x (p_bx p)) (nsub y (p_by p)))
          (ndiv (Fin 10) (Fin scale))
  end.

(** Both loops run from the last edge to the first and return at the first
    hit. *)
Definition getEdgeAt (nodes : list FlowNode) (edges : list FlowEdge)
  (scale : R) (x y : num) : option FlowEdge :=
  List.find (edgeHit nodes scale x y) (rev edges).

Definition getBendHandleEdgeAt (nodes : list FlowNode) (edges : list FlowEdge)
  (scale : R) (x y : num) : option FlowEdge :=
  List.find (bendHandleHit nodes scale x y) (rev edges).

(** In-place mutation of the object a search returned: the first (or the
    last) element satisfying the test is replaced by its image. *)
Fixpoint alterFirst {A : Type} (p : A -> bool) (f : A -> A) (l : list A)
  : list A :=
  match l with
  | [] => []
  | a :: l' => if p a then f a :: l' else a :: alterFirst p f l'
  end.

Definition alterLast {A : Type} (p : A -> bool) (f : A -> A) (l : list A)
  : list A :=
  rev (alterFirst p f (rev l)).
(** ** Editor state *)

Inductive Tool : Type :=
| ToolSelect
| ToolConnect
| ToolPlace (kind : FlowNodeType).

(** A stored point: pan offset, drag origin, a node's drag-start position. *)
Record RPoint : Type := mkRPoint { rx : R; ry : R }.

Record Marquee : Type := mkMarquee {
  m_active : bool;
  m_startX : R;
  m_startY : R;
  m_endX : R;
  m_endY : R;
  m_append : bool
}.

(** The refs of the component, followed by what it reads from its
    collaborators: whether the store has an active project, the canvas
    element's client offset (absent while the canvas is not mounted), and
    the id generator, whose time- and random-dependent suffix is the
    [idSuffix] of the call number. *)
Record Editor : Type := mkEditor {
  nodes : list FlowNode;
  edges : list FlowEdge;
  selectedTool : Tool;
  selectedNodeId : string;
  selectedNodeIds : list string;
  selectedEdgeId : string;
  connectFromId : string;
  draggingNodeId : string;
  draggingBendEdgeId : string;
  draggingMoved : bool;
  draggingGroupIds : list string;
  groupDragStart : gmap string RPoint;
  dragStartPoint : RPoint;
  panning : bool;
  panStart : RPoint;
  pan : RPoint;
  scale : R;
  marquee : Marquee;
  history : list DiagramSnapshot;
  historyIndex : Z;
  historyReady : bool;
  clipboardData : option DiagramSnapshot;
  pasteCount : Z;
  activeProject : bool;
  canvasRect : option RPoint;
  idCalls : nat;
  idSuffix : nat -> string
}.

Definition set_nodes (v : list FlowNode) (s : Editor) : Editor :=
  mkEditor v (edges s) (selectedTool s) (selectedNodeId s)
    (selectedNodeIds s) (selectedEdgeId s) (connectFromId s)
    (draggingNodeId s) (draggingBendEdgeId s) (draggingMoved s)
    (draggingGroupIds s) (groupDragStart s) (dragStartPoint s) (panning s)
    (panStart s) (pan s) (scale s) (marquee s) (history s) (historyIndex s)
    (historyReady s) (clipboardData s) (pasteCount s) (activeProject s)
    (canvasRect s) (idCalls s) (idSuffix s).

Definition set_edges (v : list FlowEdge) (s : Editor) : Editor :=
  mkEditor (nodes s) v (selectedTool s) (selectedNodeId s)
    (selectedNodeIds s) (selectedEdgeId s) (connectFromId s)
    (draggingNodeId s) (draggingBendEdgeId s) (draggingMoved s)
    (draggingGroupIds s) (groupDragStart s) (dragStartPoint s) (panning s)
    (panStart s) (pan s) (scale s) (marquee s) (history s) (historyIndex s)
    (historyReady s) (clipboardData s) (pasteCount s) (activeProject s)
    (canvasRect s) (idCalls s) (idSuffix s).

Definition set_selectedTool (v : Tool) (s : Editor) : Editor :=
  mkEditor (nodes s) (edges s) v (selectedNodeId s) (selectedNodeIds s)
    (selectedEdgeId s) (connectFromId s) (draggingNodeId s)
    (draggingBendEdgeId s) (draggingMoved s) (draggingGroupIds s)
    (groupDragStart s) (dragStartPoint s) (panning s) (panStart s) (pan s)
    (scale s) (marquee s) (history s) (historyIndex s) (historyReady s)
    (clipboardData s) (pasteCount s) (activeProject s) (canvasRect s)
    (idCalls s) (idSuffix s).

Definition set_selectedNodeId (v : string) (s : Editor) : Editor :=
  mkEditor (nodes s) (edges s) (selectedTool s) v (selectedNodeIds s)
    (selectedEdgeId s) (connectFromId s) (draggingNodeId s)
    (draggingBendEdgeId s) (draggingMoved s) (draggingGroupIds s)
    (groupDragStart s) (dragStartPoint s) (panning s) (panStart s) (pan s)
    (scale s) (marquee s) (history s) (historyIndex s) (historyReady s)
    (clipboardData s) (pasteCount s) (activeProject s) (canvasRect s)
    (idCalls s) (idSuffix s).

Definition set_selectedNodeIds (v : list string) (s : Editor) : Editor :=
  mkEditor (nodes s) (edges s) (selectedTool s) (selectedNodeId s) v
    (selectedEdgeId s) (connectFromId s) (draggingNodeId s)
    (draggingBendEdgeId s) (draggingMoved s) (draggingGroupIds s)
    (groupDragStart s) (dragStartPoint s) (panning s) (panStart s) (pan s)
    (scale s) (marquee s) (history s) (historyIndex s) (historyReady s)
    (clipboardData s) (pasteCount s) (activeProject s) (canvasRect s)
    (idCalls s) (idSuffix s).

Definition set_selectedEdgeId (v : string) (s : Editor) : Editor :=
  mkEditor (nodes s) (edges s) (selectedTool s) (selectedNodeId s)
    (selectedNodeIds s) v (connectFromId s) (draggingNodeId s)
    (draggingBendEdgeId s) (draggingMoved s) (draggingGroupIds s)
    (groupDragStart s) (dragStartPoint s) (panning s) (panStart s) (pan s)
    (scale s) (marquee s) (history s) (historyIndex s) (historyReady s)
    (clipboardData s) (pasteCount s) (activeProject s) (canvasRect s)
    (idCalls s) (idSuffix s).

Definition set_connectFromId (v : string) (s : Editor) : Editor :=
  mkEditor (nodes s) (edges s) (selectedTool s) (selectedNodeId s)
    (selectedNodeIds s) (selectedEdgeId s) v (draggingNodeId s)
    (draggingBendEdgeId s) (draggingMoved s) (draggingGroupIds s)
    (groupDragStart s) (dragStartPoint s) (panning s) (panStart s) (pan s)
    (scale s) (marquee s) (history s) (historyIndex s) (historyReady s)
    (clipboardData s) (pasteCount s) (activeProject s) (canvasRect s)
    (idCalls s) (idSuffix s).

Definition set_draggingNodeId (v : string) (s : Editor) : Editor :=
  mkEditor (nodes s) (edges s) (selectedTool s) (selectedNodeId s)
    (selectedNodeIds s) (selectedEdgeId s) (connectFromId s) v
    (draggingBendEdgeId s) (draggingMoved s) (draggingGroupIds s)
    (groupDragStart s) (dragStartPoint s) (panning s) (panStart s) (pan s)
    (scale s) (marquee s) (history s) (historyIndex s) (historyReady s)
    (clipboardData s) (pasteCount s) (activeProject s) (canvasRect s)
    (idCalls s) (idSuffix s).

Definition set_draggingBendEdgeId (v : string) (s : Editor) : Editor :=
  mkEditor (nodes s) (edges s) (selectedTool s) (selectedNodeId s)
    (selectedNodeIds s) (selectedEdgeId s) (connectFromId s)
    (draggingNodeId s) v (draggingMoved s) (draggingGroupIds s)
    (groupDragStart s) (dragStartPoint s) (panning s) (panStart s) (pan s)
    (scale s) (marquee s) (history s) (historyIndex s) (historyReady s)
    (clipboardData s) (pasteCount s) (activeProject s) (canvasRect s)
    (idCalls s) (idSuffix s).

Definition set_draggingMoved (v : bool) (s : Editor) : Editor :=
  mkEditor (nodes s) (edges s) (selectedTool s) (selectedNodeId s)
    (selectedNodeIds s) (selectedEdgeId s) (connectFromId s)
    (draggingNodeId s) (draggingBendEdgeId s) v (draggingGroupIds s)
    (groupDragStart s) (dragStartPoint s) (panning s) (panStart s) (pan s)
    (scale s) (marquee s) (history s) (historyIndex s) (historyReady s)
    (clipboardData s) (pasteCount s) (activeProject s) (canvasRect s)
    (idCalls s) (idSuffix s).

Definition set_draggingGroupIds (v : list string) (s : Editor) : Editor :=
  mkEditor (nodes s) (edges s) (selectedTool s) (selectedNodeId s)
    (selectedNodeIds s) (selectedEdgeId s) (connectFromId s)
    (draggingNodeId s) (draggingBendEdgeId s) (draggingMoved s) v
    (groupDragStart s) (dragStartPoint s) (panning s) (panStart s) (pan s)
    (scale s) (marquee s) (history s) (historyIndex s) (historyReady s)
    (clipboardData s) (pasteCount s) (activeProject s) (canvasRect s)
    (idCalls s) (idSuffix s).

Definition set_groupDragStart (v : gmap string RPoint) (s : Editor) : Editor :=
  mkEditor (nodes s) (edges s) (selectedTool s) (selectedNodeId s)
    (selectedNodeIds s) (selectedEdgeId s) (connectFromId s)
    (draggingNodeId s) (draggingBendEdgeId s) (draggingMoved s)
    (draggingGroupIds s) v (dragStartPoint s) (panning s) (panStart s)
    (pan s) (scale s) (marquee s) (history s) (historyIndex s)
    (historyReady s) (clipboardData s) (pasteCount s) (activeProject s)
    (canvasRect s) (idCalls s) (idSuffix s).

Definition set_dragStartPoint (v : RPoint) (s : Editor) : Editor :=
  mkEditor (nodes s) (edges s) (selectedTool s) (selectedNodeId s)
    (selectedNodeIds s) (selectedEdgeId s) (connectFromId s)
    (draggingNodeId s) (draggingBendEdgeId s) (draggingMoved s)
    (draggingGroupIds s) (groupDragStart s) v (panning s) (panStart s)
    (pan s) (scale s) (marquee s) (history s) (historyIndex s)
    (historyReady s) (clipboardData s) (pasteCount s) (activeProject s)
    (canvasRect s) (idCalls s) (idSuffix s).

Definition set_panning (v : bool) (s : Editor) : Editor :=
  mkEditor (nodes s) (edges s) (selectedTool s) (selectedNodeId s)
    (selectedNodeIds s) (selectedEdgeId s) (connectFromId s)
    (draggingNodeId s) (draggingBendEdgeId s) (draggingMoved s)
    (draggingGroupIds s) (groupDragStart s) (dragStartPoint s) v (panStart s)
    (pan s) (scale s) (marquee s) (history s) (historyIndex s)
    (historyReady s) (clipboardData s) (pasteCount s) (activeProject s)
    (canvasRect s) (idCalls s) (idSuffix s).

Definition set_panStart (v : RPoint) (s : Editor) : Editor :=
  mkEditor (nodes s) (edges s) (selectedTool s) (selectedNodeId s)
    (selectedNodeIds s) (selectedEdgeId s) (connectFromId s)
    (draggingNodeId s) (draggingBendEdgeId s) (draggingMoved s)
    (draggingGroupIds s) (groupDragStart s) (dragStartPoint s) (panning s) v
    (pan s) (scale s) (marquee s) (history s) (historyIndex s)
    (historyReady s) (clipboardData s) (pasteCount s) (activeProject s)
    (canvasRect s) (idCalls s) (idSuffix s).

Definition set_pan (v : RPoint) (s : Editor) : Editor :=
  mkEditor (nodes s) (edges s) (selectedTool s) (selectedNodeId s)
    (selectedNodeIds s) (selectedEdgeId s) (connectFromId s)
    (draggingNodeId s) (draggingBendEdgeId s) (draggingMoved s)
    (draggingGroupIds s) (groupDragStart s) (dragStartPoint s) (panning s)
    (panStart s) v (scale s) (marquee s) (history s) (historyIndex s)
    (historyReady s) (clipboardData s) (pasteCount s) (activeProject s)
    (canvasRect s) (idCalls s) (idSuffix s).

Definition set_scale (v : R) (s : Editor) : Editor :=
  mkEditor (nodes s) (edges s) (selectedTool s) (selectedNodeId s)
    (selectedNodeIds s) (selectedEdgeId s) (connectFromId s)
    (draggingNodeId s) (draggingBendEdgeId s) (draggingMoved s)
    (draggingGroupIds s) (groupDragStart s) (dragStartPoint s) (panning s)
    (panStart s) (pan s) v (marquee s) (history s) (historyIndex s)
    (historyReady s) (clipboardData s) (pasteCount s) (activeProject s)
    (canvasRect s) (idCalls s) (idSuffix s).

Definition set_marquee (v : Marquee) (s : Editor) : Editor :=
  mkEditor (nodes s) (edges s) (selectedTool s) (selectedNodeId s)
    (selectedNodeIds s) (selectedEdgeId s) (connectFromId s)
    (draggingNodeId s) (draggingBendEdgeId s) (draggingMoved s)
    (draggingGroupIds s) (groupDragStart s) (dragStartPoint s) (panning s)
    (panStart s) (pan s) (scale s) v (history s) (historyIndex s)
    (historyReady s) (clipboardData s) (pasteCount s) (activeProject s)
    (canvasRect s) (idCalls s) (idSuffix s).

Definition set_history (v : list DiagramSnapshot) (s : Editor) : Editor :=
  mkEditor (nodes s) (edges s) (selectedTool s) (selectedNodeId s)
    (selectedNodeIds s) (selectedEdgeId s) (connectFromId s)
    (draggingNodeId s) (draggingBendEdgeId s) (draggingMoved s)
    (draggingGroupIds s) (groupDragStart s) (dragStartPoint s) (panning s)
    (panStart s) (pan s) (scale s) (marquee s) v (historyIndex s)
    (historyReady s) (clipboardData s) (pasteCount s) (activeProject s)
    (canvasRect s) (idCalls s) (idSuffix s).

Definition set_historyIndex (v : Z) (s : Editor) : Editor :=
  mkEditor (nodes s) (edges s) (selectedTool s) (selectedNodeId s)
    (selectedNodeIds s) (selectedEdgeId s) (connectFromId s)
    (draggingNodeId s) (draggingBendEdgeId s) (draggingMoved s)
    (draggingGroupIds s) (groupDragStart s) (dragStartPoint s) (panning s)
    (panStart s) (pan s) (scale s) (marquee s) (history s) v (historyReady s)
    (clipboardData s) (pasteCount s) (activeProject s) (canvasRect s)
    (idCalls s) (idSuffix s).

Definition set_historyReady (v : bool) (s : Editor) : Editor :=
  mkEditor (nodes s) (edges s) (selectedTool s) (selectedNodeId s)
    (selectedNodeIds s) (selectedEdgeId s) (connectFromId s)
    (draggingNodeId s) (draggingBendEdgeId s) (draggingMoved s)
    (draggingGroupIds s) (groupDragStart s) (dragStartPoint s) (panning s)
    (panStart s) (pan s) (scale s) (marquee s) (history s) (historyIndex s) v
    (clipboardData s) (pasteCount s) (activeProject s) (canvasRect s)
    (idCalls s) (idSuffix s).

Definition set_clipboardData (v : option DiagramSnapshot) (s : Editor) : Editor :=
  mkEditor (nodes s) (edges s) (selectedTool s) (selectedNodeId s)
    (selectedNodeIds s) (selectedEdgeId s) (connectFromId s)
    (draggingNodeId s) (draggingBendEdgeId s) (draggingMoved s)
    (draggingGroupIds s) (groupDragStart s) (dragStartPoint s) (panning s)
    (panStart s) (pan s) (scale s) (marquee s) (history s) (historyIndex s)
    (historyReady s) v (pasteCount s) (activeProject s) (canvasRect s)
    (idCalls s) (idSuffix s).

Definition set_pasteCount (v : Z) (s : Editor) : Editor :=
  mkEditor (nodes s) (edges s) (selectedTool s) (selectedNodeId s)
    (selectedNodeIds s) (selectedEdgeId s) (connectFromId s)
    (draggingNodeId s) (draggingBendEdgeId s) (draggingMoved s)
    (draggingGroupIds s) (groupDragStart s) (dragStartPoint s) (panning s)
    (panStart s) (pan s) (scale s) (marquee s) (history s) (historyIndex s)
    (historyReady s) (clipboardData s) v (activeProject s) (canvasRect s)
    (idCalls s) (idSuffix s).

Definition set_activeProject (v : bool) (s : Editor) : Editor :=
  mkEditor (nodes s) (edges s) (selectedTool s) (selectedNodeId s)
    (selectedNodeIds s) (selectedEdgeId s) (connectFromId s)
    (draggingNodeId s) (draggingBendEdgeId s) (draggingMoved s)
    (draggingGroupIds s) (groupDragStart s) (dragStartPoint s) (panning s)
    (panStart s) (pan s) (scale s) (marquee s) (history s) (historyIndex s)
    (historyReady s) (clipboardData s) (pasteCount s) v (canvasRect s)
    (idCalls s) (idSuffix s).

Definition set_canvasRect (v : option RPoint) (s : Editor) : Editor :=
  mkEditor (nodes s) (edges s) (selectedTool s) (selectedNodeId s)
    (selectedNodeIds s) (selectedEdgeId s) (connectFromId s)
    (draggingNodeId s) (draggingBendEdgeId s) (draggingMoved s)
    (draggingGroupIds s) (groupDragStart s) (dragStartPoint s) (panning s)
    (panStart s) (pan s) (scale s) (marquee s) (history s) (historyIndex s)
    (historyReady s) (clipboardData s) (pasteCount s) (activeProject s) v
    (idCalls s) (idSuffix s).

Definition set_idCalls (v : nat) (s : Editor) : Editor :=
  mkEditor (nodes s) (edges s) (selectedTool s) (selectedNodeId s)
    (selectedNodeIds s) (selectedEdgeId s) (connectFromId s)
    (draggingNodeId s) (draggingBendEdgeId s) (draggingMoved s)
    (draggingGroupIds s) (groupDragStart s) (dragStartPoint s) (panning s)
    (panStart s) (pan s) (scale s) (marquee s) (history s) (historyIndex s)
    (historyReady s) (clipboardData s) (pasteCount s) (activeProject s)
    (canvasRect s) v (idSuffix s).

Definition set_idSuffix (v : nat -> string) (s : Editor) : Editor :=
  mkEditor (nodes s) (edges s) (selectedTool s) (selectedNodeId s)
    (selectedNodeIds s) (selectedEdgeId s) (connectFromId s)
    (draggingNodeId s) (draggingBendEdgeId s) (draggingMoved s)
    (draggingGroupIds s) (groupDragStart s) (dragStartPoint s) (panning s)
    (panStart s) (pan s) (scale s) (marquee s) (history s) (historyIndex s)
    (historyReady s) (clipboardData s) (pasteCount s) (activeProject s)
    (canvasRect s) (idCalls s) v.

Notation "s |> f" := (f s) (at level 45, left associativity, only parsing).

(** [store.generateId(prefix)]: the prefix, an underscore and the suffix of
    this call. *)
Definition generateId (prefix : string) (s : Editor) : string * Editor :=
  ((prefix ++ "_" ++ idSuffix s (idCalls s))%string, set_idCalls (S (idCalls s)) s).

(** [JSON.parse(JSON.stringify(...))] rebuilds every object field by field. *)
Definition cloneNode (n : FlowNode) : FlowNode :=
  mkNode (n_id n) (n_type n) (n_text n) (n_x n) (n_y n) (n_width n) (n_height n).

Definition cloneEdge (e : FlowEdge) : FlowEdge :=
  mkEdge (e_id e) (e_sourceId e) (e_targetId e) (e_label e) (e_labelColor e)
    (e_labelFontSize e) (e_labelBold e) (e_lineStyle e) (e_lineColor e)
    (e_lineWidth e) (e_bendX e) (e_bendY e).

Definition cloneDiagram (s : Editor) : DiagramSnapshot :=
  mkSnap (map cloneNode (nodes s)) (map cloneEdge (edges s)).

Definition replaceDiagram (nextNodes : list FlowNode) (nextEdges : list FlowEdge)
  (s : Editor) : Editor :=
  s |> set_nodes nextNodes |> set_edges nextEdges.

Definition clearSelection (s : Editor) : Editor :=
  s |> set_selectedNodeId "" |> set_selectedNodeIds []
    |> set_selectedEdgeId "" |> set_connectFromId "".

Definition applySnapshot (snapshot : DiagramSnapshot) (s : Editor) : Editor :=
  if negb (activeProject s) then s
  else
    s |> set_nodes (map cloneNode (snap_nodes snapshot))
      |> set_edges (map cloneEdge (snap_edges snapshot))
      |> clearSelection.

Definition setSingleNodeSelection (id : string) (s : Editor) : Editor :=
  s |> set_selectedNodeId id |> set_selectedNodeIds [id]
    |> set_selectedEdgeId "".

Definition setNodeSelection (ids : list string) (s : Editor) : Editor :=
  s |> set_selectedNodeIds ids |> set_selectedNodeId (hd "" ids)
    |> set_selectedEdgeId "".

(** [ids.includes(id)] *)
Definition includes (ids : list string) (id : string) : bool :=
  existsb (String.eqb id) ids.

Definition toggleNodeSelection (id : string) (s : Editor) : Editor :=
  if includes (selectedNodeIds s) id
  then setNodeSelection
         (List.filter (fun n => negb (String.eqb n id)) (selectedNodeIds s)) s
  else setNodeSelection (selectedNodeIds s ++ [id]) s.

(** [a || d] on optional strings and optional stored numbers. *)
Definition strOr (a : option string) (d : string) : string :=
  match a with
  | Some v => if String.eqb v "" then d else v
  | None => d
  end.

Definition numOr (a : option R) (d : R) : R :=
  match a with
  | Some v => if Reqb v 0 then d else v
  | None => d
  end.

Definition ensureEdgeDefaults (edge : FlowEdge) : FlowEdge :=
  mkEdge (e_id edge) (e_sourceId edge) (e_targetId edge) (e_label edge)
    (Some (strOr (e_labelColor edge) "#94a3b8"))
    (Some (numOr (e_labelFontSize edge) 12))
    (Some (match e_labelBold edge with Some b => b | None => false end))
    (Some (match e_lineStyle edge with Some st => st | None => solid end))
    (Some (strOr (e_lineColor edge) "#334155"))
    (Some (numOr (e_lineWidth edge) (14 / 10)))
    (e_bendX edge) (e_bendY edge).

(** ** History *)

(** [history.slice(0, end)] *)
Definition slice0 {A : Type} (l : list A) (end_ : Z) : list A :=
  let e := if (end_ <? 0)%Z then Z.max (Z.of_nat (length l) + end_) 0 else end_ in
  firstn (Z.to_nat e) l.

Definition resetHistory (s : Editor) : Editor :=
  s |> set_history [cloneDiagram s] |> set_historyIndex 0%Z
    |> set_historyReady true.

Definition commitHistory (s : Editor) : Editor :=
  if negb (historyReady s) then s
  else
    let snap := cloneDiagram s in
    let sliced := slice0 (history s) (historyIndex s + 1) in
    let pushed := sliced ++ [snap] in
    let capped := if (80 <? length pushed)%nat then tl pushed else pushed in
    s |> set_history capped
      |> set_historyIndex (Z.of_nat (length capped) - 1)%Z.

Definition canUndo (s : Editor) : bool := (0 <? historyIndex s)%Z.

Definition canRedo (s : Editor) : bool :=
  (0 <=? historyIndex s)%Z
  && (historyIndex s <? Z.of_nat (length (history s)) - 1)%Z.

(** [history.value[i]!] *)
Definition historyAt (s : Editor) (i : Z) : option DiagramSnapshot :=
  if (i <? 0)%Z then None else nth_error (history s) (Z.to_nat i).

(** [applySnapshot(history.value[historyIndex.value]!)]: reading a field of
    an absent snapshot throws, which is the result [None]; with no active
    project [applySnapshot] returns before it reads the snapshot. *)
Definition applyCurrent (s : Editor) : option Editor :=
  if negb (activeProject s) then Some s
  else
    match historyAt s (historyIndex s) with
    | Some snapshot => Some (applySnapshot snapshot s)
    | None => None
    end.

Definition undo (s : Editor) : option Editor :=
  if negb (canUndo s) then Some s
  else applyCurrent (set_historyIndex (historyIndex s - 1)%Z s).

Definition redo (s : Editor) : option Editor :=
  if negb (canRedo s) then Some s
  else applyCurrent (set_historyIndex (historyIndex s + 1)%Z s).

(** ** Pointer interaction *)

Definition toCanvasPoint (clientX clientY : R) (s : Editor) : RPoint :=
  match canvasRect s with
  | None => mkRPoint 0 0
  | Some rect =>
      mkRPoint ((clientX - rx rect - rx (pan s)) / scale s)
               ((clientY - ry rect - ry (pan s)) / scale s)
  end.

Definition nodeSize (type : FlowNodeType) : R * R :=
  match type with
  | decision => (140, 90)
  | io => (150, 70)
  | _ => (140, 64)
  end%R.

Definition defaultText (type : FlowNodeType) : string :=
  match type with
  | start => "开始"
  | process => "处理步骤"
  | decision => "条件判断"
  | io => "输入/输出"
  | end_ => "结束"
  end.

Definition createNode (type : FlowNodeType) (x y : R) (s : Editor) : Editor :=
  let '(width, height) := nodeSize type in
  let '(id, s1) := generateId "node" s in
  let node := mkNode id type (defaultText type) x y width height in
  s1 |> set_nodes (nodes s1 ++ [node])
     |> setSingleNodeSelection id
     |> commitHistory.

(** One pass of the alignment loop of [applySnap] over a node. *)
Definition snapStep (movingId : string) (xy : R * R) (node : FlowNode) : R * R :=
  if String.eqb (n_id node) movingId then xy
  else
    let x := if Rleb (Rabs (n_x node - fst xy)) 8 then n_x node else fst xy in
    let y := if Rleb (Rabs (n_y node - snd xy)) 8 then n_y node else snd xy in
    (x, y).

Definition applySnap (rawX rawY : R) (movingId : string) (s : Editor) : R * R :=
  let x := (Rround (rawX / 20) * 20)%R in
  let y := (Rround (rawY / 20) * 20)%R in
  fold_left (snapStep movingId) (nodes s) (x, y).

(** [(x1, y1, x2, y2)] of the marquee. *)
Definition marqueeRect (s : Editor) : R * R * R * R :=
  let m := marquee s in
  (Rmin (m_startX m) (m_endX m), Rmin (m_startY m) (m_endY m),
   Rmax (m_startX m) (m_endX m), Rmax (m_startY m) (m_endY m)).

Definition nodeIntersectsRect (node : FlowNode) (rect : R * R * R * R) : bool :=
  let '(x1, y1, x2, y2) := rect in
  let left := (n_x node - n_width node / 2)%R in
  let right := (n_x node + n_width node / 2)%R in
  let top := (n_y node - n_height node / 2)%R in
  let bottom := (n_y node + n_height node / 2)%R in
  negb (Rltb right x1 || Rltb x2 left || Rltb bottom y1 || Rltb y2 top).

(** [Array.from(new Set(ids))]: first occurrences, in order. *)
Fixpoint dedup (seen ids : list string) : list string :=
  match ids with
  | [] => []
  | id :: rest =>
      if includes seen id then dedup seen rest
      else id :: dedup (id :: seen) rest
  end.

(** The edge pushed by the second click of the connect tool. *)
Definition newEdge (id sourceId targetId : string) : FlowEdge :=
  mkEdge id sourceId targetId (Some "") (Some "#94a3b8") (Some 12%R)
    (Some false) (Some solid) (Some "#334155") (Some (14 / 10)%R) None None.

(** A string is truthy when it is not empty. *)
Definition nonEmpty (id : string) : bool := negb (String.eqb id "").

(** The drag-start positions recorded at pointer-down. *)
Definition recordDragStart (nodes : list FlowNode) (ids : list string)
  : gmap string RPoint :=
  fold_left
    (fun starts id =>
       match findNode nodes id with
       | Some n => <[id := mkRPoint (n_x n) (n_y n)]> starts
       | None => starts
       end)
    ids ∅.

Definition onMouseDown (clientX clientY : R) (shiftKey : bool) (s : Editor)
  : Editor :=
  let p := toCanvasPoint clientX clientY s in
  let x := Fin (rx p) in
  let y := Fin (ry p) in
  match getBendHandleEdgeAt (nodes s) (edges s) (scale s) x y, selectedTool s with
  | Some bendEdge, ToolSelect =>
      s |> set_edges (alterLast (bendHandleHit (nodes s) (scale s) x y)
                        ensureEdgeDefaults (edges s))
        |> set_draggingBendEdgeId (e_id bendEdge)
        |> set_selectedEdgeId (e_id bendEdge)
        |> set_selectedNodeId ""
        |> set_selectedNodeIds []
        |> set_draggingMoved false
  | _, _ =>
      let node := getNodeAt (nodes s) x y in
      match selectedTool s with
      | ToolConnect =>
          match node with
          | None => s
          | Some node =>
              if negb (nonEmpty (connectFromId s)) then
                s |> set_connectFromId (n_id node)
                  |> setSingleNodeSelection (n_id node)
              else if negb (String.eqb (connectFromId s) (n_id node)) then
                let '(id, s1) := generateId "edge" s in
                s1 |> set_edges (edges s1 ++ [newEdge id (connectFromId s) (n_id node)])
                   |> set_connectFromId ""
                   |> set_selectedNodeId ""
                   |> set_selectedNodeIds []
                   |> set_selectedEdgeId ""
                   |> commitHistory
              else s
          end
      | ToolPlace kind =>
          s |> createNode kind (rx p) (ry p) |> set_selectedTool ToolSelect
      | ToolSelect =>
          match node with
          | Some node =>
              if shiftKey then toggleNodeSelection (n_id node) s
              else
                let s1 :=
                  if negb (includes (selectedNodeIds s) (n_id node))
                  then setSingleNodeSelection (n_id node) s
                  else s |> set_selectedNodeId (n_id node)
                         |> set_selectedEdgeId "" in
                let group :=
                  if includes (selectedNodeIds s1) (n_id node)
                  then selectedNodeIds s1 else [n_id node] in
                s1 |> set_draggingNodeId (n_id node)
                   |> set_draggingMoved false
                   |> set_draggingGroupIds group
                   |> set_groupDragStart (recordDragStart (nodes s1) group)
                   |> set_dragStartPoint p
          | None =>
              match getEdgeAt (nodes s) (edges s) (scale s) x y with
              | Some edge =>
                  s |> set_edges (alterLast (edgeHit (nodes s) (scale s) x y)
                                    ensureEdgeDefaults (edges s))
                    |> set_selectedEdgeId (e_id edge)
                    |> set_selectedNodeId ""
                    |> set_selectedNodeIds []
              | None =>
                  if shiftKey then
                    s |> set_marquee (mkMarquee true (rx p) (ry p) (rx p) (ry p) true)
                      |> set_selectedEdgeId ""
                  else
                    s |> set_selectedNodeId ""
                      |> set_selectedNodeIds []
                      |> set_selectedEdgeId ""
                      |> set_panning true
                      |> set_panStart (mkRPoint (clientX - rx (pan s))
                                                (clientY - ry (pan s)))
              end
          end
      end
  end.

Definition setBend (bendX bendY : option R) (e : FlowEdge) : FlowEdge :=
  mkEdge (e_id e) (e_sourceId e) (e_targetId e) (e_label e) (e_labelColor e)
    (e_labelFontSize e) (e_labelBold e) (e_lineStyle e) (e_lineColor e)
    (e_lineWidth e) bendX bendY.

Definition setPosition (x y : R) (n : FlowNode) : FlowNode :=
  mkNode (n_id n) (n_type n) (n_text n) x y (n_width n) (n_height n).

Definition setText (text : string) (n : FlowNode) : FlowNode :=
  mkNode (n_id n) (n_type n) text (n_x n) (n_y n) (n_width n) (n_height n).

(** The body of the group loop of [onMouseMove] for one dragged id: the
    node with that id, if it and its drag-start position exist, moves to
    the rounded sum of its start and the leader's delta. *)
Definition moveMember (starts : gmap string RPoint) (dx dy : R)
  (ns : list FlowNode) (id : string) : list FlowNode :=
  match findNode ns id, starts !! id with
  | Some _, Some start_ =>
      alterFirst (fun n => String.eqb (n_id n) id)
        (setPosition (Rround (rx start_ + dx)) (Rround (ry start_ + dy))) ns
  | _, _ => ns
  end.

Definition onMouseMove (clientX clientY : R) (s : Editor) : Editor :=
  let p := toCanvasPoint clientX clientY s in
  if nonEmpty (draggingBendEdgeId s) then
    match findEdge (edges s) (draggingBendEdgeId s) with
    | Some _ =>
        s |> set_edges
               (alterFirst (fun e => String.eqb (e_id e) (draggingBendEdgeId s))
                  (setBend (Some (Rround (rx p / 10) * 10)%R)
                           (Some (Rround (ry p / 10) * 10)%R))
                  (edges s))
          |> set_draggingMoved true
    | None => s
    end
  else if nonEmpty (draggingNodeId s) then
    let leaderId := draggingNodeId s in
    match groupDragStart s !! leaderId with
    | Some leaderStart =>
        let rawX := (rx leaderStart + (rx p - rx (dragStartPoint s)))%R in
        let rawY := (ry leaderStart + (ry p - ry (dragStartPoint s)))%R in
        let snapped := applySnap rawX rawY leaderId s in
        let dx := (fst snapped - rx leaderStart)%R in
        let dy := (snd snapped - ry leaderStart)%R in
        s |> set_nodes
               (fold_left (moveMember (groupDragStart s) dx dy)
                  (draggingGroupIds s) (nodes s))
          |> set_draggingMoved true
    | None => s
    end
  else if m_active (marquee s) then
    let m := marquee s in
    set_marquee (mkMarquee (m_active m) (m_startX m) (m_startY m)
                   (rx p) (ry p) (m_append m)) s
  else if panning s then
    set_pan (mkRPoint (clientX - rx (panStart s)) (clientY - ry (panStart s))) s
  else s.

Definition onMouseUp (s : Editor) : Editor :=
  if m_active (marquee s) then
    let rect := marqueeRect s in
    let ids := map n_id (List.filter (fun node => nodeIntersectsRect node rect)
                           (nodes s)) in
    let m := marquee s in
    (if m_append m
     then setNodeSelection (dedup [] (selectedNodeIds s ++ ids)) s
     else setNodeSelection ids s)
    |> set_marquee (mkMarquee false (m_startX m) (m_startY m) (m_endX m)
                      (m_endY m) (m_append m))
  else
    (if (nonEmpty (draggingNodeId s) || nonEmpty (draggingBendEdgeId s))
        && draggingMoved s
     then commitHistory s else s)
    |> set_draggingNodeId ""
    |> set_draggingGroupIds []
    |> set_groupDragStart ∅
    |> set_draggingBendEdgeId ""
    |> set_draggingMoved false
    |> set_panning false.

(** ** Editing operations *)

(** [confirmed] is the answer of the confirmation dialog. *)
Definition clearFlow (confirmed : bool) (s : Editor) : Editor :=
  if negb confirmed then s
  else s |> set_nodes [] |> set_edges [] |> clearSelection |> commitHistory.

(** [selectedNode] and [selectedEdge], the computed properties. *)
Definition selectedNode (s : Editor) : option FlowNode :=
  findNode (nodes s) (selectedNodeId s).

Definition selectedEdge (s : Editor) : option FlowEdge :=
  findEdge (edges s) (selectedEdgeId s).

(** [list.splice(idx, 1)] at the first element satisfying the test. *)
Fixpoint removeFirst {A : Type} (p : A -> bool) (l : list A) : list A :=
  match l with
  | [] => []
  | a :: l' => if p a then l' else a :: removeFirst p l'
  end.

Definition deleteSelected (s : Editor) : Editor :=
  if (0 <? length (selectedNodeIds s))%nat then
    let ids := selectedNodeIds s in
    s |> set_nodes (List.filter (fun n => negb (includes ids (n_id n))) (nodes s))
      |> set_edges (List.filter
                      (fun e => negb (includes ids (e_sourceId e)
                                      || includes ids (e_targetId e)))
                      (edges s))
      |> set_selectedNodeId ""
      |> set_selectedNodeIds []
      |> commitHistory
  else
    match selectedEdge s with
    | Some sel =>
        s |> set_edges (removeFirst (fun e => String.eqb (e_id e) (e_id sel))
                          (edges s))
          |> set_selectedEdgeId ""
          |> commitHistory
    | None => s
    end.

(** The ids [copySelected] copies: the multi-selection, or else the id of
    the selected node. *)
Definition copyIds (s : Editor) : list string :=
  if (0 <? length (selectedNodeIds s))%nat then selectedNodeIds s
  else match selectedNode s with Some n => [n_id n] | None => [] end.

Definition copySelected (s : Editor) : Editor :=
  let ids := copyIds s in
  if (length ids =? 0)%nat then s
  else
    let clipNodes :=
      map cloneNode (List.filter (fun n => includes ids (n_id n)) (nodes s)) in
    let clipEdges :=
      map cloneEdge
        (List.filter (fun e => includes ids (e_sourceId e)
                               && includes ids (e_targetId e)) (edges s)) in
    s |> set_clipboardData (Some (mkSnap clipNodes clipEdges))
      |> set_pasteCount 0%Z.

(** The object literals of [pasteClipboard]: a copy of the clipboard node
    with a new id and shifted coordinates, and a copy of the clipboard edge
    with a new id, remapped endpoints, defaulted style fields and a shifted
    bend. *)
Definition pastedNode (offset : R) (nextId : string) (n : FlowNode) : FlowNode :=
  mkNode nextId (n_type n) (n_text n) (n_x n + offset)%R (n_y n + offset)%R
    (n_width n) (n_height n).

Definition pastedEdge (offset : R) (id sourceId targetId : string) (e : FlowEdge)
  : FlowEdge :=
  mkEdge id sourceId targetId (e_label e)
    (Some (strOr (e_labelColor e) "#94a3b8"))
    (Some (numOr (e_labelFontSize e) 12))
    (Some (match e_labelBold e with Some b => b | None => false end))
    (Some (match e_lineStyle e with Some st => st | None => solid end))
    (Some (strOr (e_lineColor e) "#334155"))
    (Some (numOr (e_lineWidth e) (14 / 10)))
    (option_map (fun b => (b + offset)%R) (e_bendX e))
    (option_map (fun b => (b + offset)%R) (e_bendY e)).

(** The node loop of [pasteClipboard]: the accumulator holds the pasted
    nodes so far, the id substitution table and the editor (for the id
    generator). *)
Definition pasteNode (offset : R)
  (acc : list FlowNode * gmap string string * Editor) (n : FlowNode)
  : list FlowNode * gmap string string * Editor :=
  let '(out, idMap, s) := acc in
  let '(nextId, s1) := generateId "node" s in
  (out ++ [pastedNode offset nextId n], <[n_id n := nextId]> idMap, s1).

(** The edge loop of [pasteClipboard]. *)
Definition pasteEdge (offset : R) (idMap : gmap string string)
  (acc : list FlowEdge * Editor) (e : FlowEdge) : list FlowEdge * Editor :=
  let '(out, s) := acc in
  match idMap !! e_sourceId e, idMap !! e_targetId e with
  | Some sourceId, Some targetId =>
      if negb (nonEmpty sourceId) || negb (nonEmpty targetId) then acc
      else
        let '(id, s1) := generateId "edge" s in
        (out ++ [pastedEdge offset id sourceId targetId e], s1)
  | _, _ => acc
  end.

Definition pasteClipboard (s : Editor) : Editor :=
  match clipboardData s with
  | None => s
  | Some clip =>
      if (length (snap_nodes clip) =? 0)%nat then s
      else
        let s0 := set_pasteCount (pasteCount s + 1)%Z s in
        let offset := IZR (28 * pasteCount s0) in
        let '(nextNodes, idMap, s1) :=
          fold_left (pasteNode offset) (snap_nodes clip) ([], ∅, s0) in
        let '(nextEdges, s2) :=
          fold_left (pasteEdge offset idMap) (snap_edges clip) ([], s1) in
        s2 |> set_nodes (nodes s2 ++ nextNodes)
           |> set_edges (edges s2 ++ nextEdges)
           |> setNodeSelection (map n_id nextNodes)
           |> set_selectedEdgeId ""
           |> set_connectFromId ""
           |> commitHistory
  end.

(** The inspector's text field writes the selected node's text and then
    calls [updateNodeText]. *)
Definition updateNodeText (text : string) (s : Editor) : Editor :=
  match selectedNode s with
  | Some _ =>
      s |> set_nodes (alterFirst (fun n => String.eqb (n_id n) (selectedNodeId s))
                        (setText text) (nodes s))
        |> commitHistory
  | None => s
  end.

Definition resetSelectedEdgeBend (s : Editor) : Editor :=
  match selectedEdge s with
  | None => s
  | Some _ =>
      s |> set_edges (alterFirst (fun e => String.eqb (e_id e) (selectedEdgeId s))
                        (setBend None None) (edges s))
        |> commitHistory
  end.

(** What the [try] block of [importJson] meets in the text of the file:
    text that [JSON.parse] rejects; the JSON value [null], on which reading
    [parsed.nodes] throws; or any other JSON value, of which only the two
    fields [nodes] and [edges] are read, each present here when
    [Array.isArray] accepts it.  The arrays are taken to hold node and edge
    objects, as the type assertion of the source says. *)
Inductive JsonText : Type :=
| Malformed
| JsonNull
| JsonValue (nodes : option (list FlowNode)) (edges : option (list FlowEdge)).

(** The callback of [importJson] once the file is read; on either
    exception the [catch] block alerts and nothing has changed. *)
Definition importJson (parsed : JsonText) (s : Editor) : Editor :=
  match parsed with
  | Malformed | JsonNull => s
  | JsonValue ns es =>
      s |> replaceDiagram (default [] ns) (default [] es)
        |> clearSelection
        |> commitHistory
  end.

(** The project watcher: with no project it returns at once; otherwise the
    live diagram is taken from the project and all selection is cleared. *)
Definition onProjectChange
  (proj : option (list FlowNode * list FlowEdge)) (s : Editor) : Editor :=
  match proj with
  | None => set_activeProject false s
  | Some (ns, es) =>
      s |> set_activeProject true
        |> set_nodes ns |> set_edges es
        |> clearSelection
  end.

(** Ctrl/Cmd+A *)
Definition selectAll (s : Editor) : Editor :=
  setNodeSelection (map n_id (nodes s)) s.

(** ** Templates *)

Inductive TemplateName : Type := login | approval | leave | thesis.

Definition tnode (id : string) (type : FlowNodeType) (text : string) (x y : R)
  : FlowNode :=
  mkNode id type text x y (fst (nodeSize type)) (snd (nodeSize type)).

Definition tedge (id sourceId targetId : string) (label : option string)
  : FlowEdge :=
  mkEdge id sourceId targetId label None None None None None None None None.

Definition templateDiagram (name : TemplateName)
  : list FlowNode * list FlowEdge :=
  match name with
  | login =>
      ([ tnode "tmpl_start" start "开始" 180 130;
         tnode "tmpl_input" io "输入账号密码" 180 230;
         tnode "tmpl_validate" decision "校验是否通过?" 180 340;
         tnode "tmpl_error" process "提示错误并返回" 390 340;
         tnode "tmpl_success" process "创建会话/写入登录态" 180 470;
         tnode "tmpl_end" end_ "进入系统首页" 180 580 ],
       [ tedge "te_1" "tmpl_start" "tmpl_input" (Some "");
         tedge "te_2" "tmpl_input" "tmpl_validate" (Some "");
         tedge "te_3" "tmpl_validate" "tmpl_error" (Some "否");
         tedge "te_4" "tmpl_validate" "tmpl_success" (Some "是");
         tedge "te_5" "tmpl_success" "tmpl_end" (Some "") ])
  | approval =>
      ([ tnode "a_start" start "发起申请" 170 120;
         tnode "a_leader" decision "组长审批?" 170 230;
         tnode "a_reject" process "驳回并通知申请人" 380 230;
         tnode "a_mgr" decision "经理审批?" 170 360;
         tnode "a_archive" process "归档并执行" 170 480;
         tnode "a_end" end_ "结束" 170 580 ],
       [ tedge "ae1" "a_start" "a_leader" None;
         tedge "ae2" "a_leader" "a_reject" (Some "否");
         tedge "ae3" "a_leader" "a_mgr" (Some "是");
         tedge "ae4" "a_mgr" "a_reject" (Some "否");
         tedge "ae5" "a_mgr" "a_archive" (Some "是");
         tedge "ae6" "a_archive" "a_end" None ])
  | leave =>
      ([ tnode "l_start" start "提交请假申请" 170 120;
         tnode "l_check" decision "天数 > 3 天?" 170 230;
         tnode "l_teacher" process "导师审批" 170 350;
         tnode "l_college" process "学院审批" 390 230;
         tnode "l_record" process "登记请假信息" 170 480;
         tnode "l_end" end_ "通知结果" 170 580 ],
       [ tedge "le1" "l_start" "l_check" None;
         tedge "le2" "l_check" "l_teacher" (Some "否");
         tedge "le3" "l_check" "l_college" (Some "是");
         tedge "le4" "l_teacher" "l_record" None;
         tedge "le5" "l_college" "l_record" None;
         tedge "le6" "l_record" "l_end" None ])
  | thesis =>
      ([ tnode "t_start" start "选题开始" 190 120;
         tnode "t_pick" process "学生提交选题" 190 220;
         tnode "t_review" decision "导师审核通过?" 190 330;
         tnode "t_back" process "退回修改" 390 330;
         tnode "t_open" process "开题报告" 190 460;
         tnode "t_mid" process "中期检查" 190 560;
         tnode "t_end" end_ "论文答辩" 190 660 ],
       [ tedge "te1" "t_start" "t_pick" None;
         tedge "te2" "t_pick" "t_review" None;
         tedge "te3" "t_review" "t_back" (Some "否");
         tedge "te4" "t_review" "t_open" (Some "是");
         tedge "te5" "t_open" "t_mid" None;
         tedge "te6" "t_mid" "t_end" None ])
  end%R.

(** [confirmed] is the answer of the overwrite dialog, asked only when the
    diagram has nodes. *)
Definition loadTemplate (name : TemplateName) (confirmed : bool) (s : Editor)
  : Editor :=
  if (0 <? length (nodes s))%nat && negb confirmed then s
  else
    let '(ns, es) := templateDiagram name in
    s |> replaceDiagram ns es
      |> clearSelection
      |> set_pan (mkRPoint 0 0)
      |> set_scale 1%R
      |> commitHistory.

(** ** Auto-layout *)

Inductive Direction : Type := vertical | horizontal.

(** [(m.get(k) || 0)] *)
Definition getOr0 (m : gmap string Z) (k : string) : Z := default 0%Z (m !! k).

(** In-degree table and adjacency lists: every node starts with in-degree
    0 and no successor; every edge adds one to its target's in-degree and,
    when its source is a node, appends its target to the source's list. *)
Definition tableNode (t : gmap string Z * gmap string (list string))
  (n : FlowNode) : gmap string Z * gmap string (list string) :=
  (<[n_id n := 0%Z]> (fst t), <[n_id n := []]> (snd t)).

Definition tableEdge (t : gmap string Z * gmap string (list string))
  (e : FlowEdge) : gmap string Z * gmap string (list string) :=
  (<[e_targetId e := (getOr0 (fst t) (e_targetId e) + 1)%Z]> (fst t),
   match snd t !! e_sourceId e with
   | Some out => <[e_sourceId e := out ++ [e_targetId e]]> (snd t)
   | None => snd t
   end).

Definition layoutTables (nodes : list FlowNode) (edges : list FlowEdge)
  : gmap string Z * gmap string (list string) :=
  fold_left tableEdge edges (fold_left tableNode nodes (∅, ∅)).

(** The inner loop of the layering pass over the children of a dequeued
    node of depth [d]: the accumulator holds the depth table, the remaining
    in-degrees and the ids pushed on the queue. *)
Definition relaxChild (d : Z)
  (acc : gmap string Z * gmap string Z * list string) (child : string)
  : gmap string Z * gmap string Z * list string :=
  let '(depth, inc, pushed) := acc in
  let next := Z.max (getOr0 depth child) (d + 1) in
  let depth' := <[child := next]> depth in
  let inc' := <[child := (getOr0 inc child - 1)%Z]> inc in
  (depth', inc', if (getOr0 inc' child <=? 0)%Z then pushed ++ [child] else pushed).

(** The work-queue loop; [queue] is the part of the array from [qIndex] on.
    [None] when the iteration bound [fuel] is exhausted before the queue
    is. *)
Fixpoint layering (fuel : nat) (adj : gmap string (list string))
  (queue : list string) (depth inc : gmap string Z) : option (gmap string Z) :=
  match queue with
  | [] => Some depth
  | id :: rest =>
      match fuel with
      | O => None
      | S fuel' =>
          let d := getOr0 depth id in
          let children := default [] (adj !! id) in
          let '(depth', inc', pushed) :=
            fold_left (relaxChild d) children (depth, inc, []) in
          layering fuel' adj (rest ++ pushed) depth' inc'
      end
  end.

(** The layer table: layer number to the positions, in [nodes], of the
    nodes of that layer, in insertion order. *)
Fixpoint groupPush (groups : list (Z * list nat)) (d : Z) (i : nat)
  : list (Z * list nat) :=
  match groups with
  | [] => [(d, [i])]
  | (k, items) :: rest =>
      if (k =? d)%Z then (k, items ++ [i]) :: rest
      else (k, items) :: groupPush rest d i
  end.

Definition layoutGroups (nodes : list FlowNode) (depth : gmap string Z)
  : list (Z * list nat) :=
  fold_left
    (fun groups '(i, n) => groupPush groups (getOr0 depth (n_id n)) i)
    (combine (seq 0 (length nodes)) nodes) [].

(** The position given to item [i] of layer [layer]. *)
Definition placeAt (direction : Direction) (layer : Z) (i : nat)
  (node : FlowNode) : FlowNode :=
  match direction with
  | vertical => setPosition (180 + INR i * 140) (120 + IZR layer * 170) node
  | horizontal => setPosition (180 + IZR layer * 170) (120 + INR i * 140) node
  end%R.

Definition placeItem (direction : Direction) (layer : Z)
  (ns : list FlowNode) (item : nat * nat) : list FlowNode :=
  let '(i, idx) := item in
  alter (placeAt direction layer i) idx ns.

Definition placeLayer (direction : Direction) (groups : list (Z * list nat))
  (ns : list FlowNode) (layer : Z) : list FlowNode :=
  match List.find (fun g => (fst g =? layer)%Z) groups with
  | Some (_, items) =>
      fold_left (placeItem direction layer)
        (combine (seq 0 (length items)) items) ns
  | None => ns
  end.

Definition autoLayout (direction : Direction) (fuel : nat) (s : Editor)
  : option Editor :=
  match nodes s with
  | [] => Some s
  | first :: _ =>
      let '(inc, adj) := layoutTables (nodes s) (edges s) in
      let roots :=
        map n_id (List.filter (fun n => (getOr0 inc (n_id n) =? 0)%Z) (nodes s)) in
      let queue := if (length roots =? 0)%nat then [n_id first] else roots in
      let depth0 := fold_left (fun dp id => <[id := 0%Z]> dp) queue ∅ in
      match layering fuel adj queue depth0 inc with
      | None => None
      | Some depth1 =>
          let depth :=
            fold_left
              (fun dp n => match dp !! n_id n with
                           | Some _ => dp
                           | None => <[n_id n := 0%Z]> dp
                           end)
              (nodes s) depth1 in
          let groups := layoutGroups (nodes s) depth in
          let layers := merge_sort Z.le (map fst groups) in
          let placed := fold_left (placeLayer direction groups) layers (nodes s) in
          Some (s |> set_nodes placed
                  |> set_edges (map (setBend None None) (edges s))
                  |> commitHistory)
      end
  end.

(** ** Rendering of the edges

    The canvas calls of [draw] that concern nodes and edges, in order; the
    background grid, the marquee outline and the mini map are left out.
    Nothing is drawn while the canvas is not mounted. *)

Inductive DrawCmd : Type :=
| StrokeEdge (p : EdgePath) (strokeStyle : string) (lineWidth : R) (dash : bool)
| FillLabel (text : string) (x y : num) (bold : bool) (fontSize : R)
    (fillStyle : string)
| FillHandle (x y : num)
| DrawNode (node : FlowNode) (selected pendingConnect : bool)
| FillArrow (x1 y1 x2 y2 : num) (fillStyle : string).

Definition edgeStrokeColor (s : Editor) (edge : FlowEdge) : string :=
  if String.eqb (e_id edge) (selectedEdgeId s) then "#a78bfa"
  else strOr (e_lineColor edge) "#334155".

(** The first [edges.forEach] of [draw]. *)
Definition drawEdge (s : Editor) (edge : FlowEdge) : list DrawCmd :=
  match edgePath (nodes s) edge with
  | None => []
  | Some p =>
      let selected := String.eqb (e_id edge) (selectedEdgeId s) in
      let baseWidth := numOr (e_lineWidth edge) (14 / 10) in
      [StrokeEdge p (edgeStrokeColor s edge)
         (if selected then Rmax (21 / 10) baseWidth else baseWidth)
         (match e_lineStyle edge with Some dashed => true | _ => false end)]
      ++ (match e_label edge with
          | Some label =>
              if nonEmpty label then
                [FillLabel label (p_bx p) (nsub (p_by p) (Fin 8))
                   (match e_labelBold edge with Some b => b | None => false end)
                   (Rmax 10 (Rmin 36 (numOr (e_labelFontSize edge) 12)))
                   (strOr (e_labelColor edge) "#94a3b8")]
              else []
          | None => []
          end)
      ++ (if selected then [FillHandle (p_bx p) (p_by p)] else [])
  end.

(** The second [edges.forEach] of [draw]: the arrowheads. *)
Definition drawArrowOf (s : Editor) (edge : FlowEdge) : list DrawCmd :=
  match edgePath (nodes s) edge with
  | None => []
  | Some p => [FillArrow (p_bx p) (p_by p) (p_tx p) (p_ty p) (edgeStrokeColor s edge)]
  end.

Definition drawNode (s : Editor) (node : FlowNode) : DrawCmd :=
  DrawNode node (includes (selectedNodeIds s) (n_id node))
    (String.eqb (n_id node) (connectFromId s)).

Definition draw (s : Editor) : list DrawCmd :=
  match canvasRect s with
  | None => []
  | Some _ =>
      flat_map (drawEdge s) (edges s)
      ++ map (drawNode s) (nodes s)
      ++ flat_map (drawArrowOf s) (edges s)
  end.

(** ** The editor as a transition system *)

Inductive Event : Type :=
| MouseDown (clientX clientY : R) (shiftKey : bool)
| MouseMove (clientX clientY : R)
| MouseUp
| Undo
| Redo
| SelectAll
| Copy
| Paste
| Delete
| ClearFlow (confirmed : bool)
| LoadTemplate (name : TemplateName) (confirmed : bool)
| AutoLayout (direction : Direction) (fuel : nat)
| ImportJson (parsed : JsonText)
| ProjectChange (proj : option (list FlowNode * list FlowEdge))
| ResetHistory
| EditNodeText (text : string)
| ResetEdgeBend
| PickTool (tool : Tool).

(** [None] when the handler throws or, for auto-layout, when its loop does
    not end within the given bound. *)
Definition step (ev : Event) (s : Editor) : option Editor :=
  match ev with
  | MouseDown clientX clientY shiftKey => Some (onMouseDown clientX clientY shiftKey s)
  | MouseMove clientX clientY => Some (onMouseMove clientX clientY s)
  | MouseUp => Some (onMouseUp s)
  | Undo => undo s
  | Redo => redo s
  | SelectAll => Some (selectAll s)
  | Copy => Some (copySelected s)
  | Paste => Some (pasteClipboard s)
  | Delete => Some (deleteSelected s)
  | ClearFlow confirmed => Some (clearFlow confirmed s)
  | LoadTemplate name confirmed => Some (loadTemplate name confirmed s)
  | AutoLayout direction fuel => autoLayout direction fuel s
  | ImportJson parsed => Some (importJson parsed s)
  | ProjectChange proj => Some (onProjectChange proj s)
  | ResetHistory => Some (resetHistory s)
  | EditNodeText text => Some (updateNodeText text s)
  | ResetEdgeBend => Some (resetSelectedEdgeBend s)
  | PickTool tool => Some (set_selectedTool tool s)
  end.

(** The component as first set up, before any project is seen. *)
Definition initialEditor (canvas : option RPoint) (suffix : nat -> string)
  : Editor :=
  mkEditor [] [] ToolSelect "" [] "" "" "" "" false [] ∅ (mkRPoint 0 0)
    false (mkRPoint 0 0) (mkRPoint 0 0) 1%R
    (mkMarquee false 0 0 0 0 false) [] (-1)%Z false None 0%Z
    false canvas 0%nat suffix.

(** ** Analytic outlines

    What the specification compares the boundary points with.  The canvas
    y axis grows downward, so "up" decreases y. *)

Inductive Heading : Type := DueRight | DueLeft | DueUp | DueDown.

Definition headingVector (h : Heading) : R * R :=
  match h with
  | DueRight => (1, 0)
  | DueLeft => (-1, 0)
  | DueUp => (0, -1)
  | DueDown => (0, 1)
  end%R.

(** The boundary point toward the point at distance [d] from the centre in
    the heading. *)
Definition boundaryToward (n : FlowNode) (h : Heading) (d : R) : Point :=
  nodeBoundaryPoint n
    (Fin (n_x n + d * fst (headingVector h))%R)
    (Fin (n_y n + d * snd (headingVector h))%R).

Definition onEllipse (n : FlowNode) (x y : R) : Prop :=
  (((x - n_x n) / (n_width n / 2))² + ((y - n_y n) / (n_height n / 2))² = 1)%R.

Definition onDiamond (n : FlowNode) (x y : R) : Prop :=
  (Rabs (x - n_x n) / (n_width n / 2) + Rabs (y - n_y n) / (n_height n / 2) = 1)%R.

Definition onRectangle (n : FlowNode) (x y : R) : Prop :=
  (Rabs (x - n_x n) = n_width n / 2 /\ Rabs (y - n_y n) <= n_height n / 2)%R
  \/ (Rabs (y - n_y n) = n_height n / 2 /\ Rabs (x - n_x n) <= n_width n / 2)%R.

Definition ioCorners (n : FlowNode) : list (R * R) :=
  [ (n_x n - n_width n / 2 + 20, n_y n - n_height n / 2);
    (n_x n + n_width n / 2, n_y n - n_height n / 2);
    (n_x n + n_width n / 2 - 20, n_y n + n_height n / 2);
    (n_x n - n_width n / 2, n_y n + n_height n / 2) ]%R.

Definition onSegment (a b : R * R) (x y : R) : Prop :=
  exists u : R,
    (0 <= u <= 1 /\ x = fst a + u * (fst b - fst a)
     /\ y = snd a + u * (snd b - snd a))%R.

Definition onQuadrilateral (n : FlowNode) (x y : R) : Prop :=
  exists i : nat,
    (i < 4)%nat
    /\ onSegment (nth i (ioCorners n) (0, 0)%R)
         (nth ((i + 1) mod 4) (ioCorners n) (0, 0)%R) x y.

(** The point is finite and lies on the outline of the node's kind. *)
Definition onOutline (n : FlowNode) (p : Point) : Prop :=
  exists x y : R,
    p = mkPoint (Fin x) (Fin y)
    /\ match n_type n with
       | start | end_ => onEllipse n x y
       | decision => onDiamond n x y
       | process => onRectangle n x y
       | io => onQuadrilateral n x y
       end.

(** ** Pushing an endpoint toward the bend

    [pushedToward k p b q]: [q] is [p] moved by exactly [k] units along the
    direction from [p] to [b]; when [p] is within [1e-6] of [b] the source
    leaves it in place, and [q] is [p]. *)

Definition distance (p q : R * R) : R :=
  sqrt ((fst q - fst p) * (fst q - fst p) + (snd q - snd p) * (snd q - snd p)).

Definition pushedToward (k : R) (p b : R * R) (q : Point) : Prop :=
  ((distance p b < 1 / 1000000)%R /\ q = mkPoint (Fin (fst p)) (Fin (snd p)))
  \/ ((1 / 1000000 <= distance p b)%R
      /\ exists qx qy : R,
           q = mkPoint (Fin qx) (Fin qy)
           /\ (qx = fst p + (fst b - fst p) / distance p b * k)%R
           /\ (qy = snd p + (snd b - snd p) / distance p b * k)%R
           /\ distance p (qx, qy) = k).

(** ** Sequences of commits

    A commit of diagram [d]: the live diagram has become [d] (by whatever
    editing) and [commitHistory] is called. *)

Definition snapshotOf (d : list FlowNode * list FlowEdge) : DiagramSnapshot :=
  mkSnap (map cloneNode (fst d)) (map cloneEdge (snd d)).

Definition commitDiagram (s : Editor) (d : list FlowNode * list FlowEdge)
  : Editor :=
  commitHistory (replaceDiagram (fst d) (snd d) s).

Definition commitAll (ds : list (list FlowNode * list FlowEdge)) (s : Editor)
  : Editor :=
  fold_left commitDiagram ds s.

(** The cap of [commitHistory]: the oldest entry is dropped when there are
    more than 80. *)
Definition cap80 {A : Type} (l : list A) : list A :=
  if (80 <? length l)%nat then tl l else l.

(** The last [k] elements of a list. *)
Definition lastn {A : Type} (k : nat) (l : list A) : list A :=
  skipn (length l - k) l.

(** The history is initialised and its index points at one of its entries. *)
Definition historyWf (s : Editor) : Prop :=
  historyReady s = true
  /\ (0 <= historyIndex s < Z.of_nat (length (history s)))%Z.

(** ** Selection invariant *)

(** The node selection and the edge selection are not both non-empty. *)
Definition selectionXor (s : Editor) : Prop :=
  selectedNodeIds s = [] \/ selectedEdgeId s = "".

(** The history index is [-1] or points at an entry. *)
Definition historyInv (s : Editor) : Prop :=
  (-1 <= historyIndex s < Z.of_nat (length (history s)))%Z.

Definition isAutoLayout (ev : Event) : bool :=
  match ev with AutoLayout _ _ => true | _ => false end.

(** ** Pasted groups *)

(** The id the generator returns at call number [k]. *)
Definition idOfCall (s : Editor) (prefix : string) (k : nat) : string :=
  (prefix ++ "_" ++ idSuffix s k)%string.

(** [n'] is the node [n] moved by [k] in x and in y: its coordinates are
    those of [n] plus [k], its kind, text and size those of [n]; the id is
    left free. *)
Definition offsetNode (k : R) (n n' : FlowNode) : Prop :=
  n_x n' = (n_x n + k)%R /\ n_y n' = (n_y n + k)%R
  /\ n_type n' = n_type n /\ n_text n' = n_text n
  /\ n_width n' = n_width n /\ n_height n' = n_height n.

(** A bend coordinate moved by [k]: an explicit one is [k] more, an absent
    one stays absent. *)
Definition shiftedBy (k : R) (b b' : option R) : Prop :=
  match b with
  | Some v => b' = Some (v + k)%R
  | None => b' = None
  end.

(** [e'] is the edge [e] with its explicit bend moved by [k] in x and in y
    and its label kept; id and endpoints are left free. *)
Definition offsetEdge (k : R) (e e' : FlowEdge) : Prop :=
  shiftedBy k (e_bendX e) (e_bendX e')
  /\ shiftedBy k (e_bendY e) (e_bendY e')
  /\ e_label e' = e_label e.

(** The endpoints of the pasted edge [e'] are those of the clipboard edge
    [e] seen through the paste: its source is the id of the pasted copy (in
    [pasted], position by position) of a copied node (in [copied]) that
    carries the source id of [e], and likewise its target. *)
Definition remappedEdge (copied pasted : list FlowNode) (e e' : FlowEdge)
  : Prop :=
  (exists (i : nat) (n n' : FlowNode),
     copied !! i = Some n /\ pasted !! i = Some n'
     /\ n_id n = e_sourceId e /\ n_id n' = e_sourceId e')
  /\ (exists (i : nat) (n n' : FlowNode),
        copied !! i = Some n /\ pasted !! i = Some n'
        /\ n_id n = e_targetId e /\ n_id n' = e_targetId e').

(** The ids the generator hands out from the current call on are pairwise
    distinct and are the ids of no node and no edge of the diagram: the
    guarantee the id generator owes the editor. *)
Definition freshSupply (s : Editor) : Prop :=
  (forall i j : nat, idSuffix s i = idSuffix s j -> i = j)
  /\ (forall k : nat,
        (idCalls s <= k)%nat ->
        ~ In (idOfCall s "node" k) (map n_id (nodes s)))
  /\ (forall k : nat,
        (idCalls s <= k)%nat ->
        ~ In (idOfCall s "edge" k) (map e_id (edges s))).

(** The pasted nodes for generated ids [ids], the substitution table the
    node loop builds, and the clipboard edges the edge loop keeps. *)
Definition pastedNodes (offset : R) (ids : list string) (cn : list FlowNode)
  : list FlowNode :=
  map (fun p => pastedNode offset (fst p) (snd p)) (combine ids cn).

Definition idMapOf (ids : list string) (cn : list FlowNode)
  (m : gmap string string) : gmap string string :=
  fold_left (fun m p => <[n_id (snd p) := fst p]> m) (combine ids cn) m.

Definition keepsEdge (idMap : gmap string string) (e : FlowEdge) : bool :=
  match idMap !! e_sourceId e, idMap !! e_targetId e with
  | Some sourceId, Some targetId => nonEmpty sourceId && nonEmpty targetId
  | _, _ => false
  end.

Definition remapEdge (offset : R) (idMap : gmap string string)
  (id : string) (e : FlowEdge) : FlowEdge :=
  match idMap !! e_sourceId e, idMap !! e_targetId e with
  | Some sourceId, Some targetId => pastedEdge offset id sourceId targetId e
  | _, _ => e
  end.

Definition pastedEdges (offset : R) (idMap : gmap string string)
  (ids : list string) (ce : list FlowEdge) : list FlowEdge :=
  map (fun p => remapEdge offset idMap (fst p) (snd p))
    (combine ids (List.filter (keepsEdge idMap) ce)).

Definition callIds (s : Editor) (prefix : string) (from count : nat)
  : list string :=
  map (idOfCall s prefix) (seq from count).

(** The states the editor can be in: the initial one and those a handler
    produces from one of them. *)
Inductive Reachable : Editor -> Prop :=
| ReachInitial (canvas : option RPoint) (suffix : nat -> string) :
    Reachable (initialEditor canvas suffix)
| ReachStep (ev : Event) (s s' : Editor) :
    Reachable s -> step ev s = Some s' -> Reachable s'.

(** ** A small diagram for the examples *)

(** An id generator whose suffix at call [k] is [k] letters. *)
Fixpoint tally (k : nat) : string :=
  match k with
  | O => ""
  | S k' => String "x"%char (tally k')
  end.

(** Three nodes, an edge inside the selection and one leaving it, the
    first two nodes selected. *)
Definition pasteExample : Editor :=
  initialEditor None tally
  |> set_nodes [mkNode "a" start "" 100 100 140 64;
                mkNode "b" process "" 300 100 140 64;
                mkNode "c" end_ "" 500 100 140 64]
  |> set_edges [mkEdge "e" "a" "b" None None None None None None None
                  (Some 200%R) (Some 60%R);
                tedge "f" "b" "c" None]
  |> setNodeSelection ["a"; "b"].

(** The same diagram with an id generator that repeats itself: every call
    falls in the same millisecond and [Math.random] returns the same digits,
    so [store.generateId] builds the same suffix each time. *)
Definition repeatedSuffix (k : nat) : string := "1700000000000_k3f9zq".

Definition collisionExample : Editor := set_idSuffix repeatedSuffix pasteExample.

(** ** Group drag *)

Definition isInteger (r : R) : Prop := exists z : Z, r = IZR z.

(** What the group loop of [onMouseMove] makes of a node: moved to the
    rounded sum of its recorded start and the delta when a start is
    recorded for its id. *)
Definition movedNode (starts : gmap string RPoint) (dx dy : R) (n : FlowNode)
  : FlowNode :=
  match starts !! n_id n with
  | Some start_ => setPosition (Rround (rx start_ + dx)) (Rround (ry start_ + dy)) n
  | None => n
  end.

(** The delta [onMouseMove] applies to the group: the snapped position of
    the leader less its start. *)
Definition dragDelta (clientX clientY : R) (leaderStart : RPoint) (s : Editor)
  : R * R :=
  let p := toCanvasPoint clientX clientY s in
  let snapped :=
    applySnap (rx leaderStart + (rx p - rx (dragStartPoint s)))
              (ry leaderStart + (ry p - ry (dragStartPoint s)))
              (draggingNodeId s) s in
  (fst snapped - rx leaderStart, snd snapped - ry leaderStart)%R.

(** The x (or the y) of the nodes other than [movingId], in diagram
    order: the candidates of the alignment loop of [applySnap]. *)
Definition otherCoords (coord : FlowNode -> R) (movingId : string)
  (ns : list FlowNode) : list R :=
  map coord (List.filter (fun n => negb (String.eqb (n_id n) movingId)) ns).

(** One pass of that loop on one axis: the candidate [c] is taken when it
    is within 8 of the value held. *)
Definition alignStep (cur c : R) : R :=
  if Rleb (Rabs (c - cur)) 8 then c else cur.

(** [v] is reached from the grid value [g] by alignment on the candidates
    [cs]: it is [g] itself, or a candidate within 8 of a value so reached. *)
Inductive alignedFrom (cs : list R) (g : R) : R -> Prop :=
| AlignedGrid : alignedFrom cs g g
| AlignedNode (v c : R) :
    alignedFrom cs g v -> In c cs -> (Rabs (c - v) <= 8)%R ->
    alignedFrom cs g c.

(** Two nodes half a unit apart, both dragged, the first leading; the
    canvas is mounted at the client origin with no pan at zoom 1. *)
Definition dragExample : Editor :=
  initialEditor (Some (mkRPoint 0 0)) tally
  |> set_nodes [mkNode "a" process "" 0 0 140 64;
                mkNode "b" process "" (1 / 2) 0 140 64]
  |> setNodeSelection ["a"; "b"]
  |> set_draggingNodeId "a"
  |> set_draggingGroupIds ["a"; "b"]
  |> set_groupDragStart
       (<["b" := mkRPoint (1 / 2) 0]> (<["a" := mkRPoint 0 0]> ∅))
  |> set_dragStartPoint (mkRPoint 0 0).

(** ** Chains *)

(** What the layering pass needs of the tables of a chain from [A] through
    [B] to [C]: the in-degrees and the adjacency lists. *)
Definition chainTables (A B C : string) (inc : gmap string Z)
  (adj : gmap string (list string)) : Prop :=
  inc !! A = Some 0%Z /\ inc !! B = Some 1%Z /\ inc !! C = Some 1%Z
  /\ adj !! A = Some [B] /\ adj !! B = Some [C] /\ adj !! C = Some [].

(** The depth table the layering pass returns for that chain. *)
Definition chainDepth (A B C : string) : gmap string Z :=
  <[C := 2%Z]> (<[B := 1%Z]> (<[A := 0%Z]> ∅)).

(** A chain diagram stored out of order: the nodes as c, a, b and the
    edges as b -> c, a -> b, the second edge with an explicit bend. *)
Definition chainExample : Editor :=
  initialEditor None tally
  |> set_nodes [tnode "c" end_ "" 40 40;
                tnode "a" start "" 400 10;
                tnode "b" process "" 7 300]
  |> set_edges [tedge "f" "b" "c" None;
                mkEdge "e" "a" "b" None None None None None None None
                  (Some 200%R) (Some 60%R)].

(** ** The view: bounds, centring, zoom and the mini map *)

Record Bounds : Type := mkBounds {
  b_minX : num; b_minY : num; b_maxX : num; b_maxY : num
}.

(** One pass of the loop of [getDiagramBounds]. *)
Definition boundsStep (b : Bounds) (n : FlowNode) : Bounds :=
  mkBounds
    (nmin (b_minX b) (nsub (Fin (n_x n)) (ndiv (Fin (n_width n)) (Fin 2))))
    (nmin (b_minY b) (nsub (Fin (n_y n)) (ndiv (Fin (n_height n)) (Fin 2))))
    (nmax (b_maxX b) (nadd (Fin (n_x n)) (ndiv (Fin (n_width n)) (Fin 2))))
    (nmax (b_maxY b) (nadd (Fin (n_y n)) (ndiv (Fin (n_height n)) (Fin 2)))).

Definition getDiagramBounds (nodes : list FlowNode) : Bounds :=
  match nodes with
  | [] => mkBounds (Fin (-400)) (Fin (-300)) (Fin 400) (Fin 300)
  | _ =>
      let b := fold_left boundsStep nodes (mkBounds PInf PInf NInf NInf) in
      mkBounds (nsub (b_minX b) (Fin 80)) (nsub (b_minY b) (Fin 80))
               (nadd (b_maxX b) (Fin 80)) (nadd (b_maxY b) (Fin 80))
  end.

(** [Number(x.toFixed(2))]: the sign is set aside; from [1e21] on the
    number is printed as it is; otherwise the integer nearest to a hundred
    times the magnitude is taken, the larger one on a tie, and divided by a
    hundred.  [toFixed] applies this rule to the exact value of its
    argument, and so does the model; the argument here is the exact result
    of the arithmetic before it, where the source has that result rounded to
    a double, so when the exact result is a tie (0.825, say) the source may
    round to either neighbour.  The properties below hold for both. *)
Definition toFixed2 (x : R) : R :=
  let a := Rabs x in
  if Rleb (10 ^ 21) a then x
  else
    let m := (Rround (a * 100) / 100)%R in
    if Rltb x 0 then (- m)%R else m.




Definition onWheel (deltaY : R) (s : Editor) : Editor :=
  let delta := if Rltb deltaY 0 then (1 / 10)%R else (- (1 / 10))%R in
  set_scale (Rmax (1 / 2) (Rmin 2 (toFixed2 (scale s + delta)))) s.






(** ** Alignment and distribution *)

Inductive AlignMode : Type :=
| AlignLeft | AlignHCenter | AlignTop | AlignVCenter | AlignHSpace | AlignVSpace.

Definition setX (x : R) (n : FlowNode) : FlowNode := setPosition x (n_y n) n.
Definition setY (y : R) (n : FlowNode) : FlowNode := setPosition (n_x n) y n.

(** [selected.forEach((n) => { ... })]: the selected nodes are the nodes of
    the diagram whose id is selected, and the loop writes to those very
    objects. *)
Definition forSelected (ids : list string) (f : FlowNode -> FlowNode)
  (nodes : list FlowNode) : list FlowNode :=
  map (fun n => if includes ids (n_id n) then f n else n) nodes.

(** [[...selected].sort((a, b) => key(a) - key(b))], the nodes carried with
    their position in [nodes]: the sort is stable, and so is this insertion
    sort, which puts an element before the first one that is not smaller. *)
Fixpoint insertByKey (key : FlowNode -> R) (a : nat * FlowNode)
  (l : list (nat * FlowNode)) : list (nat * FlowNode) :=
  match l with
  | [] => [a]
  | b :: l' =>
      if Rleb (key (snd a)) (key (snd b)) then a :: l
      else b :: insertByKey key a l'
  end.

Definition sortByKey (key : FlowNode -> R) (l : list (nat * FlowNode))
  : list (nat * FlowNode) :=
  fold_right (insertByKey key) [] l.

(** The selected nodes with their positions in [nodes]. *)
Definition selectedItems (ids : list string) (nodes : list FlowNode)
  : list (nat * FlowNode) :=
  List.filter (fun item => includes ids (n_id (snd item)))
    (combine (seq 0 (length nodes)) nodes).

(** The two distribution modes: the selected nodes sorted by [key] are set,
    through [set], to equally spaced values from the smallest key to the
    largest. *)
Definition distribute (key : FlowNode -> R) (set : R -> FlowNode -> FlowNode)
  (ids : list string) (nodes : list FlowNode) : list FlowNode :=
  let arr := sortByKey key (selectedItems ids nodes) in
  match arr, rev arr with
  | first :: _, final :: _ =>
      let start_ := key (snd first) in
      let end_ := key (snd final) in
      let gap := ((end_ - start_) / (INR (length arr) - 1))%R in
      fold_left
        (fun ns '(i, item) => alter (set (start_ + gap * INR i)%R) (fst item) ns)
        (combine (seq 0 (length arr)) arr) nodes
  | _, _ => nodes
  end.

Definition alignSelected (mode : AlignMode) (s : Editor) : Editor :=
  if (length (selectedNodeIds s) <? 2)%nat then s
  else
    let ids := selectedNodeIds s in
    match List.filter (fun n => includes ids (n_id n)) (nodes s) with
    | [] | [_] => s
    | first :: rest =>
        let minX := fold_left Rmin (map n_x rest) (n_x first) in
        let maxX := fold_left Rmax (map n_x rest) (n_x first) in
        let minY := fold_left Rmin (map n_y rest) (n_y first) in
        let maxY := fold_left Rmax (map n_y rest) (n_y first) in
        let few := (length (first :: rest) <? 3)%nat in
        match mode with
        | AlignLeft =>
            s |> set_nodes (forSelected ids (setX minX) (nodes s))
              |> commitHistory
        | AlignHCenter =>
            s |> set_nodes (forSelected ids (setX ((minX + maxX) / 2)) (nodes s))
              |> commitHistory
        | AlignTop =>
            s |> set_nodes (forSelected ids (setY minY) (nodes s))
              |> commitHistory
        | AlignVCenter =>
            s |> set_nodes (forSelected ids (setY ((minY + maxY) / 2)) (nodes s))
              |> commitHistory
        | AlignHSpace =>
            if few then s
            else s |> set_nodes (distribute n_x setX ids (nodes s))
                   |> commitHistory
        | AlignVSpace =>
            if few then s
            else s |> set_nodes (distribute n_y setY ids (nodes s))
                   |> commitHistory
        end
    end.

(** ** Committed edits

    [historySynced s]: the history is initialised, its index points at an
    entry, that entry is the live diagram, and a project is open; the state
    the editor is in between two edits. *)
Definition historySynced (s : Editor) : Prop :=
  historyWf s
  /\ activeProject s = true
  /\ nth_error (history s) (Z.to_nat (historyIndex s))
     = Some (mkSnap (nodes s) (edges s)).

(** Every endpoint of every edge is the id of a node. *)
Definition edgesResolve (nodes : list FlowNode) (edges : list FlowEdge) : Prop :=
  forall e : FlowEdge,
    In e edges ->
    In (e_sourceId e) (map n_id nodes) /\ In (e_targetId e) (map n_id nodes).

(** ** Examples for the pointer handlers *)

(** The connect tool with its first node picked and selected. *)
Definition staleExample : Editor :=
  initialEditor (Some (mkRPoint 0 0)) tally
  |> set_nodes [mkNode "a" process "" 0 0 140 64;
                mkNode "b" process "" 300 0 140 64]
  |> set_selectedTool ToolConnect
  |> setSingleNodeSelection "a"
  |> set_connectFromId "a".

(** ** Boxes

    The bounding box of a node, as [getDiagramBounds] and
    [nodeIntersectsRect] compute it: left, top, right, bottom. *)
Definition boxLeft (n : FlowNode) : R := (n_x n - n_width n / 2)%R.
Definition boxTop (n : FlowNode) : R := (n_y n - n_height n / 2)%R.
Definition boxRight (n : FlowNode) : R := (n_x n + n_width n / 2)%R.
Definition boxBottom (n : FlowNode) : R := (n_y n + n_height n / 2)%R.

(** ** Degrees

    The number of edges that end at an id, and the targets of the edges
    that start from it, in edge order: what the tables of [autoLayout]
    hold for a node. *)
Definition inDegree (es : list FlowEdge) (id : string) : nat :=
  length (List.filter (fun e => String.eqb (e_targetId e) id) es).

Definition successors (es : list FlowEdge) (id : string) : list string :=
  map e_targetId (List.filter (fun e => String.eqb (e_sourceId e) id) es).

(** Two nodes joined in both directions. *)
Definition cycleExample : Editor :=
  initialEditor None tally
  |> set_nodes [tnode "a" process "" 0 0; tnode "b" process "" 300 0]
  |> set_edges [tedge "e" "a" "b" None; tedge "f" "b" "a" None].

(** The order the distribution modes sort by. *)
Definition keyLe (key : FlowNode -> R) (a b : nat * FlowNode) : Prop :=
  (key (snd a) <= key (snd b))%R.

(** The order a stable sort by [key] puts numbered nodes in: by key, and
    among equal keys by position in the diagram. *)
Definition keyThenIndex (key : FlowNode -> R) (a b : nat * FlowNode) : Prop :=
  (key (snd a) < key (snd b))%R
  \/ (key (snd a) = key (snd b) /\ (fst a < fst b)%nat).

(** A depth table without negative entries. *)
Definition nonnegTable (depth : gmap string Z) : Prop :=
  forall (id : string) (v : Z), depth !! id = Some v -> (0 <= v)%Z.

(** Every id of depth 1 or more is the target of an edge whose source is
    one of [ids] and lies at most one layer above it. *)
Definition hungBelow (es : list FlowEdge) (ids : list string)
  (depth : gmap string Z) : Prop :=
  forall v : string,
    (1 <= getOr0 depth v)%Z ->
    exists e : FlowEdge,
      In e es /\ e_targetId e = v /\ In (e_sourceId e) ids
      /\ (getOr0 depth v <= getOr0 depth (e_sourceId e) + 1)%Z.

(** ** Acyclic diagrams

    [processedInto es done v]: how many edges end at [v] and start from an
    id of [done].  The edges are acyclic when the ids can be ranked so that
    every edge goes from a lower rank to a higher one. *)
Definition processedInto (es : list FlowEdge) (done : list string)
  (v : string) : nat :=
  length (List.filter
            (fun e => String.eqb (e_targetId e) v && includes done (e_sourceId e))
            es).

Definition acyclic (es : list FlowEdge) : Prop :=
  exists rank : string -> nat,
    forall e : FlowEdge,
      In e es -> (rank (e_sourceId e) < rank (e_targetId e))%nat.

(** What holds between two iterations of the work-queue loop of
    [autoLayout] on a diagram with distinct node ids: [done] are the ids
    dequeued so far and [queue] those waiting.  No id is handled twice; the
    in-degree table holds the edges not yet followed; the ids handled or
    waiting are those whose incoming edges have all been followed; and every
    edge followed goes to a deeper layer. *)
Record layeringInv (es : list FlowEdge) (ids done queue : list string)
  (depth inc : gmap string Z) : Prop := mkLayeringInv {
  inv_nodup : List.NoDup (done ++ queue);
  inv_ids : forall v : string, In v (done ++ queue) -> In v ids;
  inv_inc : forall v : string,
      getOr0 inc v
      = (Z.of_nat (inDegree es v) - Z.of_nat (processedInto es done v))%Z;
  inv_full : forall v : string,
      In v ids ->
      (In v (done ++ queue) <-> processedInto es done v = inDegree es v);
  inv_depth : forall e : FlowEdge,
      In e es -> In (e_sourceId e) done ->
      (getOr0 depth (e_sourceId e) + 1 <= getOr0 depth (e_targetId e))%Z
}.

(** ** Layers

    [layerItems groups layer]: the entry of the layer table for [layer],
    empty when there is none.  [layerIndices depthOf layer items]: the
    positions, among numbered nodes, of those of depth [layer].
    [layerRank depthOf nodes k n]: how many nodes before position [k] have
    the depth of [n], which is the place of the node at [k] in its
    layer. *)
Definition layerItems (groups : list (Z * list nat)) (layer : Z) : list nat :=
  match List.find (fun g => (fst g =? layer)%Z) groups with
  | Some g => snd g
  | None => []
  end.

Definition layerIndices (depthOf : FlowNode -> Z) (layer : Z)
  (items : list (nat * FlowNode)) : list nat :=
  map fst (List.filter (fun p => (depthOf (snd p) =? layer)%Z) items).

Definition layerRank (depthOf : FlowNode -> Z) (nodes : list FlowNode)
  (k : nat) (n : FlowNode) : nat :=
  length (List.filter (fun m => (depthOf m =? depthOf n)%Z) (firstn k nodes)).

(** ** The range of the doubles

    The kernel above computes exactly.  A double cannot exceed
    [Number.MAX_VALUE]: under round-to-nearest an arithmetic result whose
    magnitude reaches [2^1024 - 2^970], halfway between the largest double
    and [2^1024], becomes the infinity of its sign.  The module [Ranged]
    embeds once more the functions whose properties are about finite
    results, with this overflow applied to the result of every addition,
    subtraction, multiplication, division and [Math.hypot]; below the bound
    the arithmetic stays exact (no rounding, no underflow).  [Math.abs],
    [Math.min], [Math.max], [Math.sqrt] and the comparisons cannot
    overflow. *)

Definition overflowBound : R := (2 ^ 1024 - 2 ^ 970)%R.

Definition clip (a : num) : num :=
  match a with
  | Fin r => if Rltb (Rabs r) overflowBound then a else inf_of_sign (Rsign r)
  | _ => a
  end.

Module Ranged.

Definition add (a b : num) : num := clip (nadd a b).
Definition sub (a b : num) : num := clip (nsub a b).
Definition mul (a b : num) : num := clip (nmul a b).
Definition div (a b : num) : num := clip (ndiv a b).
Definition hypot (a b : num) : num := clip (nhypot a b).

Definition ioPoints (x y hw hh : num) : list Point :=
  [ mkPoint (add (sub x hw) slant) (sub y hh);
    mkPoint (add x hw) (sub y hh);
    mkPoint (sub (add x hw) slant) (add y hh);
    mkPoint (sub x hw) (add y hh) ].

Definition pointToSegmentDistance (p_x p_y x1 y1 x2 y2 : num) : num :=
  let A := sub p_x x1 in
  let B := sub p_y y1 in
  let C := sub x2 x1 in
  let D := sub y2 y1 in
  let dot := add (mul A C) (mul B D) in
  let lenSq := add (mul C C) (mul D D) in
  let t :=
    if neqb lenSq (Fin 0) then Fin 0
    else nmax (Fin 0) (nmin (Fin 1) (div dot lenSq)) in
  let ex := add x1 (mul t C) in
  let ey := add y1 (mul t D) in
  hypot (sub p_x ex) (sub p_y ey).

Definition raySegmentIntersection (ox oy dx dy ax ay bx by_ : num)
  : option Hit :=
  let sx := sub bx ax in
  let sy := sub by_ ay in
  let cross := sub (mul dx sy) (mul dy sx) in
  if nlt (nabs cross) (Fin (1 / 10000000)) then None
  else
    let qpx := sub ax ox in
    let qpy := sub ay oy in
    let t := div (sub (mul qpx sy) (mul qpy sx)) cross in
    let u := div (sub (mul qpx dy) (mul qpy dx)) cross in
    if nge t (Fin 0) && nge u (Fin 0) && nle u (Fin 1)
    then Some (mkHit (add ox (mul dx t)) (add oy (mul dy t)) t)
    else None.

Definition ioStep (ox oy dx dy : num) (points : list Point)
  (best : option Hit) (i : nat) : option Hit :=
  let a := pointAt points i in
  let b := pointAt points ((i + 1) mod length points) in
  match raySegmentIntersection ox oy dx dy (px a) (py a) (px b) (py b) with
  | Some hit =>
      match best with
      | None => Some hit
      | Some bst => if nlt (hit_t hit) (hit_t bst) then Some hit else best
      end
  | None => best
  end.

Definition ioBest (ox oy dx dy : num) (points : list Point) : option Hit :=
  fold_left (ioStep ox oy dx dy points) (seq 0 (length points)) None.

Definition rectBoundary (x y dx dy hw hh : num) : Point :=
  let tx := if nlt (nabs dx) (Fin (1 / 10000000)) then PInf
            else div hw (nabs dx) in
  let ty := if nlt (nabs dy) (Fin (1 / 10000000)) then PInf
            else div hh (nabs dy) in
  let t := nmin tx ty in
  mkPoint (add x (mul dx t)) (add y (mul dy t)).

Definition boundaryAlong (node : FlowNode) (dx dy : num) : Point :=
  let x := Fin (n_x node) in
  let y := Fin (n_y node) in
  let hw := div (Fin (n_width node)) (Fin 2) in
  let hh := div (Fin (n_height node)) (Fin 2) in
  match n_type node with
  | start | end_ =>
      let d := add (div (mul dx dx) (mul hw hw))
                   (div (mul dy dy) (mul hh hh)) in
      let t := if ngt d (Fin 0) then div (Fin 1) (nsqrt d) else Fin 0 in
      mkPoint (add x (mul dx t)) (add y (mul dy t))
  | decision =>
      let d := add (div (nabs dx) hw) (div (nabs dy) hh) in
      let t := if ngt d (Fin 0) then div (Fin 1) d else Fin 0 in
      mkPoint (add x (mul dx t)) (add y (mul dy t))
  | io =>
      match ioBest x y dx dy (ioPoints x y hw hh) with
      | Some best => mkPoint (hit_x best) (hit_y best)
      | None => rectBoundary x y dx dy hw hh
      end
  | process => rectBoundary x y dx dy hw hh
  end.

Definition nodeBoundaryPoint (node : FlowNode) (towardX towardY : num)
  : Point :=
  let vx := sub towardX (Fin (n_x node)) in
  let vy := sub towardY (Fin (n_y node)) in
  let len := hypot vx vy in
  if nlt len (Fin (1 / 1000000)) then mkPoint (Fin (n_x node)) (Fin (n_y node))
  else boundaryAlong node (div vx len) (div vy len).

Definition boundsStep (b : Bounds) (n : FlowNode) : Bounds :=
  mkBounds
    (nmin (b_minX b) (sub (Fin (n_x n)) (div (Fin (n_width n)) (Fin 2))))
    (nmin (b_minY b) (sub (Fin (n_y n)) (div (Fin (n_height n)) (Fin 2))))
    (nmax (b_maxX b) (add (Fin (n_x n)) (div (Fin (n_width n)) (Fin 2))))
    (nmax (b_maxY b) (add (Fin (n_y n)) (div (Fin (n_height n)) (Fin 2)))).

Definition getDiagramBounds (nodes : list FlowNode) : Bounds :=
  match nodes with
  | [] => mkBounds (Fin (-400)) (Fin (-300)) (Fin 400) (Fin 300)
  | _ =>
      let b := fold_left boundsStep nodes (mkBounds PInf PInf NInf NInf) in
      mkBounds (sub (b_minX b) (Fin 80)) (sub (b_minY b) (Fin 80))
               (add (b_maxX b) (Fin 80)) (add (b_maxY b) (Fin 80))
  end.

End Ranged.

(** A node whose position and size are at most [bound] in magnitude. *)
Definition nodeWithin (bound : R) (n : FlowNode) : Prop :=
  (Rabs (n_x n) <= bound /\ Rabs (n_y n) <= bound
   /\ Rabs (n_width n) <= bound /\ Rabs (n_height n) <= bound)%R.


(** * Facts about the number model *)

Section NumFacts.
Local Open Scope R_scope.

Lemma Rltb_true (a b : R) : a < b -> Rltb a b = true.
Proof. intros H. unfold Rltb. destruct (Rlt_dec a b); [reflexivity | contradiction]. Qed.

Lemma Rltb_false (a b : R) : b <= a -> Rltb a b = false.
Proof. intros H. unfold Rltb. destruct (Rlt_dec a b); [lra | reflexivity]. Qed.

Lemma Rleb_true (a b : R) : a <= b -> Rleb a b = true.
Proof. intros H. unfold Rleb. destruct (Rle_dec a b); [reflexivity | contradiction]. Qed.

Lemma Rleb_false (a b : R) : b < a -> Rleb a b = false.
Proof. intros H. unfold Rleb. destruct (Rle_dec a b); [lra | reflexivity]. Qed.

Lemma Rltb_spec (a b : R) : Rltb a b = true <-> a < b.
Proof. unfold Rltb. destruct (Rlt_dec a b); split; intros; try easy. Qed.

Lemma Rleb_spec (a b : R) : Rleb a b = true <-> a <= b.
Proof. unfold Rleb. destruct (Rle_dec a b); split; intros; try easy. Qed.

Lemma Reqb_true (a b : R) : a = b -> Reqb a b = true.
Proof. intros H. unfold Reqb. destruct (Req_dec_T a b); [reflexivity | contradiction]. Qed.

Lemma Reqb_false (a b : R) : a <> b -> Reqb a b = false.
Proof. intros H. unfold Reqb. destruct (Req_dec_T a b); [contradiction | reflexivity]. Qed.

Lemma ndiv_Fin (x y : R) : y <> 0 -> ndiv (Fin x) (Fin y) = Fin (x / y).
Proof. intros H. simpl. destruct (Req_dec_T y 0); [contradiction | reflexivity]. Qed.

Lemma nsqrt_Fin (x : R) : 0 <= x -> nsqrt (Fin x) = Fin (sqrt x).
Proof. intros H. simpl. destruct (Rlt_dec x 0); [lra | reflexivity]. Qed.

Lemma nlt_Fin_true (a b : R) : a < b -> nlt (Fin a) (Fin b) = true.
Proof. apply Rltb_true. Qed.

Lemma nlt_Fin_false (a b : R) : b <= a -> nlt (Fin a) (Fin b) = false.
Proof. apply Rltb_false. Qed.

Lemma nle_Fin_true (a b : R) : a <= b -> nle (Fin a) (Fin b) = true.
Proof. apply Rleb_true. Qed.

Lemma nle_Fin_false (a b : R) : b < a -> nle (Fin a) (Fin b) = false.
Proof. apply Rleb_false. Qed.

Lemma sqrt_sq_abs (a : R) : sqrt (a * a + 0 * 0) = Rabs a.
Proof.
  replace (a * a + 0 * 0) with (a²) by (unfold Rsqr; ring).
  apply sqrt_Rsqr_abs.
Qed.

Lemma sqrt_sq_abs' (a : R) : sqrt (0 * 0 + a * a) = Rabs a.
Proof.
  replace (0 * 0 + a * a) with (a²) by (unfold Rsqr; ring).
  apply sqrt_Rsqr_abs.
Qed.

End NumFacts.

(** * Boundary points *)

Section Boundary.
Local Open Scope R_scope.

Lemma headingVector_unit (h : Heading) :
  fst (headingVector h) * fst (headingVector h)
  + snd (headingVector h) * snd (headingVector h) = 1.
Proof. destruct h; simpl; ring. Qed.

(** The length the kernel computes for a target at distance [d] along a
    heading. *)
Lemma heading_length (n : FlowNode) (h : Heading) (d : R) :
  0 <= d ->
  nhypot (nsub (Fin (n_x n + d * fst (headingVector h))) (Fin (n_x n)))
         (nsub (Fin (n_y n + d * snd (headingVector h))) (Fin (n_y n)))
  = Fin d.
Proof.
  intros Hd. cbn [nsub nhypot]. f_equal.
  replace ((n_x n + d * fst (headingVector h) - n_x n)
           * (n_x n + d * fst (headingVector h) - n_x n)
           + (n_y n + d * snd (headingVector h) - n_y n)
             * (n_y n + d * snd (headingVector h) - n_y n))
    with (d * d * (fst (headingVector h) * fst (headingVector h)
                   + snd (headingVector h) * snd (headingVector h))) by ring.
  rewrite headingVector_unit, Rmult_1_r. apply sqrt_square. exact Hd.
Qed.

(** Toward a point at distance [d] along a heading, the normalised
    direction is the heading's unit vector. *)
Lemma boundaryToward_along (n : FlowNode) (h : Heading) (d : R) :
  1 / 1000000 <= d ->
  boundaryToward n h d =
  boundaryAlong n (Fin (fst (headingVector h))) (Fin (snd (headingVector h))).
Proof.
  intros Hd. unfold boundaryToward, nodeBoundaryPoint.
  rewrite heading_length by lra.
  rewrite nlt_Fin_false by lra.
  cbn [nsub]. rewrite !ndiv_Fin by lra.
  f_equal; f_equal; field; lra.
Qed.

(** Nearer than [1e-6] the kernel returns the centre. *)
Lemma boundaryToward_near (n : FlowNode) (h : Heading) (d : R) :
  0 <= d < 1 / 1000000 ->
  boundaryToward n h d = mkPoint (Fin (n_x n)) (Fin (n_y n)).
Proof.
  intros Hd. unfold boundaryToward, nodeBoundaryPoint.
  rewrite heading_length by lra.
  rewrite nlt_Fin_true by lra. reflexivity.
Qed.

(** The ellipse block lands on the ellipse for every direction that is not
    the zero vector. *)
Lemma ellipse_along (n : FlowNode) (dx dy : R) :
  n_type n = start \/ n_type n = end_ ->
  0 < n_width n -> 0 < n_height n ->
  dx * dx + dy * dy = 1 ->
  onOutline n (boundaryAlong n (Fin dx) (Fin dy)).
Proof.
  intros Hk Hw Hh Hu.
  set (hw := n_width n / 2). set (hh := n_height n / 2).
  assert (Hhw : 0 < hw) by (unfold hw; lra).
  assert (Hhh : 0 < hh) by (unfold hh; lra).
  set (D := dx * dx / (hw * hw) + dy * dy / (hh * hh)).
  assert (HD : 0 < D).
  { unfold D.
    assert (0 <= dx * dx / (hw * hw)).
    { apply Rmult_le_pos; [nra | left; apply Rinv_0_lt_compat; nra]. }
    assert (0 <= dy * dy / (hh * hh)).
    { apply Rmult_le_pos; [nra | left; apply Rinv_0_lt_compat; nra]. }
    destruct (Req_dec_T dx 0) as [Hz | Hnz].
    - assert (0 < dy * dy) by nra.
      assert (0 < dy * dy / (hh * hh)).
      { apply Rmult_lt_0_compat; [lra | apply Rinv_0_lt_compat; nra]. }
      lra.
    - assert (0 < dx * dx) by nra.
      assert (0 < dx * dx / (hw * hw)).
      { apply Rmult_lt_0_compat; [lra | apply Rinv_0_lt_compat; nra]. }
      lra. }
  assert (Hs : 0 < sqrt D) by (apply sqrt_lt_R0; exact HD).
  assert (Hss : sqrt D * sqrt D = D) by (apply sqrt_sqrt; lra).
  assert (Heq : boundaryAlong n (Fin dx) (Fin dy) =
                mkPoint (Fin (n_x n + dx * (1 / sqrt D)))
                        (Fin (n_y n + dy * (1 / sqrt D)))).
  { unfold boundaryAlong.
    assert (Hbody :
      (let x := Fin (n_x n) in
       let y := Fin (n_y n) in
       let hw0 := ndiv (Fin (n_width n)) (Fin 2) in
       let hh0 := ndiv (Fin (n_height n)) (Fin 2) in
       let d := nadd (ndiv (nmul (Fin dx) (Fin dx)) (nmul hw0 hw0))
                     (ndiv (nmul (Fin dy) (Fin dy)) (nmul hh0 hh0)) in
       let t := if ngt d (Fin 0) then ndiv (Fin 1) (nsqrt d) else Fin 0 in
       mkPoint (nadd x (nmul (Fin dx) t)) (nadd y (nmul (Fin dy) t)))
      = mkPoint (Fin (n_x n + dx * (1 / sqrt D)))
                (Fin (n_y n + dy * (1 / sqrt D)))).
    { cbv zeta. rewrite !ndiv_Fin by lra. cbn [nmul].
      fold hw hh.
      rewrite !ndiv_Fin by nra. cbn [nadd]. fold D.
      unfold ngt. rewrite nlt_Fin_true by exact HD.
      rewrite nsqrt_Fin by lra. rewrite ndiv_Fin by lra.
      reflexivity. }
    destruct Hk as [-> | ->]; exact Hbody. }
  rewrite Heq. exists (n_x n + dx * (1 / sqrt D)), (n_y n + dy * (1 / sqrt D)).
  split; [reflexivity |].
  assert (Hgoal : onEllipse n (n_x n + dx * (1 / sqrt D)) (n_y n + dy * (1 / sqrt D))).
  { unfold onEllipse. fold hw hh. unfold Rsqr.
    replace ((n_x n + dx * (1 / sqrt D) - n_x n) / hw
             * ((n_x n + dx * (1 / sqrt D) - n_x n) / hw)
             + (n_y n + dy * (1 / sqrt D) - n_y n) / hh
               * ((n_y n + dy * (1 / sqrt D) - n_y n) / hh))
      with (D / (sqrt D * sqrt D)).
    - rewrite Hss. field. lra.
    - generalize dependent (sqrt D). intros s Hs Hss _.
      unfold D. field. repeat split; lra. }
  destruct Hk as [-> | ->]; exact Hgoal.
Qed.

(** The diamond block lands on the diamond likewise. *)
Lemma diamond_along (n : FlowNode) (dx dy : R) :
  n_type n = decision ->
  0 < n_width n -> 0 < n_height n ->
  dx * dx + dy * dy = 1 ->
  onOutline n (boundaryAlong n (Fin dx) (Fin dy)).
Proof.
  intros Hk Hw Hh Hu.
  set (hw := n_width n / 2). set (hh := n_height n / 2).
  assert (Hhw : 0 < hw) by (unfold hw; lra).
  assert (Hhh : 0 < hh) by (unfold hh; lra).
  set (D := Rabs dx / hw + Rabs dy / hh).
  assert (Hax : 0 <= Rabs dx) by apply Rabs_pos.
  assert (Hay : 0 <= Rabs dy) by apply Rabs_pos.
  assert (Hqx : 0 <= Rabs dx / hw)
    by (apply Rmult_le_pos; [lra | left; apply Rinv_0_lt_compat; lra]).
  assert (Hqy : 0 <= Rabs dy / hh)
    by (apply Rmult_le_pos; [lra | left; apply Rinv_0_lt_compat; lra]).
  assert (HD : 0 < D).
  { unfold D. destruct (Req_dec_T dx 0) as [Hz | Hnz].
    - assert (dy <> 0) by nra.
      assert (0 < Rabs dy) by (apply Rabs_pos_lt; assumption).
      assert (0 < Rabs dy / hh)
        by (apply Rmult_lt_0_compat; [lra | apply Rinv_0_lt_compat; lra]).
      lra.
    - assert (0 < Rabs dx) by (apply Rabs_pos_lt; assumption).
      assert (0 < Rabs dx / hw)
        by (apply Rmult_lt_0_compat; [lra | apply Rinv_0_lt_compat; lra]).
      lra. }
  assert (Heq : boundaryAlong n (Fin dx) (Fin dy) =
                mkPoint (Fin (n_x n + dx * (1 / D))) (Fin (n_y n + dy * (1 / D)))).
  { unfold boundaryAlong. rewrite Hk. cbv zeta.
    rewrite !ndiv_Fin by lra. cbn [nabs]. fold hw hh.
    rewrite !ndiv_Fin by lra. cbn [nadd]. fold D.
    unfold ngt. rewrite nlt_Fin_true by exact HD.
    rewrite ndiv_Fin by lra. reflexivity. }
  rewrite Heq. exists (n_x n + dx * (1 / D)), (n_y n + dy * (1 / D)).
  split; [reflexivity |]. rewrite Hk. unfold onDiamond. fold hw hh.
  replace (n_x n + dx * (1 / D) - n_x n) with (dx * / D) by (field; lra).
  replace (n_y n + dy * (1 / D) - n_y n) with (dy * / D) by (field; lra).
  assert (HiD : 0 < / D) by (apply Rinv_0_lt_compat; exact HD).
  rewrite !Rabs_mult, (Rabs_pos_eq (/ D)) by lra.
  replace (Rabs dx * / D / hw + Rabs dy * / D / hh) with (D * / D).
  - field. lra.
  - generalize (/ D). intros iD. unfold D. field. split; lra.
Qed.

(** The rectangle block, along a heading. *)
Lemma rectBoundary_heading (x y hw hh : R) (h : Heading) :
  rectBoundary (Fin x) (Fin y) (Fin (fst (headingVector h)))
    (Fin (snd (headingVector h))) (Fin hw) (Fin hh) =
  match h with
  | DueRight => mkPoint (Fin (x + 1 * (hw / 1))) (Fin (y + 0 * (hw / 1)))
  | DueLeft => mkPoint (Fin (x + -1 * (hw / 1))) (Fin (y + 0 * (hw / 1)))
  | DueUp => mkPoint (Fin (x + 0 * (hh / 1))) (Fin (y + -1 * (hh / 1)))
  | DueDown => mkPoint (Fin (x + 0 * (hh / 1))) (Fin (y + 1 * (hh / 1)))
  end.
Proof.
  assert (H1 : Rabs 1 = 1) by (apply Rabs_pos_eq; lra).
  assert (Hm1 : Rabs (-1) = 1) by (unfold Rabs; destruct (Rcase_abs (-1)); lra).
  assert (H0 : Rabs 0 = 0) by apply Rabs_R0.
  destruct h; unfold rectBoundary; cbn [headingVector fst snd nabs];
    rewrite ?H1, ?Hm1, ?H0;
    rewrite (nlt_Fin_true 0) by lra;
    rewrite (nlt_Fin_false 1) by lra;
    rewrite ndiv_Fin by lra; reflexivity.
Qed.

Lemma rectangle_heading (n : FlowNode) (h : Heading) :
  n_type n = process ->
  0 < n_width n -> 0 < n_height n ->
  onOutline n (boundaryAlong n (Fin (fst (headingVector h)))
                 (Fin (snd (headingVector h)))).
Proof.
  intros Hk Hw Hh.
  unfold boundaryAlong. rewrite Hk. cbv zeta.
  rewrite !ndiv_Fin by lra. rewrite rectBoundary_heading.
  unfold onOutline. rewrite Hk. unfold onRectangle.
  destruct h; eexists; eexists; (split; [reflexivity |]).
  - left. split.
    + replace (n_x n + 1 * (n_width n / 2 / 1) - n_x n) with (n_width n / 2) by field.
      apply Rabs_pos_eq; lra.
    + replace (n_y n + 0 * (n_width n / 2 / 1) - n_y n) with 0 by field.
      rewrite Rabs_R0; lra.
  - left. split.
    + replace (n_x n + -1 * (n_width n / 2 / 1) - n_x n) with (- (n_width n / 2)) by field.
      rewrite Rabs_Ropp. apply Rabs_pos_eq; lra.
    + replace (n_y n + 0 * (n_width n / 2 / 1) - n_y n) with 0 by field.
      rewrite Rabs_R0; lra.
  - right. split.
    + replace (n_y n + -1 * (n_height n / 2 / 1) - n_y n) with (- (n_height n / 2)) by field.
      rewrite Rabs_Ropp. apply Rabs_pos_eq; lra.
    + replace (n_x n + 0 * (n_height n / 2 / 1) - n_x n) with 0 by field.
      rewrite Rabs_R0; lra.
  - right. split.
    + replace (n_y n + 1 * (n_height n / 2 / 1) - n_y n) with (n_height n / 2) by field.
      apply Rabs_pos_eq; lra.
    + replace (n_x n + 0 * (n_height n / 2 / 1) - n_x n) with 0 by field.
      rewrite Rabs_R0; lra.
Qed.

(** A hit of the ray on a segment is a point of that segment. *)
Lemma raySegmentIntersection_sound (ox oy dx dy ax ay bx by_ : R) (hit : Hit) :
  raySegmentIntersection (Fin ox) (Fin oy) (Fin dx) (Fin dy)
    (Fin ax) (Fin ay) (Fin bx) (Fin by_) = Some hit ->
  exists t : R,
    hit = mkHit (Fin (ox + dx * t)) (Fin (oy + dy * t)) (Fin t)
    /\ onSegment (ax, ay) (bx, by_) (ox + dx * t) (oy + dy * t).
Proof.
  unfold raySegmentIntersection. cbn [nsub nmul nabs].
  set (cross := dx * (by_ - ay) - dy * (bx - ax)).
  unfold nlt, Rltb. destruct (Rlt_dec (Rabs cross) (1 / 10000000)) as [Hs | Hs];
    [discriminate |].
  assert (Hc : cross <> 0).
  { intros Hz. apply Hs. rewrite Hz, Rabs_R0. lra. }
  rewrite !ndiv_Fin by exact Hc.
  set (t := ((ax - ox) * (by_ - ay) - (ay - oy) * (bx - ax)) / cross).
  set (u := ((ax - ox) * dy - (ay - oy) * dx) / cross).
  unfold nge, nle, Rleb.
  destruct (Rle_dec 0 t) as [Ht | Ht]; [| discriminate].
  destruct (Rle_dec 0 u) as [Hu0 | Hu0]; [| discriminate].
  destruct (Rle_dec u 1) as [Hu1 | Hu1]; [| discriminate].
  cbn [andb nadd]. intros [= <-]. exists t. split; [reflexivity |].
  exists u. cbn [fst snd]. split; [lra |].
  unfold t, u, cross. split; field; exact Hc.
Qed.

(** The ray hits the segment when it is not nearly parallel to it and the
    two parameters are in range. *)
Lemma raySegmentIntersection_hit (ox oy dx dy ax ay bx by_ : R) :
  let cross := dx * (by_ - ay) - dy * (bx - ax) in
  1 / 10000000 <= Rabs cross ->
  0 <= ((ax - ox) * (by_ - ay) - (ay - oy) * (bx - ax)) / cross ->
  0 <= ((ax - ox) * dy - (ay - oy) * dx) / cross <= 1 ->
  raySegmentIntersection (Fin ox) (Fin oy) (Fin dx) (Fin dy)
    (Fin ax) (Fin ay) (Fin bx) (Fin by_) <> None.
Proof.
  intros cross Hs Ht Hu.
  unfold raySegmentIntersection. cbn [nsub nmul nabs]. fold cross.
  rewrite nlt_Fin_false by exact Hs.
  assert (Hc : cross <> 0).
  { intros Hz. rewrite Hz, Rabs_R0 in Hs. lra. }
  rewrite !ndiv_Fin by exact Hc.
  unfold nge. rewrite !nle_Fin_true by lra. discriminate.
Qed.

(** The io loop keeps a hit once it has one, and its result is the hit of
    one of the segments it visited. *)
Lemma ioBest_fold_some (ox oy dx dy : num) (points : list Point)
  (l : list nat) (best : option Hit) :
  best <> None -> fold_left (ioStep ox oy dx dy points) l best <> None.
Proof.
  revert best. induction l as [| i l IH]; intros best Hb; [exact Hb |].
  cbn [fold_left]. apply IH. unfold ioStep.
  destruct (raySegmentIntersection _ _ _ _ _ _ _ _); [| exact Hb].
  destruct best as [b |]; [| discriminate].
  destruct (nlt _ _); discriminate.
Qed.

Lemma ioBest_fold_hit (ox oy dx dy : num) (points : list Point)
  (l : list nat) (best : option Hit) (i : nat) :
  In i l ->
  raySegmentIntersection ox oy dx dy
    (px (pointAt points i)) (py (pointAt points i))
    (px (pointAt points ((i + 1) mod length points)))
    (py (pointAt points ((i + 1) mod length points))) <> None ->
  fold_left (ioStep ox oy dx dy points) l best <> None.
Proof.
  revert best. induction l as [| j l IH]; intros best Hin Hhit; [destruct Hin |].
  cbn [fold_left]. destruct Hin as [-> | Hin].
  - apply ioBest_fold_some. unfold ioStep.
    destruct (raySegmentIntersection _ _ _ _ _ _ _ _) as [hit |];
      [| contradiction].
    destruct best as [b |]; [| discriminate].
    destruct (nlt _ _); discriminate.
  - apply IH; assumption.
Qed.

Lemma ioBest_fold_from (ox oy dx dy : num) (points : list Point)
  (l : list nat) (best : option Hit) (b : Hit) :
  fold_left (ioStep ox oy dx dy points) l best = Some b ->
  best = Some b
  \/ exists i, In i l
       /\ raySegmentIntersection ox oy dx dy
            (px (pointAt points i)) (py (pointAt points i))
            (px (pointAt points ((i + 1) mod length points)))
            (py (pointAt points ((i + 1) mod length points))) = Some b.
Proof.
  revert best. induction l as [| j l IH]; intros best Hf; [left; exact Hf |].
  cbn [fold_left] in Hf. apply IH in Hf. destruct Hf as [Hf | [i [Hin Hi]]].
  - unfold ioStep in Hf.
    destruct (raySegmentIntersection _ _ _ _ _ _ _ _) as [hit |] eqn:Hr.
    + destruct best as [b0 |].
      * destruct (nlt _ _).
        -- right. exists j. split; [left; reflexivity |]. rewrite Hr. exact Hf.
        -- left. exact Hf.
      * right. exists j. split; [left; reflexivity |]. rewrite Hr. exact Hf.
    + left. exact Hf.
  - right. exists i. split; [right; exact Hin | exact Hi].
Qed.

(** The corners the io block computes are the corners of the outline. *)
Lemma ioPoints_corners (n : FlowNode) (i : nat) :
  (i < 4)%nat ->
  pointAt (ioPoints (Fin (n_x n)) (Fin (n_y n)) (Fin (n_width n / 2))
             (Fin (n_height n / 2))) i =
  mkPoint (Fin (fst (nth i (ioCorners n) (0, 0))))
          (Fin (snd (nth i (ioCorners n) (0, 0)))).
Proof.
  intros Hi. destruct i as [| [| [| [| i]]]]; try lia; reflexivity.
Qed.

(** Whatever the io loop returns lies on the quadrilateral. *)
Lemma ioBest_on_quadrilateral (n : FlowNode) (dx dy : R) (b : Hit) :
  ioBest (Fin (n_x n)) (Fin (n_y n)) (Fin dx) (Fin dy)
    (ioPoints (Fin (n_x n)) (Fin (n_y n)) (Fin (n_width n / 2))
       (Fin (n_height n / 2))) = Some b ->
  exists x y : R,
    hit_x b = Fin x /\ hit_y b = Fin y /\ onQuadrilateral n x y.
Proof.
  unfold ioBest. intros Hb. apply ioBest_fold_from in Hb.
  destruct Hb as [Hb | [i [Hin Hi]]]; [discriminate |].
  cbn [length ioPoints] in Hin, Hi.
  assert (Hi4 : (i < 4)%nat) by (apply in_seq in Hin; lia).
  assert (Hj4 : ((i + 1) mod 4 < 4)%nat) by (apply Nat.mod_upper_bound; lia).
  change (pointAt _ i) with
    (pointAt (ioPoints (Fin (n_x n)) (Fin (n_y n)) (Fin (n_width n / 2))
                (Fin (n_height n / 2))) i) in Hi.
  change (pointAt _ ((i + 1) mod 4)) with
    (pointAt (ioPoints (Fin (n_x n)) (Fin (n_y n)) (Fin (n_width n / 2))
                (Fin (n_height n / 2))) ((i + 1) mod 4)) in Hi.
  rewrite !ioPoints_corners in Hi by assumption.
  cbn [px py] in Hi.
  apply raySegmentIntersection_sound in Hi. destruct Hi as [t [-> Hseg]].
  eexists; eexists. split; [reflexivity |]. split; [reflexivity |].
  exists i. split; [exact Hi4 |].
  destruct (nth i (ioCorners n) (0, 0)) as [ax ay].
  destruct (nth ((i + 1) mod 4) (ioCorners n) (0, 0)) as [bx by_].
  exact Hseg.
Qed.

(** A segment of the quadrilateral that the ray hits gives the io loop a
    result. *)
Lemma ioBest_segment (n : FlowNode) (dx dy : R) (i : nat) :
  (i < 4)%nat ->
  (let a := nth i (ioCorners n) (0, 0) in
   let b := nth ((i + 1) mod 4) (ioCorners n) (0, 0) in
   let cross := dx * (snd b - snd a) - dy * (fst b - fst a) in
   1 / 10000000 <= Rabs cross
   /\ 0 <= ((fst a - n_x n) * (snd b - snd a)
            - (snd a - n_y n) * (fst b - fst a)) / cross
   /\ 0 <= ((fst a - n_x n) * dy - (snd a - n_y n) * dx) / cross <= 1) ->
  ioBest (Fin (n_x n)) (Fin (n_y n)) (Fin dx) (Fin dy)
    (ioPoints (Fin (n_x n)) (Fin (n_y n)) (Fin (n_width n / 2))
       (Fin (n_height n / 2))) <> None.
Proof.
  intros Hi [Hc [Ht Hu]]. unfold ioBest.
  apply (ioBest_fold_hit _ _ _ _ _ _ _ i).
  - cbn [length ioPoints]. apply in_seq. lia.
  - cbn [length ioPoints].
    assert (Hj4 : ((i + 1) mod 4 < 4)%nat) by (apply Nat.mod_upper_bound; lia).
    change (pointAt _ i) with
      (pointAt (ioPoints (Fin (n_x n)) (Fin (n_y n)) (Fin (n_width n / 2))
                  (Fin (n_height n / 2))) i).
    change (pointAt _ ((i + 1) mod 4)) with
      (pointAt (ioPoints (Fin (n_x n)) (Fin (n_y n)) (Fin (n_width n / 2))
                  (Fin (n_height n / 2))) ((i + 1) mod 4)).
    rewrite !ioPoints_corners by assumption. cbn [px py].
    apply raySegmentIntersection_hit; assumption.
Qed.

Lemma fraction_bounds (a b : R) : 0 <= a -> a <= b -> 0 < b -> 0 <= a / b <= 1.
Proof.
  intros Ha Hab Hb.
  assert (Hi : 0 < / b) by (apply Rinv_0_lt_compat; exact Hb).
  split.
  - apply Rmult_le_pos; lra.
  - replace 1 with (b * / b) by (field; lra). unfold Rdiv.
    apply Rmult_le_compat_r; lra.
Qed.

(** Closes the three conditions of [ioBest_segment] from the values of the
    cross product and of the two parameters. *)
Ltac segment_hit c t u :=
  cbv zeta; simpl;
  match goal with
  | |- _ <= Rabs ?cr /\ 0 <= ?te / _ /\ 0 <= ?ue / _ <= 1 =>
      let Hc := fresh "Hc" in
      assert (Hc : cr = c) by lra;
      rewrite Hc;
      replace (te / c) with t by (field; lra);
      replace (ue / c) with u by (field; lra);
      split; [unfold Rabs; destruct (Rcase_abs c); lra
             | split; [first [lra | nra]
                      | try lra; apply fraction_bounds; lra]]
  end.

(** Along a heading the io loop always finds a segment, provided the node
    is at least [1e-7] high when the heading is horizontal. *)
Lemma ioBest_heading (n : FlowNode) (h : Heading) :
  0 < n_width n -> 0 < n_height n ->
  (h = DueRight \/ h = DueLeft -> 1 / 10000000 <= n_height n) ->
  ioBest (Fin (n_x n)) (Fin (n_y n)) (Fin (fst (headingVector h)))
    (Fin (snd (headingVector h)))
    (ioPoints (Fin (n_x n)) (Fin (n_y n)) (Fin (n_width n / 2))
       (Fin (n_height n / 2))) <> None.
Proof.
  destruct n as [nid k txt x y w ht].
  cbn [n_x n_y n_width n_height]. intros Hw Hh Hflat.
  destruct h; cbn [headingVector fst snd].
  - assert (Hm : 1 / 10000000 <= ht) by (apply Hflat; left; reflexivity).
    destruct (Rle_dec 10 (w / 2)) as [Hbig | Hsmall].
    + apply (ioBest_segment (mkNode nid k txt x y w ht) 1 0 1); [lia |].
      segment_hit ht (w / 2 - 10) (1 / 2).
    + apply (ioBest_segment (mkNode nid k txt x y w ht) 1 0 3); [lia |].
      segment_hit (- ht) (10 - w / 2) (1 / 2).
  - assert (Hm : 1 / 10000000 <= ht) by (apply Hflat; right; reflexivity).
    destruct (Rle_dec 10 (w / 2)) as [Hbig | Hsmall].
    + apply (ioBest_segment (mkNode nid k txt x y w ht) (-1) 0 3); [lia |].
      segment_hit ht (w / 2 - 10) (1 / 2).
    + apply (ioBest_segment (mkNode nid k txt x y w ht) (-1) 0 1); [lia |].
      segment_hit (- ht) (10 - w / 2) (1 / 2).
  - destruct (Rle_dec 20 (w / 2)) as [Hbig | Hsmall].
    + apply (ioBest_segment (mkNode nid k txt x y w ht) 0 (-1) 0); [lia |].
      segment_hit (w - 20) (ht / 2) ((w / 2 - 20) / (w - 20)).
    + destruct (Rle_dec 10 (w / 2)) as [Hmid | Hlow].
      * apply (ioBest_segment (mkNode nid k txt x y w ht) 0 (-1) 3); [lia |].
        segment_hit 20 (ht * (w / 2 - 10) / 20) (w / 2 / 20).
      * apply (ioBest_segment (mkNode nid k txt x y w ht) 0 (-1) 1); [lia |].
        segment_hit (-20) (ht * (10 - w / 2) / 20) (w / 2 / 20).
  - destruct (Rle_dec 20 (w / 2)) as [Hbig | Hsmall].
    + apply (ioBest_segment (mkNode nid k txt x y w ht) 0 1 2); [lia |].
      segment_hit (w - 20) (ht / 2) ((w / 2 - 20) / (w - 20)).
    + destruct (Rle_dec 10 (w / 2)) as [Hmid | Hlow].
      * apply (ioBest_segment (mkNode nid k txt x y w ht) 0 1 1); [lia |].
        segment_hit 20 (ht * (w / 2 - 10) / 20) (w / 2 / 20).
      * apply (ioBest_segment (mkNode nid k txt x y w ht) 0 1 3); [lia |].
        segment_hit (-20) (ht * (10 - w / 2) / 20) (w / 2 / 20).
Qed.

Lemma raySegmentIntersection_parallel (ox oy dx dy ax ay bx by_ : R) :
  Rabs (dx * (by_ - ay) - dy * (bx - ax)) < 1 / 10000000 ->
  raySegmentIntersection (Fin ox) (Fin oy) (Fin dx) (Fin dy)
    (Fin ax) (Fin ay) (Fin bx) (Fin by_) = None.
Proof.
  intros Hs. unfold raySegmentIntersection. cbn [nsub nmul nabs].
  rewrite nlt_Fin_true by exact Hs. reflexivity.
Qed.

End Boundary.

(** C1, as amended.  For a node of any kind with positive width and
    height, the point [nodeBoundaryPoint] returns toward a target due
    right, left, up or down of the centre lies on the analytic outline of
    the kind (the ellipse, the diamond, the rectangle boundary, one of the
    four segments of the io quadrilateral), exactly in real arithmetic,
    provided the target is at least [1e-6] away from the centre and, for an
    io node and a horizontal heading, the node is at least [1e-7] high. *)
Theorem boundary_point_on_outline (n : FlowNode) (h : Heading) (d : R) :
  (0 < n_width n)%R -> (0 < n_height n)%R ->
  (1 / 1000000 <= d)%R ->
  (n_type n = io -> h = DueRight \/ h = DueLeft ->
   (1 / 10000000 <= n_height n)%R) ->
  onOutline n (boundaryToward n h d).
Proof.
  intros Hw Hh Hd Hflat.
  rewrite boundaryToward_along by exact Hd.
  destruct (n_type n) eqn:Hk.
  - apply ellipse_along; auto using headingVector_unit.
  - apply rectangle_heading; assumption.
  - apply diamond_along; auto using headingVector_unit.
  - unfold boundaryAlong. rewrite Hk. cbv zeta.
    rewrite !ndiv_Fin by lra.
    destruct (ioBest _ _ _ _ _) as [b |] eqn:Hb.
    + destruct (ioBest_on_quadrilateral _ _ _ _ Hb) as [x [y [Hx [Hy Hq]]]].
      exists x, y. rewrite Hx, Hy, Hk. split; [reflexivity | exact Hq].
    + exfalso. revert Hb. apply ioBest_heading; auto.
  - apply ellipse_along; auto using headingVector_unit.
Qed.

Lemma boundary_point_on_outline_witness :
  onOutline (mkNode "n1" io "" 100 100 150 70)
    (boundaryToward (mkNode "n1" io "" 100 100 150 70) DueRight 500).
Proof.
  apply boundary_point_on_outline; cbn [n_width n_height n_type]; lra.
Defined.

(** C1 fails as stated at two guards of the kernel.  An io node 150 wide
    and [1e-8] high is positive in both extents, yet toward the right every
    segment is rejected as nearly parallel, the rectangle block answers
    [(75, 0)], and that point is on none of the four segments.  And a
    target [1e-7] to the right of a process node is within the kernel's
    [1e-6] guard, so the centre is returned. *)
Lemma boundary_point_counterexample :
  (boundaryToward (mkNode "n" io "" 0 0 150 (1 / 100000000)) DueRight 100
   = mkPoint (Fin 75) (Fin 0)
   /\ ~ onOutline (mkNode "n" io "" 0 0 150 (1 / 100000000))
        (boundaryToward (mkNode "n" io "" 0 0 150 (1 / 100000000)) DueRight 100))
  /\ (boundaryToward (mkNode "m" process "" 0 0 140 64) DueRight (1 / 10000000)
      = mkPoint (Fin 0) (Fin 0)
      /\ ~ onOutline (mkNode "m" process "" 0 0 140 64)
           (boundaryToward (mkNode "m" process "" 0 0 140 64) DueRight
              (1 / 10000000))).
Proof.
  assert (Hio : boundaryToward (mkNode "n" io "" 0 0 150 (1 / 100000000))
                  DueRight 100 = mkPoint (Fin 75) (Fin 0)).
  { rewrite boundaryToward_along by lra.
    unfold boundaryAlong.
    cbn [n_type n_x n_y n_width n_height headingVector fst snd].
    rewrite !ndiv_Fin by lra.
    unfold ioBest.
    cbn [length ioPoints seq fold_left].
    unfold ioStep.
    cbn [pointAt nth length ioPoints px py nadd nsub slant
         Nat.add Nat.modulo Nat.divmod Nat.sub fst snd].
    rewrite !raySegmentIntersection_parallel
      by (match goal with |- (Rabs ?c < _)%R =>
            unfold Rabs; destruct (Rcase_abs c); lra end).
    etransitivity;
      [exact (rectBoundary_heading 0 0 (150 / 2) (1 / 100000000 / 2) DueRight) |].
    f_equal; f_equal; lra. }
  assert (Hpr : boundaryToward (mkNode "m" process "" 0 0 140 64) DueRight
                  (1 / 10000000) = mkPoint (Fin 0) (Fin 0)).
  { rewrite boundaryToward_near by lra. reflexivity. }
  split; split; trivial.
  - rewrite Hio. intros [x [y [Heq Hq]]].
    injection Heq as Hx Hy. cbn [n_type] in Hq.
    destruct Hq as [i [Hi [u [Hu [Hsx Hsy]]]]].
    destruct i as [| [| [| [| i]]]]; try lia;
      cbn [nth ioCorners n_x n_y n_width n_height fst snd
           Nat.add Nat.modulo Nat.divmod Nat.sub] in Hsx, Hsy; lra.
  - rewrite Hpr. intros [x [y [Heq Hq]]].
    injection Heq as Hx Hy. cbn [n_type] in Hq.
    unfold onRectangle in Hq. cbn [n_x n_y n_width n_height] in Hq.
    subst x y. replace (0 - 0)%R with 0%R in Hq by lra.
    rewrite Rabs_R0 in Hq. lra.
Qed.


(** * Totality of the boundary point *)

Section Totality.
Local Open Scope R_scope.

Lemma Rabs_small_sq (a : R) : Rabs a < 1 / 10000000 -> a * a < 1 / 100000000000000.
Proof.
  intros H. unfold Rabs in H. destruct (Rcase_abs a); nra.
Qed.

(** The rectangle block returns a finite point for every unit direction:
    the two sentinels are never both infinite. *)
Lemma rectBoundary_finite (x y dx dy hw hh : R) :
  dx * dx + dy * dy = 1 ->
  exists px' py' : R,
    rectBoundary (Fin x) (Fin y) (Fin dx) (Fin dy) (Fin hw) (Fin hh)
    = mkPoint (Fin px') (Fin py').
Proof.
  intros Hu. unfold rectBoundary. cbn [nabs]. unfold nlt, Rltb.
  destruct (Rlt_dec (Rabs dx) (1 / 10000000)) as [Hx | Hx];
    destruct (Rlt_dec (Rabs dy) (1 / 10000000)) as [Hy | Hy].
  - apply Rabs_small_sq in Hx. apply Rabs_small_sq in Hy. lra.
  - rewrite ndiv_Fin by lra. cbn [nmin nmul nadd]. eauto.
  - rewrite ndiv_Fin by lra. cbn [nmin nmul nadd]. eauto.
  - rewrite !ndiv_Fin by lra. cbn [nmin nmul nadd]. eauto.
Qed.

(** The direction the kernel normalises is a unit vector. *)
Lemma normalised_unit (vx vy : R) :
  1 / 1000000 <= sqrt (vx * vx + vy * vy) ->
  vx / sqrt (vx * vx + vy * vy) * (vx / sqrt (vx * vx + vy * vy))
  + vy / sqrt (vx * vx + vy * vy) * (vy / sqrt (vx * vx + vy * vy)) = 1.
Proof.
  intros HL.
  assert (Hnn : 0 <= vx * vx + vy * vy) by nra.
  pose proof (sqrt_sqrt _ Hnn) as Hss.
  revert HL Hss. generalize (sqrt (vx * vx + vy * vy)). intros L HL Hss.
  replace (vx / L * (vx / L) + vy / L * (vy / L))
    with ((vx * vx + vy * vy) / (L * L)) by (field; lra).
  rewrite <- Hss. field. lra.
Qed.

(** For a finite target, [nodeBoundaryPoint] is the centre or the kind's
    block along a finite unit direction. *)
Lemma nodeBoundaryPoint_cases (n : FlowNode) (tx ty : R) :
  nodeBoundaryPoint n (Fin tx) (Fin ty) = mkPoint (Fin (n_x n)) (Fin (n_y n))
  \/ exists dx dy : R,
       dx * dx + dy * dy = 1
       /\ nodeBoundaryPoint n (Fin tx) (Fin ty) = boundaryAlong n (Fin dx) (Fin dy).
Proof.
  unfold nodeBoundaryPoint. cbn [nsub nhypot].
  set (vx := tx - n_x n). set (vy := ty - n_y n).
  unfold nlt, Rltb.
  destruct (Rlt_dec (sqrt (vx * vx + vy * vy)) (1 / 1000000)) as [Hs | Hs];
    [left; reflexivity | right].
  assert (HL : 1 / 1000000 <= sqrt (vx * vx + vy * vy)) by lra.
  rewrite !ndiv_Fin by lra.
  eexists; eexists. split; [| reflexivity].
  apply normalised_unit. exact HL.
Qed.

(** The io block ends in a finite point on every path. *)
Lemma io_boundary_finite (n : FlowNode) (tx ty : R) :
  n_type n = io ->
  exists x y : R, nodeBoundaryPoint n (Fin tx) (Fin ty) = mkPoint (Fin x) (Fin y).
Proof.
  intros Hk.
  destruct (nodeBoundaryPoint_cases n tx ty) as [-> | [dx [dy [Hu ->]]]];
    [eauto |].
  unfold boundaryAlong. rewrite Hk. cbv zeta.
  rewrite !ndiv_Fin by lra.
  destruct (ioBest _ _ _ _ _) as [b |] eqn:Hb.
  - destruct (ioBest_on_quadrilateral _ _ _ _ Hb) as [x [y [-> [-> _]]]].
    eauto.
  - apply rectBoundary_finite. exact Hu.
Qed.

End Totality.

(** * Edge paths *)

Section EdgePaths.
Local Open Scope R_scope.

(** With positive extents the boundary point is finite for every kind. *)
Lemma nodeBoundaryPoint_finite (n : FlowNode) (tx ty : R) :
  0 < n_width n -> 0 < n_height n ->
  exists x y : R, nodeBoundaryPoint n (Fin tx) (Fin ty) = mkPoint (Fin x) (Fin y).
Proof.
  intros Hw Hh.
  destruct (n_type n) eqn:Hk.
  - destruct (nodeBoundaryPoint_cases n tx ty) as [-> | [dx [dy [Hu ->]]]];
      [eauto |].
    destruct (ellipse_along n dx dy) as [x [y [-> _]]]; eauto.
  - destruct (nodeBoundaryPoint_cases n tx ty) as [-> | [dx [dy [Hu ->]]]];
      [eauto |].
    unfold boundaryAlong. rewrite Hk. cbv zeta. rewrite !ndiv_Fin by lra.
    apply rectBoundary_finite. exact Hu.
  - destruct (nodeBoundaryPoint_cases n tx ty) as [-> | [dx [dy [Hu ->]]]];
      [eauto |].
    destruct (diamond_along n dx dy) as [x [y [-> _]]]; eauto.
  - exact (io_boundary_finite n tx ty Hk).
  - destruct (nodeBoundaryPoint_cases n tx ty) as [-> | [dx [dy [Hu ->]]]];
      [eauto |].
    destruct (ellipse_along n dx dy) as [x [y [-> _]]]; eauto.
Qed.

Lemma point_eta (p : Point) : mkPoint (px p) (py p) = p.
Proof. destruct p; reflexivity. Qed.

(** What [pushPointOutward] does to a finite point and a finite target. *)
Lemma pushPointOutward_spec (x y bx by_ k : R) :
  0 <= k ->
  pushedToward k (x, y) (bx, by_)
    (pushPointOutward (mkPoint (Fin x) (Fin y)) (Fin bx) (Fin by_) (Fin k)).
Proof.
  intros Hk. unfold pushedToward, pushPointOutward, distance.
  cbn [px py nsub nhypot fst snd].
  assert (Hnn : 0 <= (bx - x) * (bx - x) + (by_ - y) * (by_ - y)).
  { pose proof (Rle_0_sqr (bx - x)). pose proof (Rle_0_sqr (by_ - y)).
    unfold Rsqr in *. lra. }
  pose proof (sqrt_sqrt _ Hnn) as Hss.
  revert Hss. generalize (sqrt ((bx - x) * (bx - x) + (by_ - y) * (by_ - y))).
  intros L Hss.
  unfold nlt, Rltb. destruct (Rlt_dec L (1 / 1000000)) as [Hs | Hs].
  - left. split; [exact Hs | reflexivity].
  - right. split; [lra |].
    rewrite !ndiv_Fin by lra. cbn [nmul nadd].
    eexists; eexists. split; [reflexivity |]. split; [reflexivity |].
    split; [reflexivity |].
    assert (HL : 1 / 1000000 <= L) by lra.
    replace ((x + (bx - x) / L * k - x) * (x + (bx - x) / L * k - x)
             + (y + (by_ - y) / L * k - y) * (y + (by_ - y) / L * k - y))
      with (k * k * (((bx - x) * (bx - x) + (by_ - y) * (by_ - y)) / (L * L)))
      by (field; lra).
    rewrite <- Hss.
    replace (k * k * (L * L / (L * L))) with (k * k) by (field; lra).
    apply sqrt_square. exact Hk.
Qed.

End EdgePaths.

(** C6, as amended.  For an edge whose endpoint nodes exist (with positive
    width and height): when neither [bendX] nor [bendY] is stored, a
    provisional boundary point of each node is computed toward the
    midpoint of the two centres, the bend of the path is the midpoint of
    the two provisional points, and each end of the path is the node's
    boundary point toward that bend moved by exactly 2 units along the
    direction to the bend, unless the boundary point is within [1e-6] of the
    bend, in which case it stays where it is; when both [bendX] and [bendY]
    are stored, the stored point is the bend and the ends are derived from
    it in the same way. *)
Theorem edgePath_two_pass (nodes : list FlowNode) (edge : FlowEdge)
  (source target : FlowNode) :
  findNode nodes (e_sourceId edge) = Some source ->
  findNode nodes (e_targetId edge) = Some target ->
  (0 < n_width source)%R -> (0 < n_height source)%R ->
  (0 < n_width target)%R -> (0 < n_height target)%R ->
  exists path : EdgePath,
    edgePath nodes edge = Some path
    /\ (e_bendX edge = None -> e_bendY edge = None ->
        exists sx sy tx ty fx fy gx gy : R,
          nodeBoundaryPoint source
            (Fin ((n_x source + n_x target) / 2)) (Fin ((n_y source + n_y target) / 2))
          = mkPoint (Fin sx) (Fin sy)
          /\ nodeBoundaryPoint target
               (Fin ((n_x source + n_x target) / 2)) (Fin ((n_y source + n_y target) / 2))
             = mkPoint (Fin tx) (Fin ty)
          /\ p_bx path = Fin ((sx + tx) / 2)
          /\ p_by path = Fin ((sy + ty) / 2)
          /\ nodeBoundaryPoint source (p_bx path) (p_by path) = mkPoint (Fin fx) (Fin fy)
          /\ nodeBoundaryPoint target (p_bx path) (p_by path) = mkPoint (Fin gx) (Fin gy)
          /\ pushedToward 2 (fx, fy) ((sx + tx) / 2, (sy + ty) / 2)%R
               (mkPoint (p_sx path) (p_sy path))
          /\ pushedToward 2 (gx, gy) ((sx + tx) / 2, (sy + ty) / 2)%R
               (mkPoint (p_tx path) (p_ty path)))
    /\ (forall bx by_ : R,
          e_bendX edge = Some bx -> e_bendY edge = Some by_ ->
          exists fx fy gx gy : R,
            p_bx path = Fin bx /\ p_by path = Fin by_
            /\ nodeBoundaryPoint source (Fin bx) (Fin by_) = mkPoint (Fin fx) (Fin fy)
            /\ nodeBoundaryPoint target (Fin bx) (Fin by_) = mkPoint (Fin gx) (Fin gy)
            /\ pushedToward 2 (fx, fy) (bx, by_) (mkPoint (p_sx path) (p_sy path))
            /\ pushedToward 2 (gx, gy) (bx, by_) (mkPoint (p_tx path) (p_ty path))).
Proof.
  intros Hs Ht Hsw Hsh Htw Hth.
  unfold edgePath. rewrite Hs, Ht. eexists. split; [reflexivity |].
  split.
  - intros HbX HbY. rewrite HbX, HbY. cbn [nullish nadd].
    rewrite !ndiv_Fin by lra.
    destruct (nodeBoundaryPoint_finite source
                ((n_x source + n_x target) / 2) ((n_y source + n_y target) / 2))
      as [sx [sy Hps]]; [assumption .. |].
    destruct (nodeBoundaryPoint_finite target
                ((n_x source + n_x target) / 2) ((n_y source + n_y target) / 2))
      as [tx [ty Hpt]]; [assumption .. |].
    rewrite Hps, Hpt. cbn [px py nadd p_bx p_by p_sx p_sy p_tx p_ty].
    rewrite !ndiv_Fin by lra.
    destruct (nodeBoundaryPoint_finite source ((sx + tx) / 2) ((sy + ty) / 2))
      as [fx [fy Hfs]]; [assumption .. |].
    destruct (nodeBoundaryPoint_finite target ((sx + tx) / 2) ((sy + ty) / 2))
      as [gx [gy Hft]]; [assumption .. |].
    rewrite Hfs, Hft.
    exists sx, sy, tx, ty, fx, fy, gx, gy.
    repeat (split; [reflexivity |]).
    rewrite !point_eta. split; apply pushPointOutward_spec; lra.
  - intros bx by_ HbX HbY. rewrite HbX, HbY.
    cbn [nullish p_bx p_by p_sx p_sy p_tx p_ty].
    destruct (nodeBoundaryPoint_finite source bx by_)
      as [fx [fy Hfs]]; [assumption .. |].
    destruct (nodeBoundaryPoint_finite target bx by_)
      as [gx [gy Hft]]; [assumption .. |].
    rewrite Hfs, Hft.
    exists fx, fy, gx, gy.
    repeat (split; [reflexivity |]).
    rewrite !point_eta. split; apply pushPointOutward_spec; lra.
Qed.

Lemma edgePath_two_pass_witness :
  exists path : EdgePath,
    edgePath [mkNode "a" start "" 100 100 140 64;
              mkNode "b" process "" 300 100 140 64]
      (tedge "e" "a" "b" None) = Some path.
Proof.
  destruct (edgePath_two_pass
              [mkNode "a" start "" 100 100 140 64;
               mkNode "b" process "" 300 100 140 64]
              (tedge "e" "a" "b" None)
              (mkNode "a" start "" 100 100 140 64)
              (mkNode "b" process "" 300 100 140 64))
    as [path [Hpath _]];
    [reflexivity | reflexivity | simpl; lra .. |].
  exists path. exact Hpath.
Defined.

Section EdgePathExample.
Local Open Scope R_scope.

Lemma nodeBoundaryPoint_heading (n : FlowNode) (h : Heading) (d tx ty : R) :
  tx = n_x n + d * fst (headingVector h) ->
  ty = n_y n + d * snd (headingVector h) ->
  nodeBoundaryPoint n (Fin tx) (Fin ty) = boundaryToward n h d.
Proof. intros -> ->. reflexivity. Qed.

(** The boundary point of a process node along a heading, in closed form. *)
Lemma process_boundary_heading (n : FlowNode) (h : Heading) (d : R) :
  n_type n = process -> 1 / 1000000 <= d ->
  boundaryToward n h d =
  mkPoint (Fin (n_x n + fst (headingVector h) * (n_width n / 2)))
          (Fin (n_y n + snd (headingVector h) * (n_height n / 2))).
Proof.
  intros Hk Hd. rewrite boundaryToward_along by exact Hd.
  unfold boundaryAlong. rewrite Hk. cbv zeta. rewrite !ndiv_Fin by lra.
  rewrite rectBoundary_heading.
  destruct h; cbn [headingVector fst snd]; f_equal; f_equal; field.
Qed.

End EdgePathExample.

(** C6 fails as stated where two nodes touch.  Two process nodes 100 wide
    with centres 100 apart share the boundary point [(50, 0)]; it is the
    provisional point of both, hence the bend, hence the final boundary
    point of both; [pushPointOutward] finds it at distance 0 from the bend
    and returns it unmoved, so neither end of the path is 2 units away from
    its boundary point. *)
Lemma edgePath_push_counterexample :
  nodeBoundaryPoint (mkNode "a" process "" 0 0 100 60) (Fin 50) (Fin 0)
  = mkPoint (Fin 50) (Fin 0)
  /\ edgePath [mkNode "a" process "" 0 0 100 60;
               mkNode "b" process "" 100 0 100 60]
       (tedge "e" "a" "b" None)
     = Some (mkPath (Fin 50) (Fin 0) (Fin 50) (Fin 0) (Fin 50) (Fin 0))
  /\ distance (50, 0)%R (50, 0)%R <> 2%R.
Proof.
  assert (Ha : forall tx ty : R, tx = 50%R -> ty = 0%R ->
             nodeBoundaryPoint (mkNode "a" process "" 0 0 100 60) (Fin tx) (Fin ty)
             = mkPoint (Fin 50) (Fin 0)).
  { intros tx ty Hx Hy.
    rewrite (nodeBoundaryPoint_heading _ DueRight 50) by (simpl; lra).
    rewrite process_boundary_heading by (simpl; trivial; lra).
    simpl. f_equal; f_equal; lra. }
  assert (Hb : forall tx ty : R, tx = 50%R -> ty = 0%R ->
             nodeBoundaryPoint (mkNode "b" process "" 100 0 100 60) (Fin tx) (Fin ty)
             = mkPoint (Fin 50) (Fin 0)).
  { intros tx ty Hx Hy.
    rewrite (nodeBoundaryPoint_heading _ DueLeft 50) by (simpl; lra).
    rewrite process_boundary_heading by (simpl; trivial; lra).
    simpl. f_equal; f_equal; lra. }
  split; [apply Ha; reflexivity |]. split.
  - unfold edgePath.
    cbn [findNode List.find n_id e_sourceId e_targetId tedge String.eqb
         Ascii.eqb Bool.eqb e_bendX e_bendY nullish n_x n_y nadd].
    rewrite !ndiv_Fin by lra.
    rewrite (Ha ((0 + 100) / 2) ((0 + 0) / 2))%R by lra.
    rewrite (Hb ((0 + 100) / 2) ((0 + 0) / 2))%R by lra.
    cbn [px py nadd]. rewrite !ndiv_Fin by lra.
    rewrite (Ha ((50 + 50) / 2) ((0 + 0) / 2))%R by lra.
    rewrite (Hb ((50 + 50) / 2) ((0 + 0) / 2))%R by lra.
    unfold pushPointOutward. cbn [px py nsub nhypot].
    replace ((50 + 50) / 2 - 50)%R with 0%R by lra.
    replace ((0 + 0) / 2 - 0)%R with 0%R by lra.
    replace (0 * 0 + 0 * 0)%R with 0%R by lra.
    rewrite sqrt_0. rewrite nlt_Fin_true by lra.
    cbn [px py]. f_equal. f_equal; f_equal; lra.
  - unfold distance. cbn [fst snd].
    replace ((50 - 50) * (50 - 50) + (0 - 0) * (0 - 0))%R with 0%R by lra.
    rewrite sqrt_0. lra.
Qed.

(** * Dangling edges *)

Section Dangling.

Lemma find_app_skip {A : Type} (p : A -> bool) (l1 l2 : list A) (a : A) :
  p a = false -> List.find p (l1 ++ a :: l2) = List.find p (l1 ++ l2).
Proof.
  intros Ha. induction l1 as [| b l1 IH]; cbn [app List.find].
  - rewrite Ha. reflexivity.
  - destruct (p b); [reflexivity | exact IH].
Qed.

Lemma rev_app_skip {A : Type} (l1 l2 : list A) (a : A) :
  rev (l1 ++ a :: l2) = rev l2 ++ a :: rev l1.
Proof. rewrite rev_app_distr. cbn [rev]. rewrite <- app_assoc. reflexivity. Qed.

Lemma flat_map_app_skip {A B : Type} (f : A -> list B) (l1 l2 : list A) (a : A) :
  f a = [] -> flat_map f (l1 ++ a :: l2) = flat_map f (l1 ++ l2).
Proof.
  intros Ha. rewrite !flat_map_app. cbn [flat_map]. rewrite Ha. reflexivity.
Qed.

Lemma edgePath_dangling (nodes : list FlowNode) (edge : FlowEdge) :
  findNode nodes (e_sourceId edge) = None
  \/ findNode nodes (e_targetId edge) = None ->
  edgePath nodes edge = None.
Proof.
  intros [H | H]; unfold edgePath; rewrite H;
    [| destruct (findNode nodes (e_sourceId edge))]; reflexivity.
Qed.

End Dangling.

(** C7.  For an edge whose source or target id resolves to no node,
    [edgePath] returns null; the two hit-testing loops and the two edge
    passes of the renderer pass over that edge, their results being what
    they are on the diagram without it. *)
Theorem dangling_edge_skipped (s : Editor) (before after : list FlowEdge)
  (edge : FlowEdge) :
  findNode (nodes s) (e_sourceId edge) = None
  \/ findNode (nodes s) (e_targetId edge) = None ->
  edgePath (nodes s) edge = None
  /\ (forall (scale : R) (x y : num),
        getEdgeAt (nodes s) (before ++ edge :: after) scale x y
        = getEdgeAt (nodes s) (before ++ after) scale x y)
  /\ (forall (scale : R) (x y : num),
        getBendHandleEdgeAt (nodes s) (before ++ edge :: after) scale x y
        = getBendHandleEdgeAt (nodes s) (before ++ after) scale x y)
  /\ drawEdge s edge = []
  /\ drawArrowOf s edge = []
  /\ draw (set_edges (before ++ edge :: after) s)
     = draw (set_edges (before ++ after) s).
Proof.
  intros Hd. pose proof (edgePath_dangling _ _ Hd) as Hp.
  assert (Hde : drawEdge s edge = []) by (unfold drawEdge; rewrite Hp; reflexivity).
  assert (Hda : drawArrowOf s edge = [])
    by (unfold drawArrowOf; rewrite Hp; reflexivity).
  split; [exact Hp |]. split; [| split; [| split; [exact Hde | split; [exact Hda |]]]].
  - intros scale x y. unfold getEdgeAt.
    rewrite rev_app_skip, rev_app_distr. apply find_app_skip.
    unfold edgeHit. rewrite Hp. reflexivity.
  - intros scale x y. unfold getBendHandleEdgeAt.
    rewrite rev_app_skip, rev_app_distr. apply find_app_skip.
    unfold bendHandleHit. rewrite Hp. reflexivity.
  - unfold draw. cbn [canvasRect set_edges edges nodes].
    destruct (canvasRect s); [| reflexivity].
    assert (He : forall es, flat_map (drawEdge (set_edges (before ++ edge :: after) s)) es
                            = flat_map (drawEdge (set_edges (before ++ after) s)) es).
    { intros es. apply flat_map_ext. intros e. reflexivity. }
    assert (Hr : forall es, flat_map (drawArrowOf (set_edges (before ++ edge :: after) s)) es
                            = flat_map (drawArrowOf (set_edges (before ++ after) s)) es).
    { intros es. apply flat_map_ext. intros e. reflexivity. }
    rewrite He, Hr.
    rewrite (flat_map_app_skip (drawEdge _) before after edge) by exact Hde.
    rewrite (flat_map_app_skip (drawArrowOf _) before after edge) by exact Hda.
    reflexivity.
Qed.

Lemma dangling_edge_skipped_witness :
  edgePath [mkNode "a" start "" 100 100 140 64] (tedge "e" "a" "gone" None)
  = None.
Proof.
  exact (proj1 (dangling_edge_skipped
                  (set_nodes [mkNode "a" start "" 100 100 140 64]
                     (initialEditor None (fun _ => "")))
                  [] [] (tedge "e" "a" "gone" None)
                  (or_intror eq_refl))).
Defined.


(** * History *)

(** Projections of updated editor states. *)
Ltac editor_simpl :=
  cbn [nodes edges selectedTool selectedNodeId selectedNodeIds selectedEdgeId
       connectFromId draggingNodeId draggingBendEdgeId draggingMoved
       draggingGroupIds groupDragStart dragStartPoint panning panStart pan
       scale marquee history historyIndex historyReady clipboardData
       pasteCount activeProject canvasRect idCalls idSuffix set_nodes
       set_edges set_selectedTool set_selectedNodeId set_selectedNodeIds
       set_selectedEdgeId set_connectFromId set_draggingNodeId
       set_draggingBendEdgeId set_draggingMoved set_draggingGroupIds
       set_groupDragStart set_dragStartPoint set_panning set_panStart set_pan
       set_scale set_marquee set_history set_historyIndex set_historyReady
       set_clipboardData set_pasteCount set_activeProject set_canvasRect
       set_idCalls set_idSuffix
       clearSelection setSingleNodeSelection setNodeSelection replaceDiagram
       negb andb orb].

Tactic Notation "editor_simpl" "in" hyp(H) :=
  cbn [nodes edges selectedTool selectedNodeId selectedNodeIds selectedEdgeId
       connectFromId draggingNodeId draggingBendEdgeId draggingMoved
       draggingGroupIds groupDragStart dragStartPoint panning panStart pan
       scale marquee history historyIndex historyReady clipboardData
       pasteCount activeProject canvasRect idCalls idSuffix set_nodes
       set_edges set_selectedTool set_selectedNodeId set_selectedNodeIds
       set_selectedEdgeId set_connectFromId set_draggingNodeId
       set_draggingBendEdgeId set_draggingMoved set_draggingGroupIds
       set_groupDragStart set_dragStartPoint set_panning set_panStart set_pan
       set_scale set_marquee set_history set_historyIndex set_historyReady
       set_clipboardData set_pasteCount set_activeProject set_canvasRect
       set_idCalls set_idSuffix
       clearSelection setSingleNodeSelection setNodeSelection replaceDiagram
       negb andb orb] in H.

Section History.

Lemma cloneNode_id (n : FlowNode) : cloneNode n = n.
Proof. destruct n; reflexivity. Qed.

Lemma cloneEdge_id (e : FlowEdge) : cloneEdge e = e.
Proof. destruct e; reflexivity. Qed.

Lemma map_cloneNode (ns : list FlowNode) : map cloneNode ns = ns.
Proof.
  induction ns as [| n ns IH]; [reflexivity |].
  cbn [map]. rewrite cloneNode_id, IH. reflexivity.
Qed.

Lemma map_cloneEdge (es : list FlowEdge) : map cloneEdge es = es.
Proof.
  induction es as [| e es IH]; [reflexivity |].
  cbn [map]. rewrite cloneEdge_id, IH. reflexivity.
Qed.

Lemma slice0_firstn {A : Type} (l : list A) (i : Z) :
  (0 <= i)%Z -> slice0 l i = firstn (Z.to_nat i) l.
Proof.
  intros Hi. unfold slice0.
  destruct (i <? 0)%Z eqn:Hlt; [apply Z.ltb_lt in Hlt; lia | reflexivity].
Qed.

Lemma length_tl {A : Type} (l : list A) : length (tl l) = (length l - 1)%nat.
Proof. destruct l; cbn [tl length]; lia. Qed.

Lemma cap80_length {A : Type} (l : list A) :
  (length l <= 81)%nat -> (length (cap80 l) <= 80)%nat.
Proof.
  intros H. unfold cap80. destruct (80 <? length l)%nat eqn:Hc.
  - rewrite length_tl. lia.
  - apply Nat.ltb_ge in Hc. exact Hc.
Qed.

Lemma cap80_last {A : Type} (l : list A) (a : A) :
  nth_error (cap80 (l ++ [a])) (length (cap80 (l ++ [a])) - 1) = Some a.
Proof.
  unfold cap80. destruct (80 <? length (l ++ [a]))%nat eqn:Hc.
  - destruct l as [| b l]; [cbn in Hc; discriminate |].
    cbn [app tl]. rewrite length_app. cbn [length].
    replace (length l + 1 - 1)%nat with (length l) by lia.
    rewrite nth_error_app2 by lia. rewrite Nat.sub_diag. reflexivity.
  - rewrite length_app. cbn [length].
    replace (length l + 1 - 1)%nat with (length l) by lia.
    rewrite nth_error_app2 by lia. rewrite Nat.sub_diag. reflexivity.
Qed.

Lemma cap80_length_ge {A : Type} (l : list A) :
  (2 <= length l)%nat -> (2 <= length (cap80 l))%nat.
Proof.
  intros H. unfold cap80. destruct (80 <? length l)%nat eqn:Hc; [| exact H].
  apply Nat.ltb_lt in Hc. rewrite length_tl. lia.
Qed.

(** What a commit leaves behind when the history is initialised. *)
Lemma commitHistory_ready (s : Editor) :
  historyReady s = true ->
  commitHistory s =
  s |> set_history (cap80 (slice0 (history s) (historyIndex s + 1) ++ [cloneDiagram s]))
    |> set_historyIndex
         (Z.of_nat (length (cap80 (slice0 (history s) (historyIndex s + 1)
                                   ++ [cloneDiagram s]))) - 1)%Z.
Proof. intros Hr. unfold commitHistory. rewrite Hr. reflexivity. Qed.

Lemma commitHistory_wf (s : Editor) :
  historyWf s ->
  historyWf (commitHistory s)
  /\ nodes (commitHistory s) = nodes s
  /\ edges (commitHistory s) = edges s
  /\ activeProject (commitHistory s) = activeProject s
  /\ historyIndex (commitHistory s)
     = (Z.of_nat (length (history (commitHistory s))) - 1)%Z
  /\ (2 <= length (history (commitHistory s)))%nat
  /\ nth_error (history (commitHistory s))
       (Z.to_nat (historyIndex (commitHistory s))) = Some (cloneDiagram s).
Proof.
  intros [Hr Hi]. rewrite commitHistory_ready by exact Hr.
  cbn [set_history set_historyIndex history historyIndex historyReady nodes
       edges activeProject].
  set (pushed := slice0 (history s) (historyIndex s + 1) ++ [cloneDiagram s]).
  assert (Hlen : (2 <= length pushed)%nat).
  { unfold pushed. rewrite length_app, slice0_firstn by lia.
    rewrite length_firstn. cbn [length]. lia. }
  pose proof (cap80_length_ge pushed Hlen) as Hcap.
  split; [split; [exact Hr | cbn; lia] |].
  repeat (split; [reflexivity |]).
  split; [exact Hcap |].
  replace (Z.to_nat (Z.of_nat (length (cap80 pushed)) - 1))
    with (length (cap80 pushed) - 1)%nat by lia.
  apply cap80_last.
Qed.

Lemma resetHistory_wf (s : Editor) : historyWf (resetHistory s).
Proof. split; [reflexivity | cbn; lia]. Qed.

Lemma commitAll_wf (ds : list (list FlowNode * list FlowEdge)) (s : Editor) :
  historyWf s -> historyWf (commitAll ds s).
Proof.
  revert s. induction ds as [| d ds IH]; intros s Hwf; [exact Hwf |].
  cbn [commitAll fold_left]. apply IH. unfold commitDiagram.
  apply commitHistory_wf. exact Hwf.
Qed.

Lemma commitAll_snoc (ds : list (list FlowNode * list FlowEdge))
  (d : list FlowNode * list FlowEdge) (s : Editor) :
  commitAll (ds ++ [d]) s = commitDiagram (commitAll ds s) d.
Proof. unfold commitAll. rewrite fold_left_app. reflexivity. Qed.

Lemma tl_skipn {A : Type} (k : nat) (l : list A) :
  tl (skipn k l) = skipn (S k) l.
Proof.
  revert l. induction k as [| k IH]; intros l.
  - destruct l; reflexivity.
  - destruct l as [| a l]; [reflexivity |]. cbn [skipn]. rewrite IH. reflexivity.
Qed.

Lemma cap80_lastn {A : Type} (l : list A) (x : A) :
  cap80 (lastn 80 l ++ [x]) = lastn 80 (l ++ [x]).
Proof.
  unfold cap80, lastn. rewrite !length_app, length_skipn. cbn [length].
  destruct (Nat.lt_ge_cases (length l) 80) as [Hlt | Hge].
  - replace (length l - 80)%nat with 0%nat by lia.
    replace (length l + 1 - 80)%nat with 0%nat by lia.
    cbn [skipn].
    destruct (80 <? length l - 0 + 1)%nat eqn:Hc;
      [apply Nat.ltb_lt in Hc; lia | reflexivity].
  - destruct (80 <? length l - (length l - 80) + 1)%nat eqn:Hc;
      [| apply Nat.ltb_ge in Hc; lia].
    replace (length l + 1 - 80)%nat with (S (length l - 80)) by lia.
    rewrite <- tl_skipn.
    rewrite (skipn_app (length l - 80) l [x]).
    replace (length l - 80 - length l)%nat with 0%nat by lia.
    reflexivity.
Qed.

Lemma lastn_length {A : Type} (k : nat) (l : list A) :
  length (lastn k l) = Nat.min k (length l).
Proof. unfold lastn. rewrite length_skipn. lia. Qed.

(** After any run of commits on a fresh history, the history holds the
    last 80 of the snapshots taken, oldest first, and the index is at the
    last one. *)
Lemma commitAll_history (s0 : Editor) (ds : list (list FlowNode * list FlowEdge)) :
  history (commitAll ds (resetHistory s0))
  = lastn 80 (cloneDiagram s0 :: map snapshotOf ds)
  /\ historyIndex (commitAll ds (resetHistory s0))
     = (Z.of_nat (length (history (commitAll ds (resetHistory s0)))) - 1)%Z
  /\ historyReady (commitAll ds (resetHistory s0)) = true.
Proof.
  induction ds as [| d ds IH] using rev_ind.
  - cbn. repeat split; reflexivity.
  - destruct IH as [Hh [Hi Hr]].
    rewrite commitAll_snoc. unfold commitDiagram.
    rewrite commitHistory_ready by exact Hr.
    cbn [set_history set_historyIndex history historyIndex historyReady
         replaceDiagram set_nodes set_edges].
    rewrite Hi, slice0_firstn by lia.
    replace (Z.to_nat (Z.of_nat (length (history (commitAll ds (resetHistory s0))))
                       - 1 + 1))
      with (length (history (commitAll ds (resetHistory s0)))) by lia.
    rewrite firstn_all, Hh.
    change (cloneDiagram _) with (snapshotOf d) at 2.
    rewrite cap80_lastn, map_app, app_comm_cons.
    repeat split; try reflexivity. exact Hr.
Qed.

End History.

(** What a commit makes of an initialised history. *)
Lemma commitHistory_explicit (s : Editor) :
  historyWf s ->
  history (commitHistory s)
  = cap80 (firstn (Z.to_nat (historyIndex s + 1)) (history s)
           ++ [mkSnap (nodes s) (edges s)])
  /\ historyIndex (commitHistory s)
     = (Z.of_nat (length (history (commitHistory s))) - 1)%Z
  /\ historyWf (commitHistory s).
Proof.
  intros Hwf. destruct (commitHistory_wf s Hwf) as [Hwf' [_ [_ [_ [Hi _]]]]].
  destruct Hwf as [Hr Hidx].
  split; [| split; [exact Hi | exact Hwf']].
  rewrite commitHistory_ready by exact Hr.
  cbn [set_history set_historyIndex history].
  rewrite slice0_firstn by lia. unfold cloneDiagram.
  rewrite map_cloneNode, map_cloneEdge. reflexivity.
Qed.

(** C3.  [commitHistory] does nothing while the history is not
    initialised.  Otherwise it keeps the snapshots up to the current index,
    appends a copy of the live diagram, drops the oldest entry when that
    makes more than 80, and sets the index to the last position; a history
    of at most 80 entries stays so.  After any run of commits on a fresh
    history the history is the last 80 snapshots taken, and after 100
    commits it is the 101 snapshots less the 21 oldest, 80 entries. *)
Theorem commit_history_bounded :
  (forall s : Editor, historyReady s = false -> commitHistory s = s)
  /\ (forall s : Editor,
        historyWf s -> (length (history s) <= 80)%nat ->
        history (commitHistory s)
        = cap80 (firstn (Z.to_nat (historyIndex s + 1)) (history s)
                 ++ [mkSnap (nodes s) (edges s)])
        /\ historyIndex (commitHistory s)
           = (Z.of_nat (length (history (commitHistory s))) - 1)%Z
        /\ (length (history (commitHistory s)) <= 80)%nat
        /\ nodes (commitHistory s) = nodes s
        /\ edges (commitHistory s) = edges s)
  /\ (forall (s0 : Editor) (ds : list (list FlowNode * list FlowEdge)),
        history (commitAll ds (resetHistory s0))
        = lastn 80 (mkSnap (nodes s0) (edges s0) :: map snapshotOf ds)
        /\ (length (history (commitAll ds (resetHistory s0))) <= 80)%nat)
  /\ (forall (s0 : Editor) (ds : list (list FlowNode * list FlowEdge)),
        length ds = 100%nat ->
        history (commitAll ds (resetHistory s0))
        = skipn 21 (mkSnap (nodes s0) (edges s0) :: map snapshotOf ds)
        /\ length (history (commitAll ds (resetHistory s0))) = 80%nat).
Proof.
  assert (Hclone : forall s, cloneDiagram s = mkSnap (nodes s) (edges s)).
  { intros s. unfold cloneDiagram. rewrite map_cloneNode, map_cloneEdge.
    reflexivity. }
  split; [| split; [| split]].
  - intros s Hr. unfold commitHistory. rewrite Hr. reflexivity.
  - intros s Hwf Hlen. destruct (commitHistory_wf s Hwf) as [_ [Hn [He [_ [Hi _]]]]].
    destruct Hwf as [Hr Hidx].
    split; [| split; [exact Hi | split; [| split; assumption]]].
    + rewrite commitHistory_ready by exact Hr.
      cbn [set_history set_historyIndex history].
      rewrite slice0_firstn, Hclone by lia. reflexivity.
    + rewrite commitHistory_ready by exact Hr.
      cbn [set_history set_historyIndex history].
      apply cap80_length. rewrite length_app, slice0_firstn by lia.
      rewrite length_firstn. cbn [length]. lia.
  - intros s0 ds. destruct (commitAll_history s0 ds) as [Hh _].
    rewrite Hh, Hclone. split; [reflexivity |].
    rewrite lastn_length. lia.
  - intros s0 ds Hlen. destruct (commitAll_history s0 ds) as [Hh _].
    rewrite Hh, Hclone. unfold lastn. cbn [length].
    rewrite length_map, Hlen. split; [reflexivity |].
    rewrite length_skipn. cbn [length]. rewrite length_map, Hlen. reflexivity.
Qed.

Section UndoRedo.

(** From a state whose live diagram is the snapshot at the index, and whose
    index is not the first, undo followed by redo comes back to it. *)
Lemma undo_redo_synced (s : Editor) :
  historyWf s -> (1 <= historyIndex s)%Z ->
  nth_error (history s) (Z.to_nat (historyIndex s))
  = Some (mkSnap (nodes s) (edges s)) ->
  exists s1 s2 : Editor,
    undo s = Some s1
    /\ historyIndex s1 = (historyIndex s - 1)%Z
    /\ redo s1 = Some s2
    /\ nodes s2 = nodes s /\ edges s2 = edges s
    /\ history s2 = history s /\ historyIndex s2 = historyIndex s.
Proof.
  intros [Hr Hi] H1 Hsync.
  assert (Hidx : (historyIndex s - 1 + 1)%Z = historyIndex s) by lia.
  unfold undo, canUndo.
  destruct (0 <? historyIndex s)%Z eqn:Hc; [| apply Z.ltb_ge in Hc; lia].
  cbn [negb]. unfold applyCurrent.
  cbn [set_historyIndex activeProject historyIndex].
  destruct (activeProject s) eqn:Hp; cbn [negb].
  - unfold historyAt at 1. cbn [set_historyIndex history].
    destruct (historyIndex s - 1 <? 0)%Z eqn:Hn; [apply Z.ltb_lt in Hn; lia |].
    destruct (nth_error (history s) (Z.to_nat (historyIndex s - 1)))
      as [snapshot |] eqn:Hat; [| apply nth_error_None in Hat; lia].
    eexists; eexists. split; [reflexivity |].
    unfold applySnapshot. editor_simpl. rewrite Hp.
    editor_simpl. split; [reflexivity |].
    unfold redo, canRedo. editor_simpl.
    destruct (0 <=? historyIndex s - 1)%Z eqn:Hc1; [| apply Z.leb_gt in Hc1; lia].
    destruct (historyIndex s - 1 <? Z.of_nat (length (history s)) - 1)%Z eqn:Hc2;
      [| apply Z.ltb_ge in Hc2; lia].
    editor_simpl. unfold applyCurrent.
    editor_simpl. rewrite Hp. editor_simpl.
    unfold historyAt. editor_simpl. rewrite Hidx.
    destruct (historyIndex s <? 0)%Z eqn:Hn2; [apply Z.ltb_lt in Hn2; lia |].
    rewrite Hsync. split; [reflexivity |].
    unfold applySnapshot. editor_simpl. rewrite Hp. editor_simpl.
    cbn [snap_nodes snap_edges].
    rewrite map_cloneNode, map_cloneEdge. repeat split; reflexivity.
  - eexists; eexists. split; [reflexivity |].
    cbn [set_historyIndex historyIndex]. split; [reflexivity |].
    unfold redo, canRedo. cbn [set_historyIndex historyIndex history].
    destruct (0 <=? historyIndex s - 1)%Z eqn:Hc1; [| apply Z.leb_gt in Hc1; lia].
    destruct (historyIndex s - 1 <? Z.of_nat (length (history s)) - 1)%Z eqn:Hc2;
      [| apply Z.ltb_ge in Hc2; lia].
    cbn [andb negb]. unfold applyCurrent.
    cbn [set_historyIndex activeProject]. rewrite Hp. cbn [negb].
    split; [reflexivity |].
    cbn [set_historyIndex nodes edges history historyIndex].
    rewrite Hidx. repeat split; reflexivity.
Qed.

(** A state reached by at least one commit is such a state. *)
Lemma commitAll_synced (s0 : Editor) (ds : list (list FlowNode * list FlowEdge)) :
  ds <> [] ->
  historyWf (commitAll ds (resetHistory s0))
  /\ (1 <= historyIndex (commitAll ds (resetHistory s0)))%Z
  /\ nth_error (history (commitAll ds (resetHistory s0)))
       (Z.to_nat (historyIndex (commitAll ds (resetHistory s0))))
     = Some (mkSnap (nodes (commitAll ds (resetHistory s0)))
                    (edges (commitAll ds (resetHistory s0)))).
Proof.
  intros Hne. destruct ds as [| d ds] using rev_ind; [contradiction |].
  clear IHds Hne. rewrite commitAll_snoc. unfold commitDiagram.
  set (prev := replaceDiagram (fst d) (snd d) (commitAll ds (resetHistory s0))).
  assert (Hwf : historyWf prev).
  { pose proof (commitAll_wf ds _ (resetHistory_wf s0)) as H. exact H. }
  destruct (commitHistory_wf prev Hwf) as [Hwf' [Hn [He [_ [Hi [Hlen Hlast]]]]]].
  split; [exact Hwf' |]. split; [lia |].
  rewrite Hlast, Hn, He. unfold cloneDiagram.
  rewrite map_cloneNode, map_cloneEdge. reflexivity.
Qed.

End UndoRedo.

(** C2.  In a state reached from a fresh history by one or more commits,
    [undo] followed by [redo] gives back the live diagram (and the
    history and index) it started from; [undo] at index 0 changes
    nothing, and [redo] at the last index changes nothing. *)
Theorem undo_redo_restores :
  (forall (s0 : Editor) (ds : list (list FlowNode * list FlowEdge)),
     ds <> [] ->
     exists s1 s2 : Editor,
       undo (commitAll ds (resetHistory s0)) = Some s1
       /\ historyIndex s1 = (historyIndex (commitAll ds (resetHistory s0)) - 1)%Z
       /\ redo s1 = Some s2
       /\ nodes s2 = nodes (commitAll ds (resetHistory s0))
       /\ edges s2 = edges (commitAll ds (resetHistory s0))
       /\ history s2 = history (commitAll ds (resetHistory s0))
       /\ historyIndex s2 = historyIndex (commitAll ds (resetHistory s0)))
  /\ (forall s : Editor, historyIndex s = 0%Z -> undo s = Some s)
  /\ (forall s : Editor,
        historyIndex s = (Z.of_nat (length (history s)) - 1)%Z ->
        redo s = Some s).
Proof.
  split; [| split].
  - intros s0 ds Hne. destruct (commitAll_synced s0 ds Hne) as [Hwf [H1 Hs]].
    apply undo_redo_synced; assumption.
  - intros s H0. unfold undo, canUndo. rewrite H0. reflexivity.
  - intros s Hl. unfold redo, canRedo. rewrite Hl.
    rewrite Z.ltb_irrefl, andb_false_r. reflexivity.
Qed.

(** Two commits on a fresh history with a project open, then undo and
    redo: the undo brings back the first committed diagram, the redo the
    second. *)
Lemma undo_redo_restores_witness :
  exists s1 s2 : Editor,
    undo (commitAll [([mkNode "a" start "" 100 100 140 64], []);
                     ([mkNode "a" start "" 120 100 140 64], [])]
            (resetHistory
               (set_activeProject true (initialEditor None (fun _ => "")))))
    = Some s1
    /\ activeProject s1 = true
    /\ nodes s1 = [mkNode "a" start "" 100 100 140 64]
    /\ redo s1 = Some s2
    /\ nodes s2 = [mkNode "a" start "" 120 100 140 64].
Proof.
  destruct (proj1 undo_redo_restores
              (set_activeProject true (initialEditor None (fun _ => "")))
              [([mkNode "a" start "" 100 100 140 64], []);
               ([mkNode "a" start "" 120 100 140 64], [])])
    as [s1 [s2 [Hu [_ [Hr [Hn _]]]]]]; [discriminate |].
  exists s1, s2. split; [exact Hu |].
  assert (Hs1 : activeProject s1 = true
                /\ nodes s1 = [mkNode "a" start "" 100 100 140 64]).
  { cbv in Hu. injection Hu as <-. split; reflexivity. }
  split; [exact (proj1 Hs1) |]. split; [exact (proj2 Hs1) |].
  split; [exact Hr |]. exact Hn.
Defined.

Lemma commit_history_bounded_witness :
  commitHistory (initialEditor None (fun _ => ""))
  = initialEditor None (fun _ => "").
Proof.
  exact (proj1 commit_history_bounded (initialEditor None (fun _ => "")) eq_refl).
Defined.


(** * The selection invariant *)

Section Selection.

(** [commitHistory] touches the history and nothing else. *)
Lemma commitHistory_frame (s : Editor) :
  nodes (commitHistory s) = nodes s
  /\ edges (commitHistory s) = edges s
  /\ selectedNodeId (commitHistory s) = selectedNodeId s
  /\ selectedNodeIds (commitHistory s) = selectedNodeIds s
  /\ selectedEdgeId (commitHistory s) = selectedEdgeId s
  /\ connectFromId (commitHistory s) = connectFromId s
  /\ clipboardData (commitHistory s) = clipboardData s
  /\ pasteCount (commitHistory s) = pasteCount s.
Proof.
  unfold commitHistory. destruct (historyReady s); cbn [negb];
    repeat split; reflexivity.
Qed.

Lemma commitHistory_xor (s : Editor) :
  selectionXor s -> selectionXor (commitHistory s).
Proof.
  unfold selectionXor.
  destruct (commitHistory_frame s) as [_ [_ [_ [-> [-> _]]]]]. trivial.
Qed.

Lemma commitHistory_inv (s : Editor) :
  historyInv s -> historyInv (commitHistory s).
Proof.
  unfold historyInv, commitHistory. intros Hi.
  destruct (historyReady s); cbn [negb]; [| exact Hi].
  editor_simpl.
  set (pushed := slice0 (history s) (historyIndex s + 1) ++ [cloneDiagram s]).
  assert (Hlen : (1 <= length pushed)%nat).
  { unfold pushed. rewrite length_app. cbn [length]. lia. }
  destruct (80 <? length pushed)%nat eqn:Hc.
  - apply Nat.ltb_lt in Hc. rewrite length_tl. lia.
  - lia.
Qed.

Lemma applySnapshot_xor (snapshot : DiagramSnapshot) (s : Editor) :
  selectionXor s -> selectionXor (applySnapshot snapshot s).
Proof.
  intros Hx. unfold applySnapshot. destruct (activeProject s); cbn [negb];
    [left; reflexivity | exact Hx].
Qed.

Lemma applyCurrent_xor (s s' : Editor) :
  selectionXor s -> applyCurrent s = Some s' -> selectionXor s'.
Proof.
  intros Hx. unfold applyCurrent.
  destruct (activeProject s) eqn:Hp; cbn [negb].
  - destruct (historyAt s (historyIndex s)) as [snapshot |]; [| discriminate].
    intros [= <-]. apply applySnapshot_xor. exact Hx.
  - intros [= <-]. exact Hx.
Qed.

Lemma applyCurrent_history (s s' : Editor) :
  applyCurrent s = Some s' ->
  history s' = history s /\ historyIndex s' = historyIndex s.
Proof.
  unfold applyCurrent. destruct (activeProject s) eqn:Hp; cbn [negb].
  - destruct (historyAt s (historyIndex s)) as [snapshot |]; [| discriminate].
    intros [= <-]. unfold applySnapshot. rewrite Hp. split; reflexivity.
  - intros [= <-]. split; reflexivity.
Qed.

Lemma applyCurrent_total (s : Editor) :
  (0 <= historyIndex s < Z.of_nat (length (history s)))%Z ->
  exists s', applyCurrent s = Some s'.
Proof.
  intros Hi. unfold applyCurrent. destruct (activeProject s); cbn [negb]; [| eauto].
  unfold historyAt.
  destruct (historyIndex s <? 0)%Z eqn:Hn; [apply Z.ltb_lt in Hn; lia |].
  destruct (nth_error (history s) (Z.to_nat (historyIndex s))) eqn:Hat; [eauto |].
  apply nth_error_None in Hat. lia.
Qed.

Lemma setNodeSelection_xor (ids : list string) (s : Editor) :
  selectionXor (setNodeSelection ids s).
Proof. right. reflexivity. Qed.

Lemma setSingleNodeSelection_xor (id : string) (s : Editor) :
  selectionXor (setSingleNodeSelection id s).
Proof. right. reflexivity. Qed.

Lemma toggleNodeSelection_xor (id : string) (s : Editor) :
  selectionXor (toggleNodeSelection id s).
Proof.
  unfold toggleNodeSelection. destruct (includes _ _); apply setNodeSelection_xor.
Qed.

Lemma createNode_xor (type : FlowNodeType) (x y : R) (s : Editor) :
  selectionXor (createNode type x y s).
Proof.
  unfold createNode. destruct (nodeSize type) as [w h]. unfold generateId.
  apply commitHistory_xor. right. reflexivity.
Qed.

Lemma onMouseDown_xor (clientX clientY : R) (shiftKey : bool) (s : Editor) :
  selectionXor s -> selectionXor (onMouseDown clientX clientY shiftKey s).
Proof.
  intros Hx. unfold onMouseDown.
  destruct (getBendHandleEdgeAt _ _ _ _ _) as [bendEdge |];
    destruct (selectedTool s) as [| | kind];
    try (left; reflexivity);
    try (destruct (getNodeAt _ _ _) as [node |]; [| exact Hx];
         destruct (nonEmpty (connectFromId s)); cbn [negb];
         [destruct (String.eqb _ _); cbn [negb];
          [exact Hx | unfold generateId; apply commitHistory_xor; left; reflexivity]
         | right; reflexivity]);
    try (unfold selectionXor; editor_simpl;
         destruct (createNode_xor kind (rx (toCanvasPoint clientX clientY s))
                     (ry (toCanvasPoint clientX clientY s)) s) as [H | H];
         [left | right]; exact H).
  all: destruct (getNodeAt _ _ _) as [node |].
  all: try (destruct shiftKey; [apply toggleNodeSelection_xor |];
            destruct (includes (selectedNodeIds s) (n_id node)); cbn [negb];
            right; reflexivity).
  all: destruct (getEdgeAt _ _ _ _ _) as [edge |]; [left; reflexivity |].
  all: destruct shiftKey; [| left; reflexivity].
  all: right; reflexivity.
Qed.

End Selection.


(** * Copy and paste *)

Section Paste.

Lemma set_idCalls_same (s : Editor) : set_idCalls (idCalls s) s = s.
Proof. destruct s; reflexivity. Qed.

(** The node loop in closed form. *)
Lemma pasteNode_fold (offset : R) (cn : list FlowNode) :
  forall (out : list FlowNode) (m : gmap string string) (c : nat) (s : Editor),
    fold_left (pasteNode offset) cn (out, m, set_idCalls c s)
    = (out ++ pastedNodes offset (callIds s "node" c (length cn)) cn,
       idMapOf (callIds s "node" c (length cn)) cn m,
       set_idCalls (c + length cn) s).
Proof.
  induction cn as [| n cn IH]; intros out m c s.
  - cbn [fold_left length]. unfold pastedNodes, idMapOf, callIds.
    cbn [seq map combine fold_left]. rewrite app_nil_r, Nat.add_0_r. reflexivity.
  - cbn [fold_left length].
    change (pasteNode offset (out, m, set_idCalls c s) n)
      with (out ++ [pastedNode offset (idOfCall s "node" c) n],
            <[n_id n := idOfCall s "node" c]> m, set_idCalls (S c) s).
    rewrite IH. unfold pastedNodes, idMapOf, callIds.
    cbn [seq map combine fold_left fst snd].
    rewrite <- app_assoc. cbn [app].
    replace (S c + length cn)%nat with (c + S (length cn))%nat by lia.
    reflexivity.
Qed.

(** The edge loop in closed form. *)
Lemma pasteEdge_fold (offset : R) (m : gmap string string) (ce : list FlowEdge) :
  forall (out : list FlowEdge) (c : nat) (s : Editor),
    fold_left (pasteEdge offset m) ce (out, set_idCalls c s)
    = (out ++ pastedEdges offset m
                (callIds s "edge" c (length (List.filter (keepsEdge m) ce))) ce,
       set_idCalls (c + length (List.filter (keepsEdge m) ce)) s).
Proof.
  induction ce as [| e ce IH]; intros out c s.
  - cbn [fold_left List.filter length]. unfold pastedEdges, callIds.
    cbn [seq map combine List.filter]. rewrite app_nil_r, Nat.add_0_r. reflexivity.
  - cbn [fold_left List.filter].
    assert (Hstep : pasteEdge offset m (out, set_idCalls c s) e
                    = if keepsEdge m e
                      then (out ++ [remapEdge offset m (idOfCall s "edge" c) e],
                            set_idCalls (S c) s)
                      else (out, set_idCalls c s)).
    { unfold pasteEdge, keepsEdge, remapEdge.
      destruct (m !! e_sourceId e) as [a |]; [| reflexivity].
      destruct (m !! e_targetId e) as [b |]; [| reflexivity].
      destruct (nonEmpty a), (nonEmpty b); reflexivity. }
    rewrite Hstep. unfold pastedEdges.
    cbn [List.filter].
    destruct (keepsEdge m e) eqn:Hk.
    + rewrite IH. unfold pastedEdges, callIds.
      cbn [length seq map combine fst snd].
      rewrite <- app_assoc. cbn [app].
      replace (S c + length (List.filter (keepsEdge m) ce))%nat
        with (c + S (length (List.filter (keepsEdge m) ce)))%nat by lia.
      reflexivity.
    + rewrite IH. reflexivity.
Qed.

Lemma callIds_length (s : Editor) (prefix : string) (from count : nat) :
  length (callIds s prefix from count) = count.
Proof. unfold callIds. rewrite length_map, length_seq. reflexivity. Qed.

(** [pasteClipboard] in closed form. *)
Lemma pasteClipboard_eq (s : Editor) (clip : DiagramSnapshot) :
  clipboardData s = Some clip ->
  snap_nodes clip <> [] ->
  let offset := IZR (28 * (pasteCount s + 1)) in
  let nids := callIds s "node" (idCalls s) (length (snap_nodes clip)) in
  let idMap := idMapOf nids (snap_nodes clip) ∅ in
  let kept := List.filter (keepsEdge idMap) (snap_edges clip) in
  let eids := callIds s "edge" (idCalls s + length (snap_nodes clip))
                (length kept) in
  let nextNodes := pastedNodes offset nids (snap_nodes clip) in
  let nextEdges := pastedEdges offset idMap eids (snap_edges clip) in
  pasteClipboard s =
  (s |> set_pasteCount (pasteCount s + 1)%Z
     |> set_idCalls (idCalls s + length (snap_nodes clip) + length kept)
     |> set_nodes (nodes s ++ nextNodes)
     |> set_edges (edges s ++ nextEdges)
     |> setNodeSelection (map n_id nextNodes)
     |> set_selectedEdgeId ""
     |> set_connectFromId ""
     |> commitHistory).
Proof.
  intros Hclip Hne. cbv zeta. unfold pasteClipboard. rewrite Hclip.
  destruct (snap_nodes clip) as [| n0 cn] eqn:Hcn; [contradiction |].
  cbn [length Nat.eqb].
  rewrite <- (set_idCalls_same (set_pasteCount (pasteCount s + 1) s)).
  rewrite pasteNode_fold. cbn [app].
  rewrite pasteEdge_fold. cbn [app].
  reflexivity.
Qed.

(** The pasted nodes are the clipboard nodes moved by the offset, under the
    generated ids. *)
Lemma pastedNodes_spec (offset : R) (cn : list FlowNode) :
  forall ids : list string,
    length ids = length cn ->
    Forall2 (offsetNode offset) cn (pastedNodes offset ids cn)
    /\ map n_id (pastedNodes offset ids cn) = ids.
Proof.
  unfold pastedNodes.
  induction cn as [| n cn IH]; intros [| id ids] Hlen; try discriminate.
  - split; [constructor | reflexivity].
  - cbn [combine map fst snd]. injection Hlen as Hlen.
    destruct (IH ids Hlen) as [HF Hm]. split.
    + constructor; [| exact HF].
      unfold offsetNode, pastedNode. cbn. repeat split.
    + cbn [n_id pastedNode]. rewrite Hm. reflexivity.
Qed.

(** The substitution table maps exactly the ids of the clipboard nodes, and
    maps them to generated ids. *)
Lemma idMapOf_lookup (cn : list FlowNode) :
  forall (ids : list string) (m : gmap string string) (k v : string),
    length ids = length cn ->
    idMapOf ids cn m !! k = Some v ->
    (m !! k = Some v /\ ~ In k (map n_id cn))
    \/ (In k (map n_id cn) /\ In v ids).
Proof.
  unfold idMapOf.
  induction cn as [| n cn IH]; intros [| id ids] m k v Hlen Hl; try discriminate.
  - left. split; [exact Hl | intros []].
  - cbn [combine fold_left fst snd] in Hl. injection Hlen as Hlen.
    apply IH in Hl; [| exact Hlen]. cbn [map In].
    destruct Hl as [[Hl Hnin] | [Hin Hv]].
    + destruct (decide (n_id n = k)) as [Heq | Hneq].
      * rewrite Heq, lookup_insert_eq in Hl. injection Hl as <-.
        right. split; [left; exact Heq | left; reflexivity].
      * rewrite lookup_insert_ne in Hl by exact Hneq.
        left. split; [exact Hl | intros [H | H]; contradiction].
    + right. split; right; assumption.
Qed.

(** An entry of the substitution table built from nothing pairs the id of
    a clipboard node with the id generated at the same position. *)
Lemma idMapOf_pairs (cn : list FlowNode) :
  forall (ids : list string) (m : gmap string string) (k v : string),
    length ids = length cn ->
    idMapOf ids cn m !! k = Some v ->
    m !! k = Some v
    \/ exists (i : nat) (n : FlowNode),
         cn !! i = Some n /\ n_id n = k /\ ids !! i = Some v.
Proof.
  unfold idMapOf.
  induction cn as [| n cn IH]; intros [| id ids] m k v Hlen Hl; try discriminate.
  - left. exact Hl.
  - cbn [combine fold_left fst snd] in Hl. injection Hlen as Hlen.
    apply IH in Hl; [| exact Hlen].
    destruct Hl as [Hl | (i & n' & H1 & H2 & H3)].
    + destruct (decide (n_id n = k)) as [Heq | Hneq].
      * rewrite Heq, lookup_insert_eq in Hl. injection Hl as <-.
        right. exists 0%nat, n. split; [reflexivity |]. split; [exact Heq |].
        reflexivity.
      * rewrite lookup_insert_ne in Hl by exact Hneq. left. exact Hl.
    + right. exists (S i), n'. split; [exact H1 |]. split; [exact H2 | exact H3].
Qed.

Lemma idMapOf_defined (cn : list FlowNode) :
  forall (ids : list string) (m : gmap string string) (k : string),
    length ids = length cn ->
    In k (map n_id cn) \/ is_Some (m !! k) ->
    is_Some (idMapOf ids cn m !! k).
Proof.
  unfold idMapOf.
  induction cn as [| n cn IH]; intros [| id ids] m k Hlen Hin; try discriminate.
  - destruct Hin as [[] | H]; exact H.
  - cbn [combine fold_left fst snd]. injection Hlen as Hlen.
    apply IH; [exact Hlen |]. cbn [map In] in Hin.
    destruct Hin as [[Heq | Hin] | Hs].
    + right. rewrite Heq, lookup_insert_eq. eauto.
    + left. exact Hin.
    + right. destruct (decide (n_id n = k)) as [Heq | Hneq].
      * rewrite Heq, lookup_insert_eq. eauto.
      * rewrite lookup_insert_ne by exact Hneq. exact Hs.
Qed.

Lemma includes_In (ids : list string) (id : string) :
  includes ids id = true <-> In id ids.
Proof.
  unfold includes. rewrite existsb_exists. split.
  - intros [x [Hin Heq]]. apply String.eqb_eq in Heq. subst x. exact Hin.
  - intros Hin. exists id. split; [exact Hin | apply String.eqb_refl].
Qed.

Lemma filter_includes_nil (ns : list FlowNode) :
  List.filter (fun n => includes [] (n_id n)) ns = [].
Proof. induction ns as [| n ns IH]; [reflexivity | exact IH]. Qed.

Lemma idOfCall_nonEmpty (s : Editor) (k : nat) :
  nonEmpty (idOfCall s "node" k) = true.
Proof. reflexivity. Qed.

(** With generated (hence non-empty) ids in the table, the edge loop keeps
    exactly the edges whose two endpoints are ids of clipboard nodes. *)
Lemma keepsEdge_endpoints (s : Editor) (c : nat) (cn : list FlowNode)
  (e : FlowEdge) :
  keepsEdge (idMapOf (callIds s "node" c (length cn)) cn ∅) e
  = includes (map n_id cn) (e_sourceId e)
    && includes (map n_id cn) (e_targetId e).
Proof.
  assert (Hlen : length (callIds s "node" c (length cn)) = length cn)
    by apply callIds_length.
  assert (Hside : forall k : string,
             match idMapOf (callIds s "node" c (length cn)) cn ∅ !! k with
             | Some v => nonEmpty v = true /\ includes (map n_id cn) k = true
             | None => includes (map n_id cn) k = false
             end).
  { intros k.
    destruct (idMapOf _ cn ∅ !! k) as [v |] eqn:Hl.
    - apply idMapOf_lookup in Hl; [| exact Hlen].
      destruct Hl as [[Hl _] | [Hin Hv]]; [rewrite lookup_empty in Hl; discriminate |].
      split; [| apply includes_In; exact Hin].
      unfold callIds in Hv. apply in_map_iff in Hv. destruct Hv as [j [<- _]].
      apply idOfCall_nonEmpty.
    - destruct (includes (map n_id cn) k) eqn:Hi; [| reflexivity].
      apply includes_In in Hi.
      destruct (idMapOf_defined cn (callIds s "node" c (length cn)) ∅ k Hlen
                  (or_introl Hi)) as [v Hv].
      rewrite Hv in Hl. discriminate. }
  unfold keepsEdge.
  pose proof (Hside (e_sourceId e)) as Hs. pose proof (Hside (e_targetId e)) as Ht.
  destruct (idMapOf _ cn ∅ !! e_sourceId e) as [a |];
    destruct (idMapOf _ cn ∅ !! e_targetId e) as [b |].
  - destruct Hs as [-> ->], Ht as [-> ->]. reflexivity.
  - rewrite Ht. rewrite andb_false_r. reflexivity.
  - rewrite Hs. reflexivity.
  - rewrite Hs. reflexivity.
Qed.

(** The pasted edges are the kept clipboard edges with shifted bends, under
    the generated ids, their endpoints remapped to generated node ids. *)
Lemma pastedEdges_spec (offset : R) (m : gmap string string)
  (ce : list FlowEdge) :
  forall ids : list string,
    length ids = length (List.filter (keepsEdge m) ce) ->
    Forall2 (fun e e' =>
               offsetEdge offset e e'
               /\ m !! e_sourceId e = Some (e_sourceId e')
               /\ m !! e_targetId e = Some (e_targetId e'))
      (List.filter (keepsEdge m) ce) (pastedEdges offset m ids ce)
    /\ map e_id (pastedEdges offset m ids ce) = ids.
Proof.
  unfold pastedEdges.
  assert (Hall : Forall (fun e => keepsEdge m e = true) (List.filter (keepsEdge m) ce)).
  { apply List.Forall_forall. intros e He. apply filter_In in He. tauto. }
  revert Hall. generalize (List.filter (keepsEdge m) ce). intros kept Hall.
  induction kept as [| e kept IH]; intros [| id ids] Hlen; try discriminate.
  - split; [constructor | reflexivity].
  - cbn [combine map fst snd]. injection Hlen as Hlen.
    inversion Hall as [| ? ? Hk Hrest]; subst.
    destruct (IH Hrest ids Hlen) as [HF Hm].
    unfold keepsEdge in Hk. unfold remapEdge at 1 3.
    destruct (m !! e_sourceId e) as [a |] eqn:Ha; [| discriminate].
    destruct (m !! e_targetId e) as [b |] eqn:Hb; [| discriminate].
    split.
    + constructor; [| exact HF].
      split; [| split; [exact Ha | exact Hb]].
      unfold offsetEdge, shiftedBy, pastedEdge.
      cbn [e_bendX e_bendY e_label].
      destruct (e_bendX e), (e_bendY e); repeat split.
    + cbn [e_id pastedEdge]. rewrite Hm. reflexivity.
Qed.

Lemma commitHistory_shape (s : Editor) :
  exists (h : list DiagramSnapshot) (i : Z),
    commitHistory s = set_historyIndex i (set_history h s).
Proof.
  unfold commitHistory. destruct (historyReady s); cbn [negb].
  - eexists; eexists; reflexivity.
  - exists (history s), (historyIndex s). destruct s; reflexivity.
Qed.

Lemma Forall2_In_r {A B : Type} (R : A -> B -> Prop) (la : list A) (lb : list B)
  (b : B) :
  Forall2 R la lb -> In b lb -> exists a, In a la /\ R a b.
Proof.
  induction 1 as [| a0 b0 la lb HR HF IH]; intros Hin; [destruct Hin |].
  destruct Hin as [<- | Hin].
  - exists a0. split; [left; reflexivity | exact HR].
  - destruct (IH Hin) as [a [Ha HRa]]. exists a. split; [right; exact Ha | exact HRa].
Qed.

Lemma Forall2_weaken {A B : Type} (R R' : A -> B -> Prop) (la : list A)
  (lb : list B) :
  (forall a b, R a b -> R' a b) -> Forall2 R la lb -> Forall2 R' la lb.
Proof. intros HRR. induction 1; constructor; auto. Qed.

(** One paste. *)
Lemma paste_once (s : Editor) (clip : DiagramSnapshot) :
  clipboardData s = Some clip ->
  snap_nodes clip <> [] ->
  let cn := snap_nodes clip in
  let kept := List.filter
                (fun e => includes (map n_id cn) (e_sourceId e)
                          && includes (map n_id cn) (e_targetId e))
                (snap_edges clip) in
  let offset := IZR (28 * (pasteCount s + 1)) in
  let p := pasteClipboard s in
  exists (N : list FlowNode) (E : list FlowEdge),
    nodes p = nodes s ++ N /\ edges p = edges s ++ E
    /\ Forall2 (offsetNode offset) cn N
    /\ Forall2 (offsetEdge offset) kept E
    /\ (forall e, In e E ->
          In (e_sourceId e) (map n_id N) /\ In (e_targetId e) (map n_id N))
    /\ map n_id N = callIds s "node" (idCalls s) (length cn)
    /\ map e_id E = callIds s "edge" (idCalls s + length cn) (length kept)
    /\ selectedNodeIds p = map n_id N /\ selectedEdgeId p = ""
    /\ clipboardData p = Some clip
    /\ pasteCount p = (pasteCount s + 1)%Z
    /\ idCalls p = (idCalls s + length cn + length kept)%nat
    /\ idSuffix p = idSuffix s
    /\ historyReady p = historyReady s
    /\ Forall2 (remappedEdge cn N) kept E
    /\ history p = history (commitDiagram s (nodes p, edges p))
    /\ historyIndex p = historyIndex (commitDiagram s (nodes p, edges p)).
Proof.
  intros Hclip Hne cn kept offset p.
  set (nids := callIds s "node" (idCalls s) (length cn)).
  set (m := idMapOf nids cn ∅).
  assert (Hkept : List.filter (keepsEdge m) (snap_edges clip) = kept).
  { unfold kept. apply filter_ext. intros e. apply keepsEdge_endpoints. }
  set (eids := callIds s "edge" (idCalls s + length cn) (length kept)).
  assert (Hp : p = (s |> set_pasteCount (pasteCount s + 1)%Z
                      |> set_idCalls (idCalls s + length cn + length kept)
                      |> set_nodes (nodes s ++ pastedNodes offset nids cn)
                      |> set_edges (edges s ++ pastedEdges offset m eids (snap_edges clip))
                      |> setNodeSelection (map n_id (pastedNodes offset nids cn))
                      |> set_selectedEdgeId ""
                      |> set_connectFromId ""
                      |> commitHistory)).
  { unfold p. rewrite (pasteClipboard_eq s clip Hclip Hne).
    fold cn nids m. rewrite Hkept. reflexivity. }
  destruct (pastedNodes_spec offset cn nids (callIds_length _ _ _ _)) as [HN Hnid].
  assert (Helen : length eids = length (List.filter (keepsEdge m) (snap_edges clip))).
  { rewrite Hkept. apply callIds_length. }
  destruct (pastedEdges_spec offset m (snap_edges clip) eids Helen) as [HE Heid].
  rewrite Hkept in HE.
  exists (pastedNodes offset nids cn), (pastedEdges offset m eids (snap_edges clip)).
  match type of Hp with _ = commitHistory ?pre =>
    destruct (commitHistory_shape pre) as [h [i Hshape]];
    assert (Hhist : history p = history (commitHistory pre)
                    /\ historyIndex p = historyIndex (commitHistory pre))
      by (rewrite Hp; split; reflexivity)
  end.
  rewrite Hshape in Hp.
  assert (Hnp : nodes p = nodes s ++ pastedNodes offset nids cn) by (rewrite Hp; reflexivity).
  assert (Hep : edges p = edges s ++ pastedEdges offset m eids (snap_edges clip))
    by (rewrite Hp; reflexivity).
  split; [exact Hnp |]. split; [exact Hep |].
  split; [exact HN |].
  split; [eapply Forall2_weaken; [| exact HE]; intros a b Hab; apply Hab |].
  split.
  { intros e' He'. destruct (Forall2_In_r _ _ _ _ HE He') as [e [_ [_ [Hs Ht]]]].
    rewrite Hnid.
    apply idMapOf_lookup in Hs; [| apply callIds_length].
    apply idMapOf_lookup in Ht; [| apply callIds_length].
    destruct Hs as [[Hs _] | [_ Hs]]; [rewrite lookup_empty in Hs; discriminate |].
    destruct Ht as [[Ht _] | [_ Ht]]; [rewrite lookup_empty in Ht; discriminate |].
    split; assumption. }
  split; [exact Hnid |]. split; [exact Heid |].
  split; [rewrite Hp; reflexivity |]. split; [rewrite Hp; reflexivity |].
  split; [rewrite Hp; exact Hclip |].
  split; [rewrite Hp; reflexivity |]. split; [rewrite Hp; reflexivity |].
  split; [rewrite Hp; reflexivity |].
  split; [rewrite Hp; reflexivity |].
  split.
  { eapply Forall2_weaken; [| exact HE]. intros a b (_ & Hs & Ht).
    assert (Hpair : forall k v : string,
               m !! k = Some v ->
               exists (i : nat) (n n' : FlowNode),
                 cn !! i = Some n /\ pastedNodes offset nids cn !! i = Some n'
                 /\ n_id n = k /\ n_id n' = v).
    { intros k v Hkv.
      apply idMapOf_pairs in Hkv; [| apply callIds_length].
      destruct Hkv as [Hkv | (pos & n & H1 & H2 & H3)];
        [rewrite lookup_empty in Hkv; discriminate |].
      rewrite <- Hnid in H3. rewrite list_lookup_fmap in H3.
      destruct (pastedNodes offset nids cn !! pos) as [n' |] eqn:E';
        [| discriminate].
      cbn in H3. injection H3 as H3.
      exists pos, n, n'. repeat split; assumption. }
    split; [exact (Hpair _ _ Hs) | exact (Hpair _ _ Ht)]. }
  unfold commitDiagram. rewrite Hnp, Hep. cbn [fst snd].
  destruct Hhist as [Hh Hi]. rewrite Hh, Hi.
  unfold commitHistory. editor_simpl.
  destruct (historyReady s); cbn [negb]; split; reflexivity.
Qed.

End Paste.

Section Fresh.

Lemma append_inj_l (p a b : string) : (p ++ a)%string = (p ++ b)%string -> a = b.
Proof.
  induction p as [| ch p IH]; cbn [String.append]; [trivial |].
  intros H. injection H as H. exact (IH H).
Qed.

Lemma idOfCall_inj (s : Editor) (prefix : string) (i j : nat) :
  (forall i j : nat, idSuffix s i = idSuffix s j -> i = j) ->
  idOfCall s prefix i = idOfCall s prefix j -> i = j.
Proof.
  intros Hinj H. unfold idOfCall in H.
  apply append_inj_l in H. apply append_inj_l in H. exact (Hinj _ _ H).
Qed.

(** Ids generated at two disjoint runs of calls are pairwise distinct. *)
Lemma callIds_NoDup (s : Editor) (prefix : string) (a n b n' : nat) :
  (forall i j : nat, idSuffix s i = idSuffix s j -> i = j) ->
  (a + n <= b)%nat ->
  List.NoDup (callIds s prefix a n ++ callIds s prefix b n').
Proof.
  intros Hinj Hab. unfold callIds. rewrite <- map_app.
  apply List.NoDup_map_NoDup_ForallPairs.
  - intros i j _ _. apply idOfCall_inj. exact Hinj.
  - apply List.NoDup_app; try apply List.seq_NoDup.
    intros k Hk Hk'. apply in_seq in Hk. apply in_seq in Hk'. lia.
Qed.

Lemma callIds_from (s : Editor) (prefix : string) (a n : nat) (id : string) :
  In id (callIds s prefix a n) ->
  exists k : nat, (a <= k)%nat /\ id = idOfCall s prefix k.
Proof.
  unfold callIds. intros H. apply in_map_iff in H. destruct H as [k [<- Hk]].
  apply in_seq in Hk. exists k. split; [lia | reflexivity].
Qed.

End Fresh.

(** C4.  After a copy that puts at least one node on the clipboard, two
    pastes in a row append two groups of nodes and edges to the diagram.
    The nodes of the first group are the copied nodes moved by 28 in x and
    in y, those of the second by 56; the edges are the clipboard edges with
    both endpoints among the copied nodes (the others are dropped), their
    stored bends moved by 28 and by 56, their source and target replaced by
    the ids of the pasted copies of the nodes that carried them.  Every
    pasted node and edge carries
    the id of its own call of the id generator, so under the generator's
    guarantee the pasted ids are pairwise distinct and new to the diagram.
    The endpoints of every pasted edge are ids of nodes of the same group.
    After each paste the node selection is the pasted group and no edge is
    selected, and the history is what one commit of the resulting diagram
    makes it: on an initialised history each paste cuts the entries after
    the index, appends the snapshot of the diagram with the pasted group,
    drops the oldest entry beyond 80 and points the index at the last one;
    on a history not yet initialised nothing is recorded. *)
Theorem paste_twice (s0 : Editor) :
  let cn := List.filter (fun n => includes (copyIds s0) (n_id n)) (nodes s0) in
  let ce := List.filter (fun e => includes (copyIds s0) (e_sourceId e)
                                  && includes (copyIds s0) (e_targetId e))
              (edges s0) in
  let kept := List.filter (fun e => includes (map n_id cn) (e_sourceId e)
                                    && includes (map n_id cn) (e_targetId e)) ce in
  let p1 := pasteClipboard (copySelected s0) in
  let p2 := pasteClipboard p1 in
  cn <> [] ->
  exists (N1 : list FlowNode) (E1 : list FlowEdge)
         (N2 : list FlowNode) (E2 : list FlowEdge),
    clipboardData (copySelected s0) = Some (mkSnap cn ce)
    /\ nodes p1 = nodes s0 ++ N1 /\ edges p1 = edges s0 ++ E1
    /\ nodes p2 = nodes p1 ++ N2 /\ edges p2 = edges p1 ++ E2
    /\ Forall2 (offsetNode 28) cn N1 /\ Forall2 (offsetNode 56) cn N2
    /\ Forall2 (offsetEdge 28) kept E1 /\ Forall2 (offsetEdge 56) kept E2
    /\ (forall e, In e E1 ->
          In (e_sourceId e) (map n_id N1) /\ In (e_targetId e) (map n_id N1))
    /\ (forall e, In e E2 ->
          In (e_sourceId e) (map n_id N2) /\ In (e_targetId e) (map n_id N2))
    /\ Forall2 (remappedEdge cn N1) kept E1
    /\ Forall2 (remappedEdge cn N2) kept E2
    /\ map n_id N1 = callIds s0 "node" (idCalls s0) (length cn)
    /\ map e_id E1 = callIds s0 "edge" (idCalls s0 + length cn) (length kept)
    /\ map n_id N2
       = callIds s0 "node" (idCalls s0 + length cn + length kept) (length cn)
    /\ map e_id E2
       = callIds s0 "edge" (idCalls s0 + length cn + length kept + length cn)
           (length kept)
    /\ (freshSupply s0 ->
        List.NoDup (map n_id (N1 ++ N2)) /\ List.NoDup (map e_id (E1 ++ E2))
        /\ (forall id, In id (map n_id (N1 ++ N2)) -> ~ In id (map n_id (nodes s0)))
        /\ (forall id, In id (map e_id (E1 ++ E2)) -> ~ In id (map e_id (edges s0))))
    /\ selectedNodeIds p1 = map n_id N1 /\ selectedEdgeId p1 = ""
    /\ selectedNodeIds p2 = map n_id N2 /\ selectedEdgeId p2 = ""
    /\ history p1 = history (commitDiagram (copySelected s0) (nodes p1, edges p1))
    /\ historyIndex p1
       = historyIndex (commitDiagram (copySelected s0) (nodes p1, edges p1))
    /\ history p2 = history (commitDiagram p1 (nodes p2, edges p2))
    /\ historyIndex p2 = historyIndex (commitDiagram p1 (nodes p2, edges p2))
    /\ (historyWf s0 ->
        history p1
        = cap80 (firstn (Z.to_nat (historyIndex s0 + 1)) (history s0)
                 ++ [mkSnap (nodes p1) (edges p1)])
        /\ historyIndex p1 = (Z.of_nat (length (history p1)) - 1)%Z
        /\ history p2 = cap80 (history p1 ++ [mkSnap (nodes p2) (edges p2)])
        /\ historyIndex p2 = (Z.of_nat (length (history p2)) - 1)%Z)
    /\ (historyReady s0 = false ->
        history p2 = history s0 /\ historyIndex p2 = historyIndex s0).
Proof.
  intros cn ce kept p1 p2 Hne.
  assert (Hids : (length (copyIds s0) =? 0)%nat = false).
  { apply Nat.eqb_neq. intros Hl. apply length_zero_iff_nil in Hl.
    apply Hne. unfold cn. rewrite Hl. apply filter_includes_nil. }
  assert (Hcopy : copySelected s0
                  = (s0 |> set_clipboardData (Some (mkSnap cn ce))
                        |> set_pasteCount 0%Z)).
  { unfold copySelected. rewrite Hids, map_cloneNode, map_cloneEdge. reflexivity. }
  assert (Hclip : clipboardData (copySelected s0) = Some (mkSnap cn ce))
    by (rewrite Hcopy; reflexivity).
  destruct (paste_once (copySelected s0) (mkSnap cn ce) Hclip Hne)
    as (N1 & E1 & Hn1 & He1 & HN1 & HE1 & Hend1 & Hid1 & Heid1 & Hsel1 & Hse1
        & Hc1 & Hpc1 & Hic1 & Hsf1 & Hrd1 & Hmap1 & Hh1 & Hi1).
  fold p1 in Hn1, He1, Hend1, Hsel1, Hse1, Hc1, Hpc1, Hic1, Hsf1, Hrd1, Hh1, Hi1.
  destruct (paste_once p1 (mkSnap cn ce) Hc1 Hne)
    as (N2 & E2 & Hn2 & He2 & HN2 & HE2 & Hend2 & Hid2 & Heid2 & Hsel2 & Hse2
        & _ & _ & _ & _ & Hrd2 & Hmap2 & Hh2 & Hi2).
  fold p2 in Hn2, He2, Hend2, Hsel2, Hse2, Hrd2, Hh2, Hi2.
  cbn [snap_nodes snap_edges] in *. fold kept in HE1, HE2, Heid1, Heid2, Hic1.
  assert (Hcalls : forall prefix a n, callIds p1 prefix a n = callIds s0 prefix a n).
  { intros prefix a n. unfold callIds, idOfCall. rewrite Hsf1, Hcopy. reflexivity. }
  assert (Hcalls0 : forall prefix a n,
             callIds (copySelected s0) prefix a n = callIds s0 prefix a n).
  { intros prefix a n. rewrite Hcopy. reflexivity. }
  rewrite Hcalls0 in Hid1, Heid1. rewrite Hcalls in Hid2, Heid2.
  assert (Hc0 : idCalls (copySelected s0) = idCalls s0) by (rewrite Hcopy; reflexivity).
  rewrite Hc0 in Hid1, Heid1, Hic1. rewrite Hic1 in Hid2, Heid2.
  assert (Hpc0 : pasteCount (copySelected s0) = 0%Z) by (rewrite Hcopy; reflexivity).
  rewrite Hpc0 in HN1, HE1, Hpc1. rewrite Hpc1 in HN2, HE2.
  assert (Hnodes0 : nodes (copySelected s0) = nodes s0) by (rewrite Hcopy; reflexivity).
  assert (Hedges0 : edges (copySelected s0) = edges s0) by (rewrite Hcopy; reflexivity).
  rewrite Hnodes0 in Hn1. rewrite Hedges0 in He1.
  exists N1, E1, N2, E2.
  repeat (split; [first [assumption | exact HN1 | exact HN2 | exact HE1 | exact HE2] |]).
  split.
  { intros [Hinj [Hnewn Hnewe]]. rewrite !map_app, Hid1, Heid1, Hid2, Heid2.
    split; [apply callIds_NoDup; [exact Hinj | lia] |].
    split; [apply callIds_NoDup; [exact Hinj | lia] |].
    split; intros id Hin; apply in_app_or in Hin;
      destruct Hin as [Hin | Hin]; apply callIds_from in Hin;
      destruct Hin as [k [Hk ->]]; [apply Hnewn | apply Hnewn
                                   | apply Hnewe | apply Hnewe]; lia. }
  repeat (split; [assumption |]).
  assert (Hcd : forall (s : Editor) (d : list FlowNode * list FlowEdge),
             historyWf s ->
             history (commitDiagram s d)
             = cap80 (firstn (Z.to_nat (historyIndex s + 1)) (history s)
                      ++ [mkSnap (fst d) (snd d)])
             /\ historyIndex (commitDiagram s d)
                = (Z.of_nat (length (history (commitDiagram s d))) - 1)%Z
             /\ historyWf (commitDiagram s d)).
  { intros s d Hwf. unfold commitDiagram.
    exact (commitHistory_explicit (replaceDiagram (fst d) (snd d) s) Hwf). }
  assert (Hcn : forall (s : Editor) (d : list FlowNode * list FlowEdge),
             historyReady s = false ->
             history (commitDiagram s d) = history s
             /\ historyIndex (commitDiagram s d) = historyIndex s
             /\ historyReady (commitDiagram s d) = false).
  { intros s d Hr. unfold commitDiagram, commitHistory, replaceDiagram.
    editor_simpl. rewrite Hr. cbn [negb]. editor_simpl. auto. }
  assert (Hrd0 : historyReady (copySelected s0) = historyReady s0)
    by (rewrite Hcopy; reflexivity).
  assert (Hh0 : history (copySelected s0) = history s0)
    by (rewrite Hcopy; reflexivity).
  assert (Hi0 : historyIndex (copySelected s0) = historyIndex s0)
    by (rewrite Hcopy; reflexivity).
  split.
  - intros Hwf.
    assert (Hwf0 : historyWf (copySelected s0)).
    { unfold historyWf. rewrite Hrd0, Hh0, Hi0. exact Hwf. }
    destruct (Hcd (copySelected s0) (nodes p1, edges p1) Hwf0)
      as (Ha & Hb & Hc).
    rewrite <- Hh1, <- Hi1 in Hb. rewrite <- Hh1 in Ha.
    rewrite Hh0, Hi0 in Ha. cbn [fst snd] in Ha.
    assert (Hwf1 : historyWf p1).
    { unfold historyWf. rewrite Hrd1, Hrd0, Hh1, Hi1.
      split; [exact (proj1 Hwf) | exact (proj2 Hc)]. }
    destruct (Hcd p1 (nodes p2, edges p2) Hwf1) as (Ha2 & Hb2 & _).
    rewrite <- Hh2, <- Hi2 in Hb2. rewrite <- Hh2 in Ha2. cbn [fst snd] in Ha2.
    split; [exact Ha |]. split; [exact Hb |]. split; [| exact Hb2].
    rewrite Ha2. f_equal. f_equal. rewrite Hb.
    replace (Z.of_nat (length (history p1)) - 1 + 1)%Z
      with (Z.of_nat (length (history p1))) by lia.
    rewrite Nat2Z.id. apply firstn_all.
  - intros Hr.
    destruct (Hcn (copySelected s0) (nodes p1, edges p1)) as (Ha & Hb & _);
      [rewrite Hrd0; exact Hr |].
    destruct (Hcn p1 (nodes p2, edges p2)) as (Ha2 & Hb2 & _);
      [rewrite Hrd1, Hrd0; exact Hr |].
    rewrite Hh2, Ha2, Hh1, Ha, Hh0, Hi2, Hb2, Hi1, Hb, Hi0. split; reflexivity.
Qed.

Section PasteExample.

Lemma tally_length (k : nat) : String.length (tally k) = k.
Proof. induction k as [| k IH]; cbn [tally String.length]; congruence. Qed.

Lemma tally_inj (i j : nat) : tally i = tally j -> i = j.
Proof.
  intros H. rewrite <- (tally_length i), <- (tally_length j), H. reflexivity.
Qed.

Lemma pasteExample_fresh : freshSupply pasteExample.
Proof.
  split; [exact tally_inj |]. split; intros k _ Hin; cbn in Hin;
    repeat (destruct Hin as [Hin | Hin]; [discriminate Hin |]); exact Hin.
Qed.

End PasteExample.

Lemma pasteExample_ready_fresh :
  freshSupply (resetHistory (set_activeProject true pasteExample)).
Proof.
  split; [exact tally_inj |]. split; intros k _ Hin; cbn in Hin;
    repeat (destruct Hin as [Hin | Hin]; [discriminate Hin |]); exact Hin.
Qed.

(** Copy of the two selected nodes of the example, with a project open and
    the history initialised, then two pastes: two entries are added to the
    history. *)
Lemma paste_twice_witness :
  exists (N1 N2 : list FlowNode) (E1 E2 : list FlowEdge),
    nodes (pasteClipboard
             (pasteClipboard
                (copySelected
                   (resetHistory (set_activeProject true pasteExample)))))
    = (nodes pasteExample ++ N1) ++ N2
    /\ Forall2 (offsetNode 28)
         [mkNode "a" start "" 100 100 140 64; mkNode "b" process "" 300 100 140 64]
         N1
    /\ Forall2 (offsetNode 56)
         [mkNode "a" start "" 100 100 140 64; mkNode "b" process "" 300 100 140 64]
         N2
    /\ Forall2 (offsetEdge 28)
         [mkEdge "e" "a" "b" None None None None None None None
            (Some 200%R) (Some 60%R)] E1
    /\ Forall2 (offsetEdge 56)
         [mkEdge "e" "a" "b" None None None None None None None
            (Some 200%R) (Some 60%R)] E2
    /\ List.NoDup (map n_id (N1 ++ N2))
    /\ length (history (resetHistory (set_activeProject true pasteExample)))
       = 1%nat
    /\ length (history
                 (pasteClipboard
                    (pasteClipboard
                       (copySelected
                          (resetHistory (set_activeProject true pasteExample))))))
       = 3%nat
    /\ historyIndex
         (pasteClipboard
            (pasteClipboard
               (copySelected
                  (resetHistory (set_activeProject true pasteExample)))))
       = 2%Z.
Proof.
  destruct (paste_twice (resetHistory (set_activeProject true pasteExample)))
    as (N1 & E1 & N2 & E2 & _ & Hn1 & _ & Hn2 & _ & HN1 & HN2 & HE1 & HE2 & _ & _
        & _ & _ & _ & _ & _ & _ & Hfresh & _ & _ & _ & _ & _ & _ & _ & _ & Hhist & _);
    [cbn; discriminate |].
  destruct Hhist as (Hh1 & Hi1 & Hh2 & Hi2).
  { split; [reflexivity | cbn; lia]. }
  assert (L1 : length (history
                         (pasteClipboard
                            (copySelected
                               (resetHistory
                                  (set_activeProject true pasteExample)))))
               = 2%nat).
  { rewrite Hh1. reflexivity. }
  assert (L2 : length (history
                         (pasteClipboard
                            (pasteClipboard
                               (copySelected
                                  (resetHistory
                                     (set_activeProject true pasteExample))))))
               = 3%nat).
  { rewrite Hh2. unfold cap80. rewrite length_app, L1. cbn [length Nat.add Nat.ltb Nat.leb].
    rewrite length_app, L1. reflexivity. }
  exists N1, N2, E1, E2.
  split; [rewrite Hn2, Hn1; reflexivity |].
  split; [exact HN1 |]. split; [exact HN2 |].
  split; [exact HE1 |]. split; [exact HE2 |].
  split; [exact (proj1 (Hfresh pasteExample_ready_fresh)) |].
  split; [reflexivity |]. split; [exact L2 |].
  rewrite Hi2, L2. reflexivity.
Defined.

(** C4 fails as stated where the id generator repeats itself.  The ids come
    from [store.generateId], a timestamp and six random digits; when two
    calls fall in the same millisecond and draw the same digits they return
    the same id.  Copying the nodes a and b of the example and pasting once
    then gives two pasted nodes with one id, and the pasted copy of the edge
    from a to b runs from that id to itself; a second paste adds two more
    nodes with the same id again. *)
Lemma paste_fresh_counterexample :
  List.filter (fun n => includes (copyIds collisionExample) (n_id n))
    (nodes collisionExample) <> []
  /\ map n_id (nodes (pasteClipboard (copySelected collisionExample)))
     = ["a"; "b"; "c"; "node_1700000000000_k3f9zq"; "node_1700000000000_k3f9zq"]
  /\ map (fun e => (e_id e, e_sourceId e, e_targetId e))
       (edges (pasteClipboard (copySelected collisionExample)))
     = [("e", "a", "b"); ("f", "b", "c");
        ("edge_1700000000000_k3f9zq", "node_1700000000000_k3f9zq",
         "node_1700000000000_k3f9zq")]
  /\ ~ List.NoDup
         (map n_id (nodes (pasteClipboard (copySelected collisionExample))))
  /\ map n_id
       (nodes (pasteClipboard (pasteClipboard (copySelected collisionExample))))
     = ["a"; "b"; "c"; "node_1700000000000_k3f9zq"; "node_1700000000000_k3f9zq";
        "node_1700000000000_k3f9zq"; "node_1700000000000_k3f9zq"].
Proof.
  assert (H1 : map n_id (nodes (pasteClipboard (copySelected collisionExample)))
               = ["a"; "b"; "c"; "node_1700000000000_k3f9zq";
                  "node_1700000000000_k3f9zq"])
    by (vm_compute; reflexivity).
  split; [cbn; discriminate |]. split; [exact H1 |].
  split; [vm_compute; reflexivity |].
  split; [| vm_compute; reflexivity].
  rewrite H1. intros Hnd.
  inversion Hnd as [| ? ? _ H2]; subst.
  inversion H2 as [| ? ? _ H3]; subst.
  inversion H3 as [| ? ? _ H4]; subst.
  inversion H4 as [| ? ? Hin _]; subst.
  apply Hin. left. reflexivity.
Qed.


(** * Every handler keeps the selection invariant *)

(** Closes [historyInv] goals on states built from [s] by field updates and
    commits. *)
Ltac history_inv :=
  repeat first
    [ assumption
    | apply commitHistory_inv
    | progress (unfold historyInv in *; editor_simpl) ].

Section Handlers.

Lemma createNode_inv (type : FlowNodeType) (x y : R) (s : Editor) :
  historyInv s -> historyInv (createNode type x y s).
Proof.
  intros Hi. unfold createNode. destruct (nodeSize type) as [w h].
  unfold generateId. history_inv.
Qed.

Lemma onMouseDown_inv (clientX clientY : R) (shiftKey : bool) (s : Editor) :
  historyInv s -> historyInv (onMouseDown clientX clientY shiftKey s).
Proof.
  intros Hi. unfold onMouseDown, toggleNodeSelection.
  destruct (getBendHandleEdgeAt _ _ _ _ _) as [bendEdge |];
    destruct (selectedTool s) as [| | kind];
    try (destruct (getNodeAt _ _ _) as [node |]);
    try (destruct (nonEmpty (connectFromId s)); cbn [negb]);
    try (destruct (String.eqb (connectFromId s) _); cbn [negb]);
    try (destruct shiftKey);
    try (destruct (includes (selectedNodeIds s) (n_id node)); cbn [negb]);
    try (destruct (getEdgeAt _ _ _ _ _) as [edge |]);
    unfold generateId;
    try (history_inv; fail);
    try (unfold historyInv; editor_simpl;
         apply (createNode_inv kind _ _ s Hi)).
Qed.

Lemma onMouseMove_frame (clientX clientY : R) (s : Editor) :
  selectedNodeIds (onMouseMove clientX clientY s) = selectedNodeIds s
  /\ selectedEdgeId (onMouseMove clientX clientY s) = selectedEdgeId s
  /\ history (onMouseMove clientX clientY s) = history s
  /\ historyIndex (onMouseMove clientX clientY s) = historyIndex s.
Proof.
  unfold onMouseMove.
  destruct (nonEmpty (draggingBendEdgeId s)).
  - destruct (findEdge _ _); repeat split; reflexivity.
  - destruct (nonEmpty (draggingNodeId s)).
    + destruct (groupDragStart s !! draggingNodeId s); repeat split; reflexivity.
    + destruct (m_active (marquee s)); [repeat split; reflexivity |].
      destruct (panning s); repeat split; reflexivity.
Qed.

Lemma onMouseUp_xor (s : Editor) : selectionXor s -> selectionXor (onMouseUp s).
Proof.
  intros Hx. unfold onMouseUp. destruct (m_active (marquee s)).
  - destruct (m_append (marquee s)); right; reflexivity.
  - destruct (_ && _).
    + pose proof (commitHistory_xor s Hx) as H. exact H.
    + exact Hx.
Qed.

Lemma onMouseUp_inv (s : Editor) : historyInv s -> historyInv (onMouseUp s).
Proof.
  intros Hi. unfold onMouseUp. destruct (m_active (marquee s)).
  - destruct (m_append (marquee s)); history_inv.
  - destruct (_ && _).
    + pose proof (commitHistory_inv s Hi) as H. exact H.
    + exact Hi.
Qed.

Lemma deleteSelected_xor (s : Editor) :
  selectionXor s -> selectionXor (deleteSelected s).
Proof.
  intros Hx. unfold deleteSelected.
  destruct (0 <? length (selectedNodeIds s))%nat.
  - apply commitHistory_xor. left. reflexivity.
  - destruct (selectedEdge s); [| exact Hx].
    apply commitHistory_xor. right. reflexivity.
Qed.

Lemma deleteSelected_inv (s : Editor) :
  historyInv s -> historyInv (deleteSelected s).
Proof.
  intros Hi. unfold deleteSelected.
  destruct (0 <? length (selectedNodeIds s))%nat; [history_inv |].
  destruct (selectedEdge s); history_inv.
Qed.

Lemma copySelected_frame (s : Editor) :
  selectedNodeIds (copySelected s) = selectedNodeIds s
  /\ selectedEdgeId (copySelected s) = selectedEdgeId s
  /\ history (copySelected s) = history s
  /\ historyIndex (copySelected s) = historyIndex s.
Proof.
  unfold copySelected. destruct (length (copyIds s) =? 0)%nat;
    repeat split; reflexivity.
Qed.

Lemma pasteClipboard_xor (s : Editor) :
  selectionXor s -> selectionXor (pasteClipboard s).
Proof.
  intros Hx. unfold pasteClipboard.
  destruct (clipboardData s) as [clip |]; [| exact Hx].
  destruct (length (snap_nodes clip) =? 0)%nat; [exact Hx |].
  destruct (fold_left (pasteNode _) _ _) as [[nextNodes idMap] s1].
  destruct (fold_left (pasteEdge _ _) _ _) as [nextEdges s2].
  apply commitHistory_xor. right. reflexivity.
Qed.

Lemma pasteClipboard_inv (s : Editor) :
  historyInv s -> historyInv (pasteClipboard s).
Proof.
  intros Hi. unfold pasteClipboard.
  destruct (clipboardData s) as [clip |]; [| exact Hi].
  destruct (length (snap_nodes clip) =? 0)%nat; [exact Hi |].
  rewrite <- (set_idCalls_same (set_pasteCount (pasteCount s + 1) s)).
  rewrite pasteNode_fold, pasteEdge_fold. history_inv.
Qed.

Lemma autoLayout_shape (direction : Direction) (fuel : nat) (s s' : Editor) :
  autoLayout direction fuel s = Some s' ->
  s' = s
  \/ exists (ns : list FlowNode) (es : list FlowEdge),
       s' = commitHistory (set_edges es (set_nodes ns s)).
Proof.
  unfold autoLayout. destruct (nodes s) as [| first rest]; [intros [= <-]; left; reflexivity |].
  destruct (layoutTables _ _) as [inc adj].
  destruct (layering _ _ _ _ _) as [depth1 |]; [| discriminate].
  intros [= <-]. right. eexists; eexists; reflexivity.
Qed.

Lemma step_xor (ev : Event) (s s' : Editor) :
  selectionXor s -> step ev s = Some s' -> selectionXor s'.
Proof.
  intros Hx. destruct ev; cbn [step].
  - intros [= <-]. apply onMouseDown_xor. exact Hx.
  - intros [= <-]. unfold selectionXor.
    destruct (onMouseMove_frame clientX clientY s) as [-> [-> _]]. exact Hx.
  - intros [= <-]. apply onMouseUp_xor. exact Hx.
  - unfold undo. destruct (canUndo s); cbn [negb]; [| intros [= <-]; exact Hx].
    apply applyCurrent_xor. exact Hx.
  - unfold redo. destruct (canRedo s); cbn [negb]; [| intros [= <-]; exact Hx].
    apply applyCurrent_xor. exact Hx.
  - intros [= <-]. apply setNodeSelection_xor.
  - intros [= <-]. unfold selectionXor.
    destruct (copySelected_frame s) as [-> [-> _]]. exact Hx.
  - intros [= <-]. apply pasteClipboard_xor. exact Hx.
  - intros [= <-]. apply deleteSelected_xor. exact Hx.
  - intros [= <-]. unfold clearFlow. destruct confirmed; cbn [negb]; [| exact Hx].
    apply commitHistory_xor. left. reflexivity.
  - intros [= <-]. unfold loadTemplate.
    destruct (_ && _); [exact Hx |].
    destruct (templateDiagram name) as [ns es].
    apply commitHistory_xor. left. reflexivity.
  - intros Hl. apply autoLayout_shape in Hl.
    destruct Hl as [-> | [ns [es ->]]]; [exact Hx |].
    apply commitHistory_xor. exact Hx.
  - intros [= <-]. unfold importJson.
    destruct parsed as [| | ns es]; [exact Hx | exact Hx |].
    apply commitHistory_xor. left. reflexivity.
  - intros [= <-]. unfold onProjectChange. destruct proj as [[ns es] |];
      [left; reflexivity | exact Hx].
  - intros [= <-]. exact Hx.
  - intros [= <-]. unfold updateNodeText. destruct (selectedNode s); [| exact Hx].
    apply commitHistory_xor. exact Hx.
  - intros [= <-]. unfold resetSelectedEdgeBend. destruct (selectedEdge s); [| exact Hx].
    apply commitHistory_xor. exact Hx.
  - intros [= <-]. exact Hx.
Qed.

Lemma step_total (ev : Event) (s : Editor) :
  historyInv s -> isAutoLayout ev = false ->
  exists s', step ev s = Some s' /\ historyInv s'.
Proof.
  intros Hi Hev. destruct ev; cbn [step]; try discriminate Hev;
    try (eexists; split; [reflexivity |]).
  - apply onMouseDown_inv. exact Hi.
  - unfold historyInv.
    destruct (onMouseMove_frame clientX clientY s) as [_ [_ [-> ->]]]. exact Hi.
  - apply onMouseUp_inv. exact Hi.
  - unfold undo, canUndo. destruct (0 <? historyIndex s)%Z eqn:Hc; cbn [negb];
      [| eauto].
    apply Z.ltb_lt in Hc.
    destruct (applyCurrent_total (set_historyIndex (historyIndex s - 1) s))
      as [s' Hs']; [unfold historyInv in Hi; editor_simpl; lia |].
    exists s'. split; [exact Hs' |].
    apply applyCurrent_history in Hs'. destruct Hs' as [Hh Hx].
    unfold historyInv in *. rewrite Hh, Hx. editor_simpl. lia.
  - unfold redo, canRedo.
    destruct ((0 <=? historyIndex s)%Z
              && (historyIndex s <? Z.of_nat (length (history s)) - 1)%Z) eqn:Hc;
      cbn [negb]; [| eauto].
    apply andb_true_iff in Hc. destruct Hc as [Hc1 Hc2].
    apply Z.leb_le in Hc1. apply Z.ltb_lt in Hc2.
    destruct (applyCurrent_total (set_historyIndex (historyIndex s + 1) s))
      as [s' Hs']; [editor_simpl; lia |].
    exists s'. split; [exact Hs' |].
    apply applyCurrent_history in Hs'. destruct Hs' as [Hh Hx].
    unfold historyInv in *. rewrite Hh, Hx. editor_simpl. lia.
  - history_inv.
  - unfold historyInv.
    destruct (copySelected_frame s) as [_ [_ [-> ->]]]. exact Hi.
  - apply pasteClipboard_inv. exact Hi.
  - apply deleteSelected_inv. exact Hi.
  - unfold clearFlow. destruct confirmed; cbn [negb]; history_inv.
  - unfold loadTemplate. destruct (_ && _); [exact Hi |].
    destruct (templateDiagram name) as [ns es]. history_inv.
  - unfold importJson. destruct parsed as [| | ns es]; history_inv.
  - unfold onProjectChange. destruct proj as [[ns es] |]; history_inv.
  - unfold historyInv, resetHistory. editor_simpl. cbn [length]. lia.
  - unfold updateNodeText. destruct (selectedNode s); history_inv.
  - unfold resetSelectedEdgeBend. destruct (selectedEdge s); history_inv.
  - history_inv.
Qed.

End Handlers.

Section ReachableStates.

Lemma step_historyInv (ev : Event) (s s' : Editor) :
  historyInv s -> step ev s = Some s' -> historyInv s'.
Proof.
  intros Hi Hs. destruct (isAutoLayout ev) eqn:Hev.
  - destruct ev; try discriminate Hev. cbn [step] in Hs.
    apply autoLayout_shape in Hs. destruct Hs as [-> | [ns [es ->]]]; history_inv.
  - destruct (step_total ev s Hi Hev) as [s'' [Hs'' Hi'']].
    rewrite Hs in Hs''. injection Hs'' as <-. exact Hi''.
Qed.

Lemma reachable_inv (s : Editor) :
  Reachable s -> selectionXor s /\ historyInv s.
Proof.
  induction 1 as [canvas suffix | ev s s' Hr [Hx Hi] Hs].
  - split; [left; reflexivity | unfold historyInv; cbn; lia].
  - split; [exact (step_xor ev s s' Hx Hs) | exact (step_historyInv ev s s' Hi Hs)].
Qed.

End ReachableStates.

(** C9.  In every state the editor can reach, the set of selected node ids
    and the selected edge id are not both non-empty.  Every handler
    (pointer down, move and up, with node and edge selection, toggling,
    connecting, placing and marquee resolution; undo, redo, select-all,
    copy, paste, delete, clear, template load, auto-layout, import, project
    change, history reset, text edit, bend reset, tool choice) keeps that
    invariant, and every handler other than auto-layout returns in every
    reachable state.  Selecting a node by any of the three selection
    functions clears the edge selection, and selecting an edge by its bend
    handle or by a hit on its path clears the node selection. *)
Theorem selection_xor_invariant :
  (forall s : Editor,
     Reachable s -> selectedNodeIds s = [] \/ selectedEdgeId s = "")
  /\ (forall (ev : Event) (s s' : Editor),
        selectionXor s -> step ev s = Some s' -> selectionXor s')
  /\ (forall (ev : Event) (s : Editor),
        Reachable s -> isAutoLayout ev = false ->
        exists s' : Editor, step ev s = Some s')
  /\ (forall (id : string) (s : Editor),
        selectedEdgeId (setSingleNodeSelection id s) = "")
  /\ (forall (ids : list string) (s : Editor),
        selectedEdgeId (setNodeSelection ids s) = "")
  /\ (forall (id : string) (s : Editor),
        selectedEdgeId (toggleNodeSelection id s) = "")
  /\ (forall (clientX clientY : R) (shiftKey : bool) (s : Editor)
             (bendEdge : FlowEdge),
        selectedTool s = ToolSelect ->
        getBendHandleEdgeAt (nodes s) (edges s) (scale s)
          (Fin (rx (toCanvasPoint clientX clientY s)))
          (Fin (ry (toCanvasPoint clientX clientY s))) = Some bendEdge ->
        selectedEdgeId (onMouseDown clientX clientY shiftKey s) = e_id bendEdge
        /\ selectedNodeIds (onMouseDown clientX clientY shiftKey s) = [])
  /\ (forall (clientX clientY : R) (shiftKey : bool) (s : Editor)
             (edge : FlowEdge),
        selectedTool s = ToolSelect ->
        getBendHandleEdgeAt (nodes s) (edges s) (scale s)
          (Fin (rx (toCanvasPoint clientX clientY s)))
          (Fin (ry (toCanvasPoint clientX clientY s))) = None ->
        getNodeAt (nodes s)
          (Fin (rx (toCanvasPoint clientX clientY s)))
          (Fin (ry (toCanvasPoint clientX clientY s))) = None ->
        getEdgeAt (nodes s) (edges s) (scale s)
          (Fin (rx (toCanvasPoint clientX clientY s)))
          (Fin (ry (toCanvasPoint clientX clientY s))) = Some edge ->
        selectedEdgeId (onMouseDown clientX clientY shiftKey s) = e_id edge
        /\ selectedNodeIds (onMouseDown clientX clientY shiftKey s) = []).
Proof.
  split; [intros s Hr; exact (proj1 (reachable_inv s Hr)) |].
  split; [exact step_xor |].
  split.
  { intros ev s Hr Hev. destruct (reachable_inv s Hr) as [_ Hi].
    destruct (step_total ev s Hi Hev) as [s' [Hs' _]]. eauto. }
  split; [reflexivity |]. split; [reflexivity |].
  split.
  { intros id s. unfold toggleNodeSelection. destruct (includes _ _); reflexivity. }
  split.
  - intros clientX clientY shiftKey s bendEdge Ht Hb.
    unfold onMouseDown. rewrite Hb, Ht. split; reflexivity.
  - intros clientX clientY shiftKey s edge Ht Hb Hn He.
    unfold onMouseDown. rewrite Hb, Ht, Hn, He. split; reflexivity.
Qed.

(** The invariant after a project is loaded and everything is selected. *)
Lemma selection_xor_invariant_witness :
  selectionXor
    (selectAll
       (onProjectChange (Some ([mkNode "a" start "" 100 100 140 64], []))
          (initialEditor None (fun _ => "")))).
Proof.
  apply (proj1 (proj2 selection_xor_invariant) SelectAll
           (onProjectChange (Some ([mkNode "a" start "" 100 100 140 64], []))
              (initialEditor None (fun _ => "")))).
  - left. reflexivity.
  - reflexivity.
Defined.


(** * Group drag *)

Section Drag.
Local Open Scope R_scope.

Lemma Rround_eq (r : R) (z : Z) : IZR z <= r + / 2 < IZR z + 1 -> Rround r = IZR z.
Proof. intros H. unfold Rround. f_equal. apply Zfloor_eq. exact H. Qed.

Lemma Rround_integer (r : R) : isInteger r -> Rround r = r.
Proof. intros [z ->]. apply Rround_eq. lra. Qed.

(** Looking a node up after the first node of some id was altered by an
    id-preserving function. *)
Lemma findNode_alterFirst (f : FlowNode -> FlowNode) (k j : string)
  (ns : list FlowNode) :
  (forall n, n_id (f n) = n_id n) ->
  findNode (alterFirst (fun n => String.eqb (n_id n) k) f ns) j
  = if String.eqb j k then option_map f (findNode ns j) else findNode ns j.
Proof.
  intros Hf. unfold findNode.
  induction ns as [| n ns IH]; cbn [alterFirst List.find].
  - destruct (String.eqb j k); reflexivity.
  - destruct (String.eqb (n_id n) k) eqn:Hnk; cbn [List.find].
    + apply String.eqb_eq in Hnk. rewrite Hf.
      destruct (String.eqb (n_id n) j) eqn:Hnj.
      * apply String.eqb_eq in Hnj.
        assert (Hjk : String.eqb j k = true)
          by (apply String.eqb_eq; congruence).
        rewrite Hjk. reflexivity.
      * destruct (String.eqb j k) eqn:Hjk; [| reflexivity].
        apply String.eqb_eq in Hjk. apply String.eqb_neq in Hnj. congruence.
    + destruct (String.eqb (n_id n) j) eqn:Hnj; [| exact IH].
      apply String.eqb_eq in Hnj.
      destruct (String.eqb j k) eqn:Hjk; [| reflexivity].
      apply String.eqb_eq in Hjk. apply String.eqb_neq in Hnk. congruence.
Qed.

Lemma findNode_id (ns : list FlowNode) (j : string) (n : FlowNode) :
  findNode ns j = Some n -> n_id n = j.
Proof.
  unfold findNode. intros H. apply find_some in H. destruct H as [_ H].
  apply String.eqb_eq in H. exact H.
Qed.

Lemma movedNode_id (starts : gmap string RPoint) (dx dy : R) (n : FlowNode) :
  n_id (movedNode starts dx dy n) = n_id n.
Proof. unfold movedNode. destruct (starts !! n_id n); reflexivity. Qed.

Lemma movedNode_idem (starts : gmap string RPoint) (dx dy : R) (n : FlowNode) :
  movedNode starts dx dy (movedNode starts dx dy n) = movedNode starts dx dy n.
Proof.
  unfold movedNode at 1. rewrite movedNode_id. unfold movedNode.
  destruct (starts !! n_id n); reflexivity.
Qed.

(** One pass of the group loop. *)
Lemma findNode_moveMember (starts : gmap string RPoint) (dx dy : R)
  (ns : list FlowNode) (id j : string) :
  findNode (moveMember starts dx dy ns id) j
  = if String.eqb j id then option_map (movedNode starts dx dy) (findNode ns j)
    else findNode ns j.
Proof.
  unfold moveMember.
  destruct (String.eqb j id) eqn:Hji.
  - apply String.eqb_eq in Hji. subst j.
    destruct (findNode ns id) as [n |] eqn:Hn; [| rewrite Hn; reflexivity].
    pose proof (findNode_id _ _ _ Hn) as Hid.
    destruct (starts !! id) as [st |] eqn:Hst.
    + rewrite findNode_alterFirst by reflexivity.
      rewrite String.eqb_refl, Hn. cbn [option_map].
      unfold movedNode. rewrite Hid, Hst. reflexivity.
    + rewrite Hn. cbn [option_map]. unfold movedNode. rewrite Hid, Hst. reflexivity.
  - destruct (findNode ns id) as [n |]; [| reflexivity].
    destruct (starts !! id) as [st |]; [| reflexivity].
    rewrite findNode_alterFirst by reflexivity. rewrite Hji. reflexivity.
Qed.

(** The whole group loop: the nodes whose id is dragged are moved, the
    others are as they were. *)
Lemma findNode_moveGroup (starts : gmap string RPoint) (dx dy : R)
  (ids : list string) :
  forall (ns : list FlowNode) (j : string),
    findNode (fold_left (moveMember starts dx dy) ids ns) j
    = if includes ids j then option_map (movedNode starts dx dy) (findNode ns j)
      else findNode ns j.
Proof.
  induction ids as [| id ids IH]; intros ns j; [reflexivity |].
  cbn [fold_left]. rewrite IH, findNode_moveMember.
  unfold includes. cbn [existsb]. fold (includes ids j).
  destruct (String.eqb j id) eqn:Hji; cbn [orb]; [| reflexivity].
  destruct (includes ids j); [| reflexivity].
  destruct (findNode ns j) as [n |]; [| reflexivity].
  cbn [option_map]. rewrite movedNode_idem. reflexivity.
Qed.

(** Each coordinate [applySnap] returns is the grid value or the
    coordinate of a node other than the moving one. *)
Lemma applySnap_values (rawX rawY : R) (movingId : string) (s : Editor) :
  (fst (applySnap rawX rawY movingId s) = Rround (rawX / 20) * 20
   \/ exists node, In node (nodes s) /\ n_id node <> movingId
                   /\ fst (applySnap rawX rawY movingId s) = n_x node)
  /\ (snd (applySnap rawX rawY movingId s) = Rround (rawY / 20) * 20
      \/ exists node, In node (nodes s) /\ n_id node <> movingId
                      /\ snd (applySnap rawX rawY movingId s) = n_y node).
Proof.
  unfold applySnap.
  generalize (Rround (rawX / 20) * 20) (Rround (rawY / 20) * 20).
  intros gx gy.
  assert (Hgen : forall (ns : list FlowNode) (x y : R),
    (x = gx \/ exists node, In node (nodes s) /\ n_id node <> movingId /\ x = n_x node) ->
    (y = gy \/ exists node, In node (nodes s) /\ n_id node <> movingId /\ y = n_y node) ->
    incl ns (nodes s) ->
    (fst (fold_left (snapStep movingId) ns (x, y)) = gx
     \/ exists node, In node (nodes s) /\ n_id node <> movingId
                     /\ fst (fold_left (snapStep movingId) ns (x, y)) = n_x node)
    /\ (snd (fold_left (snapStep movingId) ns (x, y)) = gy
        \/ exists node, In node (nodes s) /\ n_id node <> movingId
                        /\ snd (fold_left (snapStep movingId) ns (x, y)) = n_y node)).
  { induction ns as [| n ns IH]; intros x y Hx Hy Hin; [split; assumption |].
    cbn [fold_left].
    assert (Hn : In n (nodes s)) by (apply Hin; left; reflexivity).
    assert (Hrest : incl ns (nodes s)) by (intros a Ha; apply Hin; right; exact Ha).
    destruct (snapStep movingId (x, y) n) as [x' y'] eqn:Hst.
    unfold snapStep in Hst. cbn [fst snd] in Hst.
    destruct (String.eqb (n_id n) movingId) eqn:Hid.
    - injection Hst as <- <-. apply IH; assumption.
    - apply String.eqb_neq in Hid. injection Hst as <- <-.
      apply IH; [| | exact Hrest].
      + destruct (Rleb _ 8); [right; exists n; auto | exact Hx].
      + destruct (Rleb _ 8); [right; exists n; auto | exact Hy]. }
  apply Hgen; [left; reflexivity | left; reflexivity | apply incl_refl].
Qed.

(** The alignment loop works on each axis by itself. *)
Lemma applySnap_axes (movingId : string) (ns : list FlowNode) (x y : R) :
  fold_left (snapStep movingId) ns (x, y)
  = (fold_left alignStep (otherCoords n_x movingId ns) x,
     fold_left alignStep (otherCoords n_y movingId ns) y).
Proof.
  revert x y. induction ns as [| n ns IH]; intros x y; [reflexivity |].
  cbn [fold_left]. unfold snapStep at 2. unfold otherCoords in *.
  cbn [List.filter fst snd].
  destruct (String.eqb (n_id n) movingId); cbn [negb map fold_left].
  - apply IH.
  - rewrite IH. reflexivity.
Qed.

Lemma alignStep_aligned (all cs : list R) (g x : R) :
  alignedFrom all g x -> incl cs all ->
  alignedFrom all g (fold_left alignStep cs x).
Proof.
  revert x. induction cs as [| c cs IH]; intros x Hx Hin; [exact Hx |].
  cbn [fold_left]. apply IH; [| intros a Ha; apply Hin; right; exact Ha].
  unfold alignStep, Rleb. destruct (Rle_dec (Rabs (c - x)) 8) as [Hle | Hgt].
  - apply (AlignedNode all g x c Hx); [apply Hin; left; reflexivity | exact Hle].
  - exact Hx.
Qed.

Lemma alignStep_none (cs : list R) (x : R) :
  (forall c, In c cs -> 8 < Rabs (c - x)) -> fold_left alignStep cs x = x.
Proof.
  induction cs as [| c cs IH]; intros H; [reflexivity |].
  cbn [fold_left]. unfold alignStep at 2.
  rewrite Rleb_false by (apply H; left; reflexivity).
  apply IH. intros a Ha. apply H. right. exact Ha.
Qed.

Lemma alignStep_some (all cs : list R) (x : R) :
  incl cs all ->
  In x all \/ (exists c, In c cs /\ Rabs (c - x) <= 8) ->
  In (fold_left alignStep cs x) all.
Proof.
  revert x. induction cs as [| c cs IH]; intros x Hin H.
  - destruct H as [H | [c [[] _]]]. exact H.
  - cbn [fold_left].
    assert (Hrest : incl cs all) by (intros a Ha; apply Hin; right; exact Ha).
    apply IH; [exact Hrest |].
    unfold alignStep, Rleb. destruct (Rle_dec (Rabs (c - x)) 8) as [Hle | Hgt].
    + left. apply Hin. left. reflexivity.
    + destruct H as [H | [c' [[<- | Hc'] Hle']]].
      * left. exact H.
      * lra.
      * right. exists c'. split; assumption.
Qed.

(** What [applySnap] returns on one axis: a value reached from the grid
    value by alignment; the grid value when no other node is within 8 of
    it; the coordinate of another node when one is. *)
Lemma applySnap_threshold (rawX rawY : R) (movingId : string) (s : Editor) :
  let gx := Rround (rawX / 20) * 20 in
  let gy := Rround (rawY / 20) * 20 in
  let xs := otherCoords n_x movingId (nodes s) in
  let ys := otherCoords n_y movingId (nodes s) in
  (fst (applySnap rawX rawY movingId s) = fold_left alignStep xs gx
   /\ alignedFrom xs gx (fst (applySnap rawX rawY movingId s))
   /\ ((forall c, In c xs -> 8 < Rabs (c - gx)) ->
       fst (applySnap rawX rawY movingId s) = gx)
   /\ ((exists c, In c xs /\ Rabs (c - gx) <= 8) ->
       In (fst (applySnap rawX rawY movingId s)) xs))
  /\ (snd (applySnap rawX rawY movingId s) = fold_left alignStep ys gy
      /\ alignedFrom ys gy (snd (applySnap rawX rawY movingId s))
      /\ ((forall c, In c ys -> 8 < Rabs (c - gy)) ->
          snd (applySnap rawX rawY movingId s) = gy)
      /\ ((exists c, In c ys /\ Rabs (c - gy) <= 8) ->
          In (snd (applySnap rawX rawY movingId s)) ys)).
Proof.
  intros gx gy xs ys. unfold applySnap. rewrite applySnap_axes.
  cbn [fst snd]. fold gx gy xs ys.
  split; (split; [reflexivity | split; [| split]]).
  - apply alignStep_aligned; [constructor | apply incl_refl].
  - apply alignStep_none.
  - intros H. apply alignStep_some; [apply incl_refl | right; exact H].
  - apply alignStep_aligned; [constructor | apply incl_refl].
  - apply alignStep_none.
  - intros H. apply alignStep_some; [apply incl_refl | right; exact H].
Qed.

End Drag.

Section DragMove.
Local Open Scope R_scope.

(** What a pointer move does to the nodes during a node drag. *)
Lemma onMouseMove_drag (s : Editor) (clientX clientY : R) (leaderStart : RPoint) :
  draggingBendEdgeId s = "" ->
  draggingNodeId s <> "" ->
  groupDragStart s !! draggingNodeId s = Some leaderStart ->
  nodes (onMouseMove clientX clientY s)
  = fold_left
      (moveMember (groupDragStart s)
         (fst (dragDelta clientX clientY leaderStart s))
         (snd (dragDelta clientX clientY leaderStart s)))
      (draggingGroupIds s) (nodes s).
Proof.
  intros Hb Hn Hl. unfold onMouseMove. rewrite Hb.
  cbn [nonEmpty String.eqb negb].
  assert (Hne : nonEmpty (draggingNodeId s) = true).
  { unfold nonEmpty. apply negb_true_iff. apply String.eqb_neq. exact Hn. }
  rewrite Hne, Hl. reflexivity.
Qed.

Lemma Rleb_abs_false (a b : R) : b < a \/ a < - b -> Rleb (Rabs a) b = false.
Proof.
  intros H. apply Rleb_false. unfold Rabs. destruct (Rcase_abs a); lra.
Qed.

Lemma Rleb_abs_true (a b : R) : - b <= a <= b -> Rleb (Rabs a) b = true.
Proof.
  intros H. apply Rleb_true. unfold Rabs. destruct (Rcase_abs a); lra.
Qed.

End DragMove.

(** C5, as amended.  During a node drag, a pointer move puts every dragged
    node that has a recorded start at the rounded sum of that start and the
    one delta computed for the leader, coordinate by coordinate; nodes that
    are not dragged stay where they are.  Where a sum is an integer the
    rounding gives it back, so between dragged nodes whose sums are integers
    the relative offsets are those of the starts.  On each axis the leader's
    snapped coordinate starts as the nearest multiple of 20 and is moved, node
    by node in diagram order, onto the coordinate of every node other than the
    leader that lies within 8 of the value held at that moment (the fold of
    [alignStep] over those coordinates): it is the multiple of 20 when no
    other node is within 8 of that multiple, and the coordinate of another
    node, reached by steps of at most 8, when one is. *)
Theorem group_drag_positions (s : Editor) (clientX clientY : R)
  (leaderStart : RPoint) :
  draggingBendEdgeId s = "" ->
  draggingNodeId s <> "" ->
  groupDragStart s !! draggingNodeId s = Some leaderStart ->
  let d := dragDelta clientX clientY leaderStart s in
  let s' := onMouseMove clientX clientY s in
  (forall (id : string) (n : FlowNode) (st : RPoint),
     In id (draggingGroupIds s) ->
     findNode (nodes s) id = Some n ->
     groupDragStart s !! id = Some st ->
     exists n' : FlowNode,
       findNode (nodes s') id = Some n'
       /\ n_x n' = Rround (rx st + fst d) /\ n_y n' = Rround (ry st + snd d)
       /\ (isInteger (rx st + fst d) -> n_x n' = (rx st + fst d)%R)
       /\ (isInteger (ry st + snd d) -> n_y n' = (ry st + snd d)%R))
  /\ (forall (id1 id2 : string) (n1 n2 : FlowNode) (st1 st2 : RPoint),
        In id1 (draggingGroupIds s) -> In id2 (draggingGroupIds s) ->
        findNode (nodes s) id1 = Some n1 -> findNode (nodes s) id2 = Some n2 ->
        groupDragStart s !! id1 = Some st1 -> groupDragStart s !! id2 = Some st2 ->
        isInteger (rx st1 + fst d) -> isInteger (rx st2 + fst d) ->
        isInteger (ry st1 + snd d) -> isInteger (ry st2 + snd d) ->
        exists n1' n2' : FlowNode,
          findNode (nodes s') id1 = Some n1'
          /\ findNode (nodes s') id2 = Some n2'
          /\ (n_x n1' - n_x n2' = rx st1 - rx st2)%R
          /\ (n_y n1' - n_y n2' = ry st1 - ry st2)%R)
  /\ (forall id : string,
        ~ In id (draggingGroupIds s) ->
        findNode (nodes s') id = findNode (nodes s) id)
  /\ ((fst d + rx leaderStart
       = Rround ((rx leaderStart
                  + (rx (toCanvasPoint clientX clientY s) - rx (dragStartPoint s)))
                 / 20) * 20)%R
      \/ exists node : FlowNode,
           In node (nodes s) /\ n_id node <> draggingNodeId s
           /\ (fst d + rx leaderStart)%R = n_x node)
  /\ ((snd d + ry leaderStart
       = Rround ((ry leaderStart
                  + (ry (toCanvasPoint clientX clientY s) - ry (dragStartPoint s)))
                 / 20) * 20)%R
      \/ exists node : FlowNode,
           In node (nodes s) /\ n_id node <> draggingNodeId s
           /\ (snd d + ry leaderStart)%R = n_y node)
  /\ (let gx := (Rround ((rx leaderStart
                          + (rx (toCanvasPoint clientX clientY s)
                             - rx (dragStartPoint s))) / 20) * 20)%R in
      let xs := otherCoords n_x (draggingNodeId s) (nodes s) in
      (fst d + rx leaderStart)%R = fold_left alignStep xs gx
      /\ alignedFrom xs gx (fst d + rx leaderStart)%R
      /\ ((forall c : R, In c xs -> (8 < Rabs (c - gx))%R) ->
          (fst d + rx leaderStart)%R = gx)
      /\ ((exists c : R, In c xs /\ (Rabs (c - gx) <= 8)%R) ->
          In (fst d + rx leaderStart)%R xs))
  /\ (let gy := (Rround ((ry leaderStart
                          + (ry (toCanvasPoint clientX clientY s)
                             - ry (dragStartPoint s))) / 20) * 20)%R in
      let ys := otherCoords n_y (draggingNodeId s) (nodes s) in
      (snd d + ry leaderStart)%R = fold_left alignStep ys gy
      /\ alignedFrom ys gy (snd d + ry leaderStart)%R
      /\ ((forall c : R, In c ys -> (8 < Rabs (c - gy))%R) ->
          (snd d + ry leaderStart)%R = gy)
      /\ ((exists c : R, In c ys /\ (Rabs (c - gy) <= 8)%R) ->
          In (snd d + ry leaderStart)%R ys)).
Proof.
  intros Hb Hn Hl d s'.
  assert (Hnodes : nodes s' = fold_left
                     (moveMember (groupDragStart s) (fst d) (snd d))
                     (draggingGroupIds s) (nodes s))
    by (apply onMouseMove_drag; assumption).
  assert (Hmember : forall (id : string) (n : FlowNode) (st : RPoint),
             In id (draggingGroupIds s) ->
             findNode (nodes s) id = Some n ->
             groupDragStart s !! id = Some st ->
             findNode (nodes s') id
             = Some (setPosition (Rround (rx st + fst d)) (Rround (ry st + snd d)) n)).
  { intros id n st Hin Hf Hs. rewrite Hnodes, findNode_moveGroup.
    apply includes_In in Hin. rewrite Hin, Hf. cbn [option_map].
    unfold movedNode. rewrite (findNode_id _ _ _ Hf), Hs. reflexivity. }
  split; [| split; [| split; [| split; [| split; [| split]]]]].
  - intros id n st Hin Hf Hs. eexists. split; [exact (Hmember id n st Hin Hf Hs) |].
    cbn [n_x n_y setPosition].
    split; [reflexivity |]. split; [reflexivity |].
    split; intros Hint; apply Rround_integer; exact Hint.
  - intros id1 id2 n1 n2 st1 st2 Hin1 Hin2 Hf1 Hf2 Hs1 Hs2 Hx1 Hx2 Hy1 Hy2.
    eexists; eexists.
    split; [exact (Hmember id1 n1 st1 Hin1 Hf1 Hs1) |].
    split; [exact (Hmember id2 n2 st2 Hin2 Hf2 Hs2) |].
    cbn [n_x n_y setPosition].
    rewrite !Rround_integer by assumption. split; ring.
  - intros id Hnin. rewrite Hnodes, findNode_moveGroup.
    destruct (includes (draggingGroupIds s) id) eqn:Hi; [| reflexivity].
    apply includes_In in Hi. contradiction.
  - unfold d, dragDelta. cbn [fst snd].
    destruct (applySnap_values
                (rx leaderStart + (rx (toCanvasPoint clientX clientY s)
                                   - rx (dragStartPoint s)))
                (ry leaderStart + (ry (toCanvasPoint clientX clientY s)
                                   - ry (dragStartPoint s)))
                (draggingNodeId s) s) as [Hx _].
    destruct Hx as [Hx | [node [Hin [Hid Hx]]]].
    + left. rewrite <- Hx. ring.
    + right. exists node. split; [exact Hin |]. split; [exact Hid |].
      rewrite <- Hx. ring.
  - unfold d, dragDelta. cbn [fst snd].
    destruct (applySnap_values
                (rx leaderStart + (rx (toCanvasPoint clientX clientY s)
                                   - rx (dragStartPoint s)))
                (ry leaderStart + (ry (toCanvasPoint clientX clientY s)
                                   - ry (dragStartPoint s)))
                (draggingNodeId s) s) as [_ Hy].
    destruct Hy as [Hy | [node [Hin [Hid Hy]]]].
    + left. rewrite <- Hy. ring.
    + right. exists node. split; [exact Hin |]. split; [exact Hid |].
      rewrite <- Hy. ring.
  - intros gx xs.
    replace (fst d + rx leaderStart)%R
      with (fst (applySnap
                   (rx leaderStart + (rx (toCanvasPoint clientX clientY s)
                                      - rx (dragStartPoint s)))
                   (ry leaderStart + (ry (toCanvasPoint clientX clientY s)
                                      - ry (dragStartPoint s)))
                   (draggingNodeId s) s))
      by (unfold d, dragDelta; cbn [fst snd]; ring).
    exact (proj1 (applySnap_threshold _ _ (draggingNodeId s) s)).
  - intros gy ys.
    replace (snd d + ry leaderStart)%R
      with (snd (applySnap
                   (rx leaderStart + (rx (toCanvasPoint clientX clientY s)
                                      - rx (dragStartPoint s)))
                   (ry leaderStart + (ry (toCanvasPoint clientX clientY s)
                                      - ry (dragStartPoint s)))
                   (draggingNodeId s) s))
      by (unfold d, dragDelta; cbn [fst snd]; ring).
    exact (proj2 (applySnap_threshold _ _ (draggingNodeId s) s)).
Qed.

Section DragExample.
Local Open Scope R_scope.

Lemma dragExample_leader :
  groupDragStart dragExample !! draggingNodeId dragExample = Some (mkRPoint 0 0).
Proof.
  cbn [dragExample groupDragStart draggingNodeId set_groupDragStart
       set_draggingNodeId set_dragStartPoint set_draggingGroupIds].
  rewrite lookup_insert_ne by discriminate. apply lookup_insert_eq.
Qed.

Lemma dragExample_member :
  groupDragStart dragExample !! "b" = Some (mkRPoint (1 / 2) 0).
Proof.
  cbn [dragExample groupDragStart set_groupDragStart set_dragStartPoint].
  apply lookup_insert_eq.
Qed.

(** The pointer has moved 20 to the right: the leader snaps to [(20, 0)]. *)
Lemma dragExample_delta :
  dragDelta 20 0 (mkRPoint 0 0) dragExample = (20, 0).
Proof.
  unfold dragDelta, applySnap.
  cbn [dragExample toCanvasPoint canvasRect pan scale dragStartPoint
       draggingNodeId nodes set_dragStartPoint set_groupDragStart
       set_draggingGroupIds set_draggingNodeId setNodeSelection
       set_selectedEdgeId set_selectedNodeId set_selectedNodeIds set_nodes
       initialEditor rx ry fold_left].
  rewrite (Rround_eq _ 1) by lra.
  rewrite (Rround_eq _ 0) by lra.
  unfold snapStep.
  cbn [n_id n_x n_y fst snd String.eqb Ascii.eqb Bool.eqb].
  rewrite Rleb_abs_false by lra.
  rewrite Rleb_abs_true by lra.
  cbn [fst snd]. f_equal; lra.
Qed.

End DragExample.

Lemma group_drag_positions_witness :
  (exists n' : FlowNode,
     findNode (nodes (onMouseMove 20 0 dragExample)) "a" = Some n'
     /\ n_x n' = 20%R)
  /\ (fst (dragDelta 20 0 (mkRPoint 0 0) dragExample) + 0 = 20)%R
  /\ In (snd (dragDelta 20 0 (mkRPoint 0 0) dragExample) + 0)%R [0%R].
Proof.
  pose proof (group_drag_positions dragExample 20 0 (mkRPoint 0 0)
                eq_refl ltac:(discriminate) dragExample_leader)
    as (Hmem & _ & _ & _ & _ & Hx & Hy).
  split; [| split].
  - destruct (Hmem "a" (mkNode "a" process "" 0 0 140 64) (mkRPoint 0 0)
                ltac:(left; reflexivity) eq_refl dragExample_leader)
      as [n' [Hf [_ [_ [Hx' _]]]]].
    exists n'. split; [exact Hf |].
    rewrite Hx'; rewrite dragExample_delta; cbn [rx fst].
    + lra.
    + exists 20%Z. lra.
  - destruct Hx as (_ & _ & Hgrid & _). cbn [rx] in Hgrid.
    rewrite Hgrid.
    + cbn [dragExample toCanvasPoint canvasRect pan scale dragStartPoint
           set_dragStartPoint set_groupDragStart set_draggingGroupIds
           set_draggingNodeId setNodeSelection set_selectedEdgeId
           set_selectedNodeId set_selectedNodeIds set_nodes initialEditor rx ry].
      rewrite (Rround_eq _ 1) by lra. lra.
    + cbn [dragExample toCanvasPoint canvasRect pan scale dragStartPoint
           set_dragStartPoint set_groupDragStart set_draggingGroupIds
           set_draggingNodeId setNodeSelection set_selectedEdgeId
           set_selectedNodeId set_selectedNodeIds set_nodes initialEditor rx ry
           draggingNodeId nodes].
      rewrite (Rround_eq _ 1) by lra.
      intros c [<- | []]. cbn [n_x].
      unfold Rabs. destruct (Rcase_abs _); lra.
  - destruct Hy as (_ & _ & _ & Hnode). cbn [ry] in Hnode.
    apply Hnode. exists 0%R. split; [left; reflexivity |].
    cbn [dragExample toCanvasPoint canvasRect pan scale dragStartPoint
         set_dragStartPoint set_groupDragStart set_draggingGroupIds
         set_draggingNodeId setNodeSelection set_selectedEdgeId
         set_selectedNodeId set_selectedNodeIds set_nodes initialEditor rx ry].
    rewrite (Rround_eq _ 0) by lra.
    unfold Rabs. destruct (Rcase_abs _); lra.
Defined.

(** C5 fails as stated where a start coordinate is not an integer.  The
    leader starts at x = 0 and its companion at x = 1/2; the pointer moves
    20 to the right and the delta is [(20, 0)]; the leader lands on 20 and
    the companion on [Math.round(20.5)] = 21, not on 20.5, so the two are 1
    apart where they were 1/2 apart. *)
Lemma group_drag_counterexample :
  dragDelta 20 0 (mkRPoint 0 0) dragExample = (20, 0)%R
  /\ findNode (nodes (onMouseMove 20 0 dragExample)) "a"
     = Some (mkNode "a" process "" 20 0 140 64)
  /\ findNode (nodes (onMouseMove 20 0 dragExample)) "b"
     = Some (mkNode "b" process "" 21 0 140 64)
  /\ (21 <> 1 / 2 + 20)%R
  /\ (21 - 20 <> 1 / 2 - 0)%R.
Proof.
  split; [exact dragExample_delta |].
  assert (Hn : nodes (onMouseMove 20 0 dragExample)
               = fold_left (moveMember (groupDragStart dragExample) 20 0)
                   (draggingGroupIds dragExample) (nodes dragExample)).
  { rewrite (onMouseMove_drag dragExample 20 0 (mkRPoint 0 0) eq_refl
               ltac:(discriminate) dragExample_leader).
    rewrite dragExample_delta. reflexivity. }
  split; [| split; [| split; lra]].
  - rewrite Hn, findNode_moveGroup.
    change (includes (draggingGroupIds dragExample) "a") with true.
    change (findNode (nodes dragExample) "a")
      with (Some (mkNode "a" process "" 0 0 140 64)).
    cbn [option_map]. unfold movedNode.
    change (n_id (mkNode "a" process "" 0 0 140 64)) with (draggingNodeId dragExample).
    rewrite dragExample_leader. cbn [rx ry]. unfold setPosition. cbn [n_id n_type n_text n_width n_height].
    rewrite (Rround_eq (0 + 20) 20), (Rround_eq (0 + 0) 0) by lra. reflexivity.
  - rewrite Hn, findNode_moveGroup.
    change (includes (draggingGroupIds dragExample) "b") with true.
    change (findNode (nodes dragExample) "b")
      with (Some (mkNode "b" process "" (1 / 2) 0 140 64)).
    cbn [option_map]. unfold movedNode.
    change (n_id (mkNode "b" process "" (1 / 2) 0 140 64)) with "b".
    rewrite dragExample_member. cbn [rx ry]. unfold setPosition. cbn [n_id n_type n_text n_width n_height].
    rewrite (Rround_eq (1 / 2 + 20) 21), (Rround_eq (0 + 0) 0) by lra. reflexivity.
Qed.


(** * Auto-layout of a chain *)

Section LayoutSteps.

Lemma getOr0_insert_eq (m : gmap string Z) (k : string) (v : Z) :
  getOr0 (<[k := v]> m) k = v.
Proof. unfold getOr0. rewrite lookup_insert_eq. reflexivity. Qed.

Lemma getOr0_insert_ne (m : gmap string Z) (k j : string) (v : Z) :
  k <> j -> getOr0 (<[k := v]> m) j = getOr0 m j.
Proof. intros H. unfold getOr0. rewrite lookup_insert_ne by exact H. reflexivity. Qed.

Lemma getOr0_Some (m : gmap string Z) (k : string) (v : Z) :
  m !! k = Some v -> getOr0 m k = v.
Proof. intros H. unfold getOr0. rewrite H. reflexivity. Qed.

Lemma getOr0_empty (k : string) : getOr0 ∅ k = 0%Z.
Proof. unfold getOr0. rewrite lookup_empty. reflexivity. Qed.

Lemma layering_step (fuel : nat) (adj : gmap string (list string))
  (id : string) (rest children : list string) (depth inc : gmap string Z) :
  adj !! id = Some children ->
  layering (S fuel) adj (id :: rest) depth inc
  = layering fuel adj
      (rest ++ snd (fold_left (relaxChild (getOr0 depth id)) children (depth, inc, [])))
      (fst (fst (fold_left (relaxChild (getOr0 depth id)) children (depth, inc, []))))
      (snd (fst (fold_left (relaxChild (getOr0 depth id)) children (depth, inc, [])))).
Proof.
  intros H. cbn [layering]. rewrite H.
  change (default [] (Some children)) with children.
  destruct (fold_left _ children _) as [[d i] p]. reflexivity.
Qed.

Lemma relaxChild_push (d : Z) (depth inc : gmap string Z) (pushed : list string)
  (child : string) :
  (getOr0 inc child - 1 <= 0)%Z ->
  relaxChild d (depth, inc, pushed) child
  = (<[child := Z.max (getOr0 depth child) (d + 1)]> depth,
     <[child := (getOr0 inc child - 1)%Z]> inc, pushed ++ [child]).
Proof.
  intros H. unfold relaxChild. rewrite getOr0_insert_eq.
  destruct (getOr0 inc child - 1 <=? 0)%Z eqn:Hc; [reflexivity |].
  apply Z.leb_gt in Hc. lia.
Qed.

End LayoutSteps.

Section Chain.

Variables A B C : string.
Hypothesis HAB : A <> B.
Hypothesis HBC : B <> C.
Hypothesis HAC : A <> C.

Lemma layering_chain (inc : gmap string Z) (adj : gmap string (list string))
  (fuel : nat) :
  chainTables A B C inc adj ->
  (3 <= fuel)%nat ->
  layering fuel adj [A] (<[A := 0%Z]> ∅) inc
  = Some (<[C := 2%Z]> (<[B := 1%Z]> (<[A := 0%Z]> ∅))).
Proof.
  intros (HiA & HiB & HiC & HaA & HaB & HaC) Hf.
  destruct fuel as [| [| [| fuel]]]; try lia.
  rewrite (layering_step _ _ _ _ _ _ _ HaA). cbn [fold_left].
  rewrite relaxChild_push by (rewrite (getOr0_Some _ _ _ HiB); lia).
  cbn [fst snd app].
  rewrite getOr0_insert_eq, getOr0_insert_ne, getOr0_empty, (getOr0_Some _ _ _ HiB)
    by exact HAB.
  change (Z.max 0 (0 + 1)) with 1%Z. change (1 - 1)%Z with 0%Z.
  rewrite (layering_step _ _ _ _ _ _ _ HaB). cbn [fold_left].
  rewrite relaxChild_push
    by (rewrite getOr0_insert_ne, (getOr0_Some _ _ _ HiC) by exact HBC; lia).
  cbn [fst snd app].
  rewrite getOr0_insert_eq.
  rewrite (getOr0_insert_ne _ B C) by exact HBC.
  rewrite (getOr0_insert_ne _ A C) by exact HAC.
  rewrite getOr0_empty.
  change (Z.max 0 (1 + 1)) with 2%Z.
  rewrite (layering_step _ _ _ _ _ _ _ HaC). cbn [fold_left fst snd app].
  destruct fuel; reflexivity.
Qed.

End Chain.

Section Placement.

Lemma perm3_cases {T : Type} (l : list T) (x y z : T) :
  Permutation l [x; y; z] ->
  l = [x; y; z] \/ l = [x; z; y] \/ l = [y; x; z]
  \/ l = [y; z; x] \/ l = [z; x; y] \/ l = [z; y; x].
Proof.
  intros H.
  destruct (Permutation_vs_cons_inv H) as [l1 [l2 ->]].
  apply (Permutation_app_inv l1 l2 [] [y; z] x) in H. cbn [app] in H.
  apply Permutation_sym, Permutation_length_2_inv in H.
  destruct H as [H | H];
    destruct l1 as [| p [| q [| r l1]]]; cbn [app] in H;
    try discriminate H; inversion H; subst; cbn [app]; tauto.
Qed.

End Placement.

Section PlaceThree.

(** Three nodes on three different layers: each is placed first on its own
    layer. *)
Lemma place_three (direction : Direction) (x1 x2 x3 : FlowNode)
  (depth : gmap string Z) (d1 d2 d3 : Z) :
  getOr0 depth (n_id x1) = d1 ->
  getOr0 depth (n_id x2) = d2 ->
  getOr0 depth (n_id x3) = d3 ->
  Permutation [d1; d2; d3] [0; 1; 2]%Z ->
  fold_left (placeLayer direction (layoutGroups [x1; x2; x3] depth))
    (merge_sort Z.le (map fst (layoutGroups [x1; x2; x3] depth)))
    [x1; x2; x3]
  = [placeAt direction d1 0 x1; placeAt direction d2 0 x2;
     placeAt direction d3 0 x3].
Proof.
  intros H1 H2 H3 Hp.
  unfold layoutGroups. cbn [length seq combine fold_left].
  rewrite H1, H2, H3.
  apply perm3_cases in Hp.
  destruct Hp as [Hp | [Hp | [Hp | [Hp | [Hp | Hp]]]]];
    injection Hp as -> -> ->; reflexivity.
Qed.

End PlaceThree.

Section Tables.

(** The tables before the edges are read. *)
Lemma tableNode_fold (ns : list FlowNode) (k : string) :
  fst (fold_left tableNode ns (∅, ∅)) !! k
  = (if includes (map n_id ns) k then Some 0%Z else None)
  /\ snd (fold_left tableNode ns (∅, ∅)) !! k
     = (if includes (map n_id ns) k then Some [] else None).
Proof.
  induction ns as [| n ns IH] using rev_ind.
  - cbn. rewrite !lookup_empty. split; reflexivity.
  - rewrite fold_left_app. cbn [fold_left tableNode fst snd].
    rewrite map_app. unfold includes in *. rewrite existsb_app.
    cbn [map existsb]. rewrite orb_false_r.
    destruct IH as [IH1 IH2].
    destruct (String.eqb k (n_id n)) eqn:Hk.
    + apply String.eqb_eq in Hk. subst k. rewrite !lookup_insert_eq, orb_true_r.
      split; reflexivity.
    + apply String.eqb_neq in Hk.
      rewrite !lookup_insert_ne by congruence. rewrite orb_false_r.
      split; assumption.
Qed.

Variables a b c : FlowNode.
Variables e1 e2 : FlowEdge.
Hypothesis Hab : n_id a <> n_id b.
Hypothesis Hbc : n_id b <> n_id c.
Hypothesis Hac : n_id a <> n_id c.
Hypothesis H1s : e_sourceId e1 = n_id a.
Hypothesis H1t : e_targetId e1 = n_id b.
Hypothesis H2s : e_sourceId e2 = n_id b.
Hypothesis H2t : e_targetId e2 = n_id c.

Lemma chain_includes (ns : list FlowNode) (x : FlowNode) :
  Permutation ns [a; b; c] -> In x [a; b; c] ->
  includes (map n_id ns) (n_id x) = true.
Proof.
  intros Hp Hx. apply includes_In. apply in_map.
  apply (Permutation_in _ (Permutation_sym Hp)). exact Hx.
Qed.

(** The tables of the chain, whatever the order of its nodes and edges. *)
Lemma chain_tables (ns : list FlowNode) (es : list FlowEdge) :
  Permutation ns [a; b; c] ->
  Permutation es [e1; e2] ->
  chainTables (n_id a) (n_id b) (n_id c)
    (fst (layoutTables ns es)) (snd (layoutTables ns es)).
Proof.
  intros Hn He. unfold layoutTables.
  pose proof (tableNode_fold ns) as Hinit.
  assert (Ha := Hinit (n_id a)). assert (Hb := Hinit (n_id b)).
  assert (Hc := Hinit (n_id c)). clear Hinit.
  rewrite (chain_includes ns a Hn) in Ha by (cbn; tauto).
  rewrite (chain_includes ns b Hn) in Hb by (cbn; tauto).
  rewrite (chain_includes ns c Hn) in Hc by (cbn; tauto).
  destruct Ha as [Hia Haa], Hb as [Hib Hab'], Hc as [Hic Hac'].
  revert Hia Haa Hib Hab' Hic Hac'.
  generalize (fold_left tableNode ns (∅, ∅)). intros [inc0 adj0].
  cbn [fst snd]. intros Hia Haa Hib Hab' Hic Hac'.
  assert (Hes : es = [e1; e2] \/ es = [e2; e1]).
  { apply Permutation_sym, Permutation_length_2_inv in He. exact He. }
  unfold chainTables.
  destruct Hes as [-> | ->]; cbn [fold_left tableEdge fst snd];
    rewrite ?H1s, ?H1t, ?H2s, ?H2t.
  - rewrite Haa. rewrite (lookup_insert_ne adj0 (n_id a) (n_id b)) by congruence.
    rewrite Hab'. cbn [app].
    rewrite (getOr0_Some _ _ _ Hib).
    rewrite (getOr0_insert_ne _ (n_id b) (n_id c)) by congruence.
    rewrite (getOr0_Some _ _ _ Hic).
    repeat split;
      repeat first [rewrite lookup_insert_eq | rewrite lookup_insert_ne by congruence];
      first [reflexivity | assumption].
  - rewrite Hab'. rewrite (lookup_insert_ne adj0 (n_id b) (n_id a)) by congruence.
    rewrite Haa. cbn [app].
    rewrite (getOr0_Some _ _ _ Hic).
    rewrite (getOr0_insert_ne _ (n_id c) (n_id b)) by congruence.
    rewrite (getOr0_Some _ _ _ Hib).
    repeat split;
      repeat first [rewrite lookup_insert_eq | rewrite lookup_insert_ne by congruence];
      first [reflexivity | assumption].
Qed.

End Tables.

Section ChainLayout.

Variables a b c : FlowNode.
Variables e1 e2 : FlowEdge.
Hypothesis Hab : n_id a <> n_id b.
Hypothesis Hbc : n_id b <> n_id c.
Hypothesis Hac : n_id a <> n_id c.
Hypothesis H1s : e_sourceId e1 = n_id a.
Hypothesis H1t : e_targetId e1 = n_id b.
Hypothesis H2s : e_sourceId e2 = n_id b.
Hypothesis H2t : e_targetId e2 = n_id c.

Abbreviation depthOf := (chainDepth (n_id a) (n_id b) (n_id c)).

Lemma chainDepth_a : depthOf !! n_id a = Some 0%Z.
Proof.
  unfold chainDepth. rewrite !lookup_insert_ne by congruence.
  apply lookup_insert_eq.
Qed.

Lemma chainDepth_b : depthOf !! n_id b = Some 1%Z.
Proof.
  unfold chainDepth. rewrite lookup_insert_ne by congruence.
  apply lookup_insert_eq.
Qed.

Lemma chainDepth_c : depthOf !! n_id c = Some 2%Z.
Proof. unfold chainDepth. apply lookup_insert_eq. Qed.

(** Auto-layout of the chain, for the nodes in a given order. *)
Lemma autoLayout_three (direction : Direction) (s : Editor)
  (x1 x2 x3 : FlowNode) (fuel : nat) :
  nodes s = [x1; x2; x3] ->
  Permutation [x1; x2; x3] [a; b; c] ->
  Permutation (edges s) [e1; e2] ->
  (3 <= fuel)%nat ->
  autoLayout direction fuel s
  = Some (s |> set_nodes [placeAt direction (getOr0 depthOf (n_id x1)) 0 x1;
                          placeAt direction (getOr0 depthOf (n_id x2)) 0 x2;
                          placeAt direction (getOr0 depthOf (n_id x3)) 0 x3]
            |> set_edges (map (setBend None None) (edges s))
            |> commitHistory).
Proof.
  intros Hn Hp He Hf.
  pose proof (chain_tables a b c e1 e2 Hab Hbc Hac H1s H1t H2s H2t
                [x1; x2; x3] (edges s) Hp He) as Ht.
  unfold autoLayout. rewrite Hn.
  destruct (layoutTables [x1; x2; x3] (edges s)) as [inc adj].
  cbn [fst snd] in Ht.
  pose proof Ht as (Hia & Hib & Hic & _).
  pose proof (layering_chain (n_id a) (n_id b) (n_id c) Hab Hbc Hac inc adj
                fuel Ht Hf) as Hlay.
  change (<[n_id c := 2%Z]> (<[n_id b := 1%Z]> (<[n_id a := 0%Z]> ∅)))
    with depthOf in Hlay.
  apply perm3_cases in Hp.
  destruct Hp as [Hp | [Hp | [Hp | [Hp | [Hp | Hp]]]]];
    injection Hp as -> -> ->;
    cbn [List.filter];
    rewrite (getOr0_Some _ _ _ Hia), (getOr0_Some _ _ _ Hib),
      (getOr0_Some _ _ _ Hic);
    cbn [Z.eqb List.filter map length Nat.eqb];
    cbn [fold_left] ; rewrite Hlay;
    repeat (rewrite ?chainDepth_a, ?chainDepth_b, ?chainDepth_c; cbv beta iota);
    (rewrite (place_three direction _ _ _ depthOf _ _ _ eq_refl eq_refl eq_refl);
     [reflexivity |]);
    rewrite (getOr0_Some _ _ _ chainDepth_a), (getOr0_Some _ _ _ chainDepth_b),
      (getOr0_Some _ _ _ chainDepth_c);
    first
      [ solve [apply Permutation_refl]
      | solve [apply perm_skip, perm_swap]
      | solve [apply perm_swap]
      | solve [eapply perm_trans; [apply perm_swap | apply perm_skip, perm_swap]]
      | solve [eapply perm_trans; [apply perm_skip, perm_swap | apply perm_swap]]
      | solve [eapply perm_trans;
               [apply perm_swap
               | eapply perm_trans; [apply perm_skip, perm_swap | apply perm_swap]]] ].
Qed.

End ChainLayout.

Section ChainPositions.
Local Open Scope R_scope.

Lemma placeAt_vertical_first (d : Z) (y : R) (n : FlowNode) :
  120 + IZR d * 170 = y ->
  placeAt vertical d 0 n = setPosition 180 y n.
Proof.
  intros <-. unfold placeAt, setPosition. cbn [INR]. f_equal. lra.
Qed.

End ChainPositions.

(** C8.  For a diagram of three nodes with distinct ids joined in a chain
    by two edges, the nodes and the edges being stored in any order,
    vertical auto-layout returns (its loop ends within three iterations)
    and leaves the three nodes at x = 180 and at y = 120, 290 and 460 in
    chain order, so equal in x and strictly increasing in y, all their
    other fields unchanged; every edge is left without a bend. *)
Theorem autoLayout_chain (s : Editor) (a b c : FlowNode) (e1 e2 : FlowEdge)
  (fuel : nat) :
  n_id a <> n_id b -> n_id b <> n_id c -> n_id a <> n_id c ->
  e_sourceId e1 = n_id a -> e_targetId e1 = n_id b ->
  e_sourceId e2 = n_id b -> e_targetId e2 = n_id c ->
  Permutation (nodes s) [a; b; c] ->
  Permutation (edges s) [e1; e2] ->
  (3 <= fuel)%nat ->
  exists (s' : Editor) (a' b' c' : FlowNode),
    autoLayout vertical fuel s = Some s'
    /\ Permutation (nodes s') [a'; b'; c']
    /\ a' = setPosition 180 120 a
    /\ b' = setPosition 180 290 b
    /\ c' = setPosition 180 460 c
    /\ n_x a' = n_x b' /\ n_x b' = n_x c'
    /\ (n_y a' < n_y b')%R /\ (n_y b' < n_y c')%R
    /\ List.Forall (fun e => e_bendX e = None /\ e_bendY e = None) (edges s')
    /\ map e_id (edges s') = map e_id (edges s).
Proof.
  intros Hab Hbc Hac H1s H1t H2s H2t Hn He Hf.
  assert (Hpa : forall d y n, (120 + IZR d * 170 = y)%R ->
                  placeAt vertical d 0 n = setPosition 180 y n)
    by exact placeAt_vertical_first.
  pose proof (chainDepth_a a b c Hab Hac) as Da.
  pose proof (chainDepth_b a b c Hbc) as Db.
  pose proof (chainDepth_c a b c) as Dc.
  assert (Hedges : forall es : list FlowEdge,
             List.Forall (fun e => e_bendX e = None /\ e_bendY e = None)
               (map (setBend None None) es)
             /\ map e_id (map (setBend None None) es) = map e_id es).
  { induction es as [| e es [IH1 IH2]]; [split; [constructor | reflexivity] |].
    cbn [map]. split; [constructor; [split; reflexivity | exact IH1] |].
    rewrite IH2. reflexivity. }
  exists (s |> set_nodes
               (map (fun n => placeAt vertical
                                (getOr0 (chainDepth (n_id a) (n_id b) (n_id c)) (n_id n))
                                0 n) (nodes s))
            |> set_edges (map (setBend None None) (edges s))
            |> commitHistory),
    (setPosition 180 120 a), (setPosition 180 290 b), (setPosition 180 460 c).
  split.
  { pose proof Hn as Hcases. apply perm3_cases in Hcases.
    destruct Hcases as [Hc | [Hc | [Hc | [Hc | [Hc | Hc]]]]];
      rewrite Hc in Hn;
      rewrite (autoLayout_three a b c e1 e2 Hab Hbc Hac H1s H1t H2s H2t
                 vertical s _ _ _ fuel Hc Hn He Hf);
      rewrite Hc; reflexivity. }
  destruct (commitHistory_frame
              (s |> set_nodes
                      (map (fun n => placeAt vertical
                                       (getOr0 (chainDepth (n_id a) (n_id b) (n_id c))
                                          (n_id n)) 0 n) (nodes s))
                 |> set_edges (map (setBend None None) (edges s))))
    as [Hfn [Hfe _]].
  rewrite Hfn, Hfe. editor_simpl.
  split.
  { apply (Permutation_map
             (fun n => placeAt vertical
                         (getOr0 (chainDepth (n_id a) (n_id b) (n_id c)) (n_id n)) 0 n))
      in Hn.
    cbn [map] in Hn.
    rewrite (getOr0_Some _ _ _ Da), (getOr0_Some _ _ _ Db), (getOr0_Some _ _ _ Dc) in Hn.
    rewrite (Hpa 0%Z 120%R), (Hpa 1%Z 290%R), (Hpa 2%Z 460%R) in Hn by lra.
    exact Hn. }
  repeat (split; [reflexivity |]).
  cbn [n_x n_y setPosition].
  split; [lra |]. split; [lra |]. apply Hedges.
Qed.

(** The chain example: nodes and edges stored out of order, laid out with
    three iterations allowed. *)
Lemma autoLayout_chain_witness :
  exists (s' : Editor) (a' b' c' : FlowNode),
    autoLayout vertical 3 chainExample = Some s'
    /\ Permutation (nodes s') [a'; b'; c']
    /\ a' = setPosition 180 120 (tnode "a" start "" 400 10)
    /\ b' = setPosition 180 290 (tnode "b" process "" 7 300)
    /\ c' = setPosition 180 460 (tnode "c" end_ "" 40 40)
    /\ n_x a' = n_x b' /\ n_x b' = n_x c'
    /\ (n_y a' < n_y b')%R /\ (n_y b' < n_y c')%R
    /\ List.Forall (fun e => e_bendX e = None /\ e_bendY e = None) (edges s')
    /\ map e_id (edges s') = map e_id (edges chainExample).
Proof.
  apply (autoLayout_chain chainExample
           (tnode "a" start "" 400 10) (tnode "b" process "" 7 300)
           (tnode "c" end_ "" 40 40)
           (mkEdge "e" "a" "b" None None None None None None None
              (Some 200%R) (Some 60%R))
           (tedge "f" "b" "c" None) 3).
  - discriminate.
  - discriminate.
  - discriminate.
  - reflexivity.
  - reflexivity.
  - reflexivity.
  - reflexivity.
  - cbn. apply (Permutation_cons_app [_; _] []). reflexivity.
  - cbn. apply perm_swap.
  - lia.
Defined.


(** * Hit testing *)

Section HitTesting.

Lemma find_rev_last {A : Type} (p : A -> bool) (l : list A) (a : A) :
  List.find p (rev l) = Some a ->
  exists l1 l2 : list A,
    l = l1 ++ a :: l2 /\ p a = true /\ List.Forall (fun b => p b = false) l2.
Proof.
  induction l as [| b l IH] using rev_ind; [discriminate |].
  rewrite rev_unit. cbn [List.find].
  destruct (p b) eqn:Hb.
  - intros [= <-]. exists l, []. repeat split; [exact Hb | constructor].
  - intros H. destruct (IH H) as [l1 [l2 [-> [Ha Hl2]]]].
    exists l1, (l2 ++ [b]). rewrite <- app_assoc. repeat split; [exact Ha |].
    apply List.Forall_app. split; [exact Hl2 |]. constructor; [exact Hb | constructor].
Qed.

Lemma find_rev_none {A : Type} (p : A -> bool) (l : list A) :
  List.find p (rev l) = None <-> List.Forall (fun b => p b = false) l.
Proof.
  split.
  - intros H. apply List.Forall_forall. intros b Hin.
    apply (List.find_none _ _ H). apply -> List.in_rev. exact Hin.
  - intros H. destruct (List.find p (rev l)) as [a |] eqn:Hf; [| reflexivity].
    apply List.find_some in Hf. destruct Hf as [Hin Ha].
    apply List.in_rev in Hin.
    rewrite List.Forall_forall in H. rewrite (H a Hin) in Ha. discriminate.
Qed.

Lemma containsPoint_process (id text : string) (cx cy w h x y : R) :
  (Rabs (x - cx) <= w / 2)%R -> (Rabs (y - cy) <= h / 2)%R ->
  containsPoint (mkNode id process text cx cy w h) (Fin x) (Fin y) = true.
Proof.
  intros Hx Hy. unfold containsPoint. cbn [n_x n_y n_width n_height n_type].
  rewrite !ndiv_Fin by lra. cbn [nsub nabs nle].
  rewrite !Rleb_true by assumption. reflexivity.
Qed.

End HitTesting.

(** The node under a point is the topmost one: [getNodeAt] answers with a
    node of the list that contains the point and after which, in drawing
    order, no node contains it; it answers with nothing exactly when no
    node of the list contains the point. *)
Theorem getNodeAt_topmost (nodes : list FlowNode) (x y : num) :
  (forall n : FlowNode,
     getNodeAt nodes x y = Some n ->
     exists before after : list FlowNode,
       nodes = before ++ n :: after
       /\ containsPoint n x y = true
       /\ List.Forall (fun m => containsPoint m x y = false) after)
  /\ (getNodeAt nodes x y = None
      <-> List.Forall (fun m => containsPoint m x y = false) nodes).
Proof.
  split.
  - intros n H.
    exact (find_rev_last (fun m => containsPoint m x y) nodes n H).
  - exact (find_rev_none (fun m => containsPoint m x y) nodes).
Qed.

(** Two overlapping process nodes and a point in both: the later one is
    found. *)
Lemma getNodeAt_topmost_witness :
  exists before after : list FlowNode,
    [mkNode "a" process "" 0 0 140 64; mkNode "b" process "" 20 0 140 64]
    = before ++ mkNode "b" process "" 20 0 140 64 :: after
    /\ containsPoint (mkNode "b" process "" 20 0 140 64) (Fin 10) (Fin 0) = true
    /\ List.Forall (fun m => containsPoint m (Fin 10) (Fin 0) = false) after.
Proof.
  apply (proj1 (getNodeAt_topmost
                  [mkNode "a" process "" 0 0 140 64;
                   mkNode "b" process "" 20 0 140 64] (Fin 10) (Fin 0))).
  unfold getNodeAt. cbn [rev app List.find].
  rewrite containsPoint_process; [reflexivity | |];
    unfold Rabs; destruct (Rcase_abs _); lra.
Defined.

Section Containment.
Local Open Scope R_scope.

Lemma ngt_Fin (a b : R) : ngt (Fin a) (Fin b) = Rltb b a.
Proof. reflexivity. Qed.

Lemma nor_Fin_nonzero (a : R) (d : num) : a <> 0 -> nor (Fin a) d = Fin a.
Proof. intros H. unfold nor, truthy. rewrite Reqb_false by exact H. reflexivity. Qed.

(** The even-odd test on the quadrilateral of an io node: only the two
    slanted sides can be crossed, and only at heights between the top side
    (included) and the bottom side (excluded). *)
Lemma pointInPolygon_io (x y hw hh p q : R) :
  0 < hh ->
  pointInPolygon (mkPoint (Fin p) (Fin q))
    (ioPoints (Fin x) (Fin y) (Fin hw) (Fin hh))
  = (Rleb (y - hh) q && Rltb q (y + hh))
    && xorb
         (Rltb p ((x - hw - (x - hw + 20)) * (q - (y - hh))
                  / (y + hh - (y - hh)) + (x - hw + 20)))
         (Rltb p ((x + hw - (x + hw - 20)) * (q - (y + hh))
                  / (y - hh - (y + hh)) + (x + hw - 20))).
Proof.
  intros Hh.
  unfold pointInPolygon, ioPoints, slant.
  cbn [length seq fold_left pointAt nth Nat.eqb Nat.sub px py nadd nsub].
  rewrite !ngt_Fin.
  rewrite !(nor_Fin_nonzero (y + hh - (y - hh))) by lra.
  rewrite !(nor_Fin_nonzero (y - hh - (y + hh))) by lra.
  cbn [nmul].
  rewrite !(ndiv_Fin _ (y + hh - (y - hh))) by lra.
  rewrite !(ndiv_Fin _ (y - hh - (y + hh))) by lra.
  cbn [nadd nlt].
  rewrite !eqb_reflx. cbn [negb andb].
  unfold Rleb, Rltb.
  destruct (Rle_dec (y - hh) q) as [H1 | H1];
    destruct (Rlt_dec q (y + hh)) as [H2 | H2];
    destruct (Rlt_dec q (y - hh)) as [H3 | H3];
    try (exfalso; lra);
    cbn [eqb negb andb xorb];
    repeat match goal with
           | |- context [if Rlt_dec ?a ?b then _ else _] => destruct (Rlt_dec a b)
           end;
    reflexivity.
Qed.

Lemma quotient_bound (a b : R) : 0 < b -> a / b <= 1 -> a <= b.
Proof.
  intros Hb H. apply (Rmult_le_compat_r b) in H; [| lra].
  unfold Rdiv in H. rewrite Rmult_assoc, Rinv_l, Rmult_1_r, Rmult_1_l in H by lra.
  exact H.
Qed.

Lemma quotient_nonneg (a b : R) : 0 <= a -> 0 < b -> 0 <= a / b.
Proof.
  intros Ha Hb. unfold Rdiv. apply Rmult_le_pos; [exact Ha |].
  left. apply Rinv_0_lt_compat. exact Hb.
Qed.

Lemma square_bound (a b : R) : 0 < b -> a * a <= b * b -> Rabs a <= b.
Proof.
  intros Hb H. unfold Rabs. destruct (Rcase_abs a); nra.
Qed.

End Containment.

Lemma containsPoint_at_centre (n : FlowNode) :
  (0 < n_width n)%R -> (0 < n_height n)%R ->
  containsPoint n (Fin (n_x n)) (Fin (n_y n))
  = negb (FlowNodeType_eqb (n_type n) io && Reqb (n_width n) 20).
Proof.
  intros Hw Hh. destruct n as [id k t x y w h].
  cbn [n_x n_y n_width n_height n_type] in *.
  unfold containsPoint. cbn [n_x n_y n_width n_height n_type].
  rewrite !ndiv_Fin by lra. cbn [nsub nmul nabs].
  assert (Hz : (x - x = 0)%R) by ring.
  assert (Hz' : (y - y = 0)%R) by ring.
  destruct k; cbn [FlowNodeType_eqb andb negb].
  - rewrite !ndiv_Fin by nra. cbn [nadd]. apply nle_Fin_true.
    rewrite Hz, Hz'. unfold Rdiv. rewrite !Rmult_0_l. lra.
  - rewrite Hz, Hz', Rabs_R0. cbn [nle].
    rewrite !Rleb_true by lra. reflexivity.
  - rewrite !ndiv_Fin by lra. cbn [nadd]. apply nle_Fin_true.
    rewrite Hz, Hz', Rabs_R0. unfold Rdiv. rewrite !Rmult_0_l. lra.
  - rewrite pointInPolygon_io by lra.
    rewrite Rleb_true, Rltb_true by lra. cbn [andb].
    assert (E1 : ((x - w / 2 - (x - w / 2 + 20)) * (y - (y - h / 2))
                  / (y + h / 2 - (y - h / 2)) = - 10)%R) by (field; lra).
    assert (E2 : ((x + w / 2 - (x + w / 2 - 20)) * (y - (y + h / 2))
                  / (y - h / 2 - (y + h / 2)) = 10)%R) by (field; lra).
    rewrite E1, E2. unfold Reqb, Rltb.
    destruct (Req_dec_T w 20) as [He | He]; cbn [negb];
      destruct (Rlt_dec x (-10 + (x - w / 2 + 20)));
      destruct (Rlt_dec x (10 + (x + w / 2 - 20)));
      cbn [xorb]; try reflexivity; exfalso; lra.
  - rewrite !ndiv_Fin by nra. cbn [nadd]. apply nle_Fin_true.
    rewrite Hz, Hz'. unfold Rdiv. rewrite !Rmult_0_l. lra.
Qed.

(** A node of positive width and height contains its own centre, with one
    exception: an io node exactly 20 wide, whose slanted quadrilateral
    collapses to a line and contains no point at all.  So the node drawn
    last is the one found at its own centre, unless it is such an io
    node, in which case the search goes on to the nodes under it. *)
Theorem containsPoint_centre (n : FlowNode) (under : list FlowNode) :
  (0 < n_width n)%R -> (0 < n_height n)%R ->
  containsPoint n (Fin (n_x n)) (Fin (n_y n))
  = negb (FlowNodeType_eqb (n_type n) io && Reqb (n_width n) 20)
  /\ getNodeAt (under ++ [n]) (Fin (n_x n)) (Fin (n_y n))
     = (if FlowNodeType_eqb (n_type n) io && Reqb (n_width n) 20
        then getNodeAt under (Fin (n_x n)) (Fin (n_y n))
        else Some n).
Proof.
  intros Hw Hh. pose proof (containsPoint_at_centre n Hw Hh) as Hc.
  split; [exact Hc |].
  unfold getNodeAt. rewrite rev_unit. cbn [List.find]. rewrite Hc.
  destruct (FlowNodeType_eqb (n_type n) io && Reqb (n_width n) 20);
    reflexivity.
Qed.

Lemma containsPoint_centre_witness :
  containsPoint (mkNode "n" io "" 100 100 150 70) (Fin 100) (Fin 100)
  = negb (FlowNodeType_eqb io io && Reqb 150 20)
  /\ getNodeAt ([] ++ [mkNode "n" io "" 100 100 150 70]) (Fin 100) (Fin 100)
     = (if FlowNodeType_eqb io io && Reqb 150 20
        then getNodeAt [] (Fin 100) (Fin 100)
        else Some (mkNode "n" io "" 100 100 150 70)).
Proof.
  apply (containsPoint_centre (mkNode "n" io "" 100 100 150 70) []);
    cbn [n_width n_height]; lra.
Defined.

(** The region in which a node is hit lies inside its bounding box: a
    point that [containsPoint] accepts is no further than half the width
    from the centre horizontally and half the height vertically, for every
    kind of node of positive size, an io node being taken at least 20
    wide (narrower, its quadrilateral leans out of the box). *)
Theorem containsPoint_in_box (n : FlowNode) (x y : R) :
  (0 < n_width n)%R -> (0 < n_height n)%R ->
  (n_type n = io -> (20 <= n_width n)%R) ->
  containsPoint n (Fin x) (Fin y) = true ->
  (Rabs (x - n_x n) <= n_width n / 2)%R
  /\ (Rabs (y - n_y n) <= n_height n / 2)%R.
Proof.
  intros Hw Hh Hio. destruct n as [id k t cx cy w h].
  cbn [n_x n_y n_width n_height n_type] in *.
  unfold containsPoint. cbn [n_x n_y n_width n_height n_type].
  rewrite !ndiv_Fin by lra. cbn [nsub nmul nabs].
  assert (Hellipse :
            nle (nadd (ndiv (Fin ((x - cx) * (x - cx))) (Fin (w / 2 * (w / 2))))
                      (ndiv (Fin ((y - cy) * (y - cy))) (Fin (h / 2 * (h / 2)))))
                (Fin 1) = true ->
            (Rabs (x - cx) <= w / 2)%R /\ (Rabs (y - cy) <= h / 2)%R).
  { assert (Hww' : (w / 2 * (w / 2) <> 0)%R) by (apply Rmult_integral_contrapositive_currified; lra).
    assert (Hhh' : (h / 2 * (h / 2) <> 0)%R) by (apply Rmult_integral_contrapositive_currified; lra).
    rewrite !ndiv_Fin by assumption. cbn [nadd nle]. intros H.
    apply Rleb_spec in H.
    assert (Hww : (0 < w / 2 * (w / 2))%R) by (apply Rmult_lt_0_compat; lra).
    assert (Hhh : (0 < h / 2 * (h / 2))%R) by (apply Rmult_lt_0_compat; lra).
    pose proof (Rle_0_sqr (x - cx)) as Sx. pose proof (Rle_0_sqr (y - cy)) as Sy.
    unfold Rsqr in Sx, Sy.
    assert (H1 : (0 <= (x - cx) * (x - cx) / (w / 2 * (w / 2)))%R)
      by (apply quotient_nonneg; assumption).
    assert (H2 : (0 <= (y - cy) * (y - cy) / (h / 2 * (h / 2)))%R)
      by (apply quotient_nonneg; assumption).
    split; apply square_bound; try lra; apply quotient_bound; try assumption; lra. }
  destruct k.
  - exact Hellipse.
  - cbn [nle]. intros H. apply andb_prop in H. destruct H as [H1 H2].
    apply Rleb_spec in H1. apply Rleb_spec in H2. split; assumption.
  - rewrite !ndiv_Fin by lra. cbn [nadd nle]. intros H.
    apply Rleb_spec in H.
    assert (H1 : (0 <= Rabs (x - cx) / (w / 2))%R)
      by (apply quotient_nonneg; [apply Rabs_pos | lra]).
    assert (H2 : (0 <= Rabs (y - cy) / (h / 2))%R)
      by (apply quotient_nonneg; [apply Rabs_pos | lra]).
    split; apply quotient_bound; lra.
  - specialize (Hio eq_refl).
    rewrite pointInPolygon_io by lra. intros H.
    apply andb_prop in H. destruct H as [H1 H2].
    apply andb_prop in H1. destruct H1 as [Ha Hb].
    apply Rleb_spec in Ha. apply Rltb_spec in Hb.
    assert (E1 : ((cx - w / 2 - (cx - w / 2 + 20)) * (y - (cy - h / 2))
                  / (cy + h / 2 - (cy - h / 2))
                  = - 20 * ((y - (cy - h / 2)) / h))%R) by (field; lra).
    assert (E2 : ((cx + w / 2 - (cx + w / 2 - 20)) * (y - (cy + h / 2))
                  / (cy - h / 2 - (cy + h / 2))
                  = 20 * ((cy + h / 2 - y) / h))%R) by (field; lra).
    rewrite E1, E2 in H2.
    assert (Hu : (0 <= (y - (cy - h / 2)) / h <= 1)%R).
    { split; [apply quotient_nonneg; lra |].
      apply (Rmult_le_reg_r h); [lra |].
      unfold Rdiv. rewrite Rmult_assoc, Rinv_l, Rmult_1_r by lra. lra. }
    assert (Hv : ((cy + h / 2 - y) / h = 1 - (y - (cy - h / 2)) / h)%R)
      by (field; lra).
    rewrite Hv in H2.
    split; [| unfold Rabs; destruct (Rcase_abs (y - cy)); lra].
    unfold Rltb in H2.
    destruct (Rlt_dec x (-20 * ((y - (cy - h / 2)) / h) + (cx - w / 2 + 20)));
      destruct (Rlt_dec x (20 * (1 - (y - (cy - h / 2)) / h) + (cx + w / 2 - 20)));
      cbn [xorb] in H2; try discriminate;
      unfold Rabs; destruct (Rcase_abs (x - cx)); lra.
  - exact Hellipse.
Qed.

Lemma containsPoint_in_box_witness :
  (Rabs (110 - 100) <= 140 / 2)%R /\ (Rabs (90 - 100) <= 64 / 2)%R.
Proof.
  apply (containsPoint_in_box (mkNode "n" process "" 100 100 140 64) 110 90);
    cbn [n_width n_height n_type]; try lra; try discriminate.
  unfold containsPoint. cbn [n_x n_y n_width n_height n_type].
  rewrite !ndiv_Fin by lra. cbn [nsub nabs nle].
  rewrite !Rleb_true; [reflexivity | |];
    unfold Rabs; match goal with |- context [Rcase_abs ?a] => destruct (Rcase_abs a) end; lra.
Defined.

Section SegmentDistance.
Local Open Scope R_scope.

Lemma clamp_bounds (r : R) : 0 <= Rmax 0 (Rmin 1 r) <= 1.
Proof.
  unfold Rmax, Rmin.
  destruct (Rle_dec 1 r); destruct (Rle_dec 0 _); lra.
Qed.

(** The clamped projection minimises the squared distance over the
    segment. *)
Lemma clamp_minimises (A B C D r s : R) :
  0 < C * C + D * D ->
  A * C + B * D = r * (C * C + D * D) ->
  0 <= s <= 1 ->
  (A - Rmax 0 (Rmin 1 r) * C) * (A - Rmax 0 (Rmin 1 r) * C)
  + (B - Rmax 0 (Rmin 1 r) * D) * (B - Rmax 0 (Rmin 1 r) * D)
  <= (A - s * C) * (A - s * C) + (B - s * D) * (B - s * D).
Proof.
  intros HL Hdot Hs.
  set (t := Rmax 0 (Rmin 1 r)).
  set (L := C * C + D * D) in *.
  assert (Hid : (A - s * C) * (A - s * C) + (B - s * D) * (B - s * D)
                - ((A - t * C) * (A - t * C) + (B - t * D) * (B - t * D))
                = L * ((s - t) * (s + t - 2 * r))).
  { transitivity (- 2 * (s - t) * (A * C + B * D) + (s * s - t * t) * L).
    - unfold L. ring.
    - rewrite Hdot. ring. }
  assert (Hp : 0 <= (s - t) * (s + t - 2 * r)).
  { unfold t, Rmax, Rmin.
    destruct (Rle_dec 1 r) as [H1 | H1].
    - destruct (Rle_dec 0 1); [| lra].
      replace ((s - 1) * (s + 1 - 2 * r)) with ((1 - s) * (2 * r - s - 1)) by ring.
      apply Rmult_le_pos; lra.
    - destruct (Rle_dec 0 r) as [H0 | H0].
      + replace ((s - r) * (s + r - 2 * r)) with ((s - r) * (s - r)) by ring.
        apply Rle_0_sqr.
      + apply Rmult_le_pos; lra. }
  assert (0 <= L * ((s - t) * (s + t - 2 * r))) by (apply Rmult_le_pos; lra).
  lra.
Qed.

Lemma sum_squares_zero (C D : R) : C * C + D * D = 0 -> C = 0 /\ D = 0.
Proof.
  intros H. pose proof (Rle_0_sqr C) as HC. pose proof (Rle_0_sqr D) as HD.
  unfold Rsqr in HC, HD.
  split; apply Rsqr_0_uniq; unfold Rsqr; lra.
Qed.

End SegmentDistance.

(** In exact arithmetic [pointToSegmentDistance] is the distance from the
    point to the segment: a finite, non-negative number, which is the
    distance to some point of the segment and is no larger than the distance
    to any point of the segment; a segment reduced to one point included. *)
Lemma segment_distance_exact (p q x1 y1 x2 y2 : R) :
  exists d t : R,
    pointToSegmentDistance (Fin p) (Fin q) (Fin x1) (Fin y1) (Fin x2) (Fin y2)
    = Fin d
    /\ (0 <= d)%R
    /\ (0 <= t <= 1)%R
    /\ d = distance (p, q) (x1 + t * (x2 - x1), y1 + t * (y2 - y1))%R
    /\ (forall s : R,
          (0 <= s <= 1)%R ->
          (d <= distance (p, q) (x1 + s * (x2 - x1), y1 + s * (y2 - y1)))%R).
Proof.
  unfold pointToSegmentDistance. cbn [nsub nmul nadd neqb].
  set (C := (x2 - x1)%R). set (D := (y2 - y1)%R).
  set (A := (p - x1)%R). set (B := (q - y1)%R).
  assert (Hd : forall u : R,
             distance (p, q) (x1 + u * C, y1 + u * D)%R
             = sqrt ((A - u * C) * (A - u * C) + (B - u * D) * (B - u * D))).
  { intros u. unfold distance, A, B. cbn [fst snd]. f_equal. ring. }
  assert (Hh : forall u : R,
             nhypot (nsub (Fin p) (nadd (Fin x1) (nmul (Fin u) (Fin C))))
                    (nsub (Fin q) (nadd (Fin y1) (nmul (Fin u) (Fin D))))
             = Fin (distance (p, q) (x1 + u * C, y1 + u * D)%R)).
  { intros u. rewrite Hd. cbn [nmul nadd nsub nhypot]. f_equal. f_equal.
    unfold A, B. ring. }
  unfold Reqb. destruct (Req_dec_T (C * C + D * D) 0) as [Hz | Hz].
  - destruct (sum_squares_zero C D Hz) as [HC HD].
    exists (distance (p, q) (x1 + 0 * C, y1 + 0 * D)%R), 0%R.
    split; [apply Hh |]. split; [apply sqrt_pos |]. split; [lra |].
    split; [reflexivity |].
    intros s _. rewrite HC, HD, !Rmult_0_r. lra.
  - rewrite ndiv_Fin by exact Hz. cbn [nmin nmax].
    set (r := ((A * C + B * D) / (C * C + D * D))%R).
    exists (distance (p, q)
              (x1 + Rmax 0 (Rmin 1 r) * C, y1 + Rmax 0 (Rmin 1 r) * D)%R),
      (Rmax 0 (Rmin 1 r)).
    split; [apply Hh |]. split; [apply sqrt_pos |].
    split; [apply clamp_bounds |]. split; [reflexivity |].
    intros s Hs. rewrite !Hd. apply sqrt_le_1_alt.
    apply clamp_minimises; [| | exact Hs].
    + pose proof (Rle_0_sqr C) as HC. pose proof (Rle_0_sqr D) as HD.
      unfold Rsqr in HC, HD. lra.
    + unfold r. field. exact Hz.
Qed.


(** * Editing operations and the history *)

Section CommitUndo.

Lemma nth_error_tl {A : Type} (l : list A) (k : nat) :
  nth_error (tl l) k = nth_error l (S k).
Proof. destruct l; [destruct k; reflexivity | reflexivity]. Qed.

(** A commit made on top of a synced state is undone by one [undo], which
    brings back the diagram of that state and clears every selection. *)
Lemma commit_undo (base e : Editor) :
  historySynced base ->
  history e = history base -> historyIndex e = historyIndex base ->
  historyReady e = true -> activeProject e = true ->
  exists u : Editor,
    undo (commitHistory e) = Some u
    /\ nodes u = nodes base /\ edges u = edges base
    /\ selectedNodeId u = "" /\ selectedNodeIds u = []
    /\ selectedEdgeId u = "" /\ connectFromId u = "".
Proof.
  intros [[_ Hi] [_ Hsync]] Hh Hx Hr Hp.
  rewrite commitHistory_ready by exact Hr.
  rewrite Hh, Hx, slice0_firstn by lia.
  set (k := Z.to_nat (historyIndex base + 1)).
  set (pushed := firstn k (history base) ++ [cloneDiagram e]).
  assert (Hk : (1 <= k <= length (history base))%nat) by (unfold k; lia).
  assert (Hlen : length pushed = S k).
  { unfold pushed. rewrite length_app, length_firstn. cbn [length]. lia. }
  assert (Hat : nth_error pushed (k - 1) = Some (mkSnap (nodes base) (edges base))).
  { unfold pushed. rewrite nth_error_app1 by (rewrite length_firstn; lia).
    rewrite nth_error_firstn.
    destruct (Nat.ltb_spec (k - 1) k) as [_ | Hge]; [| lia].
    replace (k - 1)%nat with (Z.to_nat (historyIndex base)) by (unfold k; lia).
    exact Hsync. }
  assert (Hcap : exists j : nat,
             length (cap80 pushed) = S (S j)
             /\ nth_error (cap80 pushed) j
                = Some (mkSnap (nodes base) (edges base))).
  { unfold cap80. destruct (80 <? length pushed)%nat eqn:Hc.
    - apply Nat.ltb_lt in Hc. exists (k - 2)%nat.
      rewrite length_tl, nth_error_tl.
      split; [lia |]. replace (S (k - 2)) with (k - 1)%nat by lia. exact Hat.
    - exists (k - 1)%nat. split; [lia | exact Hat]. }
  destruct Hcap as [j [Hj Hnth]].
  unfold undo, canUndo. editor_simpl. rewrite Hj.
  destruct (0 <? Z.of_nat (S (S j)) - 1)%Z eqn:Hc; [| apply Z.ltb_ge in Hc; lia].
  cbn [negb]. unfold applyCurrent. editor_simpl. rewrite Hp. cbn [negb].
  unfold historyAt. editor_simpl.
  destruct (Z.of_nat (S (S j)) - 1 - 1 <? 0)%Z eqn:Hn; [apply Z.ltb_lt in Hn; lia |].
  replace (Z.to_nat (Z.of_nat (S (S j)) - 1 - 1)) with j by lia.
  rewrite Hnth. eexists. split; [reflexivity |].
  unfold applySnapshot. editor_simpl. rewrite Hp. editor_simpl.
  cbn [snap_nodes snap_edges]. rewrite map_cloneNode, map_cloneEdge.
  repeat split; reflexivity.
Qed.

Lemma includes_iff (ids : list string) (id : string) :
  includes ids id = true <-> In id ids.
Proof.
  unfold includes. rewrite existsb_exists. split.
  - intros [x [Hin Hx]]. apply String.eqb_eq in Hx. subst x. exact Hin.
  - intros Hin. exists id. split; [exact Hin | apply String.eqb_refl].
Qed.

Lemma includes_false_iff (ids : list string) (id : string) :
  includes ids id = false <-> ~ In id ids.
Proof.
  rewrite <- includes_iff. destruct (includes ids id); split; intros H.
  - discriminate.
  - exfalso. apply H. reflexivity.
  - intros H'. discriminate.
  - reflexivity.
Qed.

Lemma includes_app (l1 l2 : list string) (id : string) :
  includes (l1 ++ l2) id = includes l1 id || includes l2 id.
Proof. unfold includes. apply existsb_app. Qed.

Lemma includes_without (ids : list string) (id x : string) :
  includes (List.filter (fun n => negb (String.eqb n id)) ids) x
  = includes ids x && negb (String.eqb x id).
Proof.
  induction ids as [| a ids IH]; [reflexivity |].
  cbn [List.filter]. destruct (String.eqb a id) eqn:Ha; cbn [negb].
  - apply String.eqb_eq in Ha. rewrite IH.
    change (includes (a :: ids) x) with (String.eqb x a || includes ids x).
    rewrite Ha.
    destruct (String.eqb x id); cbn [negb orb];
      rewrite ?andb_false_r; reflexivity.
  - change (includes (a :: List.filter (fun n => negb (String.eqb n id)) ids) x)
      with (String.eqb x a
            || includes (List.filter (fun n => negb (String.eqb n id)) ids) x).
    change (includes (a :: ids) x) with (String.eqb x a || includes ids x).
    rewrite IH.
    destruct (String.eqb x a) eqn:Hx; cbn [orb]; [| reflexivity].
    apply String.eqb_eq in Hx. rewrite Hx, Ha. reflexivity.
Qed.

Lemma filter_without_absent (ids : list string) (id : string) :
  includes ids id = false ->
  List.filter (fun n => negb (String.eqb n id)) ids = ids.
Proof.
  induction ids as [| a ids IH]; [reflexivity |].
  unfold includes. cbn [existsb List.filter]. fold (includes ids id).
  rewrite String.eqb_sym.
  destruct (String.eqb a id); cbn [orb negb]; [discriminate |].
  intros H. rewrite IH by exact H. reflexivity.
Qed.

End CommitUndo.

(** Toggling a node twice leaves the same nodes selected: every id is
    selected after the two toggles exactly when it was before.  When the
    node was not selected the list of selected ids is back as it was; when
    it was, its id has moved to the end of the list.  Either way the edge
    selection is cleared and the diagram is untouched. *)
Theorem toggleNodeSelection_twice (id : string) (s : Editor) :
  (forall x : string,
     includes (selectedNodeIds (toggleNodeSelection id (toggleNodeSelection id s))) x
     = includes (selectedNodeIds s) x)
  /\ selectedNodeIds (toggleNodeSelection id (toggleNodeSelection id s))
     = (if includes (selectedNodeIds s) id
        then List.filter (fun n => negb (String.eqb n id)) (selectedNodeIds s) ++ [id]
        else selectedNodeIds s)
  /\ selectedEdgeId (toggleNodeSelection id (toggleNodeSelection id s)) = ""
  /\ nodes (toggleNodeSelection id (toggleNodeSelection id s)) = nodes s
  /\ edges (toggleNodeSelection id (toggleNodeSelection id s)) = edges s
  /\ history (toggleNodeSelection id (toggleNodeSelection id s)) = history s.
Proof.
  assert (Hids :
            selectedNodeIds (toggleNodeSelection id (toggleNodeSelection id s))
            = (if includes (selectedNodeIds s) id
               then List.filter (fun n => negb (String.eqb n id)) (selectedNodeIds s)
                    ++ [id]
               else selectedNodeIds s)).
  { unfold toggleNodeSelection at 2.
    destruct (includes (selectedNodeIds s) id) eqn:Hin.
    - unfold toggleNodeSelection. editor_simpl.
      rewrite includes_without, String.eqb_refl, andb_false_r. reflexivity.
    - unfold toggleNodeSelection. editor_simpl.
      rewrite includes_app, Hin. unfold includes at 1. cbn [existsb].
      rewrite String.eqb_refl. cbn [orb]. editor_simpl.
      rewrite List.filter_app. cbn [List.filter]. rewrite String.eqb_refl. cbn [negb].
      rewrite app_nil_r. apply filter_without_absent. exact Hin. }
  split; [| split; [exact Hids |]].
  - intros x. rewrite Hids.
    destruct (includes (selectedNodeIds s) id) eqn:Hin; [| reflexivity].
    rewrite includes_app, includes_without. unfold includes at 2.
    cbn [existsb]. rewrite orb_false_r.
    destruct (String.eqb_spec x id) as [-> | Hx]; cbn [negb].
    + rewrite andb_false_r, Hin. reflexivity.
    + rewrite andb_true_r, orb_false_r. reflexivity.
  - unfold toggleNodeSelection.
    repeat match goal with
           | |- context [if ?b then _ else _] => destruct b
           end; editor_simpl; repeat split; reflexivity.
Qed.

Section EdgeDefaults.

Lemma strOr_idem (a : option string) (d : string) :
  d <> "" -> strOr (Some (strOr a d)) d = strOr a d.
Proof.
  intros Hd. unfold strOr.
  destruct a as [v |].
  - destruct (String.eqb v "") eqn:Hv.
    + destruct (String.eqb_spec d ""); [contradiction | reflexivity].
    + rewrite Hv. reflexivity.
  - destruct (String.eqb_spec d ""); [contradiction | reflexivity].
Qed.

Lemma numOr_idem (a : option R) (d : R) :
  d <> 0%R -> numOr (Some (numOr a d)) d = numOr a d.
Proof.
  intros Hd. unfold numOr, Reqb.
  destruct a as [v |].
  - destruct (Req_dec_T v 0) as [Hv | Hv].
    + destruct (Req_dec_T d 0); [contradiction | reflexivity].
    + destruct (Req_dec_T v 0); [contradiction | reflexivity].
  - destruct (Req_dec_T d 0); [contradiction | reflexivity].
Qed.

End EdgeDefaults.

(** [ensureEdgeDefaults] is idempotent; it leaves the id, the endpoints,
    the label and the bend of the edge as they are, so the path of the edge
    is the same before and after; afterwards every style field is present,
    the colours non-empty and the sizes non-zero; and a line colour that
    was present and non-empty, a line width that was present and non-zero,
    and a line style that was present keep their values. *)
Theorem ensureEdgeDefaults_idempotent (edge : FlowEdge) :
  ensureEdgeDefaults (ensureEdgeDefaults edge) = ensureEdgeDefaults edge
  /\ e_id (ensureEdgeDefaults edge) = e_id edge
  /\ e_sourceId (ensureEdgeDefaults edge) = e_sourceId edge
  /\ e_targetId (ensureEdgeDefaults edge) = e_targetId edge
  /\ e_label (ensureEdgeDefaults edge) = e_label edge
  /\ e_bendX (ensureEdgeDefaults edge) = e_bendX edge
  /\ e_bendY (ensureEdgeDefaults edge) = e_bendY edge
  /\ (forall nodes : list FlowNode,
        edgePath nodes (ensureEdgeDefaults edge) = edgePath nodes edge)
  /\ (exists (lc : string) (fs : R) (b : bool) (st : LineStyle)
             (c : string) (w : R),
        e_labelColor (ensureEdgeDefaults edge) = Some lc /\ lc <> ""
        /\ e_labelFontSize (ensureEdgeDefaults edge) = Some fs /\ fs <> 0%R
        /\ e_labelBold (ensureEdgeDefaults edge) = Some b
        /\ e_lineStyle (ensureEdgeDefaults edge) = Some st
        /\ e_lineColor (ensureEdgeDefaults edge) = Some c /\ c <> ""
        /\ e_lineWidth (ensureEdgeDefaults edge) = Some w /\ w <> 0%R)
  /\ (forall c : string,
        c <> "" -> e_lineColor edge = Some c ->
        e_lineColor (ensureEdgeDefaults edge) = Some c)
  /\ (forall w : R,
        w <> 0%R -> e_lineWidth edge = Some w ->
        e_lineWidth (ensureEdgeDefaults edge) = Some w)
  /\ (forall st : LineStyle,
        e_lineStyle edge = Some st ->
        e_lineStyle (ensureEdgeDefaults edge) = Some st).
Proof.
  assert (Hs : forall d : string, d <> "" -> forall a, strOr a d <> "").
  { intros d Hd a. unfold strOr. destruct a as [v |]; [| exact Hd].
    destruct (String.eqb_spec v ""); assumption. }
  assert (Hn : forall d : R, d <> 0%R -> forall a, numOr a d <> 0%R).
  { intros d Hd a. unfold numOr, Reqb. destruct a as [v |]; [| exact Hd].
    destruct (Req_dec_T v 0); assumption. }
  assert (H14 : (14 / 10 <> 0)%R) by lra.
  assert (H12 : (12 <> 0)%R) by lra.
  split.
  { unfold ensureEdgeDefaults.
    cbn [e_id e_sourceId e_targetId e_label e_labelColor e_labelFontSize
         e_labelBold e_lineStyle e_lineColor e_lineWidth e_bendX e_bendY].
    rewrite !strOr_idem by discriminate.
    rewrite !numOr_idem by assumption. reflexivity. }
  do 6 (split; [reflexivity |]).
  split; [intros nodes; reflexivity |].
  split; [| split; [| split]].
  - do 6 eexists. cbn [ensureEdgeDefaults e_labelColor e_labelFontSize
                       e_labelBold e_lineStyle e_lineColor e_lineWidth].
    repeat split; try reflexivity;
      first [apply Hs; discriminate | apply Hn; assumption].
  - intros c Hc Hl. cbn [ensureEdgeDefaults e_lineColor]. rewrite Hl.
    unfold strOr. destruct (String.eqb_spec c ""); [contradiction | reflexivity].
  - intros w Hw Hl. cbn [ensureEdgeDefaults e_lineWidth]. rewrite Hl.
    unfold numOr, Reqb. destruct (Req_dec_T w 0); [contradiction | reflexivity].
  - intros st Hl. cbn [ensureEdgeDefaults e_lineStyle]. rewrite Hl. reflexivity.
Qed.

Section Deleting.


End Deleting.

(** Deleting with nodes selected removes exactly the nodes whose id is
    selected and exactly the edges that have a selected id at either end,
    keeping the order of what stays.  So a diagram in which every edge
    joined two nodes is still such a diagram: no edge is left dangling.
    The node selection is emptied, and if the history was in step with the
    diagram, one undo brings the deleted nodes and edges back. *)
Theorem deleteSelected_nodes (s : Editor) :
  selectedNodeIds s <> [] ->
  (forall n : FlowNode,
     In n (nodes (deleteSelected s))
     <-> In n (nodes s) /\ ~ In (n_id n) (selectedNodeIds s))
  /\ (forall e : FlowEdge,
        In e (edges (deleteSelected s))
        <-> In e (edges s)
            /\ ~ In (e_sourceId e) (selectedNodeIds s)
            /\ ~ In (e_targetId e) (selectedNodeIds s))
  /\ (edgesResolve (nodes s) (edges s) ->
      edgesResolve (nodes (deleteSelected s)) (edges (deleteSelected s)))
  /\ selectedNodeIds (deleteSelected s) = []
  /\ selectedNodeId (deleteSelected s) = ""
  /\ (historySynced s ->
      exists u : Editor,
        undo (deleteSelected s) = Some u
        /\ nodes u = nodes s /\ edges u = edges s).
Proof.
  intros Hsel.
  assert (Hlen : (0 <? length (selectedNodeIds s))%nat = true).
  { apply Nat.ltb_lt. destruct (selectedNodeIds s); [contradiction | cbn; lia]. }
  unfold deleteSelected. rewrite Hlen.
  set (e0 := s |> set_nodes _ |> set_edges _ |> set_selectedNodeId ""
               |> set_selectedNodeIds []).
  destruct (commitHistory_frame e0) as [Hn [He [Hid [Hids _]]]].
  rewrite Hn, He, Hid, Hids. unfold e0. editor_simpl.
  assert (Hnodes : forall n : FlowNode,
             In n (List.filter (fun n => negb (includes (selectedNodeIds s) (n_id n)))
                     (nodes s))
             <-> In n (nodes s) /\ ~ In (n_id n) (selectedNodeIds s)).
  { intros n. rewrite List.filter_In, negb_true_iff, includes_false_iff. tauto. }
  assert (Hedges : forall e : FlowEdge,
             In e (List.filter
                     (fun e => negb (includes (selectedNodeIds s) (e_sourceId e)
                                     || includes (selectedNodeIds s) (e_targetId e)))
                     (edges s))
             <-> In e (edges s)
                 /\ ~ In (e_sourceId e) (selectedNodeIds s)
                 /\ ~ In (e_targetId e) (selectedNodeIds s)).
  { intros e. rewrite List.filter_In, negb_true_iff, orb_false_iff,
      !includes_false_iff. tauto. }
  split; [exact Hnodes |]. split; [exact Hedges |].
  split; [| split; [reflexivity | split; [reflexivity |]]].
  - intros Hres e Hin. apply Hedges in Hin. destruct Hin as [Hin [Hs Ht]].
    destruct (Hres e Hin) as [H1 H2].
    apply in_map_iff in H1. destruct H1 as [n1 [E1 I1]].
    apply in_map_iff in H2. destruct H2 as [n2 [E2 I2]].
    split; apply in_map_iff.
    + exists n1. split; [exact E1 |]. apply Hnodes. rewrite E1. tauto.
    + exists n2. split; [exact E2 |]. apply Hnodes. rewrite E2. tauto.
  - intros Hsync.
    destruct (commit_undo s e0 Hsync eq_refl eq_refl) as [u [Hu [Hun [Hue _]]]].
    + destruct Hsync as [[Hr _] _]. exact Hr.
    + destruct Hsync as [_ [Hp _]]. exact Hp.
    + exists u. auto.
Qed.

Lemma deleteSelected_nodes_witness :
  selectedNodeIds (deleteSelected pasteExample) = []
  /\ selectedNodeId (deleteSelected pasteExample) = "".
Proof.
  destruct (deleteSelected_nodes pasteExample ltac:(discriminate))
    as (_ & _ & _ & H1 & H2 & _).
  split; assumption.
Defined.



Section Committing.

(** What every operation that edits the diagram, clears the selection and
    commits has in common. *)
Lemma committed_edit (s e : Editor) :
  history e = history s -> historyIndex e = historyIndex s ->
  historyReady e = historyReady s -> activeProject e = activeProject s ->
  nodes (commitHistory e) = nodes e
  /\ edges (commitHistory e) = edges e
  /\ selectedNodeId (commitHistory e) = selectedNodeId e
  /\ selectedNodeIds (commitHistory e) = selectedNodeIds e
  /\ selectedEdgeId (commitHistory e) = selectedEdgeId e
  /\ connectFromId (commitHistory e) = connectFromId e
  /\ (historySynced s ->
      exists u : Editor,
        undo (commitHistory e) = Some u
        /\ nodes u = nodes s /\ edges u = edges s).
Proof.
  intros Hh Hi Hr Hp.
  destruct (commitHistory_frame e) as (H1 & H2 & H3 & H4 & H5 & H6 & _).
  repeat (split; [assumption |]).
  intros Hsync.
  destruct (commit_undo s e Hsync Hh Hi) as [u [Hu [Hun [Hue _]]]].
  - rewrite Hr. destruct Hsync as [[Hrd _] _]. exact Hrd.
  - rewrite Hp. destruct Hsync as [_ [Ha _]]. exact Ha.
  - exists u. auto.
Qed.

End Committing.

(** Clearing the diagram: declined in the dialog, nothing changes;
    confirmed, the diagram is empty and nothing is selected, and if the
    history was in step with the diagram one undo brings the whole diagram
    back. *)
Theorem clearFlow_undoable (s : Editor) :
  clearFlow false s = s
  /\ nodes (clearFlow true s) = []
  /\ edges (clearFlow true s) = []
  /\ selectedNodeId (clearFlow true s) = ""
  /\ selectedNodeIds (clearFlow true s) = []
  /\ selectedEdgeId (clearFlow true s) = ""
  /\ connectFromId (clearFlow true s) = ""
  /\ (historySynced s ->
      exists u : Editor,
        undo (clearFlow true s) = Some u
        /\ nodes u = nodes s /\ edges u = edges s).
Proof.
  split; [reflexivity |]. unfold clearFlow. cbn [negb].
  set (e := s |> set_nodes [] |> set_edges [] |> clearSelection).
  destruct (committed_edit s e eq_refl eq_refl eq_refl eq_refl)
    as (H1 & H2 & H3 & H4 & H5 & H6 & H7).
  rewrite H1, H2, H3, H4, H5, H6. repeat (split; [reflexivity |]). exact H7.
Qed.


Section Templates.



End Templates.


(** Copying touches neither the diagram nor the selection nor the history.
    With nothing to copy the clipboard is kept as it was.  Otherwise the
    clipboard holds, in diagram order, the nodes whose id is copied and the
    edges both of whose ends are copied, and pasting starts again from the
    first offset; if every edge of the diagram joined two nodes, so does
    every edge of the clipboard, within the clipboard. *)
Theorem copySelected_closed (s : Editor) :
  nodes (copySelected s) = nodes s
  /\ edges (copySelected s) = edges s
  /\ selectedNodeIds (copySelected s) = selectedNodeIds s
  /\ selectedEdgeId (copySelected s) = selectedEdgeId s
  /\ history (copySelected s) = history s
  /\ (copyIds s = [] -> copySelected s = s)
  /\ (copyIds s <> [] ->
      exists clip : DiagramSnapshot,
        clipboardData (copySelected s) = Some clip
        /\ pasteCount (copySelected s) = 0%Z
        /\ snap_nodes clip
           = List.filter (fun n => includes (copyIds s) (n_id n)) (nodes s)
        /\ snap_edges clip
           = List.filter (fun e => includes (copyIds s) (e_sourceId e)
                                   && includes (copyIds s) (e_targetId e))
               (edges s)
        /\ (edgesResolve (nodes s) (edges s) ->
            edgesResolve (snap_nodes clip) (snap_edges clip))).
Proof.
  unfold copySelected.
  destruct (copyIds s) as [| id ids] eqn:Hids.
  - cbn [length Nat.eqb]. do 5 (split; [reflexivity |]).
    split; [reflexivity | intros H; contradiction].
  - cbn [length Nat.eqb]. editor_simpl. do 5 (split; [reflexivity |]).
    split; [discriminate |]. intros _.
    eexists. split; [reflexivity |]. split; [reflexivity |].
    cbn [snap_nodes snap_edges]. rewrite map_cloneNode, map_cloneEdge.
    split; [reflexivity |]. split; [reflexivity |].
    intros Hres e Hin. apply List.filter_In in Hin. destruct Hin as [Hin Hb].
    apply andb_prop in Hb. destruct Hb as [Hs Ht].
    destruct (Hres e Hin) as [H1 H2].
    apply in_map_iff in H1. destruct H1 as [n1 [E1 I1]].
    apply in_map_iff in H2. destruct H2 as [n2 [E2 I2]].
    split; apply in_map_iff.
    + exists n1. split; [exact E1 |]. apply List.filter_In.
      split; [exact I1 | rewrite E1; exact Hs].
    + exists n2. split; [exact E2 |]. apply List.filter_In.
      split; [exact I2 | rewrite E2; exact Ht].
Qed.


(** * Pointer interaction *)

Section Placing.

Lemma nodeSize_positive (kind : FlowNodeType) :
  (0 < fst (nodeSize kind))%R /\ (0 < snd (nodeSize kind))%R
  /\ fst (nodeSize kind) <> 20%R.
Proof. destruct kind; cbn [nodeSize fst snd]; repeat split; lra. Qed.

Lemma getNodeAt_last (ns : list FlowNode) (n : FlowNode) (x y : num) :
  containsPoint n x y = true -> getNodeAt (ns ++ [n]) x y = Some n.
Proof.
  intros H. unfold getNodeAt. rewrite rev_unit. cbn [List.find].
  rewrite H. reflexivity.
Qed.

End Placing.

(** A click with a node tool places a node: the diagram gains one node, at
    its end and so on top, of the chosen kind, with the default text and
    size of the kind, centred on the world point under the pointer and
    named by the id generator; the edges stay; the new node alone is
    selected; the tool goes back to select; and a click at the same place
    now finds the new node. *)
Theorem place_node (s : Editor) (kind : FlowNodeType)
  (clientX clientY : R) (shiftKey : bool) :
  selectedTool s = ToolPlace kind ->
  exists node : FlowNode,
    node = mkNode (idOfCall s "node" (idCalls s)) kind (defaultText kind)
             (rx (toCanvasPoint clientX clientY s))
             (ry (toCanvasPoint clientX clientY s))
             (fst (nodeSize kind)) (snd (nodeSize kind))
    /\ nodes (onMouseDown clientX clientY shiftKey s) = nodes s ++ [node]
    /\ edges (onMouseDown clientX clientY shiftKey s) = edges s
    /\ selectedNodeId (onMouseDown clientX clientY shiftKey s) = n_id node
    /\ selectedNodeIds (onMouseDown clientX clientY shiftKey s) = [n_id node]
    /\ selectedEdgeId (onMouseDown clientX clientY shiftKey s) = ""
    /\ selectedTool (onMouseDown clientX clientY shiftKey s) = ToolSelect
    /\ idCalls (onMouseDown clientX clientY shiftKey s) = S (idCalls s)
    /\ getNodeAt (nodes (onMouseDown clientX clientY shiftKey s))
         (Fin (rx (toCanvasPoint clientX clientY s)))
         (Fin (ry (toCanvasPoint clientX clientY s))) = Some node.
Proof.
  intros Htool.
  assert (E : onMouseDown clientX clientY shiftKey s
              = s |> createNode kind (rx (toCanvasPoint clientX clientY s))
                       (ry (toCanvasPoint clientX clientY s))
                  |> set_selectedTool ToolSelect).
  { unfold onMouseDown. rewrite Htool.
    destruct (getBendHandleEdgeAt _ _ _ _ _); reflexivity. }
  rewrite E. clear E. eexists. split; [reflexivity |].
  unfold createNode, generateId.
  destruct (nodeSize_positive kind) as [Hw [Hh H20]].
  destruct (nodeSize kind) as [w h]. cbn [fst snd] in *.
  set (p := toCanvasPoint clientX clientY s).
  set (e := set_idCalls (S (idCalls s)) s
            |> set_nodes _ |> setSingleNodeSelection _).
  destruct (commitHistory_frame e) as (H1 & H2 & H3 & H4 & H5 & _).
  assert (Hc : idCalls (commitHistory e) = idCalls e).
  { unfold commitHistory. destruct (negb (historyReady e)); reflexivity. }
  editor_simpl. rewrite H1, H2, H3, H4, H5, Hc. unfold e. editor_simpl.
  unfold idOfCall.
  repeat (split; [reflexivity |]).
  apply getNodeAt_last.
  pose proof (containsPoint_at_centre
                (mkNode ("node" ++ "_" ++ idSuffix s (idCalls s)) kind
                   (defaultText kind) (rx p) (ry p) w h) Hw Hh) as Hin.
  cbn [n_x n_y n_type n_width] in Hin. rewrite Hin.
  rewrite (Reqb_false w 20) by exact H20.
  rewrite andb_false_r. reflexivity.
Qed.

Lemma place_node_witness :
  exists node : FlowNode,
    node = mkNode (idOfCall (set_selectedTool (ToolPlace io) pasteExample) "node"
                     (idCalls (set_selectedTool (ToolPlace io) pasteExample)))
             io (defaultText io)
             (rx (toCanvasPoint 10 20 (set_selectedTool (ToolPlace io) pasteExample)))
             (ry (toCanvasPoint 10 20 (set_selectedTool (ToolPlace io) pasteExample)))
             (fst (nodeSize io)) (snd (nodeSize io))
    /\ nodes (onMouseDown 10 20 false (set_selectedTool (ToolPlace io) pasteExample))
       = nodes (set_selectedTool (ToolPlace io) pasteExample) ++ [node].
Proof.
  destruct (place_node (set_selectedTool (ToolPlace io) pasteExample) io 10 20
              false eq_refl) as [node [H1 [H2 _]]].
  exists node. split; assumption.
Defined.

Section Connecting.

Lemma Forall_alterFirst {A : Type} (P : A -> Prop) (p : A -> bool)
  (f : A -> A) (l : list A) :
  (forall a, P a -> P (f a)) ->
  List.Forall P l -> List.Forall P (alterFirst p f l).
Proof.
  intros Hf. induction 1 as [| a l Ha Hl IH]; cbn [alterFirst]; [constructor |].
  destruct (p a); constructor; auto.
Qed.

Lemma Forall_alterLast {A : Type} (P : A -> Prop) (p : A -> bool)
  (f : A -> A) (l : list A) :
  (forall a, P a -> P (f a)) ->
  List.Forall P l -> List.Forall P (alterLast p f l).
Proof.
  intros Hf Hl. unfold alterLast. apply List.Forall_rev.
  apply Forall_alterFirst; [exact Hf |]. apply List.Forall_rev. exact Hl.
Qed.

Lemma commitHistory_edges (s : Editor) : edges (commitHistory s) = edges s.
Proof. apply commitHistory_frame. Qed.

Lemma commitHistory_nodes (s : Editor) : nodes (commitHistory s) = nodes s.
Proof. apply commitHistory_frame. Qed.

Lemma createNode_edges (kind : FlowNodeType) (x y : R) (s : Editor) :
  edges (createNode kind x y s) = edges s.
Proof.
  unfold createNode, generateId. destruct (nodeSize kind) as [w h].
  rewrite commitHistory_edges. reflexivity.
Qed.

(** What the pointer handlers do to the list of edges: they leave it, or
    change style or bend of one edge, or append the edge of the connect
    tool. *)
Lemma pointer_edges_invariant (P : FlowEdge -> Prop) (s : Editor) :
  (forall e, P e -> P (ensureEdgeDefaults e)) ->
  (forall e bx by_, P e -> P (setBend bx by_ e)) ->
  (forall id target,
     connectFromId s <> target -> P (newEdge id (connectFromId s) target)) ->
  List.Forall P (edges s) ->
  forall (clientX clientY : R) (shiftKey : bool),
    List.Forall P (edges (onMouseDown clientX clientY shiftKey s))
    /\ List.Forall P (edges (onMouseMove clientX clientY s))
    /\ List.Forall P (edges (onMouseUp s)).
Proof.
  intros Hdef Hbend Hnew Hall clientX clientY shiftKey.
  split; [| split].
  - unfold onMouseDown.
    destruct (getBendHandleEdgeAt _ _ _ _ _) as [bendEdge |];
      destruct (selectedTool s) as [| | kind];
      try (editor_simpl; apply Forall_alterLast; assumption);
      try (editor_simpl; rewrite createNode_edges; exact Hall).
    all: destruct (getNodeAt _ _ _) as [node |]; try exact Hall.
    all: try (destruct (negb (nonEmpty (connectFromId s))); [exact Hall |];
              destruct (String.eqb_spec (connectFromId s) (n_id node)) as [He | He];
              cbn [negb]; [exact Hall |];
              unfold generateId; rewrite commitHistory_edges; editor_simpl;
              apply List.Forall_app; split; [exact Hall |];
              constructor; [apply Hnew; exact He | constructor]).
    all: try (destruct shiftKey;
              [unfold toggleNodeSelection;
               destruct (includes _ _); editor_simpl; exact Hall |];
              destruct (negb (includes (selectedNodeIds s) (n_id node)));
              editor_simpl; exact Hall).
    all: destruct (getEdgeAt _ _ _ _ _) as [edge |];
      [editor_simpl; apply Forall_alterLast; assumption |];
      destruct shiftKey; editor_simpl; exact Hall.
  - unfold onMouseMove.
    destruct (nonEmpty (draggingBendEdgeId s)).
    { destruct (findEdge _ _); [| exact Hall].
      editor_simpl. apply Forall_alterFirst; [| exact Hall].
      intros e He. apply Hbend. exact He. }
    destruct (nonEmpty (draggingNodeId s)).
    { destruct (groupDragStart s !! draggingNodeId s); [| exact Hall].
      editor_simpl. exact Hall. }
    destruct (m_active (marquee s)); [exact Hall |].
    destruct (panning s); exact Hall.
  - unfold onMouseUp.
    destruct (m_active (marquee s)).
    { destruct (m_append (marquee s)); editor_simpl; exact Hall. }
    destruct ((nonEmpty (draggingNodeId s) || nonEmpty (draggingBendEdgeId s))
              && draggingMoved s);
      editor_simpl; rewrite ?commitHistory_edges; exact Hall.
Qed.

End Connecting.

(** No pointer interaction creates an edge from a node to itself: if no
    edge of the diagram has equal endpoints, none has after a pointer-down,
    a pointer-move or a pointer-up, whatever the tool, the pointer position
    and the shift key. *)
Theorem pointer_no_self_loop (s : Editor) (clientX clientY : R)
  (shiftKey : bool) :
  List.Forall (fun e => e_sourceId e <> e_targetId e) (edges s) ->
  List.Forall (fun e => e_sourceId e <> e_targetId e)
    (edges (onMouseDown clientX clientY shiftKey s))
  /\ List.Forall (fun e => e_sourceId e <> e_targetId e)
       (edges (onMouseMove clientX clientY s))
  /\ List.Forall (fun e => e_sourceId e <> e_targetId e)
       (edges (onMouseUp s)).
Proof.
  intros Hall.
  apply (pointer_edges_invariant (fun e => e_sourceId e <> e_targetId e) s);
    auto.
Qed.

Lemma pointer_no_self_loop_witness :
  List.Forall (fun e => e_sourceId e <> e_targetId e)
    (edges (onMouseDown 10 20 false pasteExample))
  /\ List.Forall (fun e => e_sourceId e <> e_targetId e)
       (edges (onMouseMove 10 20 pasteExample))
  /\ List.Forall (fun e => e_sourceId e <> e_targetId e)
       (edges (onMouseUp pasteExample)).
Proof.
  apply (pointer_no_self_loop pasteExample 10 20 false).
  repeat (constructor; [cbn; discriminate |]). constructor.
Defined.

Section StaleConnection.

Lemma findNode_none (ns : list FlowNode) (id : string) :
  ~ In id (map n_id ns) -> findNode ns id = None.
Proof.
  intros H. unfold findNode.
  destruct (List.find _ ns) as [n |] eqn:Hf; [| reflexivity].
  apply List.find_some in Hf. destruct Hf as [Hin He].
  apply String.eqb_eq in He. exfalso. apply H. rewrite <- He.
  apply in_map. exact Hin.
Qed.

Lemma commitHistory_view (s : Editor) :
  selectedTool (commitHistory s) = selectedTool s
  /\ pan (commitHistory s) = pan s
  /\ scale (commitHistory s) = scale s
  /\ canvasRect (commitHistory s) = canvasRect s
  /\ idCalls (commitHistory s) = idCalls s
  /\ idSuffix (commitHistory s) = idSuffix s.
Proof.
  unfold commitHistory. destruct (negb (historyReady s));
    repeat split; reflexivity.
Qed.

End StaleConnection.

(** Deleting does not drop a pending connection.  If the connect tool has
    a first node picked, that node is among the selected ones and the
    selection is deleted, the next click of the tool on a node still
    appends an edge, from the id of the deleted node: an edge whose source
    names no node of the diagram and which therefore has no path. *)
Theorem stale_connection_dangles (s : Editor) (clientX clientY : R)
  (shiftKey : bool) (target : FlowNode) :
  selectedTool s = ToolConnect ->
  connectFromId s <> "" ->
  In (connectFromId s) (selectedNodeIds s) ->
  getNodeAt (nodes (deleteSelected s))
    (Fin (rx (toCanvasPoint clientX clientY s)))
    (Fin (ry (toCanvasPoint clientX clientY s))) = Some target ->
  connectFromId (deleteSelected s) = connectFromId s
  /\ exists e : FlowEdge,
       edges (onMouseDown clientX clientY shiftKey (deleteSelected s))
       = edges (deleteSelected s) ++ [e]
       /\ nodes (onMouseDown clientX clientY shiftKey (deleteSelected s))
          = nodes (deleteSelected s)
       /\ e_sourceId e = connectFromId s
       /\ e_targetId e = n_id target
       /\ ~ In (e_sourceId e) (map n_id (nodes (deleteSelected s)))
       /\ edgePath (nodes (deleteSelected s)) e = None.
Proof.
  intros Htool Hfrom Hin Hat.
  assert (Hne : selectedNodeIds s <> []).
  { intros E. rewrite E in Hin. exact Hin. }
  assert (Hlen : (0 <? length (selectedNodeIds s))%nat = true).
  { apply Nat.ltb_lt. destruct (selectedNodeIds s); [contradiction | cbn; lia]. }
  assert (Hd : deleteSelected s
               = commitHistory
                   (s |> set_nodes
                           (List.filter
                              (fun n => negb (includes (selectedNodeIds s) (n_id n)))
                              (nodes s))
                      |> set_edges
                           (List.filter
                              (fun e => negb (includes (selectedNodeIds s) (e_sourceId e)
                                              || includes (selectedNodeIds s)
                                                   (e_targetId e)))
                              (edges s))
                      |> set_selectedNodeId "" |> set_selectedNodeIds [])).
  { unfold deleteSelected. rewrite Hlen. reflexivity. }
  set (e0 := s |> set_nodes _ |> set_edges _ |> set_selectedNodeId ""
               |> set_selectedNodeIds []) in Hd.
  destruct (commitHistory_frame e0) as (Fn & Fe & _ & _ & _ & Fc & _).
  destruct (commitHistory_view e0) as (Vt & Vp & Vs & Vr & Vi & Vx).
  assert (Hp : toCanvasPoint clientX clientY (deleteSelected s)
               = toCanvasPoint clientX clientY s).
  { unfold toCanvasPoint. rewrite Hd, Vr, Vp, Vs. reflexivity. }
  assert (Hc : connectFromId (deleteSelected s) = connectFromId s).
  { rewrite Hd, Fc. reflexivity. }
  assert (Hgone : ~ In (connectFromId s) (map n_id (nodes (deleteSelected s)))).
  { rewrite Hd, Fn. unfold e0. editor_simpl. intros H.
    apply in_map_iff in H. destruct H as [n [En In_]].
    apply List.filter_In in In_. destruct In_ as [_ Hb].
    apply negb_true_iff, includes_false_iff in Hb. apply Hb.
    rewrite En. exact Hin. }
  assert (Htarget : connectFromId s <> n_id target).
  { intros E. apply Hgone. rewrite E.
    unfold getNodeAt in Hat. apply List.find_some in Hat.
    destruct Hat as [Hat _]. apply List.in_rev in Hat.
    apply in_map. exact Hat. }
  split; [exact Hc |].
  exists (newEdge (idOfCall s "edge" (idCalls s)) (connectFromId s) (n_id target)).
  unfold onMouseDown. rewrite Hp, Hat, Hc.
  assert (Ht' : selectedTool (deleteSelected s) = ToolConnect).
  { rewrite Hd, Vt. exact Htool. }
  rewrite Ht'.
  assert (Hn1 : negb (nonEmpty (connectFromId s)) = false).
  { unfold nonEmpty. destruct (String.eqb_spec (connectFromId s) "");
      [contradiction | reflexivity]. }
  assert (Hn2 : negb (String.eqb (connectFromId s) (n_id target)) = true).
  { destruct (String.eqb_spec (connectFromId s) (n_id target));
      [contradiction | reflexivity]. }
  assert (E : forall (b : option FlowEdge) (e1 : FlowEdge -> Editor) (e2 : Editor),
             match b, ToolConnect with
             | Some bendEdge, ToolSelect => e1 bendEdge
             | _, _ => e2
             end = e2).
  { intros [b |] e1 e2; reflexivity. }
  assert (Hi : idCalls (deleteSelected s) = idCalls s
               /\ idSuffix (deleteSelected s) = idSuffix s).
  { rewrite Hd, Vi, Vx. split; reflexivity. }
  destruct Hi as [Hi Hx].
  destruct (getBendHandleEdgeAt _ _ _ _ _) as [bendEdge |];
    rewrite Hn1, Hn2; unfold generateId;
    rewrite commitHistory_edges, commitHistory_nodes; editor_simpl;
    rewrite Hi, Hx; unfold idOfCall;
    (split; [reflexivity |]); (split; [reflexivity |]);
    (split; [reflexivity |]); (split; [reflexivity |]);
    cbn [newEdge e_sourceId];
    (split; [exact Hgone |]);
    apply edgePath_dangling; left; apply findNode_none; exact Hgone.
Qed.

Lemma stale_connection_dangles_witness :
  exists e : FlowEdge,
    edges (onMouseDown 300 0 false (deleteSelected staleExample))
    = edges (deleteSelected staleExample) ++ [e]
    /\ edgePath (nodes (deleteSelected staleExample)) e = None.
Proof.
  destruct (stale_connection_dangles staleExample 300 0 false
              (mkNode "b" process "" 300 0 140 64) eq_refl)
    as [_ [e (H1 & _ & _ & _ & _ & H2)]].
  - discriminate.
  - left. reflexivity.
  - replace (nodes (deleteSelected staleExample))
      with [mkNode "b" process "" 300 0 140 64] by reflexivity.
    unfold getNodeAt, toCanvasPoint, staleExample, initialEditor.
    editor_simpl. cbn [rev app List.find rx ry].
    rewrite containsPoint_process; [reflexivity | |].
    + unfold Rabs. destruct (Rcase_abs _); lra.
    + unfold Rabs. destruct (Rcase_abs _); lra.
  - exists e. split; assumption.
Defined.

Section Rounding.
Local Open Scope R_scope.

Lemma Rround_near (r : R) : r - / 2 < Rround r <= r + / 2.
Proof. unfold Rround. pose proof (Zfloor_bound (r + / 2)). lra. Qed.

(** Rounding to a grid of step [g]: an integer multiple of the step, within
    half a step of the raw value. *)
Lemma grid_round (g : Z) (r : R) :
  (0 < g)%Z ->
  (exists k : Z, Rround (r / IZR g) * IZR g = IZR (g * k))
  /\ Rabs (Rround (r / IZR g) * IZR g - r) <= IZR g / 2.
Proof.
  intros Hg. assert (Hg' : 0 < IZR g) by (apply IZR_lt; exact Hg).
  split.
  - exists (Zfloor (r / IZR g + / 2)). unfold Rround.
    rewrite mult_IZR. ring.
  - pose proof (Rround_near (r / IZR g)) as [H1 H2].
    assert (E : r = r / IZR g * IZR g) by (field; lra).
    apply (Rmult_lt_compat_r (IZR g)) in H1; [| exact Hg'].
    apply (Rmult_le_compat_r (IZR g)) in H2; [| lra].
    rewrite Rmult_minus_distr_r in H1. rewrite Rmult_plus_distr_r in H2.
    rewrite <- E in H1, H2.
    unfold Rabs. destruct (Rcase_abs _); lra.
Qed.

End Rounding.

(** Dragging on the empty canvas pans the view: a pointer-down of the
    select tool, without shift, that hits no bend handle, no node and no
    edge starts a pan and clears the selection; the following pointer-move
    shifts the pan by the pointer's displacement, so the world point that
    was under the pointer at the start is under it still; the diagram and
    the history are untouched. *)
Theorem pan_keeps_grabbed_point (s : Editor) (x0 y0 x1 y1 : R) :
  selectedTool s = ToolSelect ->
  draggingBendEdgeId s = "" -> draggingNodeId s = "" ->
  m_active (marquee s) = false ->
  getBendHandleEdgeAt (nodes s) (edges s) (scale s)
    (Fin (rx (toCanvasPoint x0 y0 s))) (Fin (ry (toCanvasPoint x0 y0 s))) = None ->
  getNodeAt (nodes s)
    (Fin (rx (toCanvasPoint x0 y0 s))) (Fin (ry (toCanvasPoint x0 y0 s))) = None ->
  getEdgeAt (nodes s) (edges s) (scale s)
    (Fin (rx (toCanvasPoint x0 y0 s))) (Fin (ry (toCanvasPoint x0 y0 s))) = None ->
  panning (onMouseDown x0 y0 false s) = true
  /\ selectedNodeIds (onMouseDown x0 y0 false s) = []
  /\ selectedEdgeId (onMouseDown x0 y0 false s) = ""
  /\ pan (onMouseMove x1 y1 (onMouseDown x0 y0 false s))
     = mkRPoint (rx (pan s) + (x1 - x0)) (ry (pan s) + (y1 - y0))
  /\ toCanvasPoint x1 y1 (onMouseMove x1 y1 (onMouseDown x0 y0 false s))
     = toCanvasPoint x0 y0 s
  /\ nodes (onMouseMove x1 y1 (onMouseDown x0 y0 false s)) = nodes s
  /\ edges (onMouseMove x1 y1 (onMouseDown x0 y0 false s)) = edges s
  /\ history (onMouseMove x1 y1 (onMouseDown x0 y0 false s)) = history s
  /\ panning (onMouseUp (onMouseMove x1 y1 (onMouseDown x0 y0 false s))) = false.
Proof.
  intros Htool Hb Hn Hm Hbend Hnode Hedge.
  assert (E1 : onMouseDown x0 y0 false s
               = s |> set_selectedNodeId "" |> set_selectedNodeIds []
                   |> set_selectedEdgeId "" |> set_panning true
                   |> set_panStart (mkRPoint (x0 - rx (pan s)) (y0 - ry (pan s)))).
  { unfold onMouseDown. rewrite Hbend, Htool, Hnode, Hedge. reflexivity. }
  rewrite E1.
  assert (E2 : forall e : Editor,
             draggingBendEdgeId e = "" -> draggingNodeId e = "" ->
             m_active (marquee e) = false -> panning e = true ->
             onMouseMove x1 y1 e
             = set_pan (mkRPoint (x1 - rx (panStart e)) (y1 - ry (panStart e))) e).
  { intros e H1 H2 H3 H4. unfold onMouseMove. rewrite H1, H2, H3, H4. reflexivity. }
  rewrite E2 by (editor_simpl; auto).
  editor_simpl. cbn [rx ry].
  split; [reflexivity |]. split; [reflexivity |]. split; [reflexivity |].
  split; [f_equal; ring |].
  split.
  { unfold toCanvasPoint. editor_simpl. destruct (canvasRect s) as [rect |];
      [| reflexivity].
    cbn [rx ry]. f_equal; f_equal; ring. }
  repeat (split; [reflexivity |]).
  unfold onMouseUp. editor_simpl. rewrite Hm.
  destruct (_ && _); reflexivity.
Qed.

Lemma pan_keeps_grabbed_point_witness :
  toCanvasPoint 70 40
    (onMouseMove 70 40 (onMouseDown 10 20 false (initialEditor (Some (mkRPoint 0 0)) tally)))
  = toCanvasPoint 10 20 (initialEditor (Some (mkRPoint 0 0)) tally).
Proof.
  apply (pan_keeps_grabbed_point (initialEditor (Some (mkRPoint 0 0)) tally)
           10 20 70 40); reflexivity.
Defined.

Section BendDrag.

Lemma alterFirst_split {A : Type} (p : A -> bool) (f : A -> A) (l : list A)
  (a : A) :
  List.find p l = Some a ->
  exists l1 l2 : list A,
    l = l1 ++ a :: l2
    /\ List.Forall (fun b => p b = false) l1
    /\ alterFirst p f l = l1 ++ f a :: l2.
Proof.
  induction l as [| b l IH]; [discriminate |].
  cbn [List.find alterFirst]. destruct (p b) eqn:Hb.
  - intros [= <-]. exists [], l. repeat split. constructor.
  - intros H. destruct (IH H) as [l1 [l2 [-> [Hl1 Hr]]]].
    exists (b :: l1), l2. cbn [app]. rewrite Hr.
    repeat split. constructor; assumption.
Qed.

End BendDrag.

(** Dragging a bend handle: while a bend drag is on, a pointer-move gives
    the first edge with the dragged id a bend at the world point under the
    pointer snapped to the 10-unit grid, each coordinate an integer
    multiple of 10 within 5 of the pointer's; every other edge and every
    node stays, the move is recorded for the commit at pointer-up, and the
    history is not touched yet.  If no edge has the dragged id the move
    does nothing, a node drag included. *)
Theorem bend_drag_snaps (s : Editor) (clientX clientY : R) :
  draggingBendEdgeId s <> "" ->
  (forall edge : FlowEdge,
     findEdge (edges s) (draggingBendEdgeId s) = Some edge ->
     exists (before after : list FlowEdge) (bx by_ : R) (kx ky : Z),
       edges s = before ++ edge :: after
       /\ List.Forall (fun e => e_id e <> draggingBendEdgeId s) before
       /\ edges (onMouseMove clientX clientY s)
          = before ++ setBend (Some bx) (Some by_) edge :: after
       /\ bx = IZR (10 * kx) /\ by_ = IZR (10 * ky)
       /\ (Rabs (bx - rx (toCanvasPoint clientX clientY s)) <= 5)%R
       /\ (Rabs (by_ - ry (toCanvasPoint clientX clientY s)) <= 5)%R
       /\ nodes (onMouseMove clientX clientY s) = nodes s
       /\ draggingMoved (onMouseMove clientX clientY s) = true
       /\ history (onMouseMove clientX clientY s) = history s)
  /\ (findEdge (edges s) (draggingBendEdgeId s) = None ->
      onMouseMove clientX clientY s = s).
Proof.
  intros Hdrag.
  assert (Hne : nonEmpty (draggingBendEdgeId s) = true).
  { unfold nonEmpty. destruct (String.eqb_spec (draggingBendEdgeId s) "");
      [contradiction | reflexivity]. }
  unfold onMouseMove. rewrite Hne. split.
  - intros edge Hf. rewrite Hf.
    destruct (alterFirst_split _ (setBend
                (Some (Rround (rx (toCanvasPoint clientX clientY s) / 10) * 10)%R)
                (Some (Rround (ry (toCanvasPoint clientX clientY s) / 10) * 10)%R))
                _ _ Hf) as [l1 [l2 [Hl [Hl1 Hr]]]].
    destruct (grid_round 10 (rx (toCanvasPoint clientX clientY s)) ltac:(lia))
      as [[kx Hkx] Hbx].
    destruct (grid_round 10 (ry (toCanvasPoint clientX clientY s)) ltac:(lia))
      as [[ky Hky] Hby].
    exists l1, l2,
      (Rround (rx (toCanvasPoint clientX clientY s) / 10) * 10)%R,
      (Rround (ry (toCanvasPoint clientX clientY s) / 10) * 10)%R, kx, ky.
    editor_simpl.
    split; [exact Hl |]. split.
    { eapply List.Forall_impl; [| exact Hl1]. cbn beta. intros e He.
      apply String.eqb_neq. exact He. }
    split; [exact Hr |].
    split; [exact Hkx |]. split; [exact Hky |].
    split; [lra |]. split; [lra |].
    repeat split; reflexivity.
  - intros Hf. rewrite Hf. reflexivity.
Qed.

Lemma bend_drag_snaps_witness :
  exists (before after : list FlowEdge) (bx by_ : R),
    edges (onMouseMove 13 27 (set_draggingBendEdgeId "e" pasteExample))
    = before
      ++ setBend (Some bx) (Some by_)
           (mkEdge "e" "a" "b" None None None None None None None
              (Some 200%R) (Some 60%R))
      :: after.
Proof.
  destruct (proj1 (bend_drag_snaps (set_draggingBendEdgeId "e" pasteExample)
                     13 27 ltac:(discriminate))
              (mkEdge "e" "a" "b" None None None None None None None
                 (Some 200%R) (Some 60%R)) eq_refl)
    as (before & after & bx & by_ & kx & ky & _ & _ & H & _).
  exists before, after, bx, by_. exact H.
Defined.

Section MarqueeSelection.

Lemma dedup_In (seen ids : list string) (id : string) :
  In id (dedup seen ids) <-> In id ids /\ ~ In id seen.
Proof.
  revert seen. induction ids as [| a ids IH]; intros seen; cbn [dedup].
  - cbn [In]. tauto.
  - destruct (includes seen a) eqn:Ha.
    + apply includes_iff in Ha. rewrite IH. cbn [In]. split.
      * intros [H1 H2]. tauto.
      * intros [[-> | H1] H2]; [contradiction | tauto].
    + apply includes_false_iff in Ha. cbn [In]. rewrite IH. cbn [In]. split.
      * intros [-> | [H1 H2]]; [tauto |]. split; [tauto |]. tauto.
      * intros [[-> | H1] H2]; [tauto |].
        destruct (String.eqb_spec a id) as [-> | Hne]; [tauto |].
        right. split; [exact H1 |]. intros [E | H3]; [contradiction | tauto].
Qed.

Lemma dedup_NoDup (seen ids : list string) : List.NoDup (dedup seen ids).
Proof.
  revert seen. induction ids as [| a ids IH]; intros seen; cbn [dedup];
    [constructor |].
  destruct (includes seen a); [apply IH |].
  constructor; [| apply IH].
  rewrite dedup_In. cbn [In]. tauto.
Qed.

Lemma nodeIntersectsRect_spec (n : FlowNode) (x1 y1 x2 y2 : R) :
  nodeIntersectsRect n (x1, y1, x2, y2) = true
  <-> (x1 <= n_x n + n_width n / 2)%R /\ (n_x n - n_width n / 2 <= x2)%R
      /\ (y1 <= n_y n + n_height n / 2)%R /\ (n_y n - n_height n / 2 <= y2)%R.
Proof.
  unfold nodeIntersectsRect, Rltb.
  repeat match goal with
         | |- context [Rlt_dec ?a ?b] => destruct (Rlt_dec a b)
         end; cbn [orb negb]; split; intros H; try discriminate;
    try reflexivity; lra.
Qed.

End MarqueeSelection.

(** Releasing a marquee selects by bounding box: a node is hit when its
    box and the marquee rectangle overlap or touch, whichever corner the
    drag started from.  Without the append flag the selection becomes the
    ids of the hit nodes in diagram order; with it, the earlier selection
    followed by the hit ids, each id once.  The edge selection is cleared,
    the marquee is closed, and neither the diagram nor the history
    changes. *)
Theorem marquee_selects (s : Editor) :
  m_active (marquee s) = true ->
  (forall n : FlowNode,
     nodeIntersectsRect n (marqueeRect s) = true
     <-> (Rmin (m_startX (marquee s)) (m_endX (marquee s))
          <= n_x n + n_width n / 2)%R
         /\ (n_x n - n_width n / 2
             <= Rmax (m_startX (marquee s)) (m_endX (marquee s)))%R
         /\ (Rmin (m_startY (marquee s)) (m_endY (marquee s))
             <= n_y n + n_height n / 2)%R
         /\ (n_y n - n_height n / 2
             <= Rmax (m_startY (marquee s)) (m_endY (marquee s)))%R)
  /\ marqueeRect
       (set_marquee (mkMarquee true (m_endX (marquee s)) (m_endY (marquee s))
                       (m_startX (marquee s)) (m_startY (marquee s))
                       (m_append (marquee s))) s)
     = marqueeRect s
  /\ (m_append (marquee s) = false ->
      selectedNodeIds (onMouseUp s)
      = map n_id (List.filter (fun n => nodeIntersectsRect n (marqueeRect s))
                    (nodes s)))
  /\ (m_append (marquee s) = true ->
      List.NoDup (selectedNodeIds (onMouseUp s))
      /\ forall id : string,
           In id (selectedNodeIds (onMouseUp s))
           <-> In id (selectedNodeIds s)
               \/ exists n : FlowNode,
                    In n (nodes s) /\ n_id n = id
                    /\ nodeIntersectsRect n (marqueeRect s) = true)
  /\ selectedEdgeId (onMouseUp s) = ""
  /\ m_active (marquee (onMouseUp s)) = false
  /\ nodes (onMouseUp s) = nodes s
  /\ edges (onMouseUp s) = edges s
  /\ history (onMouseUp s) = history s.
Proof.
  intros Hact. split; [| split].
  - intros n. unfold marqueeRect. apply nodeIntersectsRect_spec.
  - unfold marqueeRect. editor_simpl.
    cbn [m_startX m_startY m_endX m_endY].
    rewrite (Rmin_comm (m_endX (marquee s))), (Rmin_comm (m_endY (marquee s))),
      (Rmax_comm (m_endX (marquee s))), (Rmax_comm (m_endY (marquee s))).
    reflexivity.
  - unfold onMouseUp. rewrite Hact.
    destruct (m_append (marquee s)) eqn:Happ; editor_simpl.
    + split; [discriminate |]. split.
      * intros _. split; [apply dedup_NoDup |].
        intros id. rewrite dedup_In, in_app_iff, in_map_iff. cbn [In].
        split.
        -- intros [[H | [n [E Hin]]] _]; [left; exact H |].
           apply List.filter_In in Hin. right. exists n. tauto.
        -- intros [H | [n [Hin [E Hhit]]]]; (split; [| tauto]);
             [left; exact H |].
           right. exists n. split; [exact E |]. apply List.filter_In. tauto.
      * repeat split; reflexivity.
    + split; [reflexivity |]. split; [discriminate |].
      repeat split; reflexivity.
Qed.

Lemma marquee_selects_witness :
  selectedEdgeId
    (onMouseUp (set_marquee (mkMarquee true 0 0 400 200 true) pasteExample)) = ""
  /\ nodes (onMouseUp (set_marquee (mkMarquee true 0 0 400 200 true) pasteExample))
     = nodes (set_marquee (mkMarquee true 0 0 400 200 true) pasteExample).
Proof.
  destruct (marquee_selects
              (set_marquee (mkMarquee true 0 0 400 200 true) pasteExample)
              eq_refl) as (_ & _ & _ & _ & H1 & _ & H2 & _).
  split; assumption.
Defined.

Section Clicks.

Lemma map_alterFirst {A B : Type} (g : A -> B) (p : A -> bool) (f : A -> A)
  (l : list A) :
  (forall a, g (f a) = g a) -> map g (alterFirst p f l) = map g l.
Proof.
  intros Hg. induction l as [| a l IH]; [reflexivity |].
  cbn [alterFirst]. destruct (p a); cbn [map]; [rewrite Hg | rewrite IH];
    reflexivity.
Qed.

Lemma map_alterLast {A B : Type} (g : A -> B) (p : A -> bool) (f : A -> A)
  (l : list A) :
  (forall a, g (f a) = g a) -> map g (alterLast p f l) = map g l.
Proof.
  intros Hg. unfold alterLast.
  rewrite map_rev, map_alterFirst by exact Hg.
  rewrite <- map_rev, rev_involutive. reflexivity.
Qed.

(** What a pointer-down of the select tool leaves alone. *)
Lemma select_down_frame (s : Editor) (clientX clientY : R) (shiftKey : bool) :
  selectedTool s = ToolSelect ->
  nodes (onMouseDown clientX clientY shiftKey s) = nodes s
  /\ history (onMouseDown clientX clientY shiftKey s) = history s
  /\ historyIndex (onMouseDown clientX clientY shiftKey s) = historyIndex s
  /\ (draggingMoved s = false ->
      draggingMoved (onMouseDown clientX clientY shiftKey s) = false)
  /\ (forall (B : Type) (g : FlowEdge -> B),
        (forall e, g (ensureEdgeDefaults e) = g e) ->
        map g (edges (onMouseDown clientX clientY shiftKey s)) = map g (edges s)).
Proof.
  intros Htool. unfold onMouseDown. rewrite Htool.
  destruct (getBendHandleEdgeAt _ _ _ _ _) as [bendEdge |].
  { editor_simpl. repeat split; try reflexivity.
    intros B g Hg. apply map_alterLast. exact Hg. }
  destruct (getNodeAt _ _ _) as [node |].
  { destruct shiftKey.
    - unfold toggleNodeSelection. destruct (includes _ _); editor_simpl;
        repeat split; try reflexivity; auto.
    - destruct (negb (includes (selectedNodeIds s) (n_id node)));
        editor_simpl; repeat split; try reflexivity; auto. }
  destruct (getEdgeAt _ _ _ _ _) as [edge |].
  { editor_simpl. repeat split; try reflexivity; auto.
    intros B g Hg. apply map_alterLast. exact Hg. }
  destruct shiftKey; editor_simpl; repeat split; try reflexivity; auto.
Qed.

End Clicks.

(** A click of the select tool is not an edit: with no moved drag pending,
    a pointer-down followed at once by a pointer-up leaves the nodes, the
    history and its index as they were, wherever the click lands; and the
    edges keep their ids, endpoints, labels and bends, the click filling in
    at most the missing style fields of the edge it lands on. *)
Theorem click_keeps_history (s : Editor) (clientX clientY : R)
  (shiftKey : bool) :
  selectedTool s = ToolSelect ->
  draggingMoved s = false ->
  history (onMouseUp (onMouseDown clientX clientY shiftKey s)) = history s
  /\ historyIndex (onMouseUp (onMouseDown clientX clientY shiftKey s))
     = historyIndex s
  /\ nodes (onMouseUp (onMouseDown clientX clientY shiftKey s)) = nodes s
  /\ map (fun e => (e_id e, e_sourceId e, e_targetId e, e_label e,
                    e_bendX e, e_bendY e))
       (edges (onMouseUp (onMouseDown clientX clientY shiftKey s)))
     = map (fun e => (e_id e, e_sourceId e, e_targetId e, e_label e,
                      e_bendX e, e_bendY e))
         (edges s).
Proof.
  intros Htool Hmoved.
  destruct (select_down_frame s clientX clientY shiftKey Htool)
    as (Hn & Hh & Hi & Hm & He).
  specialize (Hm Hmoved).
  set (s1 := onMouseDown clientX clientY shiftKey s) in *.
  assert (Hup : nodes (onMouseUp s1) = nodes s1
                /\ edges (onMouseUp s1) = edges s1
                /\ history (onMouseUp s1) = history s1
                /\ historyIndex (onMouseUp s1) = historyIndex s1).
  { unfold onMouseUp. rewrite Hm, andb_false_r.
    destruct (m_active (marquee s1)); [destruct (m_append (marquee s1)) |];
      editor_simpl; repeat split; reflexivity. }
  destruct Hup as (U1 & U2 & U3 & U4).
  rewrite U1, U2, U3, U4, Hn, Hh, Hi.
  repeat (split; [reflexivity |]).
  apply He. intros e. reflexivity.
Qed.

Lemma click_keeps_history_witness :
  history (onMouseUp (onMouseDown 10 20 false pasteExample))
  = history pasteExample.
Proof.
  apply (click_keeps_history pasteExample 10 20 false); reflexivity.
Defined.


(** * The view *)

Section DiagramBounds.
Local Open Scope R_scope.

Lemma boundsStep_Fin (a b c d : R) (n : FlowNode) :
  boundsStep (mkBounds (Fin a) (Fin b) (Fin c) (Fin d)) n
  = mkBounds (Fin (Rmin a (boxLeft n))) (Fin (Rmin b (boxTop n)))
             (Fin (Rmax c (boxRight n))) (Fin (Rmax d (boxBottom n))).
Proof.
  unfold boundsStep, boxLeft, boxTop, boxRight, boxBottom.
  cbn [b_minX b_minY b_maxX b_maxY].
  rewrite !ndiv_Fin by lra. reflexivity.
Qed.

Lemma boundsStep_first (n : FlowNode) :
  boundsStep (mkBounds PInf PInf NInf NInf) n
  = mkBounds (Fin (boxLeft n)) (Fin (boxTop n))
             (Fin (boxRight n)) (Fin (boxBottom n)).
Proof.
  unfold boundsStep, boxLeft, boxTop, boxRight, boxBottom.
  cbn [b_minX b_minY b_maxX b_maxY].
  rewrite !ndiv_Fin by lra. reflexivity.
Qed.

(** The loop from finite bounds: the results are finite, within the
    bounds it started from and the boxes it visited, and each is attained by
    the start or by a visited box. *)
Lemma bounds_fold (l : list FlowNode) (a b c d : R) :
  exists a' b' c' d' : R,
    fold_left boundsStep l (mkBounds (Fin a) (Fin b) (Fin c) (Fin d))
    = mkBounds (Fin a') (Fin b') (Fin c') (Fin d')
    /\ (a' <= a /\ b' <= b /\ c <= c' /\ d <= d')
    /\ (forall n, In n l ->
          a' <= boxLeft n /\ b' <= boxTop n
          /\ boxRight n <= c' /\ boxBottom n <= d')
    /\ (a' = a \/ exists n, In n l /\ a' = boxLeft n)
    /\ (b' = b \/ exists n, In n l /\ b' = boxTop n)
    /\ (c' = c \/ exists n, In n l /\ c' = boxRight n)
    /\ (d' = d \/ exists n, In n l /\ d' = boxBottom n).
Proof.
  revert a b c d. induction l as [| m l IH]; intros a b c d.
  - exists a, b, c, d. cbn [fold_left In].
    repeat split; try lra; try (left; reflexivity); contradiction.
  - cbn [fold_left]. rewrite boundsStep_Fin.
    destruct (IH (Rmin a (boxLeft m)) (Rmin b (boxTop m))
                 (Rmax c (boxRight m)) (Rmax d (boxBottom m)))
      as (a' & b' & c' & d' & Hf & (Ha & Hb & Hc & Hd) & Hall & Ta & Tb & Tc & Td).
    exists a', b', c', d'.
    pose proof (Rmin_l a (boxLeft m)). pose proof (Rmin_r a (boxLeft m)).
    pose proof (Rmin_l b (boxTop m)). pose proof (Rmin_r b (boxTop m)).
    pose proof (Rmax_l c (boxRight m)). pose proof (Rmax_r c (boxRight m)).
    pose proof (Rmax_l d (boxBottom m)). pose proof (Rmax_r d (boxBottom m)).
    split; [exact Hf |]. split; [lra |]. split.
    { intros n [<- | Hin]; [lra | apply Hall; exact Hin]. }
    assert (Hext : forall (v' v w : R) (box : FlowNode -> R),
               (v' = w \/ exists n, In n l /\ v' = box n) ->
               (w = v \/ w = box m) ->
               v' = v \/ exists n, In n (m :: l) /\ v' = box n).
    { intros v' v w box [-> | [n [Hin E]]] Hw.
      - destruct Hw as [-> | ->]; [left; reflexivity |].
        right. exists m. split; [left; reflexivity | reflexivity].
      - right. exists n. split; [right; exact Hin | exact E]. }
    repeat split.
    + apply (Hext a' a _ boxLeft Ta). unfold Rmin.
      destruct (Rle_dec a (boxLeft m)); auto.
    + apply (Hext b' b _ boxTop Tb). unfold Rmin.
      destruct (Rle_dec b (boxTop m)); auto.
    + apply (Hext c' c _ boxRight Tc). unfold Rmax.
      destruct (Rle_dec c (boxRight m)); auto.
    + apply (Hext d' d _ boxBottom Td). unfold Rmax.
      destruct (Rle_dec d (boxBottom m)); auto.
Qed.

(** The bounds of a diagram are always finite. *)
Lemma getDiagramBounds_finite (ns : list FlowNode) :
  exists x1 y1 x2 y2 : R,
    getDiagramBounds ns = mkBounds (Fin x1) (Fin y1) (Fin x2) (Fin y2)
    /\ (ns = [] -> x1 = -400 /\ y1 = -300 /\ x2 = 400 /\ y2 = 300)
    /\ (forall n, In n ns ->
          x1 + 80 <= boxLeft n /\ y1 + 80 <= boxTop n
          /\ boxRight n <= x2 - 80 /\ boxBottom n <= y2 - 80)
    /\ (ns <> [] ->
        (exists n, In n ns /\ x1 + 80 = boxLeft n)
        /\ (exists n, In n ns /\ y1 + 80 = boxTop n)
        /\ (exists n, In n ns /\ x2 - 80 = boxRight n)
        /\ (exists n, In n ns /\ y2 - 80 = boxBottom n)).
Proof.
  destruct ns as [| m l].
  - exists (-400), (-300), 400, 300. cbn [getDiagramBounds In].
    repeat split; try reflexivity; try contradiction.
  - unfold getDiagramBounds. cbn [fold_left]. rewrite boundsStep_first.
    destruct (bounds_fold l (boxLeft m) (boxTop m) (boxRight m) (boxBottom m))
      as (a' & b' & c' & d' & Hf & (Ha & Hb & Hc & Hd) & Hall & Ta & Tb & Tc & Td).
    rewrite Hf. cbn [b_minX b_minY b_maxX b_maxY nsub nadd].
    exists (a' - 80), (b' - 80), (c' + 80), (d' + 80).
    split; [reflexivity |]. split; [discriminate |]. split.
    { intros n [<- | Hin]; [lra |].
      specialize (Hall n Hin). lra. }
    intros _.
    assert (Hext : forall (v' : R) (box : FlowNode -> R),
               (v' = box m \/ exists n, In n l /\ v' = box n) ->
               exists n, In n (m :: l) /\ v' = box n).
    { intros v' box [-> | [n [Hin E]]].
      - exists m. split; [left; reflexivity | reflexivity].
      - exists n. split; [right; exact Hin | exact E]. }
    repeat split.
    + destruct (Hext a' boxLeft Ta) as [n [Hin E]]. exists n. split; [exact Hin | lra].
    + destruct (Hext b' boxTop Tb) as [n [Hin E]]. exists n. split; [exact Hin | lra].
    + destruct (Hext c' boxRight Tc) as [n [Hin E]]. exists n. split; [exact Hin | lra].
    + destruct (Hext d' boxBottom Td) as [n [Hin E]]. exists n. split; [exact Hin | lra].
Qed.

End DiagramBounds.

(** In exact arithmetic the bounds of the diagram are finite numbers.  For
    the empty diagram they are the fixed frame from (-400, -300) to
    (400, 300).  Otherwise they enclose the bounding box of every node with
    a margin of 80 on each side, and tightly: on each side some node's box
    is exactly 80 inside.  With no node of negative width or height the
    bounds are at least 160 wide and 160 high. *)
Lemma diagram_bounds_exact (ns : list FlowNode) :
  exists x1 y1 x2 y2 : R,
    getDiagramBounds ns = mkBounds (Fin x1) (Fin y1) (Fin x2) (Fin y2)
    /\ (ns = [] -> x1 = (-400)%R /\ y1 = (-300)%R /\ x2 = 400%R /\ y2 = 300%R)
    /\ (forall n, In n ns ->
          (x1 + 80 <= boxLeft n)%R /\ (y1 + 80 <= boxTop n)%R
          /\ (boxRight n <= x2 - 80)%R /\ (boxBottom n <= y2 - 80)%R)
    /\ (ns <> [] ->
        (exists n, In n ns /\ (x1 + 80)%R = boxLeft n)
        /\ (exists n, In n ns /\ (y1 + 80)%R = boxTop n)
        /\ (exists n, In n ns /\ (x2 - 80)%R = boxRight n)
        /\ (exists n, In n ns /\ (y2 - 80)%R = boxBottom n))
    /\ ((forall n, In n ns -> (0 <= n_width n)%R /\ (0 <= n_height n)%R) ->
        (x1 + 160 <= x2)%R /\ (y1 + 160 <= y2)%R).
Proof.
  destruct (getDiagramBounds_finite ns) as (x1 & y1 & x2 & y2 & Hb & He & Hin & Ht).
  exists x1, y1, x2, y2.
  split; [exact Hb |]. split; [exact He |]. split; [exact Hin |].
  split; [exact Ht |].
  intros Hsize. destruct ns as [| m l].
  - destruct (He eq_refl) as (-> & -> & -> & ->). lra.
  - destruct (Hin m (or_introl eq_refl)) as (H1 & H2 & H3 & H4).
    destruct (Hsize m (or_introl eq_refl)) as [Hw Hh].
    unfold boxLeft, boxTop, boxRight, boxBottom in *. lra.
Qed.

Section Zoom.
Local Open Scope R_scope.

Lemma big_bound : 3 < 10 ^ 21.
Proof. simpl pow. lra. Qed.

(** [toFixed(2)] gives back a small non-negative multiple of 0.01. *)
Lemma toFixed2_hundredths (k : Z) :
  (0 <= k <= 300)%Z -> toFixed2 (IZR k / 100) = IZR k / 100.
Proof.
  intros Hk. unfold toFixed2.
  assert (H0 : 0 <= IZR k <= 300) by (split; apply IZR_le; lia).
  assert (Habs : Rabs (IZR k / 100) = IZR k / 100).
  { apply Rabs_right. lra. }
  rewrite Habs. pose proof big_bound.
  rewrite Rleb_false by lra. rewrite Rltb_false by lra.
  replace (IZR k / 100 * 100) with (IZR k) by field.
  rewrite Rround_integer by (exists k; reflexivity). reflexivity.
Qed.

(** [toFixed(2)] always gives a multiple of 0.01 below [1e21]. *)
Lemma toFixed2_multiple (x : R) :
  Rabs x < 10 ^ 21 -> exists k : Z, toFixed2 x = IZR k / 100.
Proof.
  intros Hx. unfold toFixed2. rewrite Rleb_false by exact Hx.
  unfold Rround. destruct (Rltb x 0).
  - exists (- Zfloor (Rabs x * 100 + / 2))%Z. rewrite opp_IZR. lra.
  - eexists. reflexivity.
Qed.

Lemma clamp_multiple (x : R) :
  exists k : Z, Rmax (1 / 2) (Rmin 2 (toFixed2 x)) = IZR k / 100.
Proof.
  destruct (Rlt_dec (Rabs x) (10 ^ 21)) as [Hx | Hx].
  - destruct (toFixed2_multiple x Hx) as [k Hk]. rewrite Hk.
    unfold Rmax, Rmin.
    destruct (Rle_dec 2 (IZR k / 100)).
    + destruct (Rle_dec (1 / 2) 2); [exists 200%Z | exists 50%Z]; lra.
    + destruct (Rle_dec (1 / 2) (IZR k / 100)); [exists k | exists 50%Z]; lra.
  - unfold Rmax, Rmin.
    destruct (Rle_dec 2 (toFixed2 x)).
    + destruct (Rle_dec (1 / 2) 2); [exists 200%Z | exists 50%Z]; lra.
    + destruct (Rle_dec (1 / 2) (toFixed2 x)) as [H1 | H1]; [| exists 50%Z; lra].
      exfalso. unfold toFixed2 in *. rewrite Rleb_true in * by lra.
      pose proof big_bound. unfold Rabs in Hx. destruct (Rcase_abs x); lra.
Qed.

Lemma clamp_range (x : R) : 1 / 2 <= Rmax (1 / 2) (Rmin 2 x) <= 2.
Proof.
  unfold Rmax, Rmin. destruct (Rle_dec 2 x); destruct (Rle_dec (1 / 2) _); lra.
Qed.

Lemma clamp_inside (x : R) : 1 / 2 <= x <= 2 -> Rmax (1 / 2) (Rmin 2 x) = x.
Proof.
  intros H. unfold Rmax, Rmin.
  destruct (Rle_dec 2 x); destruct (Rle_dec (1 / 2) _); lra.
Qed.

Lemma onWheel_step (k d : Z) (s : Editor) :
  scale s = IZR k / 100 -> (50 <= k + d <= 200)%Z ->
  Rmax (1 / 2) (Rmin 2 (toFixed2 (scale s + IZR d / 100))) = IZR (k + d) / 100.
Proof.
  intros Hs Hk.
  replace (scale s + IZR d / 100) with (IZR (k + d) / 100)
    by (rewrite Hs, plus_IZR; field).
  rewrite toFixed2_hundredths by lia.
  assert (50 <= IZR (k + d) <= 200) by (split; apply IZR_le; lia).
  apply clamp_inside. lra.
Qed.

End Zoom.

(** The wheel zooms in steps of 0.1 between 0.5 and 2.  Whatever the scale
    was, after a wheel event it lies between 0.5 and 2 and is a whole
    number of hundredths; nothing else of the state changes.  From a scale
    of k hundredths, wheeling up gives k + 10 hundredths if that is at most
    200 and wheeling down gives k - 10 if that is at least 50; so wheeling
    up and then down comes back to the scale one started from. *)
Theorem onWheel_clamped (deltaY : R) (s : Editor) :
  (1 / 2 <= scale (onWheel deltaY s) <= 2)%R
  /\ (exists k : Z, scale (onWheel deltaY s) = (IZR k / 100)%R)
  /\ onWheel deltaY s = set_scale (scale (onWheel deltaY s)) s
  /\ (forall k : Z,
        scale s = (IZR k / 100)%R ->
        ((deltaY < 0)%R -> (40 <= k <= 190)%Z ->
         scale (onWheel deltaY s) = (IZR (k + 10) / 100)%R)
        /\ ((0 <= deltaY)%R -> (60 <= k <= 210)%Z ->
            scale (onWheel deltaY s) = (IZR (k - 10) / 100)%R)
        /\ ((50 <= k <= 190)%Z ->
            forall up down : R,
              (up < 0)%R -> (0 <= down)%R ->
              scale (onWheel down (onWheel up s)) = scale s)).
Proof.
  unfold onWheel. editor_simpl.
  split; [apply clamp_range |]. split; [apply clamp_multiple |].
  split; [reflexivity |].
  intros k Hs. split; [| split].
  - intros Hd Hk. rewrite Rltb_true by exact Hd.
    replace (1 / 10)%R with (IZR 10 / 100)%R by lra.
    apply onWheel_step; [exact Hs | lia].
  - intros Hd Hk. rewrite Rltb_false by exact Hd.
    replace (- (1 / 10))%R with (IZR (-10) / 100)%R by lra.
    replace (k - 10)%Z with (k + -10)%Z by lia.
    apply onWheel_step; [exact Hs | lia].
  - intros Hk up down Hup Hdown.
    rewrite (Rltb_true up) by exact Hup. rewrite (Rltb_false down) by exact Hdown.
    replace (1 / 10)%R with (IZR 10 / 100)%R by lra.
    rewrite (onWheel_step k 10 s Hs) by lia.
    replace (IZR (k + 10) / 100 + - (IZR 10 / 100))%R with (IZR k / 100)%R
      by (rewrite plus_IZR; lra).
    rewrite toFixed2_hundredths by lia.
    assert (50 <= IZR k <= 190)%R by (split; apply IZR_le; lia).
    rewrite clamp_inside by lra. symmetry. exact Hs.
Qed.

Section Centring.
Local Open Scope R_scope.



End Centring.




(** * Auto-layout in general *)

Section LayoutTables.

(** The tables once the edges are read, from any tables. *)
Lemma tableEdge_fold (es : list FlowEdge) (inc : gmap string Z)
  (adj : gmap string (list string)) (id : string) :
  getOr0 (fst (fold_left tableEdge es (inc, adj))) id
  = (getOr0 inc id + Z.of_nat (inDegree es id))%Z
  /\ snd (fold_left tableEdge es (inc, adj)) !! id
     = option_map (fun out => out ++ successors es id) (adj !! id).
Proof.
  revert inc adj. induction es as [| e es IH]; intros inc adj.
  - cbn [fold_left fst snd inDegree successors List.filter length map].
    split; [lia |]. destruct (adj !! id); cbn [option_map];
      [rewrite app_nil_r |]; reflexivity.
  - cbn [fold_left]. unfold tableEdge at 2 4. cbn [fst snd].
    destruct (IH (<[e_targetId e := (getOr0 inc (e_targetId e) + 1)%Z]> inc)
                 (match adj !! e_sourceId e with
                  | Some out => <[e_sourceId e := out ++ [e_targetId e]]> adj
                  | None => adj
                  end)) as [IH1 IH2].
    rewrite IH1, IH2. clear IH IH1 IH2.
    unfold inDegree, successors. cbn [List.filter].
    split.
    + destruct (String.eqb_spec (e_targetId e) id) as [Ht | Ht].
      * rewrite Ht, getOr0_insert_eq. cbn [length]. lia.
      * rewrite getOr0_insert_ne by exact Ht. reflexivity.
    + destruct (String.eqb_spec (e_sourceId e) id) as [Hs | Hs].
      * rewrite Hs. destruct (adj !! id) as [out |] eqn:Hadj.
        -- rewrite lookup_insert_eq. cbn [option_map map].
           rewrite <- app_assoc. reflexivity.
        -- rewrite Hadj. reflexivity.
      * destruct (adj !! e_sourceId e);
          [rewrite lookup_insert_ne by exact Hs |]; reflexivity.
Qed.

(** The tables of a diagram: the in-degree of every id, and for every node
    id the targets of the edges leaving it. *)
Lemma layoutTables_spec (ns : list FlowNode) (es : list FlowEdge) (id : string) :
  getOr0 (fst (layoutTables ns es)) id = Z.of_nat (inDegree es id)
  /\ snd (layoutTables ns es) !! id
     = (if includes (map n_id ns) id then Some (successors es id) else None).
Proof.
  unfold layoutTables.
  destruct (tableNode_fold ns id) as [H1 H2].
  destruct (fold_left tableNode ns (∅, ∅)) as [inc0 adj0].
  cbn [fst snd] in H1, H2.
  destruct (tableEdge_fold es inc0 adj0 id) as [T1 T2].
  rewrite T1, T2, H2. unfold getOr0. rewrite H1.
  destruct (includes (map n_id ns) id); cbn [default option_map app];
    split; reflexivity.
Qed.

End LayoutTables.

Section Divergence.

Lemma relax_all_pushed (d : Z) (children : list string)
  (depth inc : gmap string Z) (pushed : list string) :
  (forall id, (getOr0 inc id <= 1)%Z) ->
  snd (fold_left (relaxChild d) children (depth, inc, pushed))
  = pushed ++ children
  /\ forall id,
       (getOr0 (snd (fst (fold_left (relaxChild d) children (depth, inc, pushed))))
          id <= 1)%Z.
Proof.
  revert depth inc pushed.
  induction children as [| c children IH]; intros depth inc pushed Hinc.
  - cbn [fold_left fst snd]. rewrite app_nil_r. split; [reflexivity | exact Hinc].
  - cbn [fold_left].
    rewrite relaxChild_push by (specialize (Hinc c); lia).
    destruct (IH (<[c := Z.max (getOr0 depth c) (d + 1)]> depth)
                 (<[c := (getOr0 inc c - 1)%Z]> inc) (pushed ++ [c])) as [H1 H2].
    + intros id. destruct (String.eqb_spec c id) as [-> | Hne].
      * rewrite getOr0_insert_eq. specialize (Hinc id). lia.
      * rewrite getOr0_insert_ne by exact Hne. apply Hinc.
    + split; [rewrite H1, <- app_assoc; reflexivity | exact H2].
Qed.

(** The work queue never empties when every id it can hold has a successor
    and no in-degree exceeds one. *)
Lemma layering_diverges (adj : gmap string (list string)) (ids : list string) :
  (forall x, In x ids ->
     exists c cs, adj !! x = Some (c :: cs) /\ forall y, In y (c :: cs) -> In y ids) ->
  forall (fuel : nat) (queue : list string) (depth inc : gmap string Z),
    queue <> [] ->
    (forall x, In x queue -> In x ids) ->
    (forall id, (getOr0 inc id <= 1)%Z) ->
    layering fuel adj queue depth inc = None.
Proof.
  intros Hadj. induction fuel as [| fuel IH]; intros queue depth inc Hq Hin Hinc.
  - destruct queue; [contradiction | reflexivity].
  - destruct queue as [| id rest]; [contradiction |].
    destruct (Hadj id (Hin id (or_introl eq_refl))) as [c [cs [Hc Hcs]]].
    rewrite (layering_step _ _ _ _ _ _ _ Hc).
    destruct (relax_all_pushed (getOr0 depth id) (c :: cs) depth inc [] Hinc)
      as [H1 H2].
    rewrite H1. cbn [app]. apply IH.
    + destruct rest; discriminate.
    + intros x Hx. apply in_app_iff in Hx. destruct Hx as [Hx | Hx].
      * apply Hin. right. exact Hx.
      * apply Hcs. exact Hx.
    + exact H2.
Qed.

End Divergence.

Section Cycles.

Lemma filter_none {A : Type} (f : A -> bool) (l : list A) :
  (forall x, In x l -> f x = false) -> List.filter f l = [].
Proof.
  induction l as [| a l IH]; intros H; [reflexivity |].
  cbn [List.filter]. rewrite (H a) by (left; reflexivity).
  apply IH. intros x Hx. apply H. right. exact Hx.
Qed.

Lemma inDegree_unresolved (es : list FlowEdge) (ids : list string) (id : string) :
  (forall e, In e es -> In (e_targetId e) ids) ->
  ~ In id ids -> inDegree es id = 0%nat.
Proof.
  intros Hres Hid. unfold inDegree. rewrite filter_none; [reflexivity |].
  intros e He. apply String.eqb_neq. intros E. apply Hid. rewrite <- E.
  apply Hres. exact He.
Qed.

End Cycles.

(** Auto-layout does not end on a diagram made of cycles.  If the diagram
    has a node, every edge ends at a node, every node is the end of exactly
    one edge and the start of at least one, then the work queue of the
    layering pass never empties: whatever number of iterations is allowed,
    [autoLayout] has not returned, in either direction.  Two nodes joined in
    both directions and a node joined to itself are the smallest cases. *)
Theorem autoLayout_cycles_diverge (direction : Direction) (s : Editor) :
  nodes s <> [] ->
  (forall e, In e (edges s) -> In (e_targetId e) (map n_id (nodes s))) ->
  (forall n, In n (nodes s) -> inDegree (edges s) (n_id n) = 1%nat) ->
  (forall n, In n (nodes s) -> successors (edges s) (n_id n) <> []) ->
  forall fuel : nat, autoLayout direction fuel s = None.
Proof.
  intros Hne Hres Hin Hout fuel. unfold autoLayout.
  destruct (nodes s) as [| first rest] eqn:Hn; [contradiction |].
  rewrite <- Hn in *.
  pose proof (layoutTables_spec (nodes s) (edges s)) as Hspec.
  destruct (layoutTables (nodes s) (edges s)) as [inc adj]. cbn [fst snd] in Hspec.
  assert (Hinc : forall id, (getOr0 inc id <= 1)%Z).
  { intros id. rewrite (proj1 (Hspec id)).
    destruct (in_dec string_dec id (map n_id (nodes s))) as [Hi | Hi].
    - apply in_map_iff in Hi. destruct Hi as [n [<- Hi]].
      rewrite (Hin n Hi). lia.
    - rewrite (inDegree_unresolved _ _ _ Hres Hi). lia. }
  assert (Hroots : List.filter (fun n => (getOr0 inc (n_id n) =? 0)%Z) (nodes s) = []).
  { apply filter_none. intros n Hi. rewrite (proj1 (Hspec (n_id n))), (Hin n Hi).
    reflexivity. }
  rewrite Hroots. cbn [map length Nat.eqb].
  rewrite (layering_diverges adj (map n_id (nodes s))); [reflexivity | | | | ].
  - intros x Hx. pose proof (proj2 (Hspec x)) as Hadj.
    rewrite (proj2 (includes_iff _ _) Hx) in Hadj.
    apply in_map_iff in Hx. destruct Hx as [n [<- Hi]].
    destruct (successors (edges s) (n_id n)) as [| c cs] eqn:Hsucc;
      [exfalso; exact (Hout n Hi Hsucc) |].
    exists c, cs. split; [exact Hadj |].
    intros y Hy. rewrite <- Hsucc in Hy. unfold successors in Hy.
    apply in_map_iff in Hy. destruct Hy as [e [<- He]].
    apply List.filter_In in He. apply Hres. apply He.
  - discriminate.
  - intros x [<- | []]. rewrite Hn. left. reflexivity.
  - exact Hinc.
Qed.

Lemma autoLayout_cycles_diverge_witness :
  autoLayout vertical 1000 cycleExample = None.
Proof.
  apply (autoLayout_cycles_diverge vertical cycleExample).
  - discriminate.
  - intros e [<- | [<- | []]]; cbn; tauto.
  - intros n [<- | [<- | []]]; reflexivity.
  - intros n [<- | [<- | []]]; discriminate.
Defined.

(** * Writing to the nodes of a list by position *)

Section FoldAlter.

Context {A B : Type}.
Variable step : list A -> nat * B -> list A.
Variable f : nat -> A -> A.
Variable g : B -> nat.
Hypothesis step_alter :
  forall (ns : list A) (i : nat) (item : B),
    step ns (i, item) = alter (f i) (g item) ns.

(** A loop [items.forEach((item, i) => ...)] that writes [f i] to the
    element at position [g item], over items at distinct positions: the
    element at the position of item [i] is written once, with [f i], and
    the elements at the other positions are not written. *)
Lemma fold_alter_items (items : list B) (a : nat) (cur : list A) :
  List.NoDup (map g items) ->
  length (fold_left step (combine (seq a (length items)) items) cur) = length cur
  /\ (forall (i : nat) (item : B),
        items !! i = Some item ->
        fold_left step (combine (seq a (length items)) items) cur !! g item
        = f (a + i) <$> cur !! g item)
  /\ (forall k : nat,
        ~ In k (map g items) ->
        fold_left step (combine (seq a (length items)) items) cur !! k = cur !! k).
Proof.
  revert a cur. induction items as [| it items IH]; intros a cur Hnd.
  - cbn [length seq combine fold_left]. split; [reflexivity |].
    split; [intros i item H; discriminate | reflexivity].
  - cbn [length seq combine fold_left]. rewrite step_alter.
    cbn [map] in Hnd. apply List.NoDup_cons_iff in Hnd. destruct Hnd as [Hit Hnd].
    destruct (IH (S a) (alter (f a) (g it) cur) Hnd) as (H1 & H2 & H3).
    split; [rewrite H1; apply length_alter |]. split.
    + intros [| i] item Hi.
      * cbn in Hi. injection Hi as <-. rewrite (H3 _ Hit).
        rewrite list_lookup_alter_eq, Nat.add_0_r. reflexivity.
      * cbn in Hi. rewrite (H2 i item Hi).
        assert (Hne : g it <> g item).
        { intros E. apply Hit. rewrite E. apply in_map.
          apply (proj1 (list_elem_of_In items item)).
          apply (list_elem_of_lookup_2 _ _ _ Hi). }
        rewrite list_lookup_alter_ne by exact Hne.
        replace (S a + i)%nat with (a + S i)%nat by lia. reflexivity.
    + intros k Hk. cbn [map In] in Hk.
      rewrite (H3 k) by tauto.
      apply list_lookup_alter_ne. tauto.
Qed.

End FoldAlter.


(** * Alignment and distribution *)

Section Extremes.
Local Open Scope R_scope.

Lemma fold_Rmin_spec (l : list R) (a : R) :
  (fold_left Rmin l a <= a /\ forall x, In x l -> fold_left Rmin l a <= x)
  /\ (fold_left Rmin l a = a \/ In (fold_left Rmin l a) l).
Proof.
  revert a. induction l as [| b l IH]; intros a; cbn [fold_left In].
  - split; [split; [lra | contradiction] | left; reflexivity].
  - destruct (IH (Rmin a b)) as [[H1 H2] H3].
    pose proof (Rmin_l a b). pose proof (Rmin_r a b).
    split; [split; [lra |] |].
    + intros x [<- | Hx]; [lra | apply H2; exact Hx].
    + destruct H3 as [H3 | H3]; [| right; right; exact H3].
      rewrite H3. unfold Rmin. destruct (Rle_dec a b); [left | right; left]; reflexivity.
Qed.

Lemma fold_Rmax_spec (l : list R) (a : R) :
  (a <= fold_left Rmax l a /\ forall x, In x l -> x <= fold_left Rmax l a)
  /\ (fold_left Rmax l a = a \/ In (fold_left Rmax l a) l).
Proof.
  revert a. induction l as [| b l IH]; intros a; cbn [fold_left In].
  - split; [split; [lra | contradiction] | left; reflexivity].
  - destruct (IH (Rmax a b)) as [[H1 H2] H3].
    pose proof (Rmax_l a b). pose proof (Rmax_r a b).
    split; [split; [lra |] |].
    + intros x [<- | Hx]; [lra | apply H2; exact Hx].
    + destruct H3 as [H3 | H3]; [| right; right; exact H3].
      rewrite H3. unfold Rmax. destruct (Rle_dec a b); [right; left | left]; reflexivity.
Qed.

(** The least and the greatest of the values of [key] on a non-empty
    list, as the spread calls [Math.min(...)] and [Math.max(...)] compute
    them. *)
Lemma extremes (key : FlowNode -> R) (first : FlowNode) (rest : list FlowNode) :
  (In (fold_left Rmin (map key rest) (key first)) (map key (first :: rest))
   /\ forall n, In n (first :: rest) ->
        fold_left Rmin (map key rest) (key first) <= key n)
  /\ (In (fold_left Rmax (map key rest) (key first)) (map key (first :: rest))
      /\ forall n, In n (first :: rest) ->
           key n <= fold_left Rmax (map key rest) (key first)).
Proof.
  destruct (fold_Rmin_spec (map key rest) (key first)) as [[A1 A2] A3].
  destruct (fold_Rmax_spec (map key rest) (key first)) as [[B1 B2] B3].
  cbn [map In]. repeat split.
  - destruct A3 as [-> | A3]; [left; reflexivity | right; exact A3].
  - intros n [<- | Hn]; [exact A1 | apply A2, in_map; exact Hn].
  - destruct B3 as [-> | B3]; [left; reflexivity | right; exact B3].
  - intros n [<- | Hn]; [exact B1 | apply B2, in_map; exact Hn].
Qed.

End Extremes.

Section Aligning.

Lemma forSelected_Forall2 (ids : list string) (f : FlowNode -> FlowNode)
  (ns : list FlowNode) :
  List.Forall2
    (fun n n' => n' = (if includes ids (n_id n) then f n else n))
    ns (forSelected ids f ns).
Proof.
  induction ns as [| n ns IH]; cbn [forSelected map]; constructor;
    [reflexivity | exact IH].
Qed.

End Aligning.

(** Aligning.  With fewer than two ids selected, or fewer than two nodes
    carrying a selected id, nothing happens in any mode.  Otherwise, the
    four alignment modes move every node with a selected id, and no other
    node, to a common coordinate: the least x among them (left), the middle
    of their least and greatest x (centre), the least y (top), the middle
    of their least and greatest y (middle); the other coordinate, the id,
    the text and the size of each node stay, as do the edges and the
    selection, and one undo restores the positions if the history was in
    step. *)
Theorem alignSelected_aligns (s : Editor) :
  ((length (selectedNodeIds s) < 2)%nat
   \/ (length (List.filter (fun n => includes (selectedNodeIds s) (n_id n))
                 (nodes s)) < 2)%nat ->
   forall mode : AlignMode, alignSelected mode s = s)
  /\ ((2 <= length (selectedNodeIds s))%nat ->
      (2 <= length (List.filter (fun n => includes (selectedNodeIds s) (n_id n))
                      (nodes s)))%nat ->
      exists minX maxX minY maxY : R,
        (forall n, In n (nodes s) -> includes (selectedNodeIds s) (n_id n) = true ->
           (minX <= n_x n <= maxX)%R /\ (minY <= n_y n <= maxY)%R)
        /\ (exists n, In n (nodes s)
                      /\ includes (selectedNodeIds s) (n_id n) = true /\ n_x n = minX)
        /\ (exists n, In n (nodes s)
                      /\ includes (selectedNodeIds s) (n_id n) = true /\ n_x n = maxX)
        /\ (exists n, In n (nodes s)
                      /\ includes (selectedNodeIds s) (n_id n) = true /\ n_y n = minY)
        /\ (exists n, In n (nodes s)
                      /\ includes (selectedNodeIds s) (n_id n) = true /\ n_y n = maxY)
        /\ (forall (mode : AlignMode) (f : FlowNode -> FlowNode),
              (mode = AlignLeft /\ f = setX minX)
              \/ (mode = AlignHCenter /\ f = setX ((minX + maxX) / 2))
              \/ (mode = AlignTop /\ f = setY minY)
              \/ (mode = AlignVCenter /\ f = setY ((minY + maxY) / 2)) ->
              List.Forall2
                (fun n n' =>
                   n' = (if includes (selectedNodeIds s) (n_id n) then f n else n))
                (nodes s) (nodes (alignSelected mode s))
              /\ edges (alignSelected mode s) = edges s
              /\ selectedNodeIds (alignSelected mode s) = selectedNodeIds s
              /\ (historySynced s ->
                  exists u : Editor,
                    undo (alignSelected mode s) = Some u
                    /\ nodes u = nodes s /\ edges u = edges s))).
Proof.
  split.
  - intros H mode. unfold alignSelected.
    destruct (length (selectedNodeIds s) <? 2)%nat eqn:Hl; [reflexivity |].
    apply Nat.ltb_ge in Hl. destruct H as [H | H]; [lia |].
    destruct (List.filter _ (nodes s)) as [| a [| b l]]; try reflexivity.
    cbn [length] in H. lia.
  - intros Hids Hsel. unfold alignSelected.
    assert (Hl : (length (selectedNodeIds s) <? 2)%nat = false)
      by (apply Nat.ltb_ge; exact Hids).
    rewrite Hl.
    destruct (List.filter (fun n => includes (selectedNodeIds s) (n_id n)) (nodes s))
      as [| first rest] eqn:Hf; [cbn [length] in Hsel; lia |].
    destruct rest as [| second rest]; [cbn [length] in Hsel; lia |].
    destruct (extremes n_x first (second :: rest)) as [[X1 X2] [X3 X4]].
    destruct (extremes n_y first (second :: rest)) as [[Y1 Y2] [Y3 Y4]].
    set (minX := fold_left Rmin (map n_x (second :: rest)) (n_x first)) in *.
    set (maxX := fold_left Rmax (map n_x (second :: rest)) (n_x first)) in *.
    set (minY := fold_left Rmin (map n_y (second :: rest)) (n_y first)) in *.
    set (maxY := fold_left Rmax (map n_y (second :: rest)) (n_y first)) in *.
    assert (Hmem : forall n, In n (first :: second :: rest)
                             <-> In n (nodes s)
                                 /\ includes (selectedNodeIds s) (n_id n) = true).
    { intros n. rewrite <- Hf. apply List.filter_In. }
    assert (Hattain : forall (key : FlowNode -> R) (v : R),
               In v (map key (first :: second :: rest)) ->
               exists n, In n (nodes s)
                         /\ includes (selectedNodeIds s) (n_id n) = true
                         /\ key n = v).
    { intros key v Hv. apply in_map_iff in Hv. destruct Hv as [n [E Hn]].
      apply Hmem in Hn. exists n. tauto. }
    exists minX, maxX, minY, maxY.
    split.
    { intros n Hn Hi. assert (Hm : In n (first :: second :: rest)) by (apply Hmem; tauto).
      specialize (X2 n Hm). specialize (X4 n Hm).
      specialize (Y2 n Hm). specialize (Y4 n Hm). lra. }
    split; [apply (Hattain n_x); exact X1 |].
    split; [apply (Hattain n_x); exact X3 |].
    split; [apply (Hattain n_y); exact Y1 |].
    split; [apply (Hattain n_y); exact Y3 |].
    intros mode f Hmode.
    destruct Hmode as [[-> ->] | [[-> ->] | [[-> ->] | [-> ->]]]];
      cbv beta iota;
      match goal with
      | |- context [commitHistory ?e] =>
          destruct (committed_edit s e eq_refl eq_refl eq_refl eq_refl)
            as (H1 & H2 & _ & H4 & _ & _ & H7)
      end;
      rewrite H1, H2, H4; editor_simpl;
      (split; [apply forSelected_Forall2 |]);
      (split; [reflexivity |]); (split; [reflexivity |]); exact H7.
Qed.

Section Sorting.

Variable key : FlowNode -> R.

Lemma insertByKey_perm (a : nat * FlowNode) (l : list (nat * FlowNode)) :
  Permutation (insertByKey key a l) (a :: l).
Proof.
  induction l as [| b l IH]; cbn [insertByKey]; [reflexivity |].
  destruct (Rleb (key (snd a)) (key (snd b))); [reflexivity |].
  rewrite IH. apply perm_swap.
Qed.

Lemma sortByKey_perm (l : list (nat * FlowNode)) :
  Permutation (sortByKey key l) l.
Proof.
  induction l as [| a l IH]; [reflexivity |].
  unfold sortByKey in *. cbn [fold_right].
  rewrite insertByKey_perm. constructor. exact IH.
Qed.

Lemma insertByKey_sorted (a : nat * FlowNode) (l : list (nat * FlowNode)) :
  StronglySorted (keyLe key) l -> StronglySorted (keyLe key) (insertByKey key a l).
Proof.
  induction 1 as [| b l Hl IH Hb]; cbn [insertByKey].
  - constructor; constructor.
  - destruct (Rleb (key (snd a)) (key (snd b))) eqn:Hab.
    + apply Rleb_spec in Hab. constructor; [constructor; assumption |].
      constructor; [exact Hab |].
      eapply List.Forall_impl; [| exact Hb]. unfold keyLe. intros c Hc. lra.
    + assert (Hba : keyLe key b a).
      { unfold keyLe, Rleb in *. destruct (Rle_dec _ _); [discriminate | lra]. }
      constructor; [exact IH |].
      apply (Permutation_Forall (Permutation_sym (insertByKey_perm a l))).
      constructor; assumption.
Qed.

Lemma sortByKey_sorted (l : list (nat * FlowNode)) :
  StronglySorted (keyLe key) (sortByKey key l).
Proof.
  induction l as [| a l IH]; [constructor |].
  unfold sortByKey in *. cbn [fold_right]. apply insertByKey_sorted. exact IH.
Qed.

(** The sort is stable: inserting an element that comes before all the
    others in the diagram puts it before those of equal key. *)
Lemma insertByKey_stable (a : nat * FlowNode) (l : list (nat * FlowNode)) :
  StronglySorted (keyThenIndex key) l ->
  List.Forall (fun b => (fst a < fst b)%nat) l ->
  StronglySorted (keyThenIndex key) (insertByKey key a l).
Proof.
  induction 1 as [| b l Hl IH Hb]; intros Hidx; cbn [insertByKey].
  - constructor; constructor.
  - inversion Hidx as [| ? ? Hab' Hrest]; subst.
    destruct (Rleb (key (snd a)) (key (snd b))) eqn:Hab.
    + apply Rleb_spec in Hab. constructor; [constructor; assumption |].
      constructor.
      * unfold keyThenIndex. destruct (Rle_lt_or_eq_dec _ _ Hab) as [Hlt | Heq];
          [left; exact Hlt | right; split; assumption].
      * rewrite List.Forall_forall in Hb, Hrest |- *. intros c Hc.
        specialize (Hb c Hc). specialize (Hrest c Hc).
        unfold keyThenIndex in *.
        destruct Hb as [Hb | [Hb _]];
          (destruct (Rle_lt_or_eq_dec _ _ Hab) as [Hlt | Heq];
           [left; lra | first [left; lra | right; split; [lra | exact Hrest]]]).
    + assert (Hba : (key (snd b) < key (snd a))%R).
      { unfold Rleb in Hab. destruct (Rle_dec _ _); [discriminate | lra]. }
      constructor; [apply IH; exact Hrest |].
      apply (Permutation_Forall (Permutation_sym (insertByKey_perm a l))).
      constructor; [left; exact Hba | exact Hb].
Qed.

Lemma sortByKey_stable (l : list (nat * FlowNode)) :
  StronglySorted (fun a b => (fst a < fst b)%nat) l ->
  StronglySorted (keyThenIndex key) (sortByKey key l).
Proof.
  induction 1 as [| a l Hl IH Ha]; [constructor |].
  unfold sortByKey in *. cbn [fold_right]. apply insertByKey_stable; [exact IH |].
  apply (Permutation_Forall (Permutation_sym (sortByKey_perm l))). exact Ha.
Qed.

(** In a sorted list the elements come in the order of their keys. *)
Lemma sorted_lookup (l : list (nat * FlowNode)) (i j : nat)
  (a b : nat * FlowNode) :
  StronglySorted (keyLe key) l -> (i <= j)%nat ->
  l !! i = Some a -> l !! j = Some b -> keyLe key a b.
Proof.
  intros Hs. revert i j. induction Hs as [| c l Hl IH Hc]; intros i j Hij Hi Hj;
    [discriminate |].
  destruct i as [| i]; destruct j as [| j]; try lia; cbn in Hi, Hj.
  - injection Hi as <-. injection Hj as <-. unfold keyLe. lra.
  - injection Hi as <-. rewrite List.Forall_forall in Hc. apply Hc.
    apply (proj1 (list_elem_of_In l b)). apply (list_elem_of_lookup_2 _ _ _ Hj).
  - apply (IH i j); [lia | assumption | assumption].
Qed.

End Sorting.

Section Items.

Lemma combine_seq_In {A : Type} (l : list A) (a k : nat) (x : A) :
  In (k, x) (combine (seq a (length l)) l)
  <-> (a <= k)%nat /\ l !! (k - a)%nat = Some x.
Proof.
  revert a. induction l as [| y l IH]; intros a; cbn [length seq combine In].
  - split; [contradiction | intros [_ H]; discriminate].
  - rewrite IH. split.
    + intros [[= <- <-] | [Hk Hx]].
      * split; [lia |]. rewrite Nat.sub_diag. reflexivity.
      * split; [lia |]. replace (k - a)%nat with (S (k - S a)) by lia. exact Hx.
    + intros [Hk Hx]. destruct (Nat.eq_dec a k) as [<- | Hne].
      * rewrite Nat.sub_diag in Hx. cbn in Hx. injection Hx as <-. left. reflexivity.
      * right. split; [lia |].
        replace (k - a)%nat with (S (k - S a)) in Hx by lia. exact Hx.
Qed.

Lemma combine_seq_fst {A : Type} (l : list A) (a : nat) :
  map fst (combine (seq a (length l)) l) = seq a (length l).
Proof.
  revert a. induction l as [| y l IH]; intros a; [reflexivity |].
  cbn [length seq combine map fst]. rewrite IH. reflexivity.
Qed.

Lemma NoDup_map_filter {A B : Type} (g : A -> B) (p : A -> bool) (l : list A) :
  List.NoDup (map g l) -> List.NoDup (map g (List.filter p l)).
Proof.
  induction l as [| a l IH]; cbn [map List.filter]; intros H; [constructor |].
  apply List.NoDup_cons_iff in H. destruct H as [Ha Hl].
  destruct (p a); [| apply IH; exact Hl].
  cbn [map]. constructor; [| apply IH; exact Hl].
  intros Hin. apply Ha. apply in_map_iff in Hin. destruct Hin as [b [E Hb]].
  apply List.filter_In in Hb. rewrite <- E. apply in_map. apply Hb.
Qed.

(** The selected items come in diagram order. *)
Lemma selectedItems_ordered (ids : list string) (ns : list FlowNode) :
  StronglySorted (fun a b : nat * FlowNode => (fst a < fst b)%nat)
    (selectedItems ids ns).
Proof.
  unfold selectedItems. generalize 0%nat.
  induction ns as [| n ns IH]; intros a; [constructor |].
  cbn [length seq combine List.filter snd].
  assert (Hlater : List.Forall (fun b : nat * FlowNode => (a < fst b)%nat)
                     (List.filter (fun item => includes ids (n_id (snd item)))
                        (combine (seq (S a) (length ns)) ns))).
  { apply List.Forall_forall. intros [k x] Hin. apply List.filter_In in Hin.
    destruct Hin as [Hin _]. apply combine_seq_In in Hin. cbn [fst]. lia. }
  destruct (includes ids (n_id n)); [| apply IH].
  constructor; [apply IH | exact Hlater].
Qed.

(** The selected items are the selected nodes, each with its position. *)
Lemma selectedItems_spec (ids : list string) (ns : list FlowNode) :
  List.NoDup (map fst (selectedItems ids ns))
  /\ (forall (k : nat) (n : FlowNode),
        In (k, n) (selectedItems ids ns)
        <-> ns !! k = Some n /\ includes ids (n_id n) = true)
  /\ map snd (selectedItems ids ns)
     = List.filter (fun n => includes ids (n_id n)) ns.
Proof.
  unfold selectedItems. split; [| split].
  - apply NoDup_map_filter. rewrite combine_seq_fst. apply List.seq_NoDup.
  - intros k n. rewrite List.filter_In, combine_seq_In, Nat.sub_0_r.
    cbn [snd]. split; [tauto | intros [H1 H2]; split; [split; [lia | exact H1] | exact H2]].
  - generalize 0%nat. induction ns as [| n ns IH]; intros a; [reflexivity |].
    cbn [length seq combine List.filter snd].
    destruct (includes ids (n_id n)); cbn [map snd]; rewrite IH; reflexivity.
Qed.

End Items.

Section Distributing.

Variable key : FlowNode -> R.
Variable set : R -> FlowNode -> FlowNode.

Lemma distribute_spec (ids : list string) (ns : list FlowNode) :
  (2 <= length (sortByKey key (selectedItems ids ns)))%nat ->
  exists (first final : nat * FlowNode) (gap : R),
    sortByKey key (selectedItems ids ns) !! 0%nat = Some first
    /\ sortByKey key (selectedItems ids ns)
       !! (length (sortByKey key (selectedItems ids ns)) - 1)%nat = Some final
    /\ (0 <= gap)%R
    /\ (key (snd first)
        + gap * INR (length (sortByKey key (selectedItems ids ns)) - 1)
        = key (snd final))%R
    /\ length (distribute key set ids ns) = length ns
    /\ (forall (i k : nat) (n : FlowNode),
          sortByKey key (selectedItems ids ns) !! i = Some (k, n) ->
          distribute key set ids ns !! k
          = Some (set (key (snd first) + gap * INR i)%R n))
    /\ (forall (k : nat) (n : FlowNode),
          ns !! k = Some n -> includes ids (n_id n) = false ->
          distribute key set ids ns !! k = Some n).
Proof.
  intros Hlen. unfold distribute.
  destruct (selectedItems_spec ids ns) as (Hnd & Hmem & _).
  pose proof (sortByKey_perm key (selectedItems ids ns)) as Hperm.
  pose proof (sortByKey_sorted key (selectedItems ids ns)) as Hsorted.
  remember (sortByKey key (selectedItems ids ns)) as arr eqn:Earr.
  clear Earr.
  assert (Hnd' : List.NoDup (map fst arr)).
  { apply (Permutation_NoDup (Permutation_sym (Permutation_map fst Hperm))).
    exact Hnd. }
  assert (Hmem' : forall k n, In (k, n) arr
                              <-> ns !! k = Some n /\ includes ids (n_id n) = true).
  { intros k n. rewrite <- Hmem. split; apply Permutation_in;
      [exact Hperm | apply Permutation_sym; exact Hperm]. }
  clear Hperm Hnd Hmem.
  destruct arr as [| first rest]; [cbn [length] in Hlen; lia |].
  destruct (rev (first :: rest)) as [| final r] eqn:Hrev.
  { exfalso. apply (f_equal (@rev _)) in Hrev. rewrite rev_involutive in Hrev.
    discriminate. }
  remember (first :: rest) as arr eqn:Harr.
  assert (Hfinal : arr !! (length arr - 1)%nat = Some final).
  { apply (f_equal (@rev _)) in Hrev. rewrite rev_involutive in Hrev.
    rewrite Hrev. cbn [rev]. rewrite length_app, length_rev. cbn [length].
    replace (length r + 1 - 1)%nat with (length (rev r) + 0)%nat
      by (rewrite length_rev; lia).
    rewrite lookup_app_r by lia.
    replace (length (rev r) + 0 - length (rev r))%nat with 0%nat by lia.
    reflexivity. }
  assert (Hfirst : arr !! 0%nat = Some first) by (rewrite Harr; reflexivity).
  assert (Hle : (key (snd first) <= key (snd final))%R).
  { apply (sorted_lookup key arr 0 (length arr - 1) first final Hsorted);
      [lia | exact Hfirst | exact Hfinal]. }
  assert (Hn1 : (1 <= INR (length arr) - 1)%R).
  { replace 1%R with (INR 2 - 1)%R at 1 by (cbn; lra).
    apply Rplus_le_compat_r. apply le_INR. exact Hlen. }
  set (gap := ((key (snd final) - key (snd first)) / (INR (length arr) - 1))%R).
  exists first, final, gap.
  split; [exact Hfirst |]. split; [exact Hfinal |].
  split.
  { unfold gap. apply Rmult_le_pos; [lra |].
    left. apply Rinv_0_lt_compat. lra. }
  split.
  { rewrite minus_INR by lia. unfold gap. cbn [INR]. field. lra. }
  destruct (fold_alter_items
              (fun (ns0 : list FlowNode) (p : nat * (nat * FlowNode)) =>
                 let '(i, item) := p in
                 alter (set (key (snd first) + gap * INR i)%R) (fst item) ns0)
              (fun i => set (key (snd first) + gap * INR i)%R) fst
              (fun _ _ _ => eq_refl) arr 0%nat ns Hnd') as (F1 & F2 & F3).
  split; [exact F1 |]. split.
  - intros i k n Hi.
    assert (Hin : In (k, n) arr).
    { apply (proj1 (list_elem_of_In arr (k, n))).
      apply (list_elem_of_lookup_2 _ _ _ Hi). }
    apply Hmem' in Hin. destruct Hin as [Hk _].
    specialize (F2 i (k, n) Hi). cbn [fst] in F2.
    etransitivity; [exact F2 |]. rewrite Hk. reflexivity.
  - intros k n Hk Hex. etransitivity; [apply F3 | exact Hk].
    intros Hin. apply in_map_iff in Hin. destruct Hin as [[k' n'] [E Hin]].
    cbn [fst] in E. subst k'. apply Hmem' in Hin. destruct Hin as [Hk' Hi'].
    rewrite Hk in Hk'. injection Hk' as <-. rewrite Hex in Hi'. discriminate.
Qed.

End Distributing.

(** Distributing.  With two nodes selected the distribution modes do
    nothing.  With three or more, the selected nodes are taken in the order
    of their x (for the horizontal mode; of their y for the vertical one),
    nodes of equal x in diagram order (the sort is stable), and set to
    equally spaced values of that coordinate: the i-th of them goes to the
    first one's coordinate plus i times a gap that is not negative, which
    leaves the first and the last where they were and keeps the order.  The
    other coordinate, the id, the text and the size stay; nodes without a
    selected id and all edges stay; and one undo restores the positions if
    the history was in step. *)
Theorem alignSelected_distributes (s : Editor) (mode : AlignMode)
  (key : FlowNode -> R) (set : R -> FlowNode -> FlowNode) :
  (mode = AlignHSpace /\ key = n_x /\ set = setX)
  \/ (mode = AlignVSpace /\ key = n_y /\ set = setY) ->
  (2 <= length (selectedNodeIds s))%nat ->
  (length (List.filter (fun n => includes (selectedNodeIds s) (n_id n)) (nodes s))
   = 2%nat -> alignSelected mode s = s)
  /\ ((3 <= length (List.filter (fun n => includes (selectedNodeIds s) (n_id n))
                      (nodes s)))%nat ->
      exists (arr : list (nat * FlowNode)) (first final : nat * FlowNode) (gap : R),
        Permutation arr (selectedItems (selectedNodeIds s) (nodes s))
        /\ StronglySorted (keyLe key) arr
        /\ StronglySorted (keyThenIndex key) arr
        /\ arr !! 0%nat = Some first
        /\ arr !! (length arr - 1)%nat = Some final
        /\ (0 <= gap)%R
        /\ (key (snd first) + gap * INR (length arr - 1) = key (snd final))%R
        /\ length (nodes (alignSelected mode s)) = length (nodes s)
        /\ (forall (i k : nat) (n : FlowNode),
              arr !! i = Some (k, n) ->
              nodes s !! k = Some n
              /\ includes (selectedNodeIds s) (n_id n) = true
              /\ nodes (alignSelected mode s) !! k
                 = Some (set (key (snd first) + gap * INR i)%R n))
        /\ (forall (k : nat) (n : FlowNode),
              nodes s !! k = Some n ->
              includes (selectedNodeIds s) (n_id n) = false ->
              nodes (alignSelected mode s) !! k = Some n)
        /\ edges (alignSelected mode s) = edges s
        /\ (historySynced s ->
            exists u : Editor,
              undo (alignSelected mode s) = Some u
              /\ nodes u = nodes s /\ edges u = edges s)).
Proof.
  intros Hmode Hids.
  assert (Hl : (length (selectedNodeIds s) <? 2)%nat = false)
    by (apply Nat.ltb_ge; exact Hids).
  destruct (selectedItems_spec (selectedNodeIds s) (nodes s)) as (_ & Hmem & Hsnd).
  assert (Hlen : length (sortByKey key (selectedItems (selectedNodeIds s) (nodes s)))
                 = length (List.filter
                             (fun n => includes (selectedNodeIds s) (n_id n))
                             (nodes s))).
  { rewrite (Permutation_length (sortByKey_perm key _)), <- Hsnd, length_map.
    reflexivity. }
  assert (Hrun : forall first second rest,
             List.filter (fun n => includes (selectedNodeIds s) (n_id n)) (nodes s)
             = first :: second :: rest ->
             alignSelected mode s
             = (if (length (first :: second :: rest) <? 3)%nat then s
                else s |> set_nodes (distribute key set (selectedNodeIds s) (nodes s))
                       |> commitHistory)).
  { intros first second rest Hf. unfold alignSelected. rewrite Hl, Hf.
    destruct Hmode as [(-> & -> & ->) | (-> & -> & ->)]; reflexivity. }
  destruct (List.filter (fun n => includes (selectedNodeIds s) (n_id n)) (nodes s))
    as [| first [| second rest]] eqn:Hf.
  - split; [discriminate | cbn [length]; lia].
  - split; [discriminate | cbn [length]; lia].
  - rewrite (Hrun first second rest eq_refl). split.
    + intros H2. rewrite H2. reflexivity.
    + intros H3.
      destruct (length (first :: second :: rest) <? 3)%nat eqn:Hfew;
        [apply Nat.ltb_lt in Hfew; lia |].
      destruct (distribute_spec key set (selectedNodeIds s) (nodes s))
        as (a & z & gap & D1 & D2 & D3 & D4 & D5 & D6 & D7); [lia |].
      exists (sortByKey key (selectedItems (selectedNodeIds s) (nodes s))), a, z, gap.
      set (e := s |> set_nodes (distribute key set (selectedNodeIds s) (nodes s))).
      destruct (committed_edit s e eq_refl eq_refl eq_refl eq_refl)
        as (H1 & H2 & _ & _ & _ & _ & H7).
      rewrite H1, H2. unfold e. editor_simpl.
      split; [apply sortByKey_perm |]. split; [apply sortByKey_sorted |].
      split; [apply sortByKey_stable, selectedItems_ordered |].
      split; [exact D1 |]. split; [exact D2 |]. split; [exact D3 |].
      split; [exact D4 |]. split; [exact D5 |]. split.
      { intros i k n Hi.
        assert (Hin : In (k, n) (selectedItems (selectedNodeIds s) (nodes s))).
        { apply (Permutation_in _ (sortByKey_perm key _)).
          apply (proj1 (list_elem_of_In _ (k, n))).
          apply (list_elem_of_lookup_2 _ _ _ Hi). }
        apply Hmem in Hin. destruct Hin as [Hk Hi'].
        split; [exact Hk |]. split; [exact Hi' |]. apply (D6 i k n Hi). }
      split; [exact D7 |]. split; [reflexivity | exact H7].
Qed.

(** Three selected nodes, distributed horizontally. *)
Lemma alignSelected_distributes_witness :
  exists (arr : list (nat * FlowNode)) (first final : nat * FlowNode) (gap : R),
    Permutation arr
      (selectedItems (selectedNodeIds (selectAll pasteExample))
         (nodes (selectAll pasteExample)))
    /\ StronglySorted (keyThenIndex n_x) arr
    /\ (0 <= gap)%R
    /\ (n_x (snd first) + gap * INR (length arr - 1) = n_x (snd final))%R
    /\ length (nodes (alignSelected AlignHSpace (selectAll pasteExample)))
       = length (nodes (selectAll pasteExample)).
Proof.
  destruct (proj2 (alignSelected_distributes (selectAll pasteExample)
                     AlignHSpace n_x setX
                     (or_introl (conj eq_refl (conj eq_refl eq_refl)))
                     ltac:(cbn; lia))
              ltac:(cbn; lia))
    as (arr & first & final & gap & H1 & _ & Hst & _ & _ & H2 & H3 & H4 & _).
  exists arr, first, final, gap. repeat split; assumption.
Defined.


(** * The layering pass on acyclic diagrams *)

Section Counting.

Variable es : list FlowEdge.

Lemma processedInto_le (done : list string) (v : string) :
  (processedInto es done v <= inDegree es v)%nat.
Proof.
  unfold processedInto, inDegree.
  induction es as [| e l IH]; cbn [List.filter]; [lia |].
  destruct (String.eqb (e_targetId e) v); cbn [andb]; [| exact IH].
  destruct (includes done (e_sourceId e)); cbn [length]; lia.
Qed.

Lemma processedInto_nil (v : string) : processedInto es [] v = 0%nat.
Proof.
  unfold processedInto. apply length_zero_iff_nil. apply filter_none.
  intros e _. apply andb_false_r.
Qed.

(** The edges from [q] to [v], counted. *)
Lemma count_successors (q v : string) :
  count_occ string_dec (successors es q) v
  = length (List.filter
              (fun e => String.eqb (e_sourceId e) q && String.eqb (e_targetId e) v)
              es).
Proof.
  unfold successors.
  induction es as [| e l IH]; cbn [List.filter map]; [reflexivity |].
  destruct (String.eqb (e_sourceId e) q) eqn:Hs; cbn [andb map count_occ].
  - destruct (string_dec (e_targetId e) v) as [Ht | Ht].
    + rewrite (proj2 (String.eqb_eq _ _) Ht). cbn [length]. rewrite IH. reflexivity.
    + rewrite (proj2 (String.eqb_neq _ _) Ht). exact IH.
  - exact IH.
Qed.

Lemma includes_snoc (done : list string) (q x : string) :
  includes (done ++ [q]) x = includes done x || String.eqb x q.
Proof.
  unfold includes. rewrite existsb_app. cbn [existsb]. rewrite orb_false_r.
  reflexivity.
Qed.

Lemma processedInto_snoc (done : list string) (q v : string) :
  ~ In q done ->
  processedInto es (done ++ [q]) v
  = (processedInto es done v + count_occ string_dec (successors es q) v)%nat.
Proof.
  intros Hq. rewrite count_successors. unfold processedInto.
  induction es as [| e l IH]; cbn [List.filter]; [reflexivity |].
  rewrite includes_snoc.
  destruct (String.eqb (e_targetId e) v); cbn [andb];
    [| rewrite andb_false_r; exact IH].
  rewrite andb_true_r.
  destruct (includes done (e_sourceId e)) eqn:Hd; cbn [orb].
  - destruct (String.eqb (e_sourceId e) q) eqn:Hs.
    + apply String.eqb_eq in Hs. apply includes_In in Hd. rewrite Hs in Hd.
      contradiction.
    + cbn [length]. rewrite IH. lia.
  - destruct (String.eqb (e_sourceId e) q); cbn [length]; rewrite IH; lia.
Qed.

Lemma processedInto_all (done : list string) (v : string) :
  (forall e : FlowEdge, In e es -> e_targetId e = v -> In (e_sourceId e) done) ->
  processedInto es done v = inDegree es v.
Proof.
  unfold processedInto, inDegree.
  induction es as [| e l IH]; intros H; cbn [List.filter]; [reflexivity |].
  destruct (String.eqb (e_targetId e) v) eqn:Ht; cbn [andb].
  - apply String.eqb_eq in Ht.
    rewrite (proj2 (includes_In done (e_sourceId e)))
      by (apply H; [left; reflexivity | exact Ht]).
    cbn [length]. rewrite IH; [reflexivity |].
    intros e' He'. apply H. right. exact He'.
  - apply IH. intros e' He'. apply H. right. exact He'.
Qed.

Lemma successors_In (q c : string) :
  In c (successors es q)
  <-> exists e : FlowEdge, In e es /\ e_sourceId e = q /\ e_targetId e = c.
Proof.
  unfold successors. rewrite in_map_iff. split.
  - intros (e & Ht & Hin). apply List.filter_In in Hin. destruct Hin as [Hin Hs].
    apply String.eqb_eq in Hs. exists e. auto.
  - intros (e & Hin & Hs & Ht). exists e. split; [exact Ht |].
    apply List.filter_In. split; [exact Hin |]. apply String.eqb_eq. exact Hs.
Qed.

End Counting.

Section Relaxing.

Variable d : Z.

Lemma relaxChild_eq (depth inc : gmap string Z) (pushed : list string)
  (c : string) :
  relaxChild d (depth, inc, pushed) c
  = (<[c := Z.max (getOr0 depth c) (d + 1)]> depth,
     <[c := (getOr0 inc c - 1)%Z]> inc,
     if (getOr0 inc c - 1 <=? 0)%Z then pushed ++ [c] else pushed).
Proof. unfold relaxChild. rewrite getOr0_insert_eq. reflexivity. Qed.

(** What relaxing the children [cs] of a node of depth [d] does to the
    three tables, when no in-degree is exceeded: each in-degree goes down
    by the number of times the id is a child; each child ends at depth
    [d + 1] or deeper; and the ids pushed are the children whose in-degree
    is used up, each once. *)
Lemma relax_counts (cs : list string) :
  forall (depth inc : gmap string Z) (pushed : list string)
         (depth' inc' : gmap string Z) (pushed' : list string),
    fold_left (relaxChild d) cs (depth, inc, pushed) = (depth', inc', pushed') ->
    (forall v : string, (Z.of_nat (count_occ string_dec cs v) <= getOr0 inc v)%Z) ->
    (forall v : string,
       getOr0 inc' v = (getOr0 inc v - Z.of_nat (count_occ string_dec cs v))%Z)
    /\ (forall v : string,
          getOr0 depth' v
          = if includes cs v then Z.max (getOr0 depth v) (d + 1)
            else getOr0 depth v)
    /\ exists P : list string,
         pushed' = pushed ++ P
         /\ List.NoDup P
         /\ forall c : string,
              In c P
              <-> In c cs
                  /\ getOr0 inc c = Z.of_nat (count_occ string_dec cs c).
Proof.
  induction cs as [| c cs IH];
    intros depth inc pushed depth' inc' pushed' Hrun Hbudget.
  - cbn [fold_left] in Hrun. injection Hrun as <- <- <-.
    split; [intros v; cbn [count_occ]; lia |].
    split; [intros v; reflexivity |].
    exists []. split; [rewrite app_nil_r; reflexivity |].
    split; [constructor |]. intros c. split; [intros [] | intros [[] _]].
  - cbn [fold_left] in Hrun. rewrite relaxChild_eq in Hrun.
    assert (Hc : (1 <= getOr0 inc c)%Z).
    { specialize (Hbudget c). cbn [count_occ] in Hbudget.
      destruct (string_dec c c) as [_ | Hne]; [lia | contradiction]. }
    assert (Hbudget' : forall v : string,
               (Z.of_nat (count_occ string_dec cs v)
                <= getOr0 (<[c := (getOr0 inc c - 1)%Z]> inc) v)%Z).
    { intros v. specialize (Hbudget v). cbn [count_occ] in Hbudget.
      destruct (string_dec c v) as [<- | Hne].
      - rewrite getOr0_insert_eq. lia.
      - rewrite getOr0_insert_ne by exact Hne. exact Hbudget. }
    destruct (IH _ _ _ _ _ _ Hrun Hbudget') as (Hinc & Hdepth & P & HP & Hnd & Hin).
    split; [| split].
    + intros v. rewrite Hinc. cbn [count_occ].
      destruct (string_dec c v) as [<- | Hne].
      * rewrite getOr0_insert_eq. lia.
      * rewrite getOr0_insert_ne by exact Hne. lia.
    + intros v. rewrite Hdepth. unfold includes. cbn [existsb].
      fold (includes cs v).
      destruct (String.eqb v c) eqn:Hvc; cbn [orb].
      * apply String.eqb_eq in Hvc. subst v. rewrite getOr0_insert_eq.
        destruct (includes cs c); lia.
      * apply String.eqb_neq in Hvc.
        rewrite getOr0_insert_ne by (intros E; apply Hvc; symmetry; exact E).
        reflexivity.
    + destruct (getOr0 inc c - 1 <=? 0)%Z eqn:Hpush.
      * apply Z.leb_le in Hpush.
        assert (Hone : getOr0 inc c = 1%Z) by lia.
        assert (Hnone : count_occ string_dec cs c = 0%nat).
        { specialize (Hbudget c). cbn [count_occ] in Hbudget.
          destruct (string_dec c c) as [_ | Hne]; [lia | contradiction]. }
        exists (c :: P). split; [rewrite HP, <- app_assoc; reflexivity |].
        split.
        { constructor; [| exact Hnd]. intros HcP. apply Hin in HcP.
          destruct HcP as [HcP _].
          apply (count_occ_In string_dec) in HcP. lia. }
        intros x. cbn [In count_occ]. rewrite Hin.
        destruct (string_dec c x) as [<- | Hne].
        -- rewrite getOr0_insert_eq. split; [intros _ | intros _; left; reflexivity].
           split; [left; reflexivity | lia].
        -- rewrite getOr0_insert_ne by exact Hne. split.
           ++ intros [Heq | [Hx Hv]]; [contradiction |].
              split; [right; exact Hx | exact Hv].
           ++ intros [[Heq | Hx] Hv]; [contradiction |].
              right. split; assumption.
      * apply Z.leb_gt in Hpush.
        exists P. split; [exact HP |]. split; [exact Hnd |].
        intros x. cbn [In count_occ]. rewrite Hin.
        destruct (string_dec c x) as [<- | Hne].
        -- rewrite getOr0_insert_eq. split.
           ++ intros [Hx Hv]. split; [left; reflexivity | lia].
           ++ intros [_ Hv]. split; [| lia].
              apply (count_occ_In string_dec). lia.
        -- rewrite getOr0_insert_ne by exact Hne. split.
           ++ intros [Hx Hv]. split; [right; exact Hx | exact Hv].
           ++ intros [[Heq | Hx] Hv]; [contradiction |]. split; assumption.
Qed.

End Relaxing.

Section Loop.

Variable es : list FlowEdge.
Variable ids : list string.
Variable adj : gmap string (list string).

Hypothesis adj_successors :
  forall q : string, In q ids -> adj !! q = Some (successors es q).
Hypothesis targets_resolve :
  forall e : FlowEdge, In e es -> In (e_targetId e) ids.

Lemma regroup (done rest pushed : list string) (q : string) :
  (done ++ [q]) ++ rest ++ pushed = (done ++ q :: rest) ++ pushed.
Proof. rewrite <- !app_assoc. reflexivity. Qed.

(** One iteration of the loop keeps the invariant. *)
Lemma layering_iteration (done rest : list string) (q : string)
  (depth inc depth2 inc2 : gmap string Z) (pushed : list string) :
  layeringInv es ids done (q :: rest) depth inc ->
  fold_left (relaxChild (getOr0 depth q)) (successors es q) (depth, inc, [])
  = (depth2, inc2, pushed) ->
  layeringInv es ids (done ++ [q]) (rest ++ pushed) depth2 inc2.
Proof.
  intros [Hnd Hids Hinc Hfull Hdepth] Hrun.
  assert (Hq : ~ In q done).
  { intros Hin. apply NoDup_remove_2 in Hnd. apply Hnd.
    apply in_or_app. left. exact Hin. }
  assert (Hsum : forall v : string,
             (processedInto es done v
              + count_occ string_dec (successors es q) v <= inDegree es v)%nat).
  { intros v. rewrite <- (processedInto_snoc es done q v Hq).
    apply processedInto_le. }
  assert (Hbudget : forall v : string,
             (Z.of_nat (count_occ string_dec (successors es q) v)
              <= getOr0 inc v)%Z).
  { intros v. rewrite Hinc. specialize (Hsum v). lia. }
  destruct (relax_counts (getOr0 depth q) _ _ _ _ _ _ _ Hrun Hbudget)
    as (Hinc2 & Hdepth2 & P & HP & HndP & HinP).
  cbn [app] in HP. subst pushed.
  assert (Hchild : forall c : string,
             In c (successors es q) -> In c ids /\ ~ In c (done ++ q :: rest)).
  { intros c Hc.
    assert (Hcid : In c ids).
    { apply successors_In in Hc. destruct Hc as (e & He & _ & <-).
      exact (targets_resolve e He). }
    split; [exact Hcid |]. intros Hin.
    apply (Hfull c Hcid) in Hin.
    apply (count_occ_In string_dec) in Hc. specialize (Hsum c). lia. }
  assert (Hkeep : forall v : string,
             In v (done ++ q :: rest) -> getOr0 depth2 v = getOr0 depth v).
  { intros v Hv. rewrite Hdepth2.
    destruct (includes (successors es q) v) eqn:Hi; [| reflexivity].
    apply includes_In in Hi. destruct (Hchild v Hi) as [_ Hn]. contradiction. }
  assert (Hgrow : forall v : string, (getOr0 depth v <= getOr0 depth2 v)%Z).
  { intros v. rewrite Hdepth2. destruct (includes (successors es q) v); lia. }
  constructor.
  - rewrite regroup. apply List.NoDup_app; [exact Hnd | exact HndP |].
    intros x Hx HxP. apply HinP in HxP. destruct HxP as [Hxc _].
    destruct (Hchild x Hxc) as [_ Hn]. contradiction.
  - intros v Hv. rewrite regroup in Hv. apply in_app_or in Hv.
    destruct Hv as [Hv | Hv]; [exact (Hids v Hv) |].
    apply HinP in Hv. exact (proj1 (Hchild v (proj1 Hv))).
  - intros v. rewrite Hinc2, Hinc, (processedInto_snoc es done q v Hq). lia.
  - intros v Hv. rewrite regroup, (processedInto_snoc es done q v Hq). split.
    + intros Hin. apply in_app_or in Hin. destruct Hin as [Hin | Hin].
      * apply (Hfull v Hv) in Hin. specialize (Hsum v). lia.
      * apply HinP in Hin. destruct Hin as [_ Hcount].
        rewrite Hinc in Hcount. specialize (Hsum v). lia.
    + intros Hall.
      destruct (Nat.eq_dec (count_occ string_dec (successors es q) v) 0)
        as [Hz | Hnz].
      * apply in_or_app. left. apply (Hfull v Hv). lia.
      * apply in_or_app. right. apply HinP. split.
        -- apply (count_occ_In string_dec). lia.
        -- rewrite Hinc. lia.
  - intros e He Hsrc. apply in_app_or in Hsrc.
    destruct Hsrc as [Hsrc | [Hsrc | []]].
    + rewrite (Hkeep (e_sourceId e))
        by (apply in_or_app; left; exact Hsrc).
      specialize (Hdepth e He Hsrc). specialize (Hgrow (e_targetId e)). lia.
    + rewrite <- Hsrc.
      rewrite (Hkeep q) by (apply in_or_app; right; left; reflexivity).
      rewrite (Hdepth2 (e_targetId e)).
      rewrite (proj2 (includes_In (successors es q) (e_targetId e))).
      * lia.
      * apply successors_In. exists e. split; [exact He |].
        split; [symmetry; exact Hsrc | reflexivity].
Qed.

(** The loop keeps the invariant to its end. *)
Lemma layering_invariant :
  forall (fuel : nat) (done queue : list string)
         (depth inc depth' : gmap string Z),
    layeringInv es ids done queue depth inc ->
    layering fuel adj queue depth inc = Some depth' ->
    exists (done' : list string) (inc' : gmap string Z),
      layeringInv es ids done' [] depth' inc'.
Proof.
  induction fuel as [| fuel IH]; intros done queue depth inc depth' Hinv Hrun;
    destruct queue as [| q rest]; cbn [layering] in Hrun; try discriminate;
    try (injection Hrun as <-; exists done, inc; exact Hinv).
  assert (Hq : In q ids).
  { apply (inv_ids _ _ _ _ _ _ Hinv). apply in_or_app. right. left. reflexivity. }
  rewrite (adj_successors q Hq) in Hrun.
  change (default [] (Some (successors es q))) with (successors es q) in Hrun.
  destruct (fold_left (relaxChild (getOr0 depth q)) (successors es q)
              (depth, inc, [])) as [[depth2 inc2] pushed] eqn:Hfold.
  exact (IH _ _ _ _ _ (layering_iteration _ _ _ _ _ _ _ _ Hinv Hfold) Hrun).
Qed.

(** The loop ends within as many iterations as there are ids left. *)
Lemma layering_returns :
  forall (fuel : nat) (done queue : list string) (depth inc : gmap string Z),
    List.NoDup ids ->
    layeringInv es ids done queue depth inc ->
    (length ids - length done <= fuel)%nat ->
    exists depth' : gmap string Z,
      layering fuel adj queue depth inc = Some depth'.
Proof.
  intros fuel done queue depth inc Hnodup. revert done queue depth inc.
  induction fuel as [| fuel IH]; intros done queue depth inc Hinv Hfuel;
    destruct queue as [| q rest]; cbn [layering]; try (eexists; reflexivity).
  - exfalso.
    assert (Hlen : (length (done ++ q :: rest) <= length ids)%nat).
    { apply NoDup_incl_length; [exact (inv_nodup _ _ _ _ _ _ Hinv) |].
      intros v Hv. exact (inv_ids _ _ _ _ _ _ Hinv v Hv). }
    rewrite length_app in Hlen. cbn [length] in Hlen. lia.
  - assert (Hq : In q ids).
    { apply (inv_ids _ _ _ _ _ _ Hinv). apply in_or_app. right. left. reflexivity. }
    rewrite (adj_successors q Hq).
    change (default [] (Some (successors es q))) with (successors es q).
    destruct (fold_left (relaxChild (getOr0 depth q)) (successors es q)
                (depth, inc, [])) as [[depth2 inc2] pushed] eqn:Hfold.
    apply (IH (done ++ [q])).
    + exact (layering_iteration _ _ _ _ _ _ _ _ Hinv Hfold).
    + rewrite length_app. cbn [length]. lia.
Qed.

(** At the end, on an acyclic diagram whose edges start at nodes, every id
    has been handled. *)
Lemma layering_all_done (done : list string) (depth inc : gmap string Z) :
  layeringInv es ids done [] depth inc ->
  acyclic es ->
  (forall e : FlowEdge, In e es -> In (e_sourceId e) ids) ->
  forall v : string, In v ids -> In v done.
Proof.
  intros Hinv [rank Hrank] Hsources.
  assert (Hall : forall (n : nat) (v : string),
             (rank v < n)%nat -> In v ids -> In v done).
  { induction n as [| n IH]; intros v Hn Hv; [lia |].
    assert (Hfull : processedInto es done v = inDegree es v).
    { apply processedInto_all. intros e He Ht.
      apply (IH (e_sourceId e)); [| exact (Hsources e He)].
      specialize (Hrank e He). rewrite Ht in Hrank. lia. }
    apply (inv_full _ _ _ _ _ _ Hinv v Hv) in Hfull.
    rewrite app_nil_r in Hfull. exact Hfull. }
  intros v Hv. exact (Hall (S (rank v)) v (Nat.lt_succ_diag_r _) Hv).
Qed.

End Loop.

Section Start.

Variable ns : list FlowNode.
Variable es : list FlowEdge.

Hypothesis ids_distinct : List.NoDup (map n_id ns).
Hypothesis edges_resolve : edgesResolve ns es.
Hypothesis edges_acyclic : acyclic es.

Lemma lowest_rank (rank : string -> nat) (l : list string) :
  l <> [] ->
  exists v : string, In v l /\ forall w : string, In w l -> (rank v <= rank w)%nat.
Proof.
  induction l as [| a l IH]; intros Hne; [contradiction |].
  destruct l as [| b l].
  - exists a. split; [left; reflexivity |]. intros w [<- | []]. lia.
  - destruct (IH ltac:(discriminate)) as (v & Hv & Hmin).
    destruct (le_lt_dec (rank a) (rank v)) as [Hle | Hlt].
    + exists a. split; [left; reflexivity |].
      intros w [<- | Hw]; [lia |]. specialize (Hmin w Hw). lia.
    + exists v. split; [right; exact Hv |].
      intros w [<- | Hw]; [lia | exact (Hmin w Hw)].
Qed.

(** A diagram with nodes and without cycles has a node no edge ends at. *)
Lemma acyclic_root :
  ns <> [] -> exists n : FlowNode, In n ns /\ inDegree es (n_id n) = 0%nat.
Proof.
  intros Hne. destruct edges_acyclic as [rank Hrank].
  destruct (lowest_rank rank (map n_id ns)) as (v & Hv & Hmin).
  { destruct ns; [contradiction | discriminate]. }
  apply in_map_iff in Hv. destruct Hv as (n & <- & Hn).
  exists n. split; [exact Hn |].
  unfold inDegree. rewrite filter_none; [reflexivity |].
  intros e He. apply String.eqb_neq. intros Ht.
  specialize (Hrank e He). rewrite Ht in Hrank.
  specialize (Hmin (e_sourceId e) (proj1 (edges_resolve e He))). lia.
Qed.

(** The queue [autoLayout] starts with on such a diagram, and the tables
    it starts with, satisfy the invariant of the loop. *)
Lemma layering_start (depth : gmap string Z) :
  ns <> [] ->
  let inc := fst (layoutTables ns es) in
  let roots := map n_id (List.filter (fun n => (getOr0 inc (n_id n) =? 0)%Z) ns) in
  roots <> []
  /\ layeringInv es (map n_id ns) [] roots depth inc.
Proof.
  intros Hne inc roots.
  assert (Hinc : forall v : string, getOr0 inc v = Z.of_nat (inDegree es v)).
  { intros v. exact (proj1 (layoutTables_spec ns es v)). }
  assert (Hroot : forall v : string,
             In v (map n_id ns) -> (In v roots <-> inDegree es v = 0%nat)).
  { intros v Hv. unfold roots. rewrite in_map_iff. split.
    - intros (n & <- & Hn). apply List.filter_In in Hn. destruct Hn as [_ Hz].
      apply Z.eqb_eq in Hz. rewrite Hinc in Hz. lia.
    - intros Hz. apply in_map_iff in Hv. destruct Hv as (n & <- & Hn).
      exists n. split; [reflexivity |]. apply List.filter_In.
      split; [exact Hn |]. apply Z.eqb_eq. rewrite Hinc. lia. }
  split.
  - destruct (acyclic_root Hne) as (n & Hn & Hz).
    assert (Hin : In (n_id n) roots).
    { apply Hroot; [apply in_map; exact Hn | exact Hz]. }
    intros E. rewrite E in Hin. destruct Hin.
  - constructor; cbn [app].
    + unfold roots. apply NoDup_map_filter. exact ids_distinct.
    + intros v Hv. unfold roots in Hv. apply in_map_iff in Hv.
      destruct Hv as (n & <- & Hn). apply List.filter_In in Hn.
      apply in_map. exact (proj1 Hn).
    + intros v. rewrite Hinc, processedInto_nil. lia.
    + intros v Hv. rewrite processedInto_nil, (Hroot v Hv). split; intros H; lia.
    + intros e _ [].
Qed.

End Start.


(** * The positions auto-layout gives *)

Section LayerTable.

Variable depthOf : FlowNode -> Z.

Lemma layerItems_groupPush (groups : list (Z * list nat)) (d : Z) (i : nat)
  (layer : Z) :
  layerItems (groupPush groups d i) layer
  = (if (d =? layer)%Z then layerItems groups layer ++ [i]
     else layerItems groups layer).
Proof.
  unfold layerItems. induction groups as [| [k items] groups IH].
  - cbn [groupPush List.find fst snd]. destruct (d =? layer)%Z; reflexivity.
  - cbn [groupPush]. destruct (k =? d)%Z eqn:Hkd.
    + apply Z.eqb_eq in Hkd. subst k. cbn [List.find fst snd].
      destruct (d =? layer)%Z; reflexivity.
    + cbn [List.find fst snd]. destruct (k =? layer)%Z eqn:Hkl.
      * apply Z.eqb_eq in Hkl. subst k. rewrite Z.eqb_sym, Hkd. reflexivity.
      * exact IH.
Qed.

(** The layer table after the nodes are sorted into it. *)
Lemma layerItems_fold (items : list (nat * FlowNode))
  (groups : list (Z * list nat)) (layer : Z) :
  layerItems
    (fold_left (fun groups '(i, n) => groupPush groups (depthOf n) i) items groups)
    layer
  = layerItems groups layer ++ layerIndices depthOf layer items.
Proof.
  revert groups. induction items as [| [i n] items IH]; intros groups.
  - cbn [fold_left]. unfold layerIndices. cbn [List.filter map].
    rewrite app_nil_r. reflexivity.
  - cbn [fold_left]. rewrite IH, layerItems_groupPush.
    unfold layerIndices. cbn [List.filter snd].
    destruct (depthOf n =? layer)%Z; cbn [map fst];
      [rewrite <- app_assoc |]; reflexivity.
Qed.

Lemma groupPush_keys (groups : list (Z * list nat)) (d : Z) (i : nat) (layer : Z) :
  In layer (map fst (groupPush groups d i))
  <-> layer = d \/ In layer (map fst groups).
Proof.
  induction groups as [| [k items] groups IH].
  - cbn. intuition congruence.
  - cbn [groupPush]. destruct (k =? d)%Z eqn:Hkd.
    + apply Z.eqb_eq in Hkd. subst k. cbn [map fst In]. intuition congruence.
    + cbn [map fst In]. rewrite IH. tauto.
Qed.

Lemma fold_keys (items : list (nat * FlowNode)) (groups : list (Z * list nat))
  (p : nat * FlowNode) :
  In p items ->
  In (depthOf (snd p))
    (map fst (fold_left (fun groups '(i, n) => groupPush groups (depthOf n) i)
                items groups)).
Proof.
  assert (Hkeep : forall items groups layer,
             In layer (map fst groups) ->
             In layer
               (map fst (fold_left
                           (fun groups '(i, n) => groupPush groups (depthOf n) i)
                           items groups))).
  { clear. intros items. induction items as [| [i n] items IH]; intros groups layer H;
      [exact H |].
    cbn [fold_left]. apply IH. apply groupPush_keys. right. exact H. }
  revert groups. induction items as [| [i n] items IH]; intros groups Hin;
    [contradiction |].
  cbn [fold_left]. destruct Hin as [<- | Hin].
  - apply Hkeep. apply groupPush_keys. left. reflexivity.
  - apply IH. exact Hin.
Qed.

(** The members of a layer, numbered from [a]: their positions are
    distinct, and the one in place [i] of the layer is a node of that depth
    with [i] nodes of that depth before it. *)
Lemma layerIndices_spec (ns : list FlowNode) (a : nat) (layer : Z) :
  List.NoDup (layerIndices depthOf layer (combine (seq a (length ns)) ns))
  /\ (forall k : nat,
        In k (layerIndices depthOf layer (combine (seq a (length ns)) ns)) ->
        (a <= k)%nat)
  /\ (forall (i k : nat),
        layerIndices depthOf layer (combine (seq a (length ns)) ns) !! i = Some k ->
        exists n : FlowNode,
          ns !! (k - a)%nat = Some n /\ depthOf n = layer
          /\ i = length (List.filter (fun m => (depthOf m =? layer)%Z)
                          (firstn (k - a) ns)))
  /\ (forall (k : nat) (n : FlowNode),
        ns !! k = Some n -> depthOf n = layer ->
        In (a + k)%nat (layerIndices depthOf layer (combine (seq a (length ns)) ns))).
Proof.
  revert a. induction ns as [| m ns IH]; intros a.
  - unfold layerIndices. cbn. repeat split; try constructor; try contradiction;
      intros; discriminate.
  - destruct (IH (S a)) as (N & B & P & M). clear IH.
    unfold layerIndices in *. cbn [length seq combine List.filter snd].
    destruct (depthOf m =? layer)%Z eqn:Hm; cbn [map fst].
    + split; [| split; [| split]].
      * constructor; [| exact N]. intros Hin. specialize (B a Hin). lia.
      * intros k [<- | Hk]; [lia | specialize (B k Hk); lia].
      * intros [| i] k Hi; cbn in Hi.
        -- injection Hi as <-. exists m. rewrite Nat.sub_diag.
           split; [reflexivity |]. split; [apply Z.eqb_eq; exact Hm | reflexivity].
        -- destruct (P i k Hi) as (n & Hn & Hd & Hr).
           assert (Hk : (S a <= k)%nat).
           { apply B. apply (proj1 (list_elem_of_In _ k)).
             apply (list_elem_of_lookup_2 _ _ _ Hi). }
           exists n. replace (k - a)%nat with (S (k - S a)) by lia.
           cbn [firstn List.filter]. rewrite Hm. cbn [length].
           split; [exact Hn |]. split; [exact Hd | lia].
      * intros [| k] n Hk Hd; cbn in Hk.
        -- left. lia.
        -- right. replace (a + S k)%nat with (S a + k)%nat by lia.
           apply (M k n Hk Hd).
    + split; [exact N |]. split; [| split].
      * intros k Hk. specialize (B k Hk). lia.
      * intros i k Hi. destruct (P i k Hi) as (n & Hn & Hd & Hr).
        assert (Hk : (S a <= k)%nat).
        { apply B. apply (proj1 (list_elem_of_In _ k)).
          apply (list_elem_of_lookup_2 _ _ _ Hi). }
        exists n. replace (k - a)%nat with (S (k - S a)) by lia.
        cbn [firstn List.filter]. rewrite Hm.
        split; [exact Hn |]. split; [exact Hd | exact Hr].
      * intros [| k] n Hk Hd; cbn in Hk.
        -- injection Hk as <-. apply Z.eqb_neq in Hm. contradiction.
        -- replace (a + S k)%nat with (S a + k)%nat by lia.
           apply (M k n Hk Hd).
Qed.

End LayerTable.

Section PlacingLayers.

Variable direction : Direction.
Variable depthOf : FlowNode -> Z.
Variable ns : list FlowNode.
Variable groups : list (Z * list nat).
Hypothesis groups_items :
  forall layer : Z,
    layerItems groups layer
    = layerIndices depthOf layer (combine (seq 0 (length ns)) ns).

Lemma placeLayer_items (cur : list FlowNode) (layer : Z) :
  placeLayer direction groups cur layer
  = fold_left (placeItem direction layer)
      (combine (seq 0 (length (layerItems groups layer))) (layerItems groups layer))
      cur.
Proof.
  unfold placeLayer, layerItems.
  destruct (List.find _ groups) as [[k items] |]; reflexivity.
Qed.

Lemma placeAt_again (l l' : Z) (i i' : nat) (n : FlowNode) :
  placeAt direction l i (placeAt direction l' i' n) = placeAt direction l i n.
Proof. destruct direction; reflexivity. Qed.

(** One layer placed: its members sit at their places, the other nodes are
    not touched. *)
Lemma placeLayer_spec (cur : list FlowNode) (layer : Z) :
  length (placeLayer direction groups cur layer) = length cur
  /\ (forall (k : nat) (n : FlowNode),
        ns !! k = Some n -> depthOf n = layer ->
        placeLayer direction groups cur layer !! k
        = placeAt direction layer (layerRank depthOf ns k n) <$> cur !! k)
  /\ (forall (k : nat) (n : FlowNode),
        ns !! k = Some n -> depthOf n <> layer ->
        placeLayer direction groups cur layer !! k = cur !! k).
Proof.
  rewrite placeLayer_items, groups_items.
  destruct (layerIndices_spec depthOf ns 0 layer) as (N & _ & P & M).
  set (items := layerIndices depthOf layer (combine (seq 0 (length ns)) ns)) in *.
  destruct (fold_alter_items (placeItem direction layer)
              (fun i => placeAt direction layer i) (fun idx : nat => idx)
              (fun _ _ _ => eq_refl) items 0%nat cur) as (F1 & F2 & F3).
  { rewrite map_id. exact N. }
  split; [exact F1 |]. split.
  - intros k n Hk Hd.
    pose proof (M k n Hk Hd) as Hin. cbn [Nat.add] in Hin.
    apply (proj2 (list_elem_of_In _ k)) in Hin.
    apply list_elem_of_lookup_1 in Hin. destruct Hin as [i Hi].
    destruct (P i k Hi) as (n' & Hn' & Hd' & Hr).
    rewrite Nat.sub_0_r in Hn', Hr. rewrite Hk in Hn'. injection Hn' as <-.
    rewrite (F2 i k Hi). cbn [Nat.add]. unfold layerRank. rewrite Hd, <- Hr.
    reflexivity.
  - intros k n Hk Hd. apply F3. rewrite map_id. intros Hin.
    apply (proj2 (list_elem_of_In _ k)) in Hin.
    apply list_elem_of_lookup_1 in Hin. destruct Hin as [i Hi].
    destruct (P i k Hi) as (n' & Hn' & Hd' & _).
    rewrite Nat.sub_0_r in Hn'. rewrite Hk in Hn'. injection Hn' as <-.
    contradiction.
Qed.

(** All the layers of a list placed, from a state in which the layers of
    [done] are. *)
Lemma placeLayers_spec (layers done : list Z) (cur : list FlowNode) :
  length cur = length ns ->
  (forall (k : nat) (n : FlowNode),
     ns !! k = Some n ->
     (In (depthOf n) done ->
      cur !! k = Some (placeAt direction (depthOf n) (layerRank depthOf ns k n) n))
     /\ (~ In (depthOf n) done -> cur !! k = Some n)) ->
  length (fold_left (placeLayer direction groups) layers cur) = length ns
  /\ (forall (k : nat) (n : FlowNode),
        ns !! k = Some n ->
        (In (depthOf n) (layers ++ done) ->
         fold_left (placeLayer direction groups) layers cur !! k
         = Some (placeAt direction (depthOf n) (layerRank depthOf ns k n) n))
        /\ (~ In (depthOf n) (layers ++ done) ->
            fold_left (placeLayer direction groups) layers cur !! k = Some n)).
Proof.
  revert done cur. induction layers as [| layer layers IH]; intros done cur Hlen Hinv.
  - cbn [fold_left app]. split; [exact Hlen | exact Hinv].
  - cbn [fold_left].
    destruct (placeLayer_spec cur layer) as (L & S1 & S2).
    destruct (IH (layer :: done) (placeLayer direction groups cur layer)) as [R1 R2].
    + rewrite L. exact Hlen.
    + intros k n Hk. destruct (Hinv k n Hk) as [I1 I2].
      destruct (Z.eq_dec (depthOf n) layer) as [Hd | Hd].
      * split; [| intros H; exfalso; apply H; left; symmetry; exact Hd].
        intros _. rewrite (S1 k n Hk Hd).
        destruct (in_dec Z.eq_dec (depthOf n) done) as [Hin | Hin].
        -- rewrite (I1 Hin). cbn [fmap option_fmap option_map].
           rewrite placeAt_again, Hd. reflexivity.
        -- rewrite (I2 Hin). cbn [fmap option_fmap option_map].
           rewrite Hd. reflexivity.
      * rewrite (S2 k n Hk Hd). split.
        -- intros [E | Hin]; [exfalso; apply Hd; symmetry; exact E | exact (I1 Hin)].
        -- intros Hnot. apply I2. intros Hin. apply Hnot. right. exact Hin.
    + split; [exact R1 |]. intros k n Hk. destruct (R2 k n Hk) as [Q1 Q2].
      split.
      * intros Hin. apply Q1. apply in_app_iff. cbn [app In] in Hin.
        rewrite in_app_iff in Hin. cbn [In]. tauto.
      * intros Hnot. apply Q2. intros Hin. apply Hnot.
        apply in_app_iff in Hin. cbn [app In]. rewrite in_app_iff.
        cbn [In] in Hin. tauto.
Qed.

End PlacingLayers.

Section Ranks.

Lemma filter_firstn_lt {A : Type} (p : A -> bool) (l : list A) (j k : nat)
  (x : A) :
  (j < k)%nat -> l !! j = Some x -> p x = true ->
  (length (List.filter p (firstn j l)) < length (List.filter p (firstn k l)))%nat.
Proof.
  revert j k. induction l as [| y l IH]; intros j k Hjk Hj Hp; [discriminate |].
  destruct k as [| k]; [lia |].
  destruct j as [| j].
  - cbn in Hj. injection Hj as ->. cbn [firstn List.filter]. rewrite Hp.
    cbn [length]. lia.
  - cbn in Hj. cbn [firstn List.filter].
    assert (H := IH j k ltac:(lia) Hj Hp).
    destruct (p y); cbn [length]; lia.
Qed.

Lemma layerRank_lt (depthOf : FlowNode -> Z) (ns : list FlowNode) (j k : nat)
  (nj nk : FlowNode) :
  (j < k)%nat -> ns !! j = Some nj -> depthOf nj = depthOf nk ->
  (layerRank depthOf ns j nj < layerRank depthOf ns k nk)%nat.
Proof.
  intros Hjk Hj Hd. unfold layerRank. rewrite Hd.
  apply (filter_firstn_lt _ ns j k nj Hjk Hj). rewrite Hd. apply Z.eqb_refl.
Qed.

Local Open Scope R_scope.

(** Two places of the layout grid coincide only if they are the same
    place. *)
Lemma placeAt_apart (direction : Direction) (l1 l2 : Z) (i1 i2 : nat)
  (n1 n2 : FlowNode) :
  l1 <> l2 \/ i1 <> i2 ->
  n_x (placeAt direction l1 i1 n1) <> n_x (placeAt direction l2 i2 n2)
  \/ n_y (placeAt direction l1 i1 n1) <> n_y (placeAt direction l2 i2 n2).
Proof.
  intros H.
  assert (Hl : l1 <> l2 -> IZR l1 * 170 <> IZR l2 * 170).
  { intros Hne E. apply Hne. apply eq_IZR. lra. }
  assert (Hi : i1 <> i2 -> INR i1 * 140 <> INR i2 * 140).
  { intros Hne E. apply Hne. apply INR_eq. lra. }
  destruct direction; cbn [placeAt setPosition n_x n_y];
    destruct H as [H | H]; [right | left | left | right];
    first [specialize (Hl H) | specialize (Hi H)]; lra.
Qed.

End Ranks.

Section DepthTable.

Lemma getOr0_nonneg (depth : gmap string Z) (id : string) :
  nonnegTable depth -> (0 <= getOr0 depth id)%Z.
Proof.
  intros H. unfold getOr0. destruct (depth !! id) as [v |] eqn:E; cbn [default].
  - exact (H id v E).
  - lia.
Qed.

Lemma relaxChild_fold_keep (d : Z) (children : list string) (id : string) :
  ~ In id children ->
  forall (depth inc : gmap string Z) (pushed : list string),
    fst (fst (fold_left (relaxChild d) children (depth, inc, pushed))) !! id
    = depth !! id.
Proof.
  induction children as [| c cs IH]; intros Hnot depth inc pushed; [reflexivity |].
  cbn [fold_left]. unfold relaxChild at 2.
  rewrite IH by (intros H; apply Hnot; right; exact H).
  apply lookup_insert_ne. intros ->. apply Hnot. left. reflexivity.
Qed.

Lemma relaxChild_fold_nonneg (d : Z) (children : list string) :
  (0 <= d)%Z ->
  forall (depth inc : gmap string Z) (pushed : list string),
    nonnegTable depth ->
    nonnegTable (fst (fst (fold_left (relaxChild d) children (depth, inc, pushed)))).
Proof.
  intros Hd. induction children as [| c cs IH]; intros depth inc pushed Hnn;
    [exact Hnn |].
  cbn [fold_left]. unfold relaxChild at 2. apply IH.
  intros id v Hv. destruct (decide (c = id)) as [-> | Hne].
  - rewrite lookup_insert_eq in Hv. injection Hv as <-. lia.
  - rewrite lookup_insert_ne in Hv by exact Hne. exact (Hnn id v Hv).
Qed.

Lemma layering_nonneg (adj : gmap string (list string)) :
  forall (fuel : nat) (queue : list string) (depth inc depth' : gmap string Z),
    layering fuel adj queue depth inc = Some depth' ->
    nonnegTable depth -> nonnegTable depth'.
Proof.
  induction fuel as [| fuel IH]; intros queue depth inc depth' Hrun Hnn;
    destruct queue as [| id rest]; cbn [layering] in Hrun;
    try (injection Hrun as <-; exact Hnn); try discriminate.
  pose proof (relaxChild_fold_nonneg (getOr0 depth id) (default [] (adj !! id))
                (getOr0_nonneg depth id Hnn) depth inc [] Hnn) as Hstep.
  destruct (fold_left (relaxChild (getOr0 depth id)) (default [] (adj !! id))
              (depth, inc, [])) as [[depth2 inc2] pushed].
  cbn [fst] in Hstep. exact (IH _ _ _ _ Hrun Hstep).
Qed.

Lemma layering_keep (adj : gmap string (list string)) (id : string) :
  (forall (key : string) (out : list string),
     adj !! key = Some out -> ~ In id out) ->
  forall (fuel : nat) (queue : list string) (depth inc depth' : gmap string Z),
    layering fuel adj queue depth inc = Some depth' ->
    depth' !! id = depth !! id.
Proof.
  intros Hadj.
  induction fuel as [| fuel IH]; intros queue depth inc depth' Hrun;
    destruct queue as [| q rest]; cbn [layering] in Hrun;
    try (injection Hrun as <-; reflexivity); try discriminate.
  assert (Hnot : ~ In id (default [] (adj !! q))).
  { destruct (adj !! q) as [out |] eqn:E; cbn [default];
      [exact (Hadj q out E) | intros []]. }
  pose proof (relaxChild_fold_keep (getOr0 depth q) (default [] (adj !! q)) id
                Hnot depth inc []) as Hstep.
  destruct (fold_left (relaxChild (getOr0 depth q)) (default [] (adj !! q))
              (depth, inc, [])) as [[depth2 inc2] pushed].
  cbn [fst] in Hstep. rewrite (IH _ _ _ _ Hrun). exact Hstep.
Qed.

(** Relaxing the children of a node of depth [d] lowers no depth and
    leaves every child at [d + 1] or deeper. *)
Lemma relaxChild_fold_lower (d : Z) (children : list string) :
  forall (depth inc : gmap string Z) (pushed : list string),
    (forall id : string,
       (getOr0 depth id
        <= getOr0 (fst (fst (fold_left (relaxChild d) children
                               (depth, inc, pushed)))) id)%Z)
    /\ (forall c : string,
          In c children ->
          (d + 1 <= getOr0 (fst (fst (fold_left (relaxChild d) children
                                        (depth, inc, pushed)))) c)%Z).
Proof.
  induction children as [| c cs IH]; intros depth inc pushed.
  - split; [intros id; cbn [fold_left fst]; lia | intros c []].
  - cbn [fold_left]. unfold relaxChild at 2 4.
    set (depth2 := <[c := Z.max (getOr0 depth c) (d + 1)]> depth).
    assert (Hstep : forall id : string, (getOr0 depth id <= getOr0 depth2 id)%Z).
    { intros id. unfold depth2. destruct (decide (c = id)) as [-> | Hne].
      - rewrite getOr0_insert_eq. lia.
      - rewrite getOr0_insert_ne by exact Hne. lia. }
    destruct (IH depth2
                (<[c := (getOr0 inc c - 1)%Z]> inc)
                (if (getOr0 (<[c := (getOr0 inc c - 1)%Z]> inc) c <=? 0)%Z
                 then pushed ++ [c] else pushed)) as [IH1 IH2].
    split.
    + intros id. specialize (IH1 id). specialize (Hstep id). lia.
    + intros c' [<- | Hin]; [| exact (IH2 c' Hin)].
      specialize (IH1 c). unfold depth2 in IH1 at 1.
      rewrite getOr0_insert_eq in IH1. lia.
Qed.

(** When the queue is exhausted no depth has been lowered, and every
    child of a queued id lies deeper than that id did when the loop
    started. *)
Lemma layering_lower (adj : gmap string (list string)) :
  forall (fuel : nat) (queue : list string) (depth inc depth' : gmap string Z),
    layering fuel adj queue depth inc = Some depth' ->
    (forall id : string, (getOr0 depth id <= getOr0 depth' id)%Z)
    /\ (forall (q c : string) (out : list string),
          In q queue -> adj !! q = Some out -> In c out ->
          (getOr0 depth q + 1 <= getOr0 depth' c)%Z).
Proof.
  induction fuel as [| fuel IH]; intros queue depth inc depth' Hrun;
    destruct queue as [| id rest]; cbn [layering] in Hrun;
    try discriminate;
    try (injection Hrun as <-; split; [intros; lia | intros q c out []]).
  pose proof (relaxChild_fold_lower (getOr0 depth id) (default [] (adj !! id))
                depth inc []) as [Hmono Hchild].
  destruct (fold_left (relaxChild (getOr0 depth id)) (default [] (adj !! id))
              (depth, inc, [])) as [[depth2 inc2] pushed].
  cbn [fst] in Hmono, Hchild.
  destruct (IH _ _ _ _ Hrun) as [IH1 IH2]. split.
  - intros x. specialize (Hmono x). specialize (IH1 x). lia.
  - intros q c out [<- | Hq] Hout Hc.
    + rewrite Hout in Hchild. cbn [default] in Hchild.
      specialize (Hchild c Hc). specialize (IH1 c). lia.
    + specialize (IH2 q c out ltac:(apply in_or_app; left; exact Hq) Hout Hc).
      specialize (Hmono q). lia.
Qed.

(** Relaxing the children of [q], a node that heads an edge to each of
    them, keeps every id of positive depth hung below a predecessor. *)
Lemma relaxChild_fold_upper (es : list FlowEdge) (ids : list string)
  (q : string) (d : Z) (children : list string) :
  In q ids ->
  (forall c : string,
     In c children ->
     exists e : FlowEdge, In e es /\ e_sourceId e = q /\ e_targetId e = c) ->
  forall (depth inc : gmap string Z) (pushed : list string),
    (d <= getOr0 depth q)%Z ->
    hungBelow es ids depth ->
    hungBelow es ids
      (fst (fst (fold_left (relaxChild d) children (depth, inc, pushed)))).
Proof.
  intros Hq. induction children as [| c cs IH]; intros Hedges depth inc pushed Hd HJ;
    [exact HJ |].
  cbn [fold_left]. unfold relaxChild at 2.
  set (depth2 := <[c := Z.max (getOr0 depth c) (d + 1)]> depth).
  assert (Hmono : forall id : string, (getOr0 depth id <= getOr0 depth2 id)%Z).
  { intros id. unfold depth2. destruct (decide (c = id)) as [-> | Hne].
    - rewrite getOr0_insert_eq. lia.
    - rewrite getOr0_insert_ne by exact Hne. lia. }
  apply IH.
  - intros c' Hc'. apply Hedges. right. exact Hc'.
  - specialize (Hmono q). lia.
  - assert (Hc : getOr0 depth2 c = Z.max (getOr0 depth c) (d + 1))
      by (unfold depth2; apply getOr0_insert_eq).
    assert (Hq2 : (d <= getOr0 depth2 q)%Z) by (specialize (Hmono q); lia).
    intros v Hv. destruct (decide (c = v)) as [<- | Hne].
    + destruct (Z.max_spec (getOr0 depth c) (d + 1)) as [[Hlt Hmax] | [Hge Hmax]].
      * destruct (Hedges c (or_introl eq_refl)) as (e & He & Hs & Ht).
        exists e. split; [exact He |]. split; [exact Ht |].
        split; [rewrite Hs; exact Hq |]. rewrite Hs. lia.
      * assert (Hv' : (1 <= getOr0 depth c)%Z) by lia.
        destruct (HJ c Hv') as (e & He & Ht & Hs & Hle).
        exists e. split; [exact He |]. split; [exact Ht |].
        split; [exact Hs |]. specialize (Hmono (e_sourceId e)). lia.
    + assert (Hsame : getOr0 depth2 v = getOr0 depth v)
        by (unfold depth2; apply getOr0_insert_ne; exact Hne).
      rewrite Hsame in Hv.
      destruct (HJ v Hv) as (e & He & Ht & Hs & Hle).
      exists e. split; [exact He |]. split; [exact Ht |]. split; [exact Hs |].
      specialize (Hmono (e_sourceId e)). lia.
Qed.

Lemma layering_upper (es : list FlowEdge) (ids : list string)
  (adj : gmap string (list string)) :
  (forall (q : string) (out : list string),
     adj !! q = Some out ->
     In q ids
     /\ forall c : string,
          In c out ->
          exists e : FlowEdge, In e es /\ e_sourceId e = q /\ e_targetId e = c) ->
  forall (fuel : nat) (queue : list string) (depth inc depth' : gmap string Z),
    layering fuel adj queue depth inc = Some depth' ->
    hungBelow es ids depth -> hungBelow es ids depth'.
Proof.
  intros Hadj.
  induction fuel as [| fuel IH]; intros queue depth inc depth' Hrun HJ;
    destruct queue as [| q rest]; cbn [layering] in Hrun;
    try (injection Hrun as <-; exact HJ); try discriminate.
  assert (Hstep : hungBelow es ids
                    (fst (fst (fold_left (relaxChild (getOr0 depth q))
                                 (default [] (adj !! q)) (depth, inc, []))))).
  { destruct (adj !! q) as [out |] eqn:E; cbn [default]; [| exact HJ].
    destruct (Hadj q out E) as [Hq Hout].
    apply (relaxChild_fold_upper es ids q); [exact Hq | exact Hout | lia | exact HJ]. }
  destruct (fold_left (relaxChild (getOr0 depth q)) (default [] (adj !! q))
              (depth, inc, [])) as [[depth2 inc2] pushed].
  cbn [fst] in Hstep. exact (IH _ _ _ _ Hrun Hstep).
Qed.

(** The depth table the queue starts with: 0 for the queued ids. *)
Lemma initial_depths (queue : list string) (depth : gmap string Z) :
  (nonnegTable depth ->
   nonnegTable (fold_left (fun dp id => <[id := 0%Z]> dp) queue depth))
  /\ forall id : string,
       In id queue \/ depth !! id = Some 0%Z ->
       fold_left (fun dp id => <[id := 0%Z]> dp) queue depth !! id = Some 0%Z.
Proof.
  revert depth. induction queue as [| q queue IH]; intros depth.
  - split; [tauto |]. intros id [[] | H]. exact H.
  - cbn [fold_left]. destruct (IH (<[q := 0%Z]> depth)) as [IH1 IH2]. split.
    + intros Hnn. apply IH1. intros id v Hv.
      destruct (decide (q = id)) as [-> | Hne].
      * rewrite lookup_insert_eq in Hv. injection Hv as <-. lia.
      * rewrite lookup_insert_ne in Hv by exact Hne. exact (Hnn id v Hv).
    + intros id H. apply IH2. destruct (decide (q = id)) as [-> | Hne].
      * right. apply lookup_insert_eq.
      * rewrite lookup_insert_ne by exact Hne.
        destruct H as [[-> | H] | H]; [contradiction | left; exact H | right; exact H].
Qed.

Lemma initial_getOr0 (queue : list string) (depth : gmap string Z) :
  (forall v : string, getOr0 depth v = 0%Z) ->
  forall v : string,
    getOr0 (fold_left (fun dp id => <[id := 0%Z]> dp) queue depth) v = 0%Z.
Proof.
  revert depth. induction queue as [| q queue IH]; intros depth H v;
    [exact (H v) |].
  cbn [fold_left]. apply IH. intros w.
  destruct (decide (q = w)) as [-> | Hne].
  - apply getOr0_insert_eq.
  - rewrite getOr0_insert_ne by exact Hne. exact (H w).
Qed.

(** The pass that gives depth 0 to the nodes the queue never reached. *)
Lemma completed_depths (ns : list FlowNode) (depth : gmap string Z) :
  (nonnegTable depth ->
   nonnegTable (fold_left (fun dp n => match dp !! n_id n with
                                       | Some _ => dp
                                       | None => <[n_id n := 0%Z]> dp
                                       end) ns depth))
  /\ forall (id : string) (v : Z),
       depth !! id = Some v ->
       fold_left (fun dp n => match dp !! n_id n with
                              | Some _ => dp
                              | None => <[n_id n := 0%Z]> dp
                              end) ns depth !! id = Some v.
Proof.
  revert depth. induction ns as [| n ns IH]; intros depth; [split; tauto |].
  cbn [fold_left]. destruct (depth !! n_id n) as [w |] eqn:E; [apply IH |].
  destruct (IH (<[n_id n := 0%Z]> depth)) as [IH1 IH2]. split.
  - intros Hnn. apply IH1. intros id v Hv.
    destruct (decide (n_id n = id)) as [Heq | Hne].
    + rewrite Heq, lookup_insert_eq in Hv. injection Hv as <-. lia.
    + rewrite lookup_insert_ne in Hv by exact Hne. exact (Hnn id v Hv).
  - intros id v Hv. apply IH2. rewrite lookup_insert_ne; [exact Hv |].
    intros Heq. rewrite Heq, Hv in E. discriminate.
Qed.

Lemma completed_getOr0 (ns : list FlowNode) (depth : gmap string Z)
  (id : string) :
  getOr0 (fold_left (fun dp n => match dp !! n_id n with
                                 | Some _ => dp
                                 | None => <[n_id n := 0%Z]> dp
                                 end) ns depth) id
  = getOr0 depth id.
Proof.
  revert depth. induction ns as [| n ns IH]; intros depth; [reflexivity |].
  cbn [fold_left]. destruct (depth !! n_id n) as [w |] eqn:E; [apply IH |].
  rewrite IH. destruct (decide (n_id n = id)) as [Heq | Hne].
  - rewrite Heq, getOr0_insert_eq. unfold getOr0. rewrite <- Heq, E. reflexivity.
  - apply getOr0_insert_ne. exact Hne.
Qed.

End DepthTable.

(** Where auto-layout puts the nodes, in terms of the loop body. *)
Lemma autoLayout_placed (direction : Direction) (fuel : nat) (s s' : Editor) :
  autoLayout direction fuel s = Some s' ->
  nodes s <> [] ->
  exists depth : gmap string Z,
    nonnegTable depth
    /\ (forall n : FlowNode,
          In n (nodes s) ->
          (forall e : FlowEdge, In e (edges s) -> e_targetId e <> n_id n) ->
          getOr0 depth (n_id n) = 0%Z
          /\ forall e : FlowEdge,
               In e (edges s) -> e_sourceId e = n_id n ->
               (1 <= getOr0 depth (e_targetId e))%Z)
    /\ hungBelow (edges s) (map n_id (nodes s)) depth
    /\ (List.NoDup (map n_id (nodes s)) ->
        edgesResolve (nodes s) (edges s) ->
        acyclic (edges s) ->
        forall e : FlowEdge,
          In e (edges s) ->
          (getOr0 depth (e_sourceId e) + 1 <= getOr0 depth (e_targetId e))%Z)
    /\ length (nodes s') = length (nodes s)
    /\ (forall (k : nat) (n : FlowNode),
          nodes s !! k = Some n ->
          nodes s' !! k
          = Some (placeAt direction (getOr0 depth (n_id n))
                    (layerRank (fun m => getOr0 depth (n_id m)) (nodes s) k n) n))
    /\ (forall (j k : nat) (nj nk : FlowNode),
          j <> k -> nodes s' !! j = Some nj -> nodes s' !! k = Some nk ->
          n_x nj <> n_x nk \/ n_y nj <> n_y nk)
    /\ edges s' = map (setBend None None) (edges s)
    /\ selectedNodeIds s' = selectedNodeIds s
    /\ selectedEdgeId s' = selectedEdgeId s
    /\ (historySynced s ->
        exists u : Editor,
          undo s' = Some u /\ nodes u = nodes s /\ edges u = edges s).
Proof.
  intros Hrun Hne. unfold autoLayout in Hrun.
  destruct (nodes s) as [| first rest] eqn:Hn; [contradiction |].
  rewrite <- Hn in *. clear Hne.
  assert (Hne : nodes s <> []) by (rewrite Hn; discriminate).
  pose proof (fun id => layoutTables_spec (nodes s) (edges s) id) as Htab.
  pose proof (fun Hd Hr Ha dp =>
                layering_start (nodes s) (edges s) Hd Hr Ha dp Hne) as Hstart.
  cbv zeta in Hstart.
  destruct (layoutTables (nodes s) (edges s)) as [inc adj].
  cbn [fst snd] in Htab, Hstart.
  destruct (layering fuel adj _ _ inc) as [depth1 |] eqn:Hlay; [| discriminate].
  injection Hrun as <-.
  set (depth := fold_left
                  (fun dp n => match dp !! n_id n with
                               | Some _ => dp
                               | None => <[n_id n := 0%Z]> dp
                               end) (nodes s) depth1).
  set (depthOf := fun m : FlowNode => getOr0 depth (n_id m)).
  set (groups := layoutGroups (nodes s) depth).
  assert (Hitems : forall layer : Z,
             layerItems groups layer
             = layerIndices depthOf layer
                 (combine (seq 0 (length (nodes s))) (nodes s))).
  { intros layer. unfold groups, layoutGroups.
    exact (layerItems_fold depthOf _ [] layer). }
  assert (Hlayers : forall (k : nat) (n : FlowNode),
             nodes s !! k = Some n ->
             In (depthOf n) (merge_sort Z.le (map fst groups) ++ [])).
  { intros k n Hk. rewrite app_nil_r.
    apply (Permutation_in _ (Permutation_sym (merge_sort_Permutation _ _))).
    unfold groups, layoutGroups.
    apply (fold_keys depthOf _ [] (k, n)).
    apply combine_seq_In. rewrite Nat.sub_0_r. split; [lia | exact Hk]. }
  destruct (placeLayers_spec direction depthOf (nodes s) groups Hitems
              (merge_sort Z.le (map fst groups)) [] (nodes s) eq_refl)
    as [Plen Pat].
  { intros k n Hk. split; [contradiction | intros _; exact Hk]. }
  set (placed := fold_left (placeLayer direction groups)
                   (merge_sort Z.le (map fst groups)) (nodes s)) in *.
  set (e := s |> set_nodes placed
              |> set_edges (map (setBend None None) (edges s))).
  destruct (committed_edit s e eq_refl eq_refl eq_refl eq_refl)
    as (H1 & H2 & _ & H4 & H5 & _ & H7).
  assert (Hat : forall (k : nat) (n : FlowNode),
             nodes s !! k = Some n ->
             placed !! k
             = Some (placeAt direction (depthOf n)
                       (layerRank depthOf (nodes s) k n) n)).
  { intros k n Hk. apply (proj1 (Pat k n Hk)). exact (Hlayers k n Hk). }
  exists depth. rewrite H1, H2, H4, H5. unfold e. editor_simpl.
  split.
  { unfold depth. apply completed_depths.
    apply (layering_nonneg adj _ _ _ _ _ Hlay).
    apply initial_depths. intros id v Hv. rewrite lookup_empty in Hv.
    discriminate. }
  split.
  { intros n Hin Hroot.
    assert (Hdeg : getOr0 inc (n_id n) = 0%Z).
    { rewrite (proj1 (Htab (n_id n))). unfold inDegree.
      rewrite filter_none; [reflexivity |].
      intros edge He. apply String.eqb_neq. exact (Hroot edge He). }
    assert (Hroots : In (n_id n)
                       (map n_id (List.filter
                                    (fun m => (getOr0 inc (n_id m) =? 0)%Z)
                                    (nodes s)))).
    { apply in_map. apply List.filter_In. split; [exact Hin |].
      rewrite Hdeg. reflexivity. }
    assert (Hq : forall q0 : list string,
               In (n_id n)
                 (if (length (map n_id
                                (List.filter
                                   (fun m => (getOr0 inc (n_id m) =? 0)%Z)
                                   (nodes s))) =? 0)%nat
                  then q0
                  else map n_id (List.filter
                                   (fun m => (getOr0 inc (n_id m) =? 0)%Z)
                                   (nodes s)))).
    { intros q0.
      destruct (map n_id (List.filter (fun m => (getOr0 inc (n_id m) =? 0)%Z)
                            (nodes s))) as [| r rs]; [destruct Hroots |].
      exact Hroots. }
    assert (Hkeep : depth1 !! n_id n = Some 0%Z).
    { assert (Hadj : forall (key : string) (out : list string),
                 adj !! key = Some out -> ~ In (n_id n) out).
      { intros key out Hout Hc.
        rewrite (proj2 (Htab key)) in Hout.
        destruct (includes (map n_id (nodes s)) key); [| discriminate].
        injection Hout as <-. unfold successors in Hc.
        apply in_map_iff in Hc. destruct Hc as [edge [He Hin']].
        apply List.filter_In in Hin'. exact (Hroot edge (proj1 Hin') He). }
      rewrite (layering_keep adj (n_id n) Hadj _ _ _ _ _ Hlay).
      apply initial_depths. left. apply Hq. }
    split.
    - unfold getOr0, depth.
      rewrite (proj2 (completed_depths (nodes s) depth1) _ _ Hkeep). reflexivity.
    - intros edge He Hsrc. unfold depth. rewrite completed_getOr0.
      destruct (layering_lower adj _ _ _ _ _ Hlay) as [_ Hlow].
      assert (Hout : adj !! n_id n = Some (successors (edges s) (n_id n))).
      { rewrite (proj2 (Htab (n_id n))).
        rewrite (proj2 (includes_In (map n_id (nodes s)) (n_id n)));
          [reflexivity | apply in_map; exact Hin]. }
      specialize (Hlow (n_id n) (e_targetId edge) _ (Hq [n_id first]) Hout).
      assert (H0 : getOr0
                     (fold_left (fun dp id => <[id := 0%Z]> dp)
                        (if (length (map n_id
                                       (List.filter
                                          (fun m => (getOr0 inc (n_id m) =? 0)%Z)
                                          (nodes s))) =? 0)%nat
                         then [n_id first]
                         else map n_id
                                (List.filter
                                   (fun m => (getOr0 inc (n_id m) =? 0)%Z)
                                   (nodes s))) ∅) (n_id n) = 0%Z).
      { unfold getOr0.
        rewrite (proj2 (initial_depths _ ∅) (n_id n)
                   (or_introl (Hq [n_id first]))). reflexivity. }
      rewrite H0 in Hlow. apply Hlow.
      unfold successors. apply in_map. apply List.filter_In.
      split; [exact He |]. apply String.eqb_eq. exact Hsrc. }
  assert (Hadj : forall (q : string) (out : list string),
             adj !! q = Some out ->
             In q (map n_id (nodes s))
             /\ forall c : string,
                  In c out ->
                  exists edge : FlowEdge,
                    In edge (edges s) /\ e_sourceId edge = q
                    /\ e_targetId edge = c).
  { intros q out Hout. rewrite (proj2 (Htab q)) in Hout.
    destruct (includes (map n_id (nodes s)) q) eqn:Hi; [| discriminate].
    injection Hout as <-. split; [apply includes_In; exact Hi |].
    intros c Hc. apply successors_In. exact Hc. }
  split.
  { intros v Hv. unfold depth in Hv. rewrite completed_getOr0 in Hv.
    destruct (layering_upper (edges s) (map n_id (nodes s)) adj Hadj
                _ _ _ _ _ Hlay) with (v := v) as (edge & E1 & E2 & E3 & E4).
    - intros w Hw. rewrite initial_getOr0 in Hw; [lia |].
      intros x. unfold getOr0. rewrite lookup_empty. reflexivity.
    - exact Hv.
    - exists edge. split; [exact E1 |]. split; [exact E2 |].
      split; [exact E3 |]. unfold depth. rewrite !completed_getOr0. exact E4. }
  split.
  { intros Hd Hr Ha edge He.
    destruct (Hstart Hd Hr Ha
                (fold_left (fun dp id => <[id := 0%Z]> dp)
                   (map n_id (List.filter
                                (fun m => (getOr0 inc (n_id m) =? 0)%Z)
                                (nodes s))) ∅)) as [Hroots Hinv].
    assert (Hlay' : layering fuel adj
                      (map n_id (List.filter
                                   (fun m => (getOr0 inc (n_id m) =? 0)%Z)
                                   (nodes s)))
                      (fold_left (fun dp id => <[id := 0%Z]> dp)
                         (map n_id (List.filter
                                      (fun m => (getOr0 inc (n_id m) =? 0)%Z)
                                      (nodes s))) ∅) inc = Some depth1).
    { destruct (map n_id (List.filter (fun m => (getOr0 inc (n_id m) =? 0)%Z)
                            (nodes s))) as [| r rs]; [contradiction |].
      exact Hlay. }
    assert (Hsucc : forall q : string,
               In q (map n_id (nodes s)) ->
               adj !! q = Some (successors (edges s) q)).
    { intros q Hq. rewrite (proj2 (Htab q)).
      rewrite (proj2 (includes_In _ _) Hq). reflexivity. }
    destruct (layering_invariant (edges s) (map n_id (nodes s)) adj Hsucc
                (fun e0 He0 => proj2 (Hr e0 He0))
                _ _ _ _ _ _ Hinv Hlay') as (done' & inc' & Hfinal).
    pose proof (layering_all_done (edges s) (map n_id (nodes s)) done' depth1
                  inc' Hfinal Ha (fun e0 He0 => proj1 (Hr e0 He0))
                  (e_sourceId edge) (proj1 (Hr edge He))) as Hdone.
    unfold depth. rewrite !completed_getOr0.
    exact (inv_depth _ _ _ _ _ _ Hfinal edge He Hdone). }
  split; [exact Plen |]. split; [exact Hat |].
  split; [| split; [reflexivity | split; [reflexivity | split;
                                          [reflexivity | exact H7]]]].
  assert (Hlt : forall (j k : nat) (nj nk : FlowNode),
             (j < k)%nat -> placed !! j = Some nj -> placed !! k = Some nk ->
             n_x nj <> n_x nk \/ n_y nj <> n_y nk).
  { intros j k nj nk Hjk Hj Hk.
    assert (Hj' : is_Some (nodes s !! j)).
    { apply lookup_lt_is_Some. rewrite <- Plen.
      apply lookup_lt_is_Some. eexists; exact Hj. }
    assert (Hk' : is_Some (nodes s !! k)).
    { apply lookup_lt_is_Some. rewrite <- Plen.
      apply lookup_lt_is_Some. eexists; exact Hk. }
    destruct Hj' as [mj Hmj]. destruct Hk' as [mk Hmk].
    rewrite (Hat j mj Hmj) in Hj. rewrite (Hat k mk Hmk) in Hk.
    injection Hj as <-. injection Hk as <-.
    apply placeAt_apart.
    destruct (Z.eq_dec (depthOf mj) (depthOf mk)) as [Hd | Hd]; [| left; exact Hd].
    right. pose proof (layerRank_lt depthOf (nodes s) j k mj mk Hjk Hmj Hd). lia. }
  intros j k nj nk Hjk Hj Hk.
  destruct (Nat.lt_total j k) as [Hlt' | [E | Hgt]]; [| contradiction |].
  - exact (Hlt j k nj nk Hlt' Hj Hk).
  - destruct (Hlt k j nk nj Hgt Hk Hj) as [H | H]; [left | right];
      intros E; apply H; symmetry; exact E.
Qed.



(** On an acyclic diagram with distinct node ids whose edges join nodes,
    the loop of auto-layout ends within as many iterations as there are
    nodes. *)
Lemma autoLayout_returns (direction : Direction) (fuel : nat) (s : Editor) :
  List.NoDup (map n_id (nodes s)) ->
  edgesResolve (nodes s) (edges s) ->
  acyclic (edges s) ->
  (length (nodes s) <= fuel)%nat ->
  exists s' : Editor, autoLayout direction fuel s = Some s'.
Proof.
  intros Hd Hr Ha Hfuel. unfold autoLayout.
  destruct (nodes s) as [| first rest] eqn:Hn; [eexists; reflexivity |].
  rewrite <- Hn in *.
  assert (Hne : nodes s <> []) by (rewrite Hn; discriminate).
  pose proof (fun id => layoutTables_spec (nodes s) (edges s) id) as Htab.
  pose proof (fun dp => layering_start (nodes s) (edges s) Hd Hr Ha dp Hne)
    as Hstart.
  cbv zeta in Hstart.
  destruct (layoutTables (nodes s) (edges s)) as [inc adj].
  cbn [fst snd] in Htab, Hstart.
  destruct (Hstart (fold_left (fun dp id => <[id := 0%Z]> dp)
                      (map n_id (List.filter
                                   (fun m => (getOr0 inc (n_id m) =? 0)%Z)
                                   (nodes s))) ∅)) as [Hroots Hinv].
  assert (Hsucc : forall q : string,
             In q (map n_id (nodes s)) ->
             adj !! q = Some (successors (edges s) q)).
  { intros q Hq. rewrite (proj2 (Htab q)).
    rewrite (proj2 (includes_In _ _) Hq). reflexivity. }
  destruct (layering_returns (edges s) (map n_id (nodes s)) adj Hsucc
              (fun e0 He0 => proj2 (Hr e0 He0)) fuel _ _ _ _ Hd Hinv)
    as [depth' Hrun].
  { cbn [length]. rewrite length_map. lia. }
  destruct (map n_id (List.filter (fun m => (getOr0 inc (n_id m) =? 0)%Z)
                        (nodes s))) as [| r rs]; [contradiction |].
  cbn [length Nat.eqb]. rewrite Hrun. eexists. reflexivity.
Qed.

(** Where auto-layout puts the nodes.  When it returns on a diagram with
    nodes, there is a depth, a non-negative integer, for every node id: 0
    for a node no edge ends at, at least 1 for the target of an edge that
    starts at such a node, and an id of depth 1 or more is at most one layer
    below the source, a node, of one of its incoming edges; on an acyclic
    diagram with distinct node ids whose edges join nodes every edge goes
    to a deeper layer, so the depth of a node is one more than the greatest
    depth among the sources of its incoming edges.  Each node is kept at its
    position in the list with its id, kind, text and size, and is moved
    onto a grid: vertically laid out, x = 180 + 140 * rank and
    y = 120 + 170 * depth; horizontally, x = 180 + 170 * depth and
    y = 120 + 140 * rank; the rank counts the nodes of the same depth that
    come before it in the list.  No two nodes are put on the same point.
    Every edge loses its bend and keeps its other fields, the selection
    stays, and one undo restores the diagram if the history was in step.
    On an acyclic diagram with distinct node ids whose edges join nodes
    auto-layout does return, within as many iterations as there are
    nodes. *)
Theorem autoLayout_grid (direction : Direction) (fuel : nat) (s : Editor) :
  (forall s' : Editor,
     autoLayout direction fuel s = Some s' ->
     nodes s <> [] ->
     exists depth : string -> Z,
       (forall id : string, (0 <= depth id)%Z)
       /\ (forall n : FlowNode,
             In n (nodes s) ->
             (forall e : FlowEdge, In e (edges s) -> e_targetId e <> n_id n) ->
             depth (n_id n) = 0%Z
             /\ forall e : FlowEdge,
                  In e (edges s) -> e_sourceId e = n_id n ->
                  (1 <= depth (e_targetId e))%Z)
       /\ (forall v : string,
             (1 <= depth v)%Z ->
             exists e : FlowEdge,
               In e (edges s) /\ e_targetId e = v
               /\ In (e_sourceId e) (map n_id (nodes s))
               /\ (depth v <= depth (e_sourceId e) + 1)%Z)
       /\ (List.NoDup (map n_id (nodes s)) ->
           edgesResolve (nodes s) (edges s) ->
           acyclic (edges s) ->
           forall e : FlowEdge,
             In e (edges s) ->
             (depth (e_sourceId e) + 1 <= depth (e_targetId e))%Z)
       /\ length (nodes s') = length (nodes s)
       /\ (forall (k : nat) (n : FlowNode),
             nodes s !! k = Some n ->
             exists n' : FlowNode,
               nodes s' !! k = Some n'
               /\ n_id n' = n_id n /\ n_type n' = n_type n
               /\ n_text n' = n_text n
               /\ n_width n' = n_width n /\ n_height n' = n_height n
               /\ (direction = vertical ->
                   n_x n' = (180 + 140 * INR (layerRank
                                                (fun m => depth (n_id m))
                                                (nodes s) k n))%R
                   /\ n_y n' = (120 + 170 * IZR (depth (n_id n)))%R)
               /\ (direction = horizontal ->
                   n_x n' = (180 + 170 * IZR (depth (n_id n)))%R
                   /\ n_y n' = (120 + 140 * INR (layerRank
                                                   (fun m => depth (n_id m))
                                                   (nodes s) k n))%R))
       /\ (forall (j k : nat) (nj nk : FlowNode),
             j <> k -> nodes s' !! j = Some nj -> nodes s' !! k = Some nk ->
             n_x nj <> n_x nk \/ n_y nj <> n_y nk)
       /\ Forall2
            (fun e e' : FlowEdge =>
               e_bendX e' = None /\ e_bendY e' = None
               /\ e_id e' = e_id e /\ e_sourceId e' = e_sourceId e
               /\ e_targetId e' = e_targetId e /\ e_label e' = e_label e
               /\ e_labelColor e' = e_labelColor e
               /\ e_labelFontSize e' = e_labelFontSize e
               /\ e_labelBold e' = e_labelBold e
               /\ e_lineStyle e' = e_lineStyle e
               /\ e_lineColor e' = e_lineColor e
               /\ e_lineWidth e' = e_lineWidth e)
            (edges s) (edges s')
       /\ selectedNodeIds s' = selectedNodeIds s
       /\ selectedEdgeId s' = selectedEdgeId s
       /\ (historySynced s ->
           exists u : Editor,
             undo s' = Some u /\ nodes u = nodes s /\ edges u = edges s))
  /\ (List.NoDup (map n_id (nodes s)) ->
      edgesResolve (nodes s) (edges s) ->
      acyclic (edges s) ->
      (length (nodes s) <= fuel)%nat ->
      exists s' : Editor, autoLayout direction fuel s = Some s').
Proof.
  split; [| apply autoLayout_returns].
  intros s' Hrun Hne.
  destruct (autoLayout_placed direction fuel s s' Hrun Hne)
    as (depth & Hnn & Hroot & Hup & Hdown & Hlen & Hat & Hdist & Hedges & Hsel
        & Hse & Hundo).
  exists (getOr0 depth).
  split; [intros id; apply getOr0_nonneg; exact Hnn |].
  split; [exact Hroot |]. split; [exact Hup |]. split; [exact Hdown |].
  split; [exact Hlen |].
  split.
  { intros k n Hk. eexists. split; [exact (Hat k n Hk) |].
    destruct direction; cbn [placeAt setPosition n_id n_type n_text n_width
                             n_height n_x n_y];
      repeat (split; [reflexivity |]); split; intros Hd;
      first [discriminate Hd | split; ring]. }
  split; [exact Hdist |].
  split.
  { rewrite Hedges. clear. induction (edges s) as [| e es IH]; cbn [map];
      constructor; [| exact IH].
    cbn [setBend e_bendX e_bendY e_id e_sourceId e_targetId e_label
         e_labelColor e_labelFontSize e_labelBold e_lineStyle e_lineColor
         e_lineWidth].
    repeat split. }
  split; [exact Hsel |]. split; [exact Hse | exact Hundo].
Qed.

(** The chain example, stored out of order as c, a, b, laid out
    vertically: a is at depth 0, b one layer below it and c one below b. *)
Lemma autoLayout_grid_witness :
  exists (s' : Editor) (depth : string -> Z),
    autoLayout vertical 3 chainExample = Some s'
    /\ depth "a" = 0%Z /\ depth "b" = 1%Z /\ depth "c" = 2%Z
    /\ length (nodes s') = length (nodes chainExample)
    /\ (forall (k : nat) (n : FlowNode),
          nodes chainExample !! k = Some n ->
          exists n' : FlowNode,
            nodes s' !! k = Some n'
            /\ n_id n' = n_id n
            /\ n_x n' = (180 + 140 * INR (layerRank (fun m => depth (n_id m))
                                             (nodes chainExample) k n))%R
            /\ n_y n' = (120 + 170 * IZR (depth (n_id n)))%R).
Proof.
  assert (Hd : List.NoDup (map n_id (nodes chainExample))).
  { cbn. repeat constructor; cbn; intros H;
      repeat (destruct H as [H | H]; [discriminate H |]); exact H. }
  assert (Hr : edgesResolve (nodes chainExample) (edges chainExample)).
  { intros e [<- | [<- | []]]; cbn; auto. }
  assert (Ha : acyclic (edges chainExample)).
  { exists (fun id => if String.eqb id "a" then 0%nat
                      else if String.eqb id "b" then 1%nat else 2%nat).
    intros e [<- | [<- | []]]; cbn; lia. }
  destruct (autoLayout_grid vertical 3 chainExample) as [Hgrid Hret].
  destruct (Hret Hd Hr Ha ltac:(cbn; lia)) as [s' Hrun].
  destruct (Hgrid s' Hrun ltac:(discriminate))
    as (depth & _ & Hroot & Hup & Hdown & Hlen & Hat & _).
  specialize (Hdown Hd Hr Ha).
  destruct (Hroot (tnode "a" start "" 400 10)) as [Hda _].
  { right. left. reflexivity. }
  { intros e [<- | [<- | []]]; discriminate. }
  cbn [n_id tnode] in Hda.
  assert (Hab : (depth "a" + 1 <= depth "b")%Z).
  { apply (Hdown (mkEdge "e" "a" "b" None None None None None None None
                    (Some 200%R) (Some 60%R))). right. left. reflexivity. }
  assert (Hbc : (depth "b" + 1 <= depth "c")%Z).
  { apply (Hdown (tedge "f" "b" "c" None)). left. reflexivity. }
  assert (Hb : depth "b" = 1%Z).
  { destruct (Hup "b" ltac:(lia)) as (e & He & Ht & _ & Hle).
    destruct He as [<- | [<- | []]]; cbn in Ht, Hle; [discriminate |]. lia. }
  assert (Hc : depth "c" = 2%Z).
  { destruct (Hup "c" ltac:(lia)) as (e & He & Ht & _ & Hle).
    destruct He as [<- | [<- | []]]; cbn in Ht, Hle; [| discriminate]. lia. }
  exists s', depth. split; [exact Hrun |].
  split; [exact Hda |]. split; [exact Hb |]. split; [exact Hc |].
  split; [exact Hlen |].
  intros k n Hk. destruct (Hat k n Hk) as (n' & H1 & H2 & _ & _ & _ & _ & Hv & _).
  exists n'. split; [exact H1 |]. split; [exact H2 |]. exact (Hv eq_refl).
Defined.


(** * Within the range of the doubles *)

Section Range.
Local Open Scope R_scope.

Lemma overflowBound_big : 10 ^ 213 < overflowBound.
Proof.
  unfold overflowBound. rewrite !pow_IZR, <- minus_IZR. apply IZR_lt.
  vm_compute. reflexivity.
Qed.

Lemma overflowBound_googol : 1000000000000 * (10 ^ 100 * 10 ^ 100) < overflowBound.
Proof.
  apply Rle_lt_trans with (10 ^ 213); [| exact overflowBound_big].
  rewrite !pow_IZR, <- !mult_IZR. apply IZR_le. vm_compute. discriminate.
Qed.

Lemma googol_ge_1 : 1 <= 10 ^ 100.
Proof. rewrite pow_IZR. apply IZR_le. vm_compute. discriminate. Qed.

Lemma clip_Fin (r : R) : Rabs r < overflowBound -> clip (Fin r) = Fin r.
Proof. intros H. unfold clip. rewrite Rltb_true by exact H. reflexivity. Qed.

Lemma clip_overflow (r : R) :
  overflowBound <= r -> clip (Fin r) = PInf.
Proof.
  intros H. assert (H0 : 0 < overflowBound).
  { pose proof overflowBound_big. pose proof (pow_lt 10 213). lra. }
  unfold clip. rewrite Rltb_false by (rewrite Rabs_pos_eq; lra).
  unfold Rsign. destruct (Rlt_dec 0 r); [reflexivity | lra].
Qed.

Lemma bd_add (a b ka kb : R) :
  Rabs a <= ka -> Rabs b <= kb -> Rabs (a + b) <= ka + kb.
Proof. intros Ha Hb. pose proof (Rabs_triang a b). lra. Qed.

Lemma bd_sub (a b ka kb : R) :
  Rabs a <= ka -> Rabs b <= kb -> Rabs (a - b) <= ka + kb.
Proof.
  intros Ha Hb. unfold Rminus. pose proof (Rabs_triang a (- b)).
  rewrite Rabs_Ropp in H. lra.
Qed.

Lemma bd_mul (a b ka kb : R) :
  Rabs a <= ka -> Rabs b <= kb -> Rabs (a * b) <= ka * kb.
Proof.
  intros Ha Hb. rewrite Rabs_mult.
  apply Rmult_le_compat; try apply Rabs_pos; assumption.
Qed.

Lemma bd_div (a b ka d : R) :
  Rabs a <= ka -> 0 < d -> d <= Rabs b -> Rabs (a / b) <= ka / d.
Proof.
  intros Ha Hd Hb.
  assert (Hb0 : b <> 0).
  { intros ->. rewrite Rabs_R0 in Hb. lra. }
  unfold Rdiv. rewrite Rabs_mult, Rabs_inv.
  apply Rmult_le_compat; try apply Rabs_pos; [| exact Ha |].
  - left. apply Rinv_0_lt_compat. lra.
  - apply Rinv_le_contravar; assumption.
Qed.

Lemma bd_pos (c : R) : 0 <= c -> Rabs c <= c.
Proof. intros H. rewrite Rabs_pos_eq by exact H. lra. Qed.

Lemma bd_abs (a ka : R) : Rabs a <= ka -> Rabs (Rabs a) <= ka.
Proof. intros H. rewrite Rabs_Rabsolu. exact H. Qed.

Lemma bd_min (a b ka kb : R) :
  Rabs a <= ka -> Rabs b <= kb -> Rabs (Rmin a b) <= ka + kb.
Proof.
  intros Ha Hb. pose proof (Rabs_pos a). pose proof (Rabs_pos b).
  unfold Rmin. destruct (Rle_dec a b); lra.
Qed.

Lemma bd_hypot (a b ka kb : R) :
  Rabs a <= ka -> Rabs b <= kb -> Rabs (sqrt (a * a + b * b)) <= ka + kb.
Proof.
  intros Ha Hb. pose proof (Rabs_pos a) as Pa. pose proof (Rabs_pos b) as Pb.
  rewrite Rabs_pos_eq by apply sqrt_pos.
  apply Rle_trans with (sqrt ((Rabs a + Rabs b) * (Rabs a + Rabs b))).
  - apply sqrt_le_1_alt.
    assert (Ea : a * a = Rabs a * Rabs a).
    { unfold Rabs. destruct (Rcase_abs a); ring. }
    assert (Eb : b * b = Rabs b * Rabs b).
    { unfold Rabs. destruct (Rcase_abs b); ring. }
    rewrite Ea, Eb. nra.
  - rewrite sqrt_square by lra. lra.
Qed.

End Range.

(** Bounds the magnitude of an arithmetic expression from the bounds of
    its leaves found among the hypotheses. *)
Ltac bound_abs :=
  first
    [ eassumption
    | lazymatch goal with
      | |- (Rabs (?a + ?b) <= _)%R => eapply bd_add; bound_abs
      | |- (Rabs (?a - ?b) <= _)%R => eapply bd_sub; bound_abs
      | |- (Rabs (?a * ?b) <= _)%R => eapply bd_mul; bound_abs
      | |- (Rabs (sqrt (?a * ?a + ?b * ?b)) <= _)%R =>
          eapply bd_hypot; bound_abs
      | |- (Rabs (Rabs ?a) <= _)%R => eapply bd_abs; bound_abs
      | |- (Rabs (Rmin ?a ?b) <= _)%R => eapply bd_min; bound_abs
      | |- (Rabs (?a / ?b) <= _)%R =>
          first [ eapply bd_div; [bound_abs | | eassumption]; [lra]
                | eapply bd_div;
                  [bound_abs | | rewrite Rabs_pos_eq by lra; apply Rle_refl];
                  [lra] ]
      | |- (Rabs ?a <= _)%R => apply bd_pos; lra
      end ].

Ltac in_range :=
  eapply Rle_lt_trans; [bound_abs | nra].

Section RayAgreement.
Local Open Scope R_scope.

Variable P : R.
Hypothesis P_ge_1 : 1 <= P.
Hypothesis P_small : 1000000000 * (P * P) < overflowBound.

(** Within the range the checked intersection is the exact one. *)
Lemma raySegmentIntersection_agree (ox oy dx dy ax ay bx by_ : R) :
  Rabs ox <= P -> Rabs oy <= P -> Rabs dx <= 1 -> Rabs dy <= 1 ->
  Rabs ax <= P -> Rabs ay <= P -> Rabs bx <= P -> Rabs by_ <= P ->
  Ranged.raySegmentIntersection (Fin ox) (Fin oy) (Fin dx) (Fin dy)
    (Fin ax) (Fin ay) (Fin bx) (Fin by_)
  = raySegmentIntersection (Fin ox) (Fin oy) (Fin dx) (Fin dy)
      (Fin ax) (Fin ay) (Fin bx) (Fin by_).
Proof.
  intros Hox Hoy Hdx Hdy Hax Hay Hbx Hby.
  unfold Ranged.raySegmentIntersection, raySegmentIntersection,
    Ranged.sub, Ranged.mul, Ranged.div, Ranged.add.
  cbn [nsub nmul nadd].
  repeat (rewrite clip_Fin by in_range; cbn [nsub nmul nadd]).
  cbn [nabs nlt]. unfold Rltb.
  destruct (Rlt_dec (Rabs (dx * (by_ - ay) - dy * (bx - ax))) (1 / 10000000))
    as [Hc | Hc]; [reflexivity |].
  assert (Hc' : 1 / 10000000 <= Rabs (dx * (by_ - ay) - dy * (bx - ax))) by lra.
  assert (Hc0 : dx * (by_ - ay) - dy * (bx - ax) <> 0).
  { intros E. rewrite E, Rabs_R0 in Hc'. lra. }
  rewrite !ndiv_Fin by exact Hc0.
  repeat (rewrite clip_Fin by in_range; cbn [nsub nmul nadd]).
  reflexivity.
Qed.

End RayAgreement.

Section BoundaryAgreement.
Local Open Scope R_scope.

Variable B : R.
Hypothesis B_ge_1 : 1 <= B.
Hypothesis B_small : 1000000000000 * (B * B) < overflowBound.

Lemma clip_nonfinite (a : num) : is_finite a = false -> clip a = a.
Proof. destruct a; [discriminate | reflexivity ..]. Qed.

Lemma ioPoints_agree (x y hw hh : R) :
  Rabs x <= B -> Rabs y <= B -> Rabs hw <= B -> Rabs hh <= B ->
  Ranged.ioPoints (Fin x) (Fin y) (Fin hw) (Fin hh)
  = ioPoints (Fin x) (Fin y) (Fin hw) (Fin hh).
Proof.
  intros Hx Hy Hw Hh.
  unfold Ranged.ioPoints, ioPoints, Ranged.add, Ranged.sub, slant.
  cbn [nsub nadd].
  repeat (rewrite clip_Fin by in_range; cbn [nsub nadd]).
  reflexivity.
Qed.

Lemma ioBest_agree (x y dx dy hw hh : R) :
  Rabs x <= B -> Rabs y <= B -> Rabs hw <= B -> Rabs hh <= B ->
  Rabs dx <= 1 -> Rabs dy <= 1 ->
  Ranged.ioBest (Fin x) (Fin y) (Fin dx) (Fin dy)
    (ioPoints (Fin x) (Fin y) (Fin hw) (Fin hh))
  = ioBest (Fin x) (Fin y) (Fin dx) (Fin dy)
      (ioPoints (Fin x) (Fin y) (Fin hw) (Fin hh)).
Proof.
  intros Hx Hy Hw Hh Hdx Hdy.
  assert (P1 : 1 <= 22 * B) by lra.
  assert (P2 : 1000000000 * (22 * B * (22 * B)) < overflowBound) by nra.
  assert (Hray : forall ax ay bx by_ : R,
             Rabs ax <= 22 * B -> Rabs ay <= 22 * B ->
             Rabs bx <= 22 * B -> Rabs by_ <= 22 * B ->
             Ranged.raySegmentIntersection (Fin x) (Fin y) (Fin dx) (Fin dy)
               (Fin ax) (Fin ay) (Fin bx) (Fin by_)
             = raySegmentIntersection (Fin x) (Fin y) (Fin dx) (Fin dy)
                 (Fin ax) (Fin ay) (Fin bx) (Fin by_)).
  { intros ax ay bx by_ Hax Hay Hbx Hby.
    apply (raySegmentIntersection_agree (22 * B) P1 P2); try assumption; lra. }
  unfold Ranged.ioBest, ioBest, ioPoints, slant. cbn [nsub nadd length seq fold_left].
  unfold Ranged.ioStep, ioStep.
  cbn [pointAt nth length Nat.modulo Nat.divmod Nat.add fst snd px py Nat.sub].
  rewrite !Hray by (eapply Rle_trans; [bound_abs | lra]).
  reflexivity.
Qed.

Lemma rectBoundary_agree (x y dx dy hw hh : R) :
  Rabs x <= B -> Rabs y <= B -> Rabs hw <= B -> Rabs hh <= B ->
  Rabs dx <= 1 -> Rabs dy <= 1 ->
  Ranged.rectBoundary (Fin x) (Fin y) (Fin dx) (Fin dy) (Fin hw) (Fin hh)
  = rectBoundary (Fin x) (Fin y) (Fin dx) (Fin dy) (Fin hw) (Fin hh).
Proof.
  intros Hx Hy Hw Hh Hdx Hdy.
  unfold Ranged.rectBoundary, rectBoundary, Ranged.add, Ranged.mul, Ranged.div.
  cbn [nabs nlt]. unfold Rltb.
  destruct (Rlt_dec (Rabs dx) (1 / 10000000)) as [Gx | Gx];
    destruct (Rlt_dec (Rabs dy) (1 / 10000000)) as [Gy | Gy].
  - cbn [nmin nmul nsign]. 
    destruct (Rsign dx), (Rsign dy); reflexivity.
  - assert (Gy' : 1 / 10000000 <= Rabs (Rabs dy))
      by (rewrite Rabs_Rabsolu; lra).
    rewrite ndiv_Fin by (intros E; rewrite E, Rabs_R0 in Gy'; lra).
    rewrite clip_Fin by in_range. cbn [nmin nmul nadd].
    repeat (rewrite clip_Fin by in_range; cbn [nmul nadd]).
    reflexivity.
  - assert (Gx' : 1 / 10000000 <= Rabs (Rabs dx))
      by (rewrite Rabs_Rabsolu; lra).
    rewrite ndiv_Fin by (intros E; rewrite E, Rabs_R0 in Gx'; lra).
    rewrite clip_Fin by in_range. cbn [nmin nmul nadd].
    repeat (rewrite clip_Fin by in_range; cbn [nmul nadd]).
    reflexivity.
  - assert (Gx' : 1 / 10000000 <= Rabs (Rabs dx))
      by (rewrite Rabs_Rabsolu; lra).
    assert (Gy' : 1 / 10000000 <= Rabs (Rabs dy))
      by (rewrite Rabs_Rabsolu; lra).
    rewrite !ndiv_Fin
      by (intros E; first [rewrite E, Rabs_R0 in Gx' | rewrite E, Rabs_R0 in Gy']; lra).
    rewrite !clip_Fin by in_range. cbn [nmin nmul nadd].
    repeat (rewrite clip_Fin by in_range; cbn [nmul nadd]).
    reflexivity.
Qed.

(** A component of a normalised vector is at most 1 in magnitude. *)
Lemma normalised_le_1 (vx vy : R) :
  1 / 1000000 <= sqrt (vx * vx + vy * vy) ->
  Rabs (vx / sqrt (vx * vx + vy * vy)) <= 1
  /\ Rabs (vy / sqrt (vx * vx + vy * vy)) <= 1.
Proof.
  intros HL. pose proof (normalised_unit vx vy HL) as Hu.
  revert Hu. generalize (vx / sqrt (vx * vx + vy * vy)).
  generalize (vy / sqrt (vx * vx + vy * vy)). intros b a Hu.
  split; unfold Rabs; [destruct (Rcase_abs a) | destruct (Rcase_abs b)]; nra.
Qed.

(** Within the range the checked boundary point of an io or process node
    is the exact one. *)
Lemma nodeBoundaryPoint_agree (n : FlowNode) (tx ty : R) :
  n_type n = io \/ n_type n = process ->
  nodeWithin B n -> Rabs tx <= B -> Rabs ty <= B ->
  Ranged.nodeBoundaryPoint n (Fin tx) (Fin ty)
  = nodeBoundaryPoint n (Fin tx) (Fin ty).
Proof.
  intros Hk (Hx & Hy & Hw & Hh) Htx Hty.
  unfold Ranged.nodeBoundaryPoint, nodeBoundaryPoint, Ranged.sub, Ranged.hypot,
    Ranged.div.
  cbn [nsub nhypot].
  repeat (rewrite clip_Fin by in_range; cbn [nsub nhypot]).
  set (vx := tx - n_x n). set (vy := ty - n_y n).
  cbn [nlt]. unfold Rltb.
  destruct (Rlt_dec (sqrt (vx * vx + vy * vy)) (1 / 1000000)) as [HL | HL];
    [reflexivity |].
  assert (HL' : 1 / 1000000 <= sqrt (vx * vx + vy * vy)) by lra.
  destruct (normalised_le_1 vx vy HL') as [Hdx Hdy].
  rewrite !ndiv_Fin by lra.
  rewrite !clip_Fin by (eapply Rle_lt_trans; [eassumption | nra]).
  set (dx := vx / sqrt (vx * vx + vy * vy)) in *.
  set (dy := vy / sqrt (vx * vx + vy * vy)) in *.
  unfold Ranged.boundaryAlong, boundaryAlong, Ranged.div.
  rewrite !ndiv_Fin by lra.
  rewrite !clip_Fin by in_range.
  assert (Hhw : Rabs (n_width n / 2) <= B).
  { eapply Rle_trans; [bound_abs | lra]. }
  assert (Hhh : Rabs (n_height n / 2) <= B).
  { eapply Rle_trans; [bound_abs | lra]. }
  destruct Hk as [Hk | Hk]; rewrite Hk.
  - rewrite ioPoints_agree by assumption.
    rewrite ioBest_agree by assumption.
    rewrite rectBoundary_agree by assumption. reflexivity.
  - apply rectBoundary_agree; assumption.
Qed.

End BoundaryAgreement.

Section Overflow.
Local Open Scope R_scope.

Lemma overflowBound_pos : 1000000 < overflowBound.
Proof.
  apply Rlt_trans with (10 ^ 213); [| exact overflowBound_big].
  rewrite pow_IZR. apply IZR_lt. vm_compute. reflexivity.
Qed.

Lemma overflowBound_le : overflowBound <= 2 ^ 1024.
Proof. unfold overflowBound. pose proof (pow_lt 2 970). lra. Qed.

Lemma far_in_range : Rabs (3 * 2 ^ 1022) < overflowBound.
Proof.
  rewrite Rabs_pos_eq by (pose proof (pow_lt 2 1022); lra).
  unfold overflowBound. rewrite !pow_IZR, <- mult_IZR, <- minus_IZR.
  apply IZR_lt. vm_compute. reflexivity.
Qed.

Lemma far_hypot_overflows (v : R) :
  v = 3 * 2 ^ 1022 -> overflowBound <= sqrt (v * v + v * v).
Proof.
  intros Hv.
  assert (Hpos : 0 < v) by (rewrite Hv; pose proof (pow_lt 2 1022); lra).
  apply Rle_trans with (4 / 3 * v).
  - apply Rle_trans with (2 ^ 1024); [exact overflowBound_le |].
    rewrite Hv. change (2 ^ 1024) with (2 ^ (2 + 1022)%nat).
    rewrite pow_add. simpl (2 ^ 2). lra.
  - rewrite <- (sqrt_square (4 / 3 * v)) by lra.
    apply sqrt_le_1_alt. nra.
Qed.

End Overflow.

(** C10, as amended.  For an io node whose position and size, and a target
    whose coordinates, are at most [10^100] in magnitude, no intermediate
    result of [nodeBoundaryPoint] leaves the range of the doubles: the
    function returns a point with finite coordinates (never NaN, never an
    infinity), the one the exact computation gives, whatever the width and
    height.  [raySegmentIntersection] answers a nearly parallel ray (cross
    product below [1e-7] in absolute value) with no hit instead of
    dividing; and when none of the four segments is hit the io block
    returns what the rectangle block returns. *)
Theorem io_boundary_point_total (n : FlowNode) (tx ty : R) :
  n_type n = io ->
  nodeWithin (10 ^ 100) n ->
  (Rabs tx <= 10 ^ 100)%R -> (Rabs ty <= 10 ^ 100)%R ->
  (exists x y : R,
     Ranged.nodeBoundaryPoint n (Fin tx) (Fin ty) = mkPoint (Fin x) (Fin y)
     /\ nodeBoundaryPoint n (Fin tx) (Fin ty) = mkPoint (Fin x) (Fin y))
  /\ (forall ox oy dx dy ax ay bx by_ : R,
        (Rabs ox <= 10 ^ 100)%R -> (Rabs oy <= 10 ^ 100)%R ->
        (Rabs dx <= 1)%R -> (Rabs dy <= 1)%R ->
        (Rabs ax <= 10 ^ 100)%R -> (Rabs ay <= 10 ^ 100)%R ->
        (Rabs bx <= 10 ^ 100)%R -> (Rabs by_ <= 10 ^ 100)%R ->
        (Rabs (dx * (by_ - ay) - dy * (bx - ax)) < 1 / 10000000)%R ->
        Ranged.raySegmentIntersection (Fin ox) (Fin oy) (Fin dx) (Fin dy)
          (Fin ax) (Fin ay) (Fin bx) (Fin by_) = None)
  /\ (forall dx dy : num,
        Ranged.ioBest (Fin (n_x n)) (Fin (n_y n)) dx dy
          (Ranged.ioPoints (Fin (n_x n)) (Fin (n_y n))
             (Ranged.div (Fin (n_width n)) (Fin 2))
             (Ranged.div (Fin (n_height n)) (Fin 2))) = None ->
        Ranged.boundaryAlong n dx dy =
        Ranged.rectBoundary (Fin (n_x n)) (Fin (n_y n)) dx dy
          (Ranged.div (Fin (n_width n)) (Fin 2))
          (Ranged.div (Fin (n_height n)) (Fin 2))).
Proof.
  intros Hk Hn Htx Hty.
  pose proof googol_ge_1 as G1. pose proof overflowBound_googol as G2.
  split; [| split].
  - destruct (io_boundary_finite n tx ty Hk) as [x [y Hxy]].
    exists x, y. split; [| exact Hxy].
    rewrite (nodeBoundaryPoint_agree (10 ^ 100) G1 G2 n tx ty
               (or_introl Hk) Hn Htx Hty).
    exact Hxy.
  - intros ox oy dx dy ax ay bx by_ Hox Hoy Hdx Hdy Hax Hay Hbx Hby Hcross.
    rewrite (raySegmentIntersection_agree (10 ^ 100) G1
               ltac:(revert G1 G2; generalize (10 ^ 100)%R; intros; nra));
      try assumption.
    apply raySegmentIntersection_parallel. exact Hcross.
  - intros dx dy Hb. unfold Ranged.boundaryAlong. rewrite Hk. cbv zeta.
    rewrite Hb. reflexivity.
Qed.

(** A target well within the range, an io node at a distance. *)
Lemma io_boundary_point_total_witness :
  exists x y : R,
    Ranged.nodeBoundaryPoint (mkNode "n1" io "" 100 100 150 70)
      (Fin 400) (Fin 250)
    = mkPoint (Fin x) (Fin y)
    /\ nodeBoundaryPoint (mkNode "n1" io "" 100 100 150 70) (Fin 400) (Fin 250)
       = mkPoint (Fin x) (Fin y).
Proof.
  assert (H : forall r : R, (0 <= r <= 1000)%R -> (Rabs r <= 10 ^ 100)%R).
  { intros r Hr. rewrite Rabs_pos_eq by lra.
    apply Rle_trans with 1000%R; [lra |].
    rewrite pow_IZR. apply IZR_le. vm_compute. discriminate. }
  apply (io_boundary_point_total (mkNode "n1" io "" 100 100 150 70) 400 250
           eq_refl).
  - unfold nodeWithin. cbn [n_x n_y n_width n_height].
    repeat split; apply H; lra.
  - apply H. lra.
  - apply H. lra.
Defined.

(** C10 fails as stated for a distant target.  The coordinates
    [3 * 2^1022] are doubles, but the distance from the centre of the node
    to the target exceeds the largest double, so [Math.hypot] returns an
    infinity; the direction becomes [(0, 0)], every cross product is 0 and
    no segment is hit; in the rectangle block both sentinels are infinite
    and [0 * Infinity] is NaN. *)
Lemma io_boundary_overflow_counterexample :
  (Rabs (3 * 2 ^ 1022) < overflowBound)%R
  /\ Ranged.nodeBoundaryPoint (mkNode "n1" io "" 0 0 150 70)
       (Fin (3 * 2 ^ 1022)) (Fin (3 * 2 ^ 1022))
     = mkPoint NaN NaN.
Proof.
  split; [exact far_in_range |].
  pose proof overflowBound_pos as Hbig.
  unfold Ranged.nodeBoundaryPoint, Ranged.sub. cbn [n_x n_y nsub].
  assert (Ev : (3 * 2 ^ 1022 - 0 = 3 * 2 ^ 1022)%R) by ring.
  rewrite Ev. rewrite clip_Fin by exact far_in_range.
  unfold Ranged.hypot. cbn [nhypot].
  rewrite clip_overflow by (apply far_hypot_overflows; reflexivity).
  cbn [nlt]. unfold Ranged.div. cbn [ndiv].
  rewrite clip_Fin by (rewrite Rabs_R0; lra).
  unfold Ranged.boundaryAlong. cbn [n_type n_x n_y n_width n_height].
  unfold Ranged.div. rewrite !ndiv_Fin by lra.
  rewrite !clip_Fin by (rewrite Rabs_pos_eq; lra).
  unfold Ranged.ioBest, Ranged.ioPoints, Ranged.add, Ranged.sub, slant.
  cbn [nsub nadd].
  repeat (rewrite clip_Fin by (unfold Rabs; destruct (Rcase_abs _); lra);
          cbn [nsub nadd]).
  cbn [length seq fold_left].
  assert (Hray : forall ax ay bx by_ : R,
             (Rabs ax <= 1000)%R -> (Rabs ay <= 1000)%R ->
             (Rabs bx <= 1000)%R -> (Rabs by_ <= 1000)%R ->
             Ranged.raySegmentIntersection (Fin 0) (Fin 0) (Fin 0) (Fin 0)
               (Fin ax) (Fin ay) (Fin bx) (Fin by_) = None).
  { intros ax ay bx by_ Hax Hay Hbx Hby.
    unfold Ranged.raySegmentIntersection, Ranged.sub, Ranged.mul.
    cbn [nsub nmul].
    repeat (rewrite clip_Fin by in_range; cbn [nsub nmul]).
    cbn [nabs nlt].
    rewrite Rltb_true; [reflexivity |].
    replace (0 * (by_ - ay) - 0 * (bx - ax))%R with 0%R by ring.
    rewrite Rabs_R0. lra. }
  unfold Ranged.ioStep.
  cbn [pointAt nth length Nat.modulo Nat.divmod Nat.add fst snd px py Nat.sub].
  rewrite !Hray by (unfold Rabs; destruct (Rcase_abs _); lra).
  unfold Ranged.rectBoundary, Ranged.mul, Ranged.add. cbn [nabs nlt].
  rewrite Rltb_true by (rewrite Rabs_R0; lra).
  cbn [nmin nmul nsign]. unfold Rsign.
  destruct (Rlt_dec 0 0) as [H0 | _]; [lra |].
  cbn [sign_mul inf_of_sign clip nadd]. reflexivity.
Qed.

Section SegmentAgreement.
Local Open Scope R_scope.

Variable B : R.
Hypothesis B_ge_1 : 1 <= B.
Hypothesis B_small : 1000000000000 * (B * B) < overflowBound.

(** An overflow of the quotient does not change the clamped parameter. *)
Lemma clamp_clip (r : R) :
  nmax (Fin 0) (nmin (Fin 1) (clip (Fin r)))
  = Fin (Rmax 0 (Rmin 1 r)).
Proof.
  pose proof overflowBound_pos as Hbig.
  unfold clip, Rltb. destruct (Rlt_dec (Rabs r) overflowBound) as [Hr | Hr];
    [reflexivity |].
  unfold Rsign.
  destruct (Rlt_dec 0 r) as [Hp | Hp]; [| destruct (Rlt_dec r 0) as [Hn | Hn]].
  - cbn [inf_of_sign nmin nmax]. f_equal.
    rewrite Rabs_pos_eq in Hr by lra.
    rewrite Rmin_left by lra. rewrite Rmax_right by lra. reflexivity.
  - cbn [inf_of_sign nmin nmax]. f_equal.
    rewrite Rmin_right by lra. rewrite Rmax_left by lra. reflexivity.
  - exfalso. assert (r = 0) by lra. subst r. rewrite Rabs_R0 in Hr. lra.
Qed.

(** Within the range the checked distance is the exact one. *)
Lemma pointToSegmentDistance_agree (p q x1 y1 x2 y2 : R) :
  Rabs p <= B -> Rabs q <= B -> Rabs x1 <= B -> Rabs y1 <= B ->
  Rabs x2 <= B -> Rabs y2 <= B ->
  Ranged.pointToSegmentDistance (Fin p) (Fin q) (Fin x1) (Fin y1)
    (Fin x2) (Fin y2)
  = pointToSegmentDistance (Fin p) (Fin q) (Fin x1) (Fin y1) (Fin x2) (Fin y2).
Proof.
  intros Hp Hq Hx1 Hy1 Hx2 Hy2.
  unfold Ranged.pointToSegmentDistance, pointToSegmentDistance,
    Ranged.sub, Ranged.mul, Ranged.add, Ranged.div, Ranged.hypot.
  cbn [nsub nmul nadd].
  repeat (rewrite clip_Fin by in_range; cbn [nsub nmul nadd]).
  cbn [neqb]. unfold Reqb.
  destruct (Req_dec_T ((x2 - x1) * (x2 - x1) + (y2 - y1) * (y2 - y1)) 0)
    as [Hz | Hz].
  - cbn [nmul nadd nsub nhypot].
    repeat (rewrite clip_Fin by in_range; cbn [nsub nmul nadd nhypot]).
    reflexivity.
  - rewrite ndiv_Fin by exact Hz. rewrite clamp_clip. cbn [nmin nmax].
    pose proof (clamp_bounds
                  (((p - x1) * (x2 - x1) + (q - y1) * (y2 - y1))
                   / ((x2 - x1) * (x2 - x1) + (y2 - y1) * (y2 - y1)))) as Ht.
    revert Ht. generalize (Rmax 0 (Rmin 1
                  (((p - x1) * (x2 - x1) + (q - y1) * (y2 - y1))
                   / ((x2 - x1) * (x2 - x1) + (y2 - y1) * (y2 - y1))))).
    intros t Ht.
    assert (Ht' : Rabs t <= 1) by (rewrite Rabs_pos_eq; lra).
    cbn [nmul nadd nsub nhypot].
    repeat (rewrite clip_Fin by in_range; cbn [nsub nmul nadd nhypot]).
    reflexivity.
Qed.

End SegmentAgreement.

Section SegmentOverflow.
Local Open Scope R_scope.

Lemma square_overflows (v : R) : 2 ^ 600 <= v -> overflowBound <= v * v.
Proof.
  intros Hv. pose proof (pow_lt 2 600) as Hpos.
  apply Rle_trans with (2 ^ 600 * 2 ^ 600); [| nra].
  rewrite <- pow_add.
  apply Rle_trans with (2 ^ 1024); [exact overflowBound_le |].
  apply Rle_pow; [lra | lia].
Qed.

Lemma pow_600_in_range : 2 * 2 ^ 600 < overflowBound.
Proof.
  unfold overflowBound. rewrite !pow_IZR, <- mult_IZR, <- minus_IZR.
  apply IZR_lt. vm_compute. reflexivity.
Qed.

End SegmentOverflow.

(** [pointToSegmentDistance] is the distance from the point to the
    segment as long as the coordinates are at most [10^100] in magnitude:
    it returns a finite, non-negative number, the one the exact computation
    gives, which is the distance to some point of the segment and is no
    larger than the distance to any point of the segment; a segment reduced
    to one point included.  Beyond the range the products overflow: for the
    point (0, 0) and the segment from (2^600, 0) to (-2^600, 0), all
    doubles, the result is NaN. *)
Theorem pointToSegmentDistance_nearest :
  (forall p q x1 y1 x2 y2 : R,
     (Rabs p <= 10 ^ 100)%R -> (Rabs q <= 10 ^ 100)%R ->
     (Rabs x1 <= 10 ^ 100)%R -> (Rabs y1 <= 10 ^ 100)%R ->
     (Rabs x2 <= 10 ^ 100)%R -> (Rabs y2 <= 10 ^ 100)%R ->
     exists d t : R,
       Ranged.pointToSegmentDistance (Fin p) (Fin q) (Fin x1) (Fin y1)
         (Fin x2) (Fin y2) = Fin d
       /\ (0 <= d)%R
       /\ (0 <= t <= 1)%R
       /\ d = distance (p, q) (x1 + t * (x2 - x1), y1 + t * (y2 - y1))%R
       /\ (forall s : R,
             (0 <= s <= 1)%R ->
             (d <= distance (p, q) (x1 + s * (x2 - x1), y1 + s * (y2 - y1)))%R))
  /\ (Rabs (2 ^ 600) < overflowBound)%R
  /\ Ranged.pointToSegmentDistance (Fin 0) (Fin 0) (Fin (2 ^ 600)) (Fin 0)
       (Fin (- 2 ^ 600)) (Fin 0) = NaN.
Proof.
  split; [| split].
  - intros p q x1 y1 x2 y2 Hp Hq Hx1 Hy1 Hx2 Hy2.
    rewrite (pointToSegmentDistance_agree (10 ^ 100) googol_ge_1
               overflowBound_googol) by assumption.
    apply segment_distance_exact.
  - assert (H600 : (0 < 2 ^ 600)%R) by (apply pow_lt; lra).
    pose proof pow_600_in_range. rewrite Rabs_pos_eq; lra.
  - assert (H600 : (0 < 2 ^ 600)%R) by (apply pow_lt; lra).
    pose proof pow_600_in_range as Hin.
    pose proof overflowBound_pos as Hbig.
    unfold Ranged.pointToSegmentDistance, Ranged.sub. cbn [nsub].
    rewrite !clip_Fin
      by (unfold Rabs; destruct (Rcase_abs _); lra).
    unfold Ranged.mul. cbn [nmul].
    rewrite (clip_overflow ((0 - 2 ^ 600) * (- 2 ^ 600 - 2 ^ 600))%R)
      by (apply Rle_trans with (2 ^ 600 * 2 ^ 600)%R;
          [apply square_overflows; lra | nra]).
    rewrite (clip_overflow ((- 2 ^ 600 - 2 ^ 600) * (- 2 ^ 600 - 2 ^ 600))%R)
      by (apply Rle_trans with (2 ^ 600 * 2 ^ 600)%R;
          [apply square_overflows; lra | nra]).
    rewrite !clip_Fin
      by (unfold Rabs; destruct (Rcase_abs _); lra).
    unfold Ranged.add, Ranged.div, Ranged.hypot.
    cbn [nadd clip neqb ndiv nmin nmax nmul nsub nhypot]. reflexivity.
Qed.

Section BoundsAgreement.
Local Open Scope R_scope.

Variable B : R.
Hypothesis B_ge_1 : 1 <= B.
Hypothesis B_small : 1000000000000 * (B * B) < overflowBound.

Lemma boundsStep_agree (b : Bounds) (n : FlowNode) :
  nodeWithin B n -> Ranged.boundsStep b n = boundsStep b n.
Proof.
  intros (Hx & Hy & Hw & Hh).
  unfold Ranged.boundsStep, boundsStep, Ranged.sub, Ranged.add, Ranged.div.
  rewrite !ndiv_Fin by lra.
  rewrite !clip_Fin by in_range. cbn [nsub nadd].
  rewrite !clip_Fin by in_range. reflexivity.
Qed.

Lemma boundsFold_agree (ns : list FlowNode) (b : Bounds) :
  Forall (nodeWithin B) ns ->
  fold_left Ranged.boundsStep ns b = fold_left boundsStep ns b.
Proof.
  revert b. induction ns as [| n ns IH]; intros b Hall; [reflexivity |].
  inversion Hall as [| ? ? Hn Hrest]; subst.
  cbn [fold_left]. rewrite (boundsStep_agree b n Hn). apply IH. exact Hrest.
Qed.

Lemma box_within (n : FlowNode) :
  nodeWithin B n ->
  Rabs (boxLeft n) <= 2 * B /\ Rabs (boxTop n) <= 2 * B
  /\ Rabs (boxRight n) <= 2 * B /\ Rabs (boxBottom n) <= 2 * B.
Proof.
  intros (Hx & Hy & Hw & Hh).
  unfold boxLeft, boxTop, boxRight, boxBottom.
  repeat split; (eapply Rle_trans; [bound_abs | lra]).
Qed.

(** Within the range the checked bounds are the exact ones. *)
Lemma getDiagramBounds_agree (ns : list FlowNode) :
  Forall (nodeWithin B) ns ->
  Ranged.getDiagramBounds ns = getDiagramBounds ns.
Proof.
  intros Hall.
  destruct (getDiagramBounds_finite ns)
    as (x1 & y1 & x2 & y2 & Hb & _ & _ & Ht).
  destruct ns as [| m l]; [reflexivity |].
  destruct (Ht ltac:(discriminate))
    as ((na & Hna & Ea) & (nb & Hnb & Eb) & (nc & Hnc & Ec) & (nd & Hnd & Ed)).
  pose proof (proj1 (List.Forall_forall _ _) Hall) as Hin.
  destruct (box_within na (Hin na Hna)) as (Ba & _).
  destruct (box_within nb (Hin nb Hnb)) as (_ & Bb & _).
  destruct (box_within nc (Hin nc Hnc)) as (_ & _ & Bc & _).
  destruct (box_within nd (Hin nd Hnd)) as (_ & _ & _ & Bd).
  rewrite <- Ea in Ba. rewrite <- Eb in Bb. rewrite <- Ec in Bc.
  rewrite <- Ed in Bd.
  unfold Ranged.getDiagramBounds. unfold getDiagramBounds in Hb |- *.
  rewrite (boundsFold_agree (m :: l) _ Hall).
  injection Hb as H1 H2 H3 H4.
  cbn [fold_left] in H1, H2, H3, H4 |- *.
  unfold Ranged.sub, Ranged.add. rewrite H1, H2, H3, H4.
  assert (R1 : Rabs x1 < overflowBound).
  { replace x1 with (x1 + 80 - 80) by ring. in_range. }
  assert (R2 : Rabs y1 < overflowBound).
  { replace y1 with (y1 + 80 - 80) by ring. in_range. }
  assert (R3 : Rabs x2 < overflowBound).
  { replace x2 with (x2 - 80 + 80) by ring. in_range. }
  assert (R4 : Rabs y2 < overflowBound).
  { replace y2 with (y2 - 80 + 80) by ring. in_range. }
  rewrite !clip_Fin by assumption. reflexivity.
Qed.

End BoundsAgreement.

Section BoundsOverflow.
Local Open Scope R_scope.

Lemma wide_in_range : 17 * 10 ^ 307 < overflowBound.
Proof.
  unfold overflowBound. rewrite !pow_IZR, <- mult_IZR, <- minus_IZR.
  apply IZR_lt. vm_compute. reflexivity.
Qed.

Lemma wide_edge_overflows : overflowBound <= 17 * 10 ^ 307 + 4 * 10 ^ 307 / 2.
Proof.
  apply Rle_trans with (2 ^ 1024); [exact overflowBound_le |].
  replace (17 * 10 ^ 307 + 4 * 10 ^ 307 / 2) with (19 * 10 ^ 307) by field.
  rewrite !pow_IZR, <- mult_IZR. apply IZR_le. vm_compute. discriminate.
Qed.

End BoundsOverflow.

(** The bounds of a diagram whose nodes have positions and sizes of at most
    [10^100] in magnitude are finite numbers, the ones the exact computation
    gives.  For the empty diagram they are the fixed frame from (-400, -300)
    to (400, 300).  Otherwise they enclose the bounding box of every node
    with a margin of 80 on each side, and tightly: on each side some node's
    box is exactly 80 inside.  With no node of negative width or height the
    bounds are at least 160 wide and 160 high.  Beyond the range a box edge
    overflows: a single node at x = 1.7e308 of width 4e307, both doubles,
    gives an infinite right bound. *)
Theorem getDiagramBounds_encloses :
  (forall ns : list FlowNode,
     Forall (nodeWithin (10 ^ 100)) ns ->
     exists x1 y1 x2 y2 : R,
       Ranged.getDiagramBounds ns = mkBounds (Fin x1) (Fin y1) (Fin x2) (Fin y2)
       /\ (ns = [] -> x1 = (-400)%R /\ y1 = (-300)%R /\ x2 = 400%R /\ y2 = 300%R)
       /\ (forall n, In n ns ->
             (x1 + 80 <= boxLeft n)%R /\ (y1 + 80 <= boxTop n)%R
             /\ (boxRight n <= x2 - 80)%R /\ (boxBottom n <= y2 - 80)%R)
       /\ (ns <> [] ->
           (exists n, In n ns /\ (x1 + 80)%R = boxLeft n)
           /\ (exists n, In n ns /\ (y1 + 80)%R = boxTop n)
           /\ (exists n, In n ns /\ (x2 - 80)%R = boxRight n)
           /\ (exists n, In n ns /\ (y2 - 80)%R = boxBottom n))
       /\ ((forall n, In n ns -> (0 <= n_width n)%R /\ (0 <= n_height n)%R) ->
           (x1 + 160 <= x2)%R /\ (y1 + 160 <= y2)%R))
  /\ (Rabs (17 * 10 ^ 307) < overflowBound)%R
  /\ (Rabs (4 * 10 ^ 307) < overflowBound)%R
  /\ b_maxX (Ranged.getDiagramBounds
               [mkNode "n" process "" (17 * 10 ^ 307) 0 (4 * 10 ^ 307) 64])
     = PInf.
Proof.
  assert (Hpos : (0 < 10 ^ 307)%R) by (apply pow_lt; lra).
  pose proof wide_in_range as Hwide.
  split; [| split; [| split]].
  - intros ns Hall.
    rewrite (getDiagramBounds_agree (10 ^ 100) googol_ge_1 overflowBound_googol
               ns Hall).
    apply diagram_bounds_exact.
  - rewrite Rabs_pos_eq; lra.
  - rewrite Rabs_pos_eq; lra.
  - unfold Ranged.getDiagramBounds. cbn [fold_left].
    unfold Ranged.boundsStep. cbn [b_maxX n_x n_width].
    unfold Ranged.div. rewrite ndiv_Fin by lra.
    rewrite clip_Fin by (rewrite Rabs_pos_eq; lra).
    unfold Ranged.add at 2. cbn [nadd].
    rewrite clip_overflow by exact wide_edge_overflows.
    reflexivity.
Qed.
